(* ===== verification/_CoqProject ===== *)
-Q . S2P
Prelude.v
GoHeap.v
ByteBudget.v
BudgetIndex.v
BudgetInv.v
BudgetOps.v
BudgetSchedule.v
BudgetMethods.v
BudgetReserve.v
BudgetSpec.v
Event.v
Protocol.v
SharedBudget.v
AckBuffer.v
AckInv.v
AckRemove.v
AckReceipts.v
AckRing.v
AckRetire.v
AckDeliver.v
AckAdmit.v
AckMethods.v
AckFleet.v
AckWindow.v
AckFlags.v
AckExample.v
AckEscape.v
AckSpec.v
AckProps.v
AckCall.v
AckCallInv.v
AckCallSteps.v
AckCallExample.v
AckCallProps.v
AckFindings.v
AckDrain.v
ClientOptions.v
ClientReceipts.v
ProxyTunnel.v
Client.v
ClientInv.v
ClientSteps.v
ClientLaw.v
ClientObserve.v
ClientJoin.v
ClientExample.v
ClientProps.v
ClientFindings.v
ClientMethods.v
