(* ===== verification/Prelude.v ===== *)
(** * go-uspclient: a verification library

    The program is a Go client of the USP protocol.  A [Client] (client.go) keeps
    one websocket connection to a sink.  Messages are shipped into a
    retransmission buffer (ack_buffer.go), sent by a sender goroutine, and removed
    when the listener goroutine receives a cumulative acknowledgement; after a
    reconnect everything not acknowledged is sent again.  Admission may be limited
    by bytes, per buffer and by a budget that several clients share, fairly by
    group (byte_budget.go).  A caller may ask for a receipt of its message and
    limit its transmissions (receipt.go).  Goroutines wait on events (event.go);
    protocol/ has the messages and descriptors.

    ** Conventions

    A [uint64] is a [Z] with the wrap-around written out ([add64], [sub64]).
    Objects several parts point to (messages, receipt cells, groups, waiters,
    channels, decoded JSON) live in stores and are referred to by address.
    [None], or [Panic], is a run-time panic: an index out of range, a nil pointer,
    a second close of a channel, an allocation that cannot be served.  A method
    body under its lock is one transformer; the program points between are
    explicit where goroutines interleave.  [r <| f := v |>] is the assignment
    [r.f = v].

    ** Files

    - Prelude.v: record update, 64-bit arithmetic, bounded loops, sums over maps.
    - GoHeap.v: the functions of container/heap that are called, over the class
      of [heap.Interface], with their laws and correctness.
    - byte_budget.go.  ByteBudget.v: data and every function.  BudgetIndex.v: the
      scheduling indexes.  BudgetInv.v: the accounting invariant against a ledger
      of what the clients hold; in a strict ledger every escape byte belongs to a
      byte held, in a lenient one escape counters are exact modulo 2^64 only.
      BudgetOps.v, BudgetSchedule.v, BudgetMethods.v,
      BudgetReserve.v: every operation keeps it.  BudgetSpec.v: the budget as a
      machine and its properties.
    - event.go.  Event.v: the event and the interleaving of its callers.
    - protocol/ and the size estimate of byte_budget.go.  Protocol.v.
    - SharedBudget.v: the interface between buffers and budget, a class of
      operations and a class of laws in terms of accounts; nil, ungrouped and fair
      budgets are instances, in a strict and a lenient version.  Buffers with
      transmission limits can lose the record of an escape, so general fleets are
      proved against the lenient laws, fleets without such limits against the
      strict ones too.
    - ack_buffer.go and the buffer part of receipt.go.  AckBuffer.v: data and
      every method.  AckInv.v: the invariant.  AckRemove.v, AckReceipts.v,
      AckRetire.v, AckDeliver.v, AckAdmit.v, AckMethods.v: every operation keeps
      it, never panics, and what it does.  AckRing.v: the memory of released
      retired numbers as a list.  AckFleet.v: clients that share a
      budget.  AckWindow.v: the abstract sliding window the buffer implements.
      AckFlags.v: what the operations do to pending ACK requests and wake
      channels.  AckExample.v: a concrete fleet.  AckEscape.v: buffers without
      transmission limits, which keep what the comments say of escape messages.
      AckSpec.v, AckProps.v: properties.  AckFindings.v: where comments and code
      differ.
    - The calls that block.  AckCall.v: [addWithReceipt] as a process, with its
      deadline, timer, select and deferred cancel, in every interleaving with the
      clients of a budget; AckCallInv.v, AckCallSteps.v: its invariant;
      AckCallExample.v, AckCallProps.v: a run and properties.  AckDrain.v: [drain]
      in the same way.
    - client.go and the client part of receipt.go.  ClientOptions.v: options,
      validation, connection header.  ClientReceipts.v: owner and state cells,
      [ObserveReceipt].  ProxyTunnel.v: the dialer through a proxy and its
      CONNECT tunnel.  Client.v: the client and its goroutines
      ([connectBeforeWorkers] with the function it gives to [context.AfterFunc],
      [disconnect], [Reconnect], [Close], listener, sender, keepalive,
      [ObserveReceipt]) as a step function over all interleavings.  ClientInv.v, ClientSteps.v: the invariant of the
      goroutines.  ClientLaw.v: their calls on the buffer.  ClientObserve.v: what
      observations know.  ClientJoin.v: the end of a join.  ClientExample.v: a
      concrete client.  ClientProps.v: properties.  ClientFindings.v: two races.
      ClientMethods.v: [NewClient] before it connects and the methods that pass
      to the buffer.

    ** What the theorems show

    - Budget (BudgetSpec.v): counters are exactly what is held and credited, the
      total is exceeded by escapes only; legal calls do not panic; the scheduler
      terminates, wastes no room and is first come first served within a group.
    - Buffer (AckSpec.v, AckProps.v): every operation refines the sliding window;
      bytes are conserved between the buffers and the budget and all come back,
      whatever the callers do within [op_guard] (each message admitted once, each
      receipt cell once, sizes that do not add up to 2^64);
      acknowledgements confirm exactly what they cover; receipts are final;
      transmission limits are kept; after a reset exactly the unacknowledged
      messages are sent again, in order.  Without transmission limits at most
      one escape message of a buffer is pending and all escape bytes come back
      (AckEscape.v, [fleet_conservation]); with them they need not
      ([escape_leak]).
    - Blocking calls (AckCallProps.v, AckDrain.v): a blocked admission sleeps only
      while another attempt would be refused, and not on bytes unless an ACK
      request is on its way; it returns once its deadline passed or its buffer
      stopped, with the error documented, and leaves no request in the budget.  A
      drain returns exactly when it should and what it confirmed stays so.
    - Events (Event.v): [Set] neither panics nor blocks; no waiter is missed.
    - Client (ClientProps.v): one connection and one reconnecting goroutine at a
      time, [c.conn] never nil under a worker; no request to reconnect is lost;
      after [Close] nothing returns and nothing remains but closers on their way;
      the first answer decides a connection attempt; a join ends; no goroutine
      panics as long as the peers keep to [allowed]; an observation of a receipt
      stays true, also of a message acknowledged before its receipt was returned
      (ClientMethods.v).
    - Findings (AckFindings.v, ClientFindings.v, [proxy_tunnel],
      [handshake], [capacity_bounds]) are proved on concrete runs or as
      part of a general statement.

    ** Bounds and fuel

    Loops that are not structural run on [for_loop], at most 2^64 iterations
    by binary recursion; the rule [for_loop_rule] asks for a measure below it, so
    a result is proved, never assumed.  List walks take the length of the list as
    fuel.  [max_slots] is the number of pointers an allocation can hold.  Runs of
    goroutines are lists of actions of any length; [work_left] bounds the steps
    of workers that must stop.

    ** Not modelled

    Time: the deadline of an admission is a number on a clock that any step may
    advance; every other timer, context or back-off may fire whenever its goroutine
    waits, so no other statement depends on durations.  The methods of a client
    (ClientMethods.v) make one turn of a blocking call; AckCall.v and AckDrain.v
    have the calls.  Websocket, msgpack, gzip, certificate pools, JSON, regular
    expressions, grok, URLs and the LimaCharlie SDK are library calls: parameters,
    or choices of a step.  [lastError], the log and the callbacks decide
    nothing. *)

From stdpp Require Export base tactics numbers functions list gmap strings sorting.

(** The development works on [Z]; [nat] appears only as list positions and fuel. *)
#[global] Open Scope Z_scope.

(** ** Record update

    [r <| f := v |>] is the Go assignment [r.f = v], [r <| f ::= g |>] is
    [r.f = g(r.f)].  Each record declares [Eta] once and one [Setter] per field. *)

Class Eta (R : Type) := eta_expand : R -> R.

Class Setter {R T : Type} (proj : R -> T) := with_field : (T -> T) -> R -> R.

Arguments with_field {R T} proj {_} f r.

Ltac make_setter :=
  match goal with
  | |- @Setter ?R ?T ?p =>
      let g := fresh "g" in
      let r := fresh "r" in
      intros g r;
      let e := constr:(_ : Eta R) in
      let e := eval hnf in e in
      let body := eval cbv beta in (e r) in
      let pat := eval pattern (p r) in body in
      match pat with
      | ?F (p r) => let res := eval cbv beta in (F (g (p r))) in exact res
      end
  end.

Declare Scope record_scope.
Notation "r <| f := v |>" := (with_field f (fun _ => v) r)
  (at level 1, f at level 0, v at level 200, left associativity) : record_scope.
Notation "r <| f ::= g |>" := (with_field f g r)
  (at level 1, f at level 0, g at level 200, left associativity) : record_scope.
#[global] Open Scope record_scope.

(** Equality of two records, field by field. *)
Ltac record_eq :=
  match goal with
  | |- ?a = ?b =>
      let a' := eval hnf in a in
      let b' := eval hnf in b in
      change (a' = b'); f_equal; try reflexivity
  end.

(** ** 64-bit unsigned integers

    A [uint64] is a [Z]; every arithmetic operation of the source is written
    with its wrap-around.  [W64] is 2^64. *)

Abbreviation W64 := 18446744073709551616.

Definition maxUint64 : Z := 18446744073709551615.

Definition is_u64 (z : Z) : Prop := 0 <= z < W64.

Definition add64 (a b : Z) : Z := (a + b) mod W64.

Definition sub64 (a b : Z) : Z := (a - b) mod W64.

Definition mul64 (a b : Z) : Z := (a * b) mod W64.

Declare Scope u64_scope.
Delimit Scope u64_scope with u64.
Infix "+" := add64 : u64_scope.
Infix "-" := sub64 : u64_scope.
Infix "*" := mul64 : u64_scope.

(** [u64_lia] decides linear goals about the wrapping operations. *)
Ltac u64_lia :=
  unfold is_u64, add64, sub64, mul64, maxUint64 in *;
  Z.div_mod_to_equations; lia.

Lemma add64_small a b : 0 <= a -> 0 <= b -> a + b < W64 -> add64 a b = a + b.
Proof. intros. u64_lia. Qed.

Lemma sub64_small a b : 0 <= b -> b <= a -> a < W64 -> sub64 a b = a - b.
Proof. intros. u64_lia. Qed.

Lemma add64_range a b : is_u64 (add64 a b).
Proof. u64_lia. Qed.

Lemma sub64_range a b : is_u64 (sub64 a b).
Proof. u64_lia. Qed.

Lemma sub64_add64 a b : is_u64 b -> sub64 (add64 a b) a = b.
Proof. u64_lia. Qed.

Lemma add64_sub64 a b : is_u64 a -> add64 b (sub64 a b) = a.
Proof. u64_lia. Qed.

Lemma add64_assoc a b c : add64 (add64 a b) c = add64 a (b + c).
Proof. u64_lia. Qed.

Lemma add64_inj a b c : is_u64 b -> is_u64 c -> add64 a b = add64 a c -> b = c.
Proof. u64_lia. Qed.

(** ** Sums *)

Definition sumZ (l : list Z) : Z := foldr Z.add 0 l.

Lemma sumZ_app l1 l2 : sumZ (l1 ++ l2) = sumZ l1 + sumZ l2.
Proof. induction l1; simpl; lia. Qed.

Lemma sumZ_nonneg l : Forall (Z.le 0) l -> 0 <= sumZ l.
Proof. induction 1; simpl; lia. Qed.

Lemma sumZ_take_drop n l : sumZ l = sumZ (take n l) + sumZ (drop n l).
Proof. rewrite <-sumZ_app. by rewrite take_drop. Qed.

Lemma sumZ_insert (l : list Z) i x y :
  l !! i = Some x -> sumZ (<[i:=y]> l) = sumZ l - x + y.
Proof.
  revert i. induction l as [|a l IH]; intros [|i] Hi; simplify_eq/=; [lia|].
  rewrite (IH _ Hi). lia.
Qed.

(** [msum f m] sums [f k x] over the entries of the map [m]. *)
Section msum.
Context `{Countable K} {A : Type}.
Implicit Types (f g : K -> A -> Z) (m : gmap K A).

Definition msum f m : Z := map_fold (fun k x acc => f k x + acc) 0 m.

Lemma msum_empty f : msum f ∅ = 0.
Proof. unfold msum. by rewrite map_fold_empty. Qed.

Lemma msum_insert_new f m k x :
  m !! k = None -> msum f (<[k:=x]> m) = f k x + msum f m.
Proof.
  intros Hk. unfold msum. rewrite map_fold_insert_L; [done| |done].
  intros. lia.
Qed.

Lemma msum_delete f m k x :
  m !! k = Some x -> msum f (delete k m) = msum f m - f k x.
Proof.
  intros Hk. rewrite <-(insert_delete_id m k x Hk) at 2.
  rewrite msum_insert_new by apply lookup_delete_eq. lia.
Qed.

Lemma msum_insert f m k x y :
  m !! k = Some x -> msum f (<[k:=y]> m) = msum f m - f k x + f k y.
Proof.
  intros Hk. rewrite <-insert_delete_eq, msum_insert_new, (msum_delete _ _ _ x);
    [lia|done|apply lookup_delete_eq].
Qed.

Lemma msum_ext f g m :
  (forall k x, m !! k = Some x -> f k x = g k x) -> msum f m = msum g m.
Proof.
  induction m as [|k x m Hk IH] using map_ind.
  - by rewrite !msum_empty.
  - intros Hfg. rewrite !msum_insert_new by done.
    rewrite (Hfg k x) by apply lookup_insert_eq. f_equal. apply IH.
    intros k' x' Hk'. apply Hfg. rewrite lookup_insert_ne; [done|congruence].
Qed.

Lemma msum_nonneg f m :
  (forall k x, m !! k = Some x -> 0 <= f k x) -> 0 <= msum f m.
Proof.
  induction m as [|k x m Hk IH] using map_ind; intros Hf.
  - by rewrite msum_empty.
  - rewrite msum_insert_new by done.
    assert (0 <= f k x) by (apply Hf, lookup_insert_eq).
    assert (0 <= msum f m); [|lia]. apply IH.
    intros k' x' Hk'. apply Hf. rewrite lookup_insert_ne; [done|congruence].
Qed.

Lemma msum_ge f m k x :
  (forall k x, m !! k = Some x -> 0 <= f k x) -> m !! k = Some x -> f k x <= msum f m.
Proof.
  intros Hf Hk. rewrite <-(insert_delete_id m k x Hk), msum_insert_new by apply lookup_delete_eq.
  assert (0 <= msum f (delete k m)); [|lia]. apply msum_nonneg.
  intros k' x' [_ Hk']%lookup_delete_Some. eauto.
Qed.

(** Changing the weight of a single key moves the sum by the difference. *)
Lemma msum_change f g m k x :
  m !! k = Some x -> (forall k' x', k' <> k -> m !! k' = Some x' -> f k' x' = g k' x') ->
  msum g m = msum f m - f k x + g k x.
Proof.
  intros Hk Hfg. rewrite <-(insert_delete_id m k x Hk).
  rewrite !msum_insert_new by apply lookup_delete_eq.
  rewrite (msum_ext f g); [lia|].
  intros k' x' [? ?]%lookup_delete_Some. by apply Hfg.
Qed.
End msum.

#[global] Arguments msum : simpl never.

(** ** Error and panic results

    A step that succeeded: rewriting with this law keeps the proof term free of
    the conversion problems that unfolding a loop raises. *)
Lemma bind_ret {A B} (f : A -> option B) x : (Some x ≫= f) = f x.
Proof. reflexivity. Qed.

(** ** Go loops

    A loop body returns [inl x] to go on with state [x] and [inr b] to leave the
    loop with [b]; [None] is a panic.  [for_loop] runs a body at most 2^64 times
    by doubling, so the bound costs nothing when the body leaves early;
    [fuel_loop] runs it at most [n] times.  A loop that exhausts its bound is
    [None]: the rules below give [Some], hence termination. *)

Section loops.
Context {A B : Type}.
Implicit Types (body : A -> option (A + B)).

Fixpoint loop_pow (k : nat) body (x : A) : option (A + B) :=
  match k with
  | O => body x
  | S k =>
      r ← loop_pow k body x;
      match r with inl x' => loop_pow k body x' | inr b => Some (inr b) end
  end.

Definition for_loop body (x : A) : option B :=
  r ← loop_pow 64 body x;
  match r with inl _ => None | inr b => Some b end.

Fixpoint fuel_loop (n : nat) body (x : A) : option B :=
  match n with
  | O => None
  | S n => r ← body x; match r with inl x' => fuel_loop n body x' | inr b => Some b end
  end.

(** Total correctness of a body with respect to an invariant and a measure. *)
Definition body_ok (I : A -> Prop) (m : A -> Z) (Q : B -> Prop) body : Prop :=
  forall x, I x -> exists r, body x = Some r /\
    match r with inl x' => I x' /\ 0 <= m x' < m x | inr b => Q b end.

Lemma loop_pow_rule I m Q body k x :
  body_ok I m Q body -> I x ->
  exists r, loop_pow k body x = Some r /\
    match r with inl x' => I x' /\ 0 <= m x' /\ m x' <= m x - 2 ^ Z.of_nat k | inr b => Q b end.
Proof.
  intros Hb. revert x. induction k as [|k IH]; intros x Hx.
  - destruct (Hb x Hx) as (r & Hr & Hpost). exists r. split; [done|].
    destruct r; [|done]. replace (2 ^ Z.of_nat 0) with 1 by done. intuition lia.
  - cbn [loop_pow]. destruct (IH x Hx) as ([x1|b] & -> & Hpost); simpl.
    + destruct Hpost as (Hx1 & ? & ?). destruct (IH x1 Hx1) as (r & -> & Hpost2). exists r. split; [done|].
      destruct r; [|done]. rewrite Nat2Z.inj_succ, Z.pow_succ_r by lia. intuition lia.
    + by exists (inr b).
Qed.

Lemma for_loop_rule I m Q body x :
  body_ok I m Q body -> I x -> m x < W64 ->
  exists b, for_loop body x = Some b /\ Q b.
Proof.
  intros Hb Hx Hm. unfold for_loop.
  destruct (loop_pow_rule I m Q body 64 x Hb Hx) as ([x1|b] & -> & Hpost).
  - destruct Hpost as (_ & ? & ?). change (2 ^ Z.of_nat 64) with W64 in *. lia.
  - by exists b.
Qed.

Lemma fuel_loop_rule I m Q body n x :
  body_ok I m Q body -> I x -> 0 <= m x < Z.of_nat n ->
  exists b, fuel_loop n body x = Some b /\ Q b.
Proof.
  intros Hb. revert x. induction n as [|n IH]; intros x Hx Hm; cbn [fuel_loop]; [lia|].
  destruct (Hb x Hx) as (r & -> & Hpost). simpl. destruct r as [x'|b]; [|by exists b].
  destruct Hpost. apply IH; [done|lia].
Qed.
End loops.

(** ** Removal from a list (container/list [Remove] on the element holding [x]) *)

Section lremove.
Context `{EqDecision A}.
Implicit Types (l : list A) (x y : A).

Fixpoint lremove x l : list A :=
  match l with
  | [] => []
  | y :: l => if decide (y = x) then l else y :: lremove x l
  end.

(** [MoveToBack] on the element holding [x]. *)
Definition lmove_to_back x l : list A := lremove x l ++ [x].

Lemma lremove_notin x l : x ∉ l -> lremove x l = l.
Proof.
  induction l as [|y l IH]; intros Hn; simpl; [done|].
  apply not_elem_of_cons in Hn as [Hne Hn]. rewrite decide_False by congruence. by rewrite IH.
Qed.

Lemma lremove_perm x l : x ∈ l -> x :: lremove x l ≡ₚ l.
Proof.
  induction l as [|y l IH]; intros Hx; [by apply not_elem_of_nil in Hx|]. simpl.
  destruct (decide (y = x)) as [->|Hne]; [done|].
  apply elem_of_cons in Hx as [->|Hx]; [done|]. rewrite <-(IH Hx) at 2. apply Permutation_swap.
Qed.

Lemma NoDup_lremove x l : NoDup l -> NoDup (lremove x l).
Proof.
  intros Hnd. destruct (decide (x ∈ l)) as [Hx|Hx]; [|by rewrite lremove_notin].
  rewrite <-(lremove_perm x l Hx) in Hnd. by apply NoDup_cons in Hnd as [_ ?].
Qed.

Lemma elem_of_lremove x y l : NoDup l -> y ∈ lremove x l <-> y ∈ l /\ y <> x.
Proof.
  intros Hnd. destruct (decide (x ∈ l)) as [Hx|Hx].
  - rewrite <-(lremove_perm x l Hx) in Hnd. apply NoDup_cons in Hnd as [Hn _].
    rewrite <-(lremove_perm x l Hx) at 2. rewrite elem_of_cons. naive_solver.
  - rewrite lremove_notin by done. naive_solver.
Qed.

Lemma lmove_to_back_perm x l : x ∈ l -> lmove_to_back x l ≡ₚ l.
Proof.
  intros Hx. unfold lmove_to_back. rewrite <-(lremove_perm x l Hx) at 2.
  by rewrite <-Permutation_cons_append.
Qed.
End lremove.

(** Swapping two positions of a list. *)
Lemma swap_perm {A} (l : list A) i j a b :
  l !! i = Some a -> l !! j = Some b -> <[i:=b]> (<[j:=a]> l) ≡ₚ l.
Proof.
  intros Hi Hj. destruct (decide (i = j)) as [->|Hne].
  { simplify_eq. by rewrite list_insert_insert_eq, list_insert_id. }
  assert (Hlt := lookup_lt_Some _ _ _ Hi). assert (Hlt' := lookup_lt_Some _ _ _ Hj).
  apply Permutation_inj. rewrite !length_insert. split; [done|].
  exists (fun x => if decide (x = i) then j else if decide (x = j) then i else x). split.
  - intros x y. repeat case_decide; subst; congruence.
  - intros x. repeat case_decide; subst.
    + by rewrite list_lookup_insert_eq by (by rewrite length_insert).
    + by rewrite list_lookup_insert_ne, list_lookup_insert_eq.
    + by rewrite !list_lookup_insert_ne.
Qed.

(** Overwriting an entry keeps the domain. *)
Lemma insert_dom `{Countable K} {A} (m : gmap K A) k x y k' :
  m !! k = Some x -> is_Some (<[k:=y]> m !! k') <-> is_Some (m !! k').
Proof.
  intros Hk. rewrite lookup_insert_is_Some'. split; [|by right]. intros [<-|?]; [by eexists|done].
Qed.

(** Further laws of [msum]. *)
Section msum_more.
Context `{Countable K} {A : Type}.
Implicit Types (f g : K -> A -> Z) (m : gmap K A).

Lemma msum_le f g m :
  (forall k x, m !! k = Some x -> f k x <= g k x) -> msum f m <= msum g m.
Proof.
  induction m as [|k x m Hk IH] using map_ind; intros Hf.
  - by rewrite !msum_empty.
  - rewrite !msum_insert_new by done.
    assert (f k x <= g k x) by (apply Hf, lookup_insert_eq).
    assert (msum f m <= msum g m); [|lia]. apply IH.
    intros k' x' Hk'. apply Hf. rewrite lookup_insert_ne; [done|congruence].
Qed.

Lemma msum_add f g m : msum (fun k x => f k x + g k x) m = msum f m + msum g m.
Proof.
  induction m as [|k x m Hk IH] using map_ind; [by rewrite !msum_empty|].
  rewrite !msum_insert_new by done. lia.
Qed.

Lemma msum_scale c f m : msum (fun k x => c * f k x) m = c * msum f m.
Proof.
  induction m as [|k x m Hk IH] using map_ind; [rewrite !msum_empty; lia|].
  rewrite !msum_insert_new by done. lia.
Qed.

Lemma msum_zero f m : (forall k x, m !! k = Some x -> f k x = 0) -> msum f m = 0.
Proof. intros Hf. rewrite (msum_ext f (fun k x => 0 * f k x)) by (intros k x Hk; by rewrite (Hf k x Hk)). by rewrite msum_scale. Qed.

Lemma msum_fmap {B} (h : B -> A) f (m : gmap K B) : msum f (h <$> m) = msum (fun k x => f k (h x)) m.
Proof.
  induction m as [|k x m Hk IH] using map_ind; [by rewrite fmap_empty, !msum_empty|].
  rewrite fmap_insert, !msum_insert_new by (rewrite ?lookup_fmap, ?Hk; done). by rewrite IH.
Qed.

Lemma msum_insert_any f m k y :
  msum f (<[k:=y]> m) = msum f m - from_option (f k) 0 (m !! k) + f k y.
Proof.
  destruct (m !! k) as [x|] eqn:Hk; simpl; [by apply msum_insert|].
  rewrite msum_insert_new by done. lia.
Qed.
End msum_more.

(** ** Lists *)

Lemma filter_none {A} (P : A -> Prop) `{!forall x, Decision (P x)} (l : list A) :
  (forall x, x ∈ l -> ~ P x) -> filter P l = [].
Proof.
  induction l as [|x l IH]; intros Hl; [done|]. rewrite filter_cons_False by (apply Hl; left).
  apply IH. intros y Hy. apply Hl. by right.
Qed.

(** Entries with distinct images are determined by them. *)
Lemma NoDup_fmap_elem {A B} (f : A -> B) l x y : NoDup (f <$> l) -> x ∈ l -> y ∈ l -> f x = f y -> x = y.
Proof.
  induction l as [|z l IH]; [by intros _ ?%not_elem_of_nil|]. rewrite fmap_cons. intros [Hn Hnd]%NoDup_cons.
  intros [->|Hx]%elem_of_cons [->|Hy]%elem_of_cons Hf; [done| | |by apply IH].
  - destruct Hn. rewrite Hf. by apply list_elem_of_fmap_2.
  - destruct Hn. rewrite <-Hf. by apply list_elem_of_fmap_2.
Qed.

Lemma list_filter_iff' {A} (P Q : A -> Prop) `{!forall x, Decision (P x), !forall x, Decision (Q x)} (l : list A) :
  (forall x, x ∈ l -> P x <-> Q x) -> filter P l = filter Q l.
Proof.
  induction l as [|x l IH]; intros Hl; [done|]. destruct (decide (P x)) as [HP|HP].
  - rewrite !filter_cons_True by (done || by apply Hl; [left|]). f_equal. apply IH. intros y Hy. apply Hl. by right.
  - rewrite !filter_cons_False by (done || by rewrite <-Hl by left). apply IH. intros y Hy. apply Hl. by right.
Qed.
