(* ===== verification/GoHeap.v ===== *)
(** * container/heap

    The part of Go's container/heap package that byte_budget.go calls
    ([heap.Push], [heap.Pop], [heap.Remove], [heap.Fix]), over a type class
    that is [heap.Interface].  [HeapLaws] states what the heap algorithms rely
    on; the theorems about [up] and [down] are proved against those laws once,
    and ByteBudget.v discharges them for [groupHeap].

    A result [None] stands for a run-time panic (an index out of range or a nil
    dereference) or for exhausted fuel; the specifications below return [Some],
    which excludes both. *)

From S2P Require Import Prelude.

(** ** heap.Interface *)

Class HeapInterface (S E : Type) := {
  Len : S -> nat;
  Less : S -> nat -> nat -> option bool;
  Swap : S -> nat -> nat -> option S;
  Push : S -> E -> option S;
  Pop : S -> option (E * S);
}.

Section algorithms.
Context {S E : Type} `{HeapInterface S E}.

(** [up(h, j)]; the loop runs at most [j + 1] times. *)
Fixpoint up (fuel : nat) (h : S) (j : nat) : option S :=
  match fuel with
  | O => None
  | Datatypes.S fuel' =>
      let i := ((j - 1) / 2)%nat in
      if decide (i = j) then Some h
      else
        lt ← Less h j i;
        if (lt : bool) then h' ← Swap h i j; up fuel' h' i else Some h
  end.

(** [down(h, i0, n)], with the final position in place of [i > i0]; the loop
    runs at most [n + 1] times since [i] grows. *)
Fixpoint down (fuel : nat) (h : S) (i n : nat) : option (S * nat) :=
  match fuel with
  | O => None
  | Datatypes.S fuel' =>
      let j1 := (2 * i + 1)%nat in
      if decide (n <= j1)%nat then Some (h, i)
      else
        let j2 := (j1 + 1)%nat in
        right ← (if decide (j2 < n)%nat then Less h j2 j1 else Some false);
        let j := if (right : bool) then j2 else j1 in
        lt ← Less h j i;
        if (lt : bool) then h' ← Swap h i j; down fuel' h' j n else Some (h, i)
  end.

Definition heap_up (h : S) (j : nat) : option S := up (Datatypes.S j) h j.

(** [down] together with its boolean result. *)
Definition heap_down (h : S) (i0 n : nat) : option (S * bool) :=
  '(h', i) ← down (Datatypes.S n) h i0 n;
  Some (h', bool_decide (i0 < i)%nat).

Definition heap_Push (h : S) (x : E) : option S :=
  h ← Push h x; heap_up h (Len h - 1).

Definition heap_Pop (h : S) : option (E * S) :=
  let n := (Len h - 1)%nat in
  h ← Swap h 0 n;
  '(h, _) ← heap_down h 0 n;
  Pop h.

Definition heap_Remove (h : S) (i : nat) : option (E * S) :=
  let n := (Len h - 1)%nat in
  h ← (if decide (n = i) then Some h
       else
         h ← Swap h i n;
         '(h, moved) ← heap_down h i n;
         if (moved : bool) then Some h else heap_up h i);
  Pop h.

Definition heap_Fix (h : S) (i : nat) : option S :=
  '(h, moved) ← heap_down h i (Len h);
  if (moved : bool) then Some h else heap_up h i.
End algorithms.

(** ** The laws of an implementation of heap.Interface *)

Class HeapLaws (S E : Type) `{HeapInterface S E} := {
  (** The elements in slice order, the key [Less] compares and what an element
      must satisfy to be pushed. *)
  view : S -> list E;
  key : S -> E -> option Z;
  hvalid : S -> E -> Prop;
  (** The invariant of the representation (for example stored positions). *)
  hinv : S -> Prop;
  (** What the methods leave unchanged. *)
  hframe : S -> S -> Prop;
  hframe_preorder : PreOrder hframe;
  hframe_key s s' e : hframe s s' -> key s' e = key s e;
  Len_view s : Len s = length (view s);
  Less_spec s i j a b x y :
    view s !! i = Some a -> view s !! j = Some b -> key s a = Some x -> key s b = Some y ->
    Less s i j = Some (bool_decide (x < y));
  Swap_spec s i j a b :
    hinv s -> view s !! i = Some a -> view s !! j = Some b ->
    exists s', Swap s i j = Some s' /\ view s' = <[i:=b]> (<[j:=a]> (view s)) /\
      hinv s' /\ hframe s s';
  Push_spec s e :
    hinv s -> hvalid s e -> e ∉ view s ->
    exists s', Push s e = Some s' /\ view s' = view s ++ [e] /\ hinv s' /\ hframe s s';
  Pop_spec s l e :
    hinv s -> view s = l ++ [e] ->
    exists s', Pop s = Some (e, s') /\ view s' = l /\ hinv s' /\ hframe s s';
}.
#[export] Existing Instance hframe_preorder.

(** ** Heap order on a key function

    [K i] is the key at position [i]; the first [n] positions form the heap. *)

Definition par (i : nat) : nat := ((i - 1) / 2)%nat.

Definition heap_ok (n : nat) (K : nat -> Z) : Prop :=
  forall i, (0 < i < n)%nat -> K (par i) <= K i.

(** Ordered except that [j] may be smaller than its parent. *)
Definition up_ok (n : nat) (K : nat -> Z) (j : nat) : Prop :=
  (forall i, (0 < i < n)%nat -> i <> j -> K (par i) <= K i) /\
  (forall c, (0 < c < n)%nat -> par c = j -> (0 < j)%nat -> K (par j) <= K c).

(** Ordered except for the pairs that involve [i]. *)
Definition around_ok (n : nat) (K : nat -> Z) (i : nat) : Prop :=
  (forall c, (0 < c < n)%nat -> c <> i -> par c <> i -> K (par c) <= K c) /\
  (forall c, (0 < c < n)%nat -> par c = i -> (0 < i)%nat -> K (par i) <= K c).

Definition swapK (K : nat -> Z) (i j : nat) : nat -> Z :=
  fun x => if decide (x = i) then K j else if decide (x = j) then K i else K x.

Lemma par_lt i : (0 < i)%nat -> (par i < i)%nat.
Proof. intros. unfold par. apply Nat.Div0.div_lt_upper_bound; lia. Qed.

Lemma par_child c i : (0 < c)%nat -> par c = i <-> (c = 2 * i + 1 \/ c = 2 * i + 2)%nat.
Proof.
  intros Hc. unfold par. split.
  - intros <-. pose proof (Nat.div_mod_eq (c - 1) 2).
    pose proof (Nat.mod_upper_bound (c - 1) 2). lia.
  - intros [->| ->].
    + replace (2 * i + 1 - 1)%nat with (i * 2)%nat by lia. apply Nat.div_mul. lia.
    + replace (2 * i + 2 - 1)%nat with (1 + i * 2)%nat by lia.
      rewrite Nat.div_add by lia. done.
Qed.

Lemma heap_ok_up n K j : heap_ok n K -> up_ok n K j.
Proof.
  intros Hok. split; [auto|]. intros c Hc <- Hj.
  pose proof (par_lt c). pose proof (Hok c Hc). pose proof (Hok (par c)). lia.
Qed.

Lemma heap_ok_around n K i : heap_ok n K -> around_ok n K i.
Proof. intros Hok. split; [auto|]. apply (heap_ok_up _ _ _ Hok). Qed.

(** Changing the key of [i] alone leaves the other pairs ordered. *)
Lemma around_ok_ext n m K K' i :
  (m <= n)%nat -> (forall x, (x < m)%nat -> x <> i -> K' x = K x) ->
  around_ok n K i -> around_ok m K' i.
Proof.
  intros Hm HK [H1 H2]. split.
  - intros c Hc Hci Hp. pose proof (par_lt c). rewrite !HK by lia. apply H1; lia || done.
  - intros c Hc Hp Hi. pose proof (par_lt i Hi). pose proof (par_lt c).
    rewrite !HK by lia. apply H2; lia || done.
Qed.

Lemma up_ok_done n K j : up_ok n K j -> (j < n)%nat -> (j = 0%nat \/ K (par j) <= K j) -> heap_ok n K.
Proof.
  intros [H1 _] Hj Hk i Hi. destruct (decide (i = j)) as [->|]; [|auto].
  destruct Hk; [lia|done].
Qed.

(** Case analysis on the positions a swapped key function is read at. *)
Ltac swapK_cases :=
  unfold swapK; repeat case_decide; simplify_eq; try lia.

Lemma up_ok_step n K j :
  up_ok n K j -> (0 < j < n)%nat -> K j < K (par j) ->
  up_ok n (swapK K (par j) j) (par j).
Proof.
  intros [H1 H2] Hj Hlt. pose proof (par_lt j). split.
  - intros i Hi Hne. pose proof (par_lt i). pose proof (H1 i). pose proof (H2 i).
    swapK_cases.
    match goal with H : par i = par j |- _ => rewrite H in * end. lia.
  - intros c Hc Hpc H0. pose proof (par_lt c). pose proof (par_lt (par j) H0).
    pose proof (H1 (par j)). pose proof (H1 c). rewrite Hpc in *. swapK_cases.
Qed.

Lemma around_ok_done n K i :
  around_ok n K i -> (i < n)%nat -> (forall c, (0 < c < n)%nat -> par c = i -> K i <= K c) ->
  (i = 0%nat \/ K (par i) <= K i) -> heap_ok n K.
Proof.
  intros [H1 _] Hi Hch Hp c Hc. destruct (decide (c = i)) as [->|].
  { destruct Hp; [lia|done]. }
  destruct (decide (par c = i)) as [<-|]; [by apply Hch|auto].
Qed.

Lemma around_ok_up n K i :
  around_ok n K i -> (forall c, (0 < c < n)%nat -> par c = i -> K i <= K c) -> up_ok n K i.
Proof.
  intros [H1 H2] Hch. split; [|auto]. intros c Hc Hci.
  destruct (decide (par c = i)) as [<-|]; [by apply Hch|auto].
Qed.

(** Moving the smaller child [j] of [i] up. *)
Lemma around_ok_step n K i j :
  around_ok n K i -> (0 < j < n)%nat -> par j = i -> K j < K i ->
  (forall c, (0 < c < n)%nat -> par c = i -> K j <= K c) ->
  around_ok n (swapK K i j) j /\ swapK K i j (par j) <= swapK K i j j.
Proof.
  intros [H1 H2] Hj Hp Hlt Hmin. pose proof (par_lt j). split; [split|].
  - intros c Hc Hcj Hpc. pose proof (par_lt c). pose proof (H1 c). pose proof (Hmin c).
    pose proof (H2 j). swapK_cases; auto with lia.
  - intros c Hc Hpc H0. pose proof (par_lt c). pose proof (H1 c). rewrite Hp.
    swapK_cases; auto with lia.
  - rewrite Hp. swapK_cases.
Qed.

(** Order only depends on the keys of the first [n] positions. *)
Lemma heap_ok_ext n K K' :
  (forall x, (x < n)%nat -> K' x = K x) -> heap_ok n K -> heap_ok n K'.
Proof.
  intros HK Hok i Hi. pose proof (par_lt i). rewrite !HK by lia. auto.
Qed.

(** ** Correctness of [up] and [down] over the interface *)

Section correctness.
Context {S E : Type} `{HeapLaws S E}.
Implicit Types (s : S) (e : E).

Definition Kpos s (i : nat) : Z := default 0 (view s !! i ≫= key s).

(** The first [n] positions hold elements whose key is defined. *)
Definition keyed s (n : nat) : Prop :=
  forall i, (i < n)%nat -> exists e x, view s !! i = Some e /\ key s e = Some x.

(** [s'] is [s] with its first [n] elements reordered. *)
Record reordered (n : nat) s s' : Prop := {
  ro_inv : hinv s';
  ro_frame : hframe s s';
  ro_perm : view s' ≡ₚ view s;
  ro_tail x : (n <= x)%nat -> view s' !! x = view s !! x;
  ro_keyed : keyed s' n;
}.

Lemma reordered_refl n s : hinv s -> keyed s n -> reordered n s s.
Proof. by split. Qed.

Lemma reordered_trans n s1 s2 s3 :
  reordered n s1 s2 -> reordered n s2 s3 -> reordered n s1 s3.
Proof.
  intros [] []. split; [done| by etrans | by etrans | | done].
  intros x Hx. by rewrite ro_tail1, ro_tail0.
Qed.

Lemma reordered_length n s s' : reordered n s s' -> length (view s') = length (view s).
Proof. intros []. by apply Permutation_length. Qed.

Lemma keyed_Less s n i j :
  keyed s n -> (i < n)%nat -> (j < n)%nat -> Less s i j = Some (bool_decide (Kpos s i < Kpos s j)).
Proof.
  intros Hk Hi Hj. destruct (Hk i Hi) as (a & x & Ha & Hx). destruct (Hk j Hj) as (b & y & Hb & Hy).
  rewrite (Less_spec s i j a b x y) by done. unfold Kpos. by rewrite Ha, Hb; simpl; rewrite Hx, Hy.
Qed.

Lemma Swap_reordered s n i j :
  hinv s -> keyed s n -> (i < n)%nat -> (j < n)%nat ->
  exists s', Swap s i j = Some s' /\ reordered n s s' /\
    (forall x, Kpos s' x = swapK (Kpos s) i j x).
Proof.
  intros Hinv Hk Hi Hj.
  destruct (Hk i Hi) as (a & x & Ha & Hx). destruct (Hk j Hj) as (b & y & Hb & Hy).
  destruct (Swap_spec s i j a b) as (s' & Hs & Hv & Hi' & Hf); [done..|].
  exists s'. split; [done|]. assert (Hkey : forall e, key s' e = key s e) by (intros; by apply hframe_key).
  assert (Hlt := lookup_lt_Some _ _ _ Ha). assert (Hlt' := lookup_lt_Some _ _ _ Hb).
  assert (Hlook : forall z, view s' !! z =
    if decide (z = i) then Some b else if decide (z = j) then Some a else view s !! z).
  { intros z. rewrite Hv. repeat case_decide; subst.
    - by rewrite list_lookup_insert_eq by (by rewrite length_insert).
    - by rewrite list_lookup_insert_ne, list_lookup_insert_eq.
    - by rewrite !list_lookup_insert_ne. }
  split.
  - split; [done|done| | |].
    + rewrite Hv. by apply swap_perm.
    + intros z Hz. rewrite Hlook. repeat case_decide; subst; lia || done.
    + intros z Hz. rewrite Hlook. repeat case_decide; subst.
      * exists b, y. by rewrite Hkey.
      * exists a, x. by rewrite Hkey.
      * destruct (Hk z Hz) as (c & w & ? & ?). exists c, w. by rewrite Hkey.
  - intros z. unfold Kpos, swapK. rewrite Hlook. repeat case_decide; subst; simpl.
    + by rewrite Hkey, Hb; simpl.
    + by rewrite Hkey, Ha; simpl.
    + destruct (view s !! z); simpl; [by rewrite Hkey|done].
Qed.

Lemma up_spec fuel s n j :
  hinv s -> keyed s n -> (j < n)%nat -> (j < fuel)%nat -> up_ok n (Kpos s) j ->
  exists s', up fuel s j = Some s' /\ reordered n s s' /\ heap_ok n (Kpos s').
Proof.
  revert s j. induction fuel as [|fuel IH]; intros s j Hinv Hk Hj Hf Hok; [lia|].
  cbn [up]. fold (par j). destruct (decide (par j = j)) as [Hp|Hp].
  { exists s. split; [done|]. split; [by apply reordered_refl|].
    apply (up_ok_done _ _ _ Hok Hj). left. pose proof (par_lt j). lia. }
  assert (0 < j)%nat by (destruct j; [done|lia]). pose proof (par_lt j).
  rewrite (keyed_Less s n) by (done || lia). simpl.
  case_bool_decide as Hlt.
  - destruct (Swap_reordered s n (par j) j) as (s1 & -> & Hro & HK); [done|done|lia|done|].
    simpl. destruct (IH s1 (par j)) as (s2 & -> & Hro2 & Hok2); [apply Hro|apply Hro|lia|lia| |].
    { pose proof (up_ok_step n (Kpos s) j Hok ltac:(lia) Hlt) as [U1 U2].
      split; intros; rewrite !HK; auto. }
    exists s2. split; [done|]. split; [by eapply reordered_trans|done].
  - exists s. split; [done|]. split; [by apply reordered_refl|].
    apply (up_ok_done _ _ _ Hok Hj). right. lia.
Qed.

Lemma down_spec fuel s n i :
  hinv s -> keyed s n -> (i < n)%nat -> (n - i < fuel)%nat -> around_ok n (Kpos s) i ->
  exists s' i', down fuel s i n = Some (s', i') /\ reordered n s s' /\
    ((i' = i /\ s' = s /\ forall c, (0 < c < n)%nat -> par c = i -> Kpos s i <= Kpos s c) \/
     ((i < i')%nat /\ heap_ok n (Kpos s'))).
Proof.
  revert s i. induction fuel as [|fuel IH]; intros s i Hinv Hk Hi Hf Hok; [lia|].
  cbn [down]. case_decide as Hn.
  { exists s, i. split; [done|]. split; [by apply reordered_refl|]. left.
    split; [done|]. split; [done|]. intros c Hc Hp%par_child; lia. }
  remember (2 * i + 1)%nat as j1 eqn:Hj1.
  assert (Hr : exists r : bool,
    (if decide (j1 + 1 < n)%nat then Less s (j1 + 1) j1 else Some false) = Some r /\
    let j := if r then (j1 + 1)%nat else j1 in
    (0 < j < n)%nat /\ par j = i /\ forall c, (0 < c < n)%nat -> par c = i -> Kpos s j <= Kpos s c).
  { case_decide as Hn2.
    - rewrite (keyed_Less s n) by (done || lia). eexists. split; [done|]. simpl.
      case_bool_decide; (split; [lia|]; split; [apply par_child; lia|]);
        intros c Hc Hpc%par_child; try lia;
        (assert (c = j1 \/ c = j1 + 1)%nat as [->| ->] by lia); lia.
    - exists false. split; [done|]. simpl. split; [lia|]. split; [apply par_child; lia|].
      intros c Hc Hpc%par_child; [|lia]. assert (c = j1) as -> by lia. lia. }
  destruct Hr as (r & -> & Hj & Hp & Hmin). simpl. set (j := if r then (j1 + 1)%nat else j1) in *.
  rewrite (keyed_Less s n) by (done || lia). simpl. case_bool_decide as Hlt.
  - destruct (Swap_reordered s n i j) as (s1 & -> & Hro & HK); [done|done|lia|lia|].
    destruct (around_ok_step n (Kpos s) i j Hok Hj Hp Hlt Hmin) as [Ha Hpj].
    assert (Ha1 : around_ok n (Kpos s1) j) by (destruct Ha; split; intros; rewrite !HK; auto).
    pose proof (par_lt j). simpl.
    destruct (IH s1 j) as (s2 & i2 & -> & Hro2 & Hcase); [apply Hro|apply Hro|lia|lia|done|].
    exists s2, i2. split; [done|]. split; [by eapply reordered_trans|]. right.
    destruct Hcase as [(-> & -> & Hch)|[? ?]]; (split; [lia|]); [|done].
    apply (around_ok_done _ _ _ Ha1); [lia|done|]. right. by rewrite !HK.
  - exists s, i. split; [done|]. split; [by apply reordered_refl|]. left.
    split; [done|]. split; [done|]. intros c Hc Hpc. pose proof (Hmin c Hc Hpc). lia.
Qed.

(** [down] followed by [up] when it did not move: the body of [Fix] and [Remove]. *)
Lemma down_up_spec s n i :
  hinv s -> keyed s n -> (i < n)%nat -> around_ok n (Kpos s) i ->
  exists s', ('(h, moved) ← heap_down s i n; if (moved : bool) then Some h else heap_up h i) = Some s' /\
    reordered n s s' /\ heap_ok n (Kpos s').
Proof.
  intros Hinv Hk Hi Hok. unfold heap_down.
  destruct (down_spec (Datatypes.S n) s n i) as (s1 & i1 & -> & Hro & Hcase); [done|done|done|lia|done|].
  simpl. destruct Hcase as [(-> & -> & Hch)|[Hlt Hok1]].
  - rewrite bool_decide_false by lia. unfold heap_up.
    apply up_spec; [done|done|done|lia|]. by apply around_ok_up.
  - rewrite bool_decide_true by done. by exists s1.
Qed.

(** ** The operations the byte budget uses *)

(** The state is a heap: positions and keys are defined and ordered. *)
Record is_heap s : Prop := {
  ih_inv : hinv s;
  ih_keyed : keyed s (length (view s));
  ih_ok : heap_ok (length (view s)) (Kpos s);
}.

(** A heap except that the element at [i] may be misplaced or have no key. *)
Record heap_around s (i : nat) : Prop := {
  ha_inv : hinv s;
  ha_keyed j : j <> i -> (j < length (view s))%nat ->
    exists e x, view s !! j = Some e /\ key s e = Some x;
  ha_ok : around_ok (length (view s)) (Kpos s) i;
}.

Lemma is_heap_around s i : is_heap s -> heap_around s i.
Proof. intros []. split; [done|by auto|by apply heap_ok_around]. Qed.

Lemma reordered_is_heap n s s' :
  n = length (view s) -> reordered n s s' -> heap_ok n (Kpos s') -> is_heap s'.
Proof.
  intros -> Hro Hok. split; [apply Hro| |]; rewrite (reordered_length _ _ _ Hro); [apply Hro|done].
Qed.

(** Dropping the last element of a state whose other elements are in heap order. *)
Lemma Pop_is_heap s n e :
  hinv s -> keyed s n -> heap_ok n (Kpos s) -> length (view s) = Datatypes.S n -> view s !! n = Some e ->
  exists s', Pop s = Some (e, s') /\ hframe s s' /\ e :: view s' ≡ₚ view s /\ is_heap s'.
Proof.
  intros Hinv Hk Hok Hlen He.
  assert (Hv : view s = take n (view s) ++ [e]).
  { rewrite <-(take_drop n (view s)) at 1. f_equal.
    rewrite (drop_S _ _ _ He). f_equal. apply drop_ge. lia. }
  destruct (Pop_spec s _ _ Hinv Hv) as (s' & HP & Hv' & Hi' & Hf).
  assert (Hl : length (view s') = n) by (rewrite Hv', length_take; lia).
  assert (Hlook : forall x, (x < n)%nat -> view s' !! x = view s !! x).
  { intros x Hx. rewrite Hv'. by apply lookup_take_lt. }
  assert (Hkey : forall e, key s' e = key s e) by (intros; by apply hframe_key).
  exists s'. split; [done|]. split; [done|]. split.
  { rewrite Hv at 1. rewrite Hv'. by rewrite <-Permutation_cons_append. }
  split; [done| |]; rewrite Hl.
  - intros x Hx. destruct (Hk x Hx) as (a & y & ? & ?). exists a, y. by rewrite Hlook, Hkey.
  - apply (heap_ok_ext _ (Kpos s)); [|done]. intros x Hx. unfold Kpos. rewrite Hlook by done.
    destruct (view s !! x); simpl; [by rewrite Hkey|done].
Qed.

Lemma heap_Push_spec s e x :
  is_heap s -> hvalid s e -> e ∉ view s -> key s e = Some x ->
  exists s', heap_Push s e = Some s' /\ hframe s s' /\ view s' ≡ₚ e :: view s /\ is_heap s'.
Proof.
  intros [Hinv Hk Hok] Hval Hnin Hx. unfold heap_Push.
  destruct (Push_spec s e) as (s1 & -> & Hv & Hi1 & Hf); [done..|]. simpl.
  set (n := length (view s)) in *.
  assert (Hl : length (view s1) = Datatypes.S n) by (rewrite Hv, length_app; simpl; lia).
  assert (Hkey : forall e, key s1 e = key s e) by (intros; by apply hframe_key).
  assert (Hlook : forall z, (z < n)%nat -> view s1 !! z = view s !! z).
  { intros z Hz. rewrite Hv. by apply lookup_app_l. }
  assert (Hlast : view s1 !! n = Some e) by (rewrite Hv; by apply list_lookup_middle).
  rewrite Len_view, Hl, Nat.sub_succ, Nat.sub_0_r.
  destruct (up_spec (Datatypes.S n) s1 (Datatypes.S n) n) as (s2 & Hs2 & Hro & Hok2); [done| |lia|lia| |].
  { intros z Hz. destruct (decide (z = n)) as [->|]; [exists e, x; by rewrite Hkey|].
    destruct (Hk z) as (a & y & ? & ?); [lia|]. exists a, y. by rewrite Hlook, Hkey by lia. }
  { assert (HK : forall z, (z < n)%nat -> Kpos s1 z = Kpos s z).
    { intros z Hz. unfold Kpos. rewrite Hlook by done. destruct (view s !! z); simpl; [by rewrite Hkey|done]. }
    split.
    - intros z Hz Hzn. pose proof (par_lt z). rewrite !HK by lia. apply Hok. lia.
    - intros c Hc Hp. pose proof (par_lt c). lia. }
  exists s2. split; [done|]. split; [etrans; [done|apply Hro]|]. split.
  { rewrite (ro_perm _ _ _ Hro), Hv. by rewrite <-Permutation_cons_append. }
  by apply (reordered_is_heap _ _ _ (eq_sym Hl) Hro).
Qed.

Lemma heap_Fix_spec s i x e :
  heap_around s i -> view s !! i = Some e -> key s e = Some x ->
  exists s', heap_Fix s i = Some s' /\ hframe s s' /\ view s' ≡ₚ view s /\ is_heap s'.
Proof.
  intros [Hinv Hk Hok] He Hx. unfold heap_Fix. rewrite Len_view.
  assert (Hi := lookup_lt_Some _ _ _ He).
  destruct (down_up_spec s (length (view s)) i) as (s' & -> & Hro & Hok'); [done| |done|done|].
  { intros j Hj. destruct (decide (j = i)) as [->|]; [by exists e, x|by apply Hk]. }
  exists s'. split; [done|]. split; [apply Hro|]. split; [apply Hro|].
  by apply (reordered_is_heap _ _ _ eq_refl Hro).
Qed.

(** Exchanging the element at [i] with the last one. *)
Lemma Swap_last s i n e :
  heap_around s i -> view s !! i = Some e -> length (view s) = Datatypes.S n -> i <> n ->
  exists s', Swap s i n = Some s' /\ hinv s' /\ hframe s s' /\ view s' ≡ₚ view s /\
    view s' !! n = Some e /\ keyed s' n /\ around_ok n (Kpos s') i.
Proof.
  intros [Hinv Hk Hok] He Hlen Hin. assert (Hi := lookup_lt_Some _ _ _ He).
  destruct (Hk n) as (b & y & Hb & Hy); [done|lia|].
  destruct (Swap_spec s i n e b) as (s' & HS & Hv & Hi' & Hf); [done..|].
  assert (Hkey : forall e, key s' e = key s e) by (intros; by apply hframe_key).
  assert (Hlook : forall z, (z < n)%nat -> z <> i -> view s' !! z = view s !! z).
  { intros z Hz Hzi. rewrite Hv, !list_lookup_insert_ne by lia. done. }
  exists s'. split; [done|]. split; [done|]. split; [done|]. split; [rewrite Hv; by apply swap_perm|].
  split; [by rewrite Hv, list_lookup_insert_ne, list_lookup_insert_eq by lia|]. split.
  - intros z Hz. destruct (decide (z = i)) as [->|Hzi].
    + exists b, y. rewrite Hkey, Hv, list_lookup_insert_eq by (rewrite length_insert; lia). done.
    + destruct (Hk z Hzi) as (a & w & ? & ?); [lia|]. exists a, w. by rewrite Hlook, Hkey.
  - eapply (around_ok_ext _ _ (Kpos s)); [|  |exact Hok]; [lia|].
    intros z Hz Hzi. unfold Kpos. rewrite Hlook by done.
    destruct (view s !! z); simpl; [by rewrite Hkey|done].
Qed.

Lemma heap_Remove_spec s i e :
  heap_around s i -> view s !! i = Some e ->
  exists s', heap_Remove s i = Some (e, s') /\ hframe s s' /\ e :: view s' ≡ₚ view s /\ is_heap s'.
Proof.
  intros Ha He. pose proof Ha as [Hinv Hk Hok]. assert (Hi := lookup_lt_Some _ _ _ He).
  unfold heap_Remove. rewrite Len_view. destruct (length (view s)) as [|n] eqn:Hlen; [lia|].
  rewrite Nat.sub_succ, Nat.sub_0_r. case_decide as Hn.
  - subst i. simpl. apply (Pop_is_heap s n); [done| | |done|done].
    + intros z Hz. apply Hk; lia.
    + intros z Hz. pose proof (par_lt z). apply Hok; lia.
  - destruct (Swap_last s i n e) as (s1 & -> & Hi1 & Hf1 & Hp1 & Hl1 & Hk1 & Ha1); [done..| lia |].
    simpl. destruct (down_up_spec s1 n i) as (s2 & Hs2 & Hro & Hok2); [done|done|lia|done|].
    rewrite Hs2. simpl.
    destruct (Pop_is_heap s2 n e) as (s3 & -> & Hf3 & Hp3 & Hh3); [apply Hro|apply Hro|done| | |].
    { by rewrite (reordered_length _ _ _ Hro), (Permutation_length Hp1). }
    { by rewrite (ro_tail _ _ _ Hro). }
    exists s3. split; [done|]. split; [|split; [|done]].
    + etrans; [done|]. etrans; [apply Hro|done].
    + by rewrite Hp3, (ro_perm _ _ _ Hro).
Qed.

Lemma heap_Pop_spec s e l :
  is_heap s -> view s = e :: l ->
  exists s', heap_Pop s = Some (e, s') /\ hframe s s' /\ e :: view s' ≡ₚ view s /\ is_heap s'.
Proof.
  intros Hh Hv. pose proof Hh as [Hinv Hk Hok]. unfold heap_Pop. rewrite Len_view.
  assert (Hlen : length (view s) = Datatypes.S (length l)) by (by rewrite Hv).
  assert (He : view s !! 0%nat = Some e) by (by rewrite Hv).
  rewrite Hlen, Nat.sub_succ, Nat.sub_0_r. destruct l as [|e' l].
  - cbn [length] in *. destruct (Swap_spec s 0 0 e e) as (s1 & -> & Hv1 & Hi1 & Hf1); [done..|]. simpl in *.
    rewrite Hv in Hv1. simpl in Hv1.
    destruct (Pop_is_heap s1 0 e) as (s2 & -> & Hf2 & Hp2 & Hh2);
      [done|intros ??; lia|intros ??; lia|by rewrite Hv1|by rewrite Hv1|].
    exists s2. split; [done|]. split; [by etrans|]. split; [by rewrite Hp2, Hv, Hv1|done].
  - set (n := length (e' :: l)) in *. assert (0 < n)%nat by (simpl in n; lia).
    destruct (Swap_last s 0 n e) as (s1 & -> & Hi1 & Hf1 & Hp1 & Hl1 & Hk1 & Ha1);
      [by apply is_heap_around|done|done|lia|].
    simpl. unfold heap_down.
    destruct (down_spec (Datatypes.S n) s1 n 0) as (s2 & i2 & -> & Hro & Hcase); [done|done|lia|lia|done|].
    simpl. assert (Hok2 : heap_ok n (Kpos s2)).
    { destruct Hcase as [(-> & -> & Hch)|[_ ?]]; [|done].
      apply (around_ok_done _ _ _ Ha1); [lia|done|by left]. }
    destruct (Pop_is_heap s2 n e) as (s3 & -> & Hf3 & Hp3 & Hh3); [apply Hro|apply Hro|done| | |].
    { by rewrite (reordered_length _ _ _ Hro), (Permutation_length Hp1). }
    { by rewrite (ro_tail _ _ _ Hro). }
    exists s3. split; [done|]. split; [|split; [|done]].
    + etrans; [done|]. etrans; [apply Hro|done].
    + by rewrite Hp3, (ro_perm _ _ _ Hro).
Qed.

(** The root of a heap has the least key. *)
Lemma is_heap_root_min s i a b x y :
  is_heap s -> view s !! 0%nat = Some a -> key s a = Some x ->
  view s !! i = Some b -> key s b = Some y -> x <= y.
Proof.
  intros [_ _ Hok] Ha Hx Hb Hy.
  assert (HK : forall j, (j < length (view s))%nat -> Kpos s 0 <= Kpos s j).
  { induction j as [j IH] using lt_wf_ind. intros Hj. destruct (decide (j = 0%nat)) as [->|]; [done|].
    pose proof (par_lt j). etrans; [apply IH|apply Hok]; lia. }
  pose proof (HK i (lookup_lt_Some _ _ _ Hb)) as Hle. unfold Kpos in Hle.
  rewrite Ha, Hb in Hle. simpl in Hle. rewrite Hx, Hy in Hle. done.
Qed.
End correctness.
