(* ===== verification/ByteBudget.v ===== *)
(** * The shared byte budget (byte_budget.go)

    Data and operations of [ByteBudget], one definition per function of the
    source.  Groups, waiters and wake channels are heap objects that several
    structures point to, so they live in stores ([bb_groupOf], [bb_waiterOf],
    [bb_chans]) and are referred to by address; address 0 is the group embedded
    in the budget ([legacy]).  Each method runs under [bb.mu] from start to end,
    so it is one atomic state transformer.

    [None] is a run-time panic (nil dereference, index out of range, close of a
    closed channel) or a loop that exceeds its bound. *)

From S2P Require Import Prelude GoHeap.

Definition messageOverheadBytes : Z := 256.

(** Addresses of heap objects. *)
Abbreviation gid := nat.
Abbreviation wid := nat.
Abbreviation chan := nat.

(** ** State *)

#[projections(primitive)] Record budgetGroup := BudgetGroup {
  g_key : string;
  g_refs : Z;
  g_used : Z;
  g_escape : Z;
  g_pending : Z;
  g_active : bool;
  (** the waiters in queue order *)
  g_waiters : list wid;
  (** whether [allElem] / [reserveElem] is non-nil, that is whether the group
      has an element in [waiting] / [reserveReady] *)
  g_allElem : bool;
  g_reserveElem : bool;
  g_heapIndex : Z;
}.

#[export] Instance budgetGroup_eta : Eta budgetGroup := fun g =>
  BudgetGroup (g_key g) (g_refs g) (g_used g) (g_escape g) (g_pending g) (g_active g)
    (g_waiters g) (g_allElem g) (g_reserveElem g) (g_heapIndex g).
#[export] Instance set_g_refs : Setter g_refs := ltac:(make_setter).
#[export] Instance set_g_used : Setter g_used := ltac:(make_setter).
#[export] Instance set_g_escape : Setter g_escape := ltac:(make_setter).
#[export] Instance set_g_pending : Setter g_pending := ltac:(make_setter).
#[export] Instance set_g_active : Setter g_active := ltac:(make_setter).
#[export] Instance set_g_waiters : Setter g_waiters := ltac:(make_setter).
#[export] Instance set_g_allElem : Setter g_allElem := ltac:(make_setter).
#[export] Instance set_g_reserveElem : Setter g_reserveElem := ltac:(make_setter).
#[export] Instance set_g_heapIndex : Setter g_heapIndex := ltac:(make_setter).

(** [budgetGroup{key: key, refs: refs, heapIndex: -1}] *)
Definition newGroup (key : string) (refs : Z) : budgetGroup :=
  BudgetGroup key refs 0 0 0 false [] false false (-1).

#[projections(primitive)] Record budgetWaiter := BudgetWaiter {
  w_n : Z;
  w_credit : Z;
  w_group : option gid;
  w_wake : option chan;
  (** whether [elem] is non-nil: the waiter is queued in its group *)
  w_elem : bool;
  w_granted : bool;
}.

#[export] Instance budgetWaiter_eta : Eta budgetWaiter := fun w =>
  BudgetWaiter (w_n w) (w_credit w) (w_group w) (w_wake w) (w_elem w) (w_granted w).
#[export] Instance set_w_credit : Setter w_credit := ltac:(make_setter).
#[export] Instance set_w_wake : Setter w_wake := ltac:(make_setter).
#[export] Instance set_w_elem : Setter w_elem := ltac:(make_setter).
#[export] Instance set_w_granted : Setter w_granted := ltac:(make_setter).

#[projections(primitive)] Record ByteBudget := MkByteBudget {
  bb_total : Z;
  bb_used : Z;
  bb_escape : Z;
  bb_fair : bool;
  bb_reserve : Z;
  bb_minGroup : Z;
  bb_groups : gmap string gid;
  bb_active : Z;
  bb_legacyWake : option chan;
  bb_waiting : list gid;
  bb_reserveReady : list gid;
  bb_blocked : list gid;
  bb_groupOf : gmap gid budgetGroup;
  bb_waiterOf : gmap wid budgetWaiter;
  (** [true] once the channel is closed *)
  bb_chans : gmap chan bool;
  (** the next free address *)
  bb_next : nat;
}.

#[export] Instance ByteBudget_eta : Eta ByteBudget := fun b =>
  MkByteBudget (bb_total b) (bb_used b) (bb_escape b) (bb_fair b) (bb_reserve b) (bb_minGroup b)
    (bb_groups b) (bb_active b) (bb_legacyWake b) (bb_waiting b) (bb_reserveReady b) (bb_blocked b)
    (bb_groupOf b) (bb_waiterOf b) (bb_chans b) (bb_next b).
#[export] Instance set_bb_used : Setter bb_used := ltac:(make_setter).
#[export] Instance set_bb_escape : Setter bb_escape := ltac:(make_setter).
#[export] Instance set_bb_fair : Setter bb_fair := ltac:(make_setter).
#[export] Instance set_bb_reserve : Setter bb_reserve := ltac:(make_setter).
#[export] Instance set_bb_minGroup : Setter bb_minGroup := ltac:(make_setter).
#[export] Instance set_bb_groups : Setter bb_groups := ltac:(make_setter).
#[export] Instance set_bb_active : Setter bb_active := ltac:(make_setter).
#[export] Instance set_bb_legacyWake : Setter bb_legacyWake := ltac:(make_setter).
#[export] Instance set_bb_waiting : Setter bb_waiting := ltac:(make_setter).
#[export] Instance set_bb_reserveReady : Setter bb_reserveReady := ltac:(make_setter).
#[export] Instance set_bb_blocked : Setter bb_blocked := ltac:(make_setter).
#[export] Instance set_bb_groupOf : Setter bb_groupOf := ltac:(make_setter).
#[export] Instance set_bb_waiterOf : Setter bb_waiterOf := ltac:(make_setter).
#[export] Instance set_bb_chans : Setter bb_chans := ltac:(make_setter).
#[export] Instance set_bb_next : Setter bb_next := ltac:(make_setter).

(** ** Access to the stores *)

(** [f] applied to the group at address [g]; a dangling address is a panic. *)
Definition modGroup (g : gid) (f : budgetGroup -> budgetGroup) (bb : ByteBudget) : option ByteBudget :=
  gr ← bb_groupOf bb !! g;
  Some (bb <| bb_groupOf ::= <[g := f gr]> |>).

Definition modWaiter (w : wid) (f : budgetWaiter -> budgetWaiter) (bb : ByteBudget) : option ByteBudget :=
  wr ← bb_waiterOf bb !! w;
  Some (bb <| bb_waiterOf ::= <[w := f wr]> |>).

#[global] Arguments modGroup : simpl never.
#[global] Arguments modWaiter : simpl never.

(** [make(chan struct{})] *)
Definition makeChan (bb : ByteBudget) : chan * ByteBudget :=
  (bb_next bb, bb <| bb_chans ::= <[bb_next bb := false]> |> <| bb_next ::= S |>).

(** [close(c)] panics on a nil or closed channel. *)
Definition closeChan (c : option chan) (bb : ByteBudget) : option ByteBudget :=
  c ← c;
  closed ← bb_chans bb !! c;
  if (closed : bool) then None else Some (bb <| bb_chans ::= <[c := true]> |>).

#[global] Arguments closeChan : simpl never.

(** ** Construction *)

(** [NewByteBudget]: an ungrouped budget; zero means unlimited. *)
Definition NewByteBudget (total : Z) : ByteBudget :=
  MkByteBudget total 0 0 false 0 0 ∅ 0 None [] [] [] {[0%nat := newGroup "" 0]} ∅ ∅ 1.

Record FairByteBudgetOptions := MkFairByteBudgetOptions {
  ReserveBytes : Z;
  MinGroupBytes : Z;
}.

(** [NewFairByteBudget]; the error is the single validation error. *)
Definition NewFairByteBudget (total : Z) (o : FairByteBudgetOptions) : option ByteBudget :=
  let reserve := if decide (ReserveBytes o = 0) then total / 8 else ReserveBytes o in
  if decide ((total = 0 /\ reserve <> 0) \/ (total <> 0 /\ reserve >= total)) then None
  else
    let minGroup := if decide (MinGroupBytes o = 0) then messageOverheadBytes else MinGroupBytes o in
    Some ((NewByteBudget total) <| bb_fair := true |> <| bb_reserve := reserve |>
            <| bb_minGroup := minGroup |> <| bb_groups := ∅ |>).

(** [register]: [inr] carries the group ([None] for a nil or ungrouped budget),
    [inl] is the missing-BudgetGroup error. *)
Definition register (key : string) (bb : ByteBudget) : unit + (option gid * ByteBudget) :=
  if bb_fair bb then
    if decide (key = "") then inl tt
    else
      match bb_groups bb !! key with
      | Some g =>
          inr (Some g, bb <| bb_groupOf ::= alter (fun gr => gr <| g_refs ::= add64 1 |>) g |>)
      | None =>
          let g := bb_next bb in
          inr (Some g, bb <| bb_groupOf ::= <[g := newGroup key 1]> |>
                          <| bb_groups ::= <[key := g]> |> <| bb_next ::= S |>)
      end
  else inr (None, bb).

Definition unregisterLocked (g : gid) (bb : ByteBudget) : option ByteBudget :=
  if bb_fair bb then
    bb ← modGroup g (fun gr => gr <| g_refs := sub64 (g_refs gr) 1 |>) bb;
    gr ← bb_groupOf bb !! g;
    if decide (g_refs gr = 0) then Some (bb <| bb_groups ::= delete (g_key gr) |>) else Some bb
  else Some bb.

Definition unregister (g : option gid) (bb : ByteBudget) : option ByteBudget :=
  match g with None => Some bb | Some g => unregisterLocked g bb end.

(** [group]: a nil group is the embedded legacy group. *)
Definition group (g : option gid) : gid := default 0%nat g.

Definition Total (bb : ByteBudget) : Z := bb_total bb.

Definition Used (bb : ByteBudget) : Z := bb_used bb.

(** ** Accounting *)

Definition activateLocked (g : gid) (bb : ByteBudget) : option ByteBudget :=
  if bb_fair bb then
    gr ← bb_groupOf bb !! g;
    let active := bool_decide (g_used gr <> 0 \/ g_pending gr <> 0) in
    if decide (active = g_active gr) then Some bb
    else
      let bb := bb <| bb_active := if active then add64 (bb_active bb) 1 else sub64 (bb_active bb) 1 |> in
      modGroup g (fun gr => gr <| g_active := active |>) bb
  else Some bb.

Definition share (g : gid) (bb : ByteBudget) : option Z :=
  gr ← bb_groupOf bb !! g;
  let n := if g_active gr then bb_active bb else add64 (bb_active bb) 1 in
  let n := if decide (n < 2) then 2 else n in
  let share := bb_total bb / n in
  Some (if decide (share < bb_minGroup bb) then bb_minGroup bb else share).

(** [groupNeed]: dereferences the first waiter of the group. *)
Definition groupNeed (bb : ByteBudget) (g : gid) : option Z :=
  gr ← bb_groupOf bb !! g;
  w ← head (g_waiters gr);
  wr ← bb_waiterOf bb !! w;
  let held := g_used gr in
  let remaining := sub64 (w_n wr) (w_credit wr) in
  Some (if decide (remaining > sub64 maxUint64 held) then maxUint64 else add64 held remaining).

Definition fits (n : Z) (g : gid) (bb : ByteBudget) : option bool :=
  if decide (bb_total bb = 0) then Some true
  else
    let used := sub64 (bb_used bb) (bb_escape bb) in
    if decide (n > bb_total bb \/ used > sub64 (bb_total bb) n) then Some false
    else if decide (bb_fair bb = false \/ add64 used n <= sub64 (bb_total bb) (bb_reserve bb)) then Some true
    else
      share ← share g bb;
      gr ← bb_groupOf bb !! g;
      let held := g_used gr in
      Some (bool_decide (n <= share /\ held <= sub64 share n)).

Definition charge (n : Z) (g : gid) (escape : bool) (bb : ByteBudget) : option ByteBudget :=
  if bb_fair bb then
    bb ← modGroup g (fun gr => gr <| g_used ::= add64 n |>) bb;
    let bb := bb <| bb_used ::= add64 n |> in
    bb ← (if escape then
            bb ← modGroup g (fun gr => gr <| g_escape ::= add64 n |>) bb;
            Some (bb <| bb_escape ::= add64 n |>)
          else Some bb);
    activateLocked g bb
  else Some (bb <| bb_used ::= add64 n |>).

Definition releaseLocked (n escape : Z) (g : gid) (bb : ByteBudget) : option ByteBudget :=
  if bb_fair bb then
    gr ← bb_groupOf bb !! g;
    let n := if decide (n > g_used gr) then g_used gr else n in
    let n := if decide (n > bb_used bb) then bb_used bb else n in
    bb ← modGroup g (fun gr => gr <| g_used := sub64 (g_used gr) n |>
                                  <| g_escape := sub64 (g_escape gr) escape |>) bb;
    activateLocked g (bb <| bb_used := sub64 (bb_used bb) n |>
                         <| bb_escape := sub64 (bb_escape bb) escape |>)
  else
    let n := if decide (n > bb_used bb) then bb_used bb else n in
    Some (bb <| bb_used := sub64 (bb_used bb) n |>).

(** ** groupHeap implements heap.Interface *)

#[export] Instance groupHeap : HeapInterface ByteBudget gid := {
  Len bb := length (bb_blocked bb);
  Less bb i j :=
    gi ← bb_blocked bb !! i; gj ← bb_blocked bb !! j;
    ni ← groupNeed bb gi; nj ← groupNeed bb gj;
    Some (bool_decide (ni < nj));
  Swap bb i j :=
    gi ← bb_blocked bb !! i; gj ← bb_blocked bb !! j;
    let bb := bb <| bb_blocked := <[j := gi]> (<[i := gj]> (bb_blocked bb)) |> in
    bb ← modGroup gj (fun gr => gr <| g_heapIndex := Z.of_nat i |>) bb;
    modGroup gi (fun gr => gr <| g_heapIndex := Z.of_nat j |>) bb;
  Push bb g :=
    bb ← modGroup g (fun gr => gr <| g_heapIndex := Z.of_nat (length (bb_blocked bb)) |>) bb;
    Some (bb <| bb_blocked := bb_blocked bb ++ [g] |>);
  Pop bb :=
    g ← last (bb_blocked bb);
    let bb := bb <| bb_blocked := take (length (bb_blocked bb) - 1) (bb_blocked bb) |> in
    bb ← modGroup g (fun gr => gr <| g_heapIndex := -1 |>) bb;
    Some (g, bb);
}.

(** ** Scheduling indexes *)

(** [heap.Remove(&bb.blocked, g.heapIndex)], guarded by [g.heapIndex >= 0]. *)
Definition unblock (g : gid) (bb : ByteBudget) : option ByteBudget :=
  gr ← bb_groupOf bb !! g;
  if decide (g_heapIndex gr >= 0) then
    '(_, bb) ← heap_Remove bb (Z.to_nat (g_heapIndex gr)); Some bb
  else Some bb.

(** [waiting.Remove(g.allElem)] when it is non-nil. *)
Definition dropAll (g : gid) (bb : ByteBudget) : option ByteBudget :=
  gr ← bb_groupOf bb !! g;
  if g_allElem gr then
    modGroup g (fun gr => gr <| g_allElem := false |>) (bb <| bb_waiting ::= lremove g |>)
  else Some bb.

(** [reserveReady.Remove(g.reserveElem)] when it is non-nil. *)
Definition dropReserve (g : gid) (bb : ByteBudget) : option ByteBudget :=
  gr ← bb_groupOf bb !! g;
  if g_reserveElem gr then
    modGroup g (fun gr => gr <| g_reserveElem := false |>) (bb <| bb_reserveReady ::= lremove g |>)
  else Some bb.

(** [g.reserveElem = bb.reserveReady.PushBack(g)] *)
Definition pushReserve (g : gid) (bb : ByteBudget) : option ByteBudget :=
  modGroup g (fun gr => gr <| g_reserveElem := true |>) (bb <| bb_reserveReady := bb_reserveReady bb ++ [g] |>).

(** [groupNeed(g) <= bb.share(g)] *)
Definition eligible (g : gid) (bb : ByteBudget) : option bool :=
  need ← groupNeed bb g; share ← share g bb; Some (bool_decide (need <= share)).

Definition refreshLocked (g : gid) (bb : ByteBudget) : option ByteBudget :=
  gr ← bb_groupOf bb !! g;
  if decide (g_waiters gr = []) then
    bb ← dropAll g bb;
    bb ← dropReserve g bb;
    unblock g bb
  else
    bb ← (if g_allElem gr then Some bb
          else modGroup g (fun gr => gr <| g_allElem := true |>)
                 (bb <| bb_waiting := bb_waiting bb ++ [g] |>));
    el ← (if bb_fair bb then eligible g bb else Some true);
    if (el : bool) then
      bb ← unblock g bb;
      gr ← bb_groupOf bb !! g;
      if g_reserveElem gr then Some bb else pushReserve g bb
    else
      bb ← dropReserve g bb;
      gr ← bb_groupOf bb !! g;
      if decide (g_heapIndex gr < 0) then heap_Push bb g
      else heap_Fix bb (Z.to_nat (g_heapIndex gr)).

(** The first loop of [nextReserveLocked]: promote newly eligible heap heads. *)
Definition promote_body (bb : ByteBudget) : option (ByteBudget + ByteBudget) :=
  match bb_blocked bb with
  | [] => Some (inr bb)
  | g :: _ =>
      el ← eligible g bb;
      if (el : bool) then
        '(g, bb) ← heap_Pop bb;
        bb ← pushReserve g bb;
        Some (inl bb)
      else Some (inr bb)
  end.

(** The second loop: the first reserve-ready group that is still eligible. *)
Definition pick_body (bb : ByteBudget) : option (ByteBudget + (option gid * ByteBudget)) :=
  match bb_reserveReady bb with
  | [] => Some (inr (None, bb))
  | g :: _ =>
      el ← eligible g bb;
      if (el : bool) then Some (inr (Some g, bb))
      else bb ← refreshLocked g bb; Some (inl bb)
  end.

Definition nextReserveLocked (bb : ByteBudget) : option (option gid * ByteBudget) :=
  bb ← fuel_loop (S (length (bb_blocked bb))) promote_body bb;
  fuel_loop (S (length (bb_reserveReady bb))) pick_body bb.

Definition budgetQuantum : Z := 65536.

(** Grant: the waiter leaves the queue, is marked granted and is woken. *)
Definition grant (g : gid) (w : wid) (bb : ByteBudget) : option ByteBudget :=
  bb ← modGroup g (fun gr => gr <| g_waiters ::= lremove w |>) bb;
  bb ← modWaiter w (fun wr => wr <| w_elem := false |> <| w_granted := true |>) bb;
  wr ← bb_waiterOf bb !! w;
  closeChan (w_wake wr) bb.

(** Charge the credit to the group, give it to the waiter and
    grant the request once it is complete. *)
Definition giveCredit (credit : Z) (g : gid) (w : wid) (bb : ByteBudget) : option ByteBudget :=
  bb ← charge credit g false bb;
  bb ← modWaiter w (fun wr => wr <| w_credit ::= add64 credit |>) bb;
  wr ← bb_waiterOf bb !! w;
  if decide (w_credit wr = w_n wr) then grant g w bb else Some bb.

(** Refresh the group and move it to the back of both queues. *)
Definition rotate (g : gid) (bb : ByteBudget) : option ByteBudget :=
  bb ← refreshLocked g bb;
  gr ← bb_groupOf bb !! g;
  let bb := if g_allElem gr then bb <| bb_waiting ::= lmove_to_back g |> else bb in
  Some (if g_reserveElem gr then bb <| bb_reserveReady ::= lmove_to_back g |> else bb).

(** One turn of [scheduleLocked] for the chosen group [g]: lines 362-393. *)
Definition schedule_turn (g : gid) (base used : Z) (bb : ByteBudget) : option (ByteBudget + ByteBudget) :=
  gr ← bb_groupOf bb !! g;
  w ← head (g_waiters gr);
  wr ← bb_waiterOf bb !! w;
  room ← (if decide (bb_total bb = 0) then Some maxUint64
          else
            el ← (if bb_fair bb then eligible g bb else Some true);
            Some (if (el : bool) then sub64 (bb_total bb) used else base));
  let credit := sub64 (w_n wr) (w_credit wr) in
  let credit := if decide (credit > budgetQuantum) then budgetQuantum else credit in
  let credit := if decide (credit > room) then room else credit in
  if decide (credit = 0) then Some (inr bb)
  else
    bb ← giveCredit credit g w bb;
    bb ← rotate g bb;
    Some (inl bb).

(** The body of the [for bb.waiting.Len() != 0] loop. *)
Definition schedule_body (bb : ByteBudget) : option (ByteBudget + ByteBudget) :=
  match bb_waiting bb with
  | [] => Some (inr bb)
  | front :: _ =>
      let used := sub64 (bb_used bb) (bb_escape bb) in
      if decide (bb_total bb <> 0 /\ used >= bb_total bb) then Some (inr bb)
      else
        let base :=
          if decide (bb_total bb = 0) then maxUint64
          else if decide (used < sub64 (bb_total bb) (bb_reserve bb))
               then sub64 (sub64 (bb_total bb) (bb_reserve bb)) used
               else 0 in
        if decide (base <> 0 \/ bb_fair bb = false) then schedule_turn front base used bb
        else
          '(og, bb) ← nextReserveLocked bb;
          match og with
          | None => Some (inr bb)
          | Some g => schedule_turn g base used bb
          end
  end.

Definition scheduleLocked (bb : ByteBudget) : option ByteBudget := for_loop schedule_body bb.

(** ** The operations buffers call *)

Definition removeWaiterLocked (w : wid) (bb : ByteBudget) : option ByteBudget :=
  wr ← bb_waiterOf bb !! w;
  g ← w_group wr;
  bb ← (if w_elem wr then
          bb ← modGroup g (fun gr => gr <| g_waiters ::= lremove w |>) bb;
          modWaiter w (fun wr => wr <| w_elem := false |>) bb
        else Some bb);
  bb ← (if decide (w_credit wr <> 0) then
          bb ← releaseLocked (w_credit wr) 0 g bb;
          modWaiter w (fun wr => wr <| w_credit := 0 |>) bb
        else Some bb);
  bb ← modGroup g (fun gr => gr <| g_pending := sub64 (g_pending gr) 1 |>) bb;
  bb ← activateLocked g bb;
  bb ← unregisterLocked g bb;
  refreshLocked g bb.

(** The result of [reserveFor]: ok, overshot, used and the waiter to keep. *)
Record reservation := Reservation {
  r_ok : bool;
  r_overshot : bool;
  r_used : Z;
  r_waiter : option wid;
}.

(** Ungrouped admission. *)
Definition reserveLegacy (n : Z) (force : bool) (w : option wid) (bb : ByteBudget)
    : option (reservation * ByteBudget) :=
  let fits := bool_decide (bb_total bb = 0 \/
    (n <= bb_total bb /\ bb_used bb <= sub64 (bb_total bb) n)) in
  if fits || force then
    let bb := bb <| bb_used ::= add64 n |> in
    Some (Reservation true (negb fits) (bb_used bb) None, bb)
  else
    let bb := match bb_legacyWake bb with
              | Some _ => bb
              | None => let '(c, bb) := makeChan bb in bb <| bb_legacyWake := Some c |>
              end in
    let '(w, bb) := match w with
                    | Some w => (w, bb)
                    | None => (bb_next bb,
                        bb <| bb_waiterOf ::= <[bb_next bb := BudgetWaiter 0 0 None None false false]> |>
                           <| bb_next ::= S |>)
                    end in
    bb ← modWaiter w (fun wr => wr <| w_wake := bb_legacyWake bb |>) bb;
    Some (Reservation false false (bb_used bb) (Some w), bb).

(** A new waiter at the back of its group's queue. *)
Definition enqueue (n : Z) (g : gid) (bb : ByteBudget) : option (wid * ByteBudget) :=
  let '(c, bb) := makeChan bb in
  let w := bb_next bb in
  let bb := bb <| bb_waiterOf ::= <[w := BudgetWaiter n 0 (Some g) (Some c) true false]> |>
               <| bb_next ::= S |> in
  bb ← modGroup g (fun gr => gr <| g_waiters := g_waiters gr ++ [w] |>
                                <| g_pending ::= add64 1 |>) bb;
  bb ← (if bb_fair bb then modGroup g (fun gr => gr <| g_refs ::= add64 1 |>) bb else Some bb);
  bb ← activateLocked g bb;
  Some (w, bb).

(** Admission of a request that holds no waiter. *)
Definition reserveFresh (n : Z) (force removed : bool) (g : gid) (bb : ByteBudget)
    : option (reservation * ByteBudget) :=
  fits ← fits n g bb;
  gr ← bb_groupOf bb !! g;
  let queue := bool_decide (g_waiters gr <> []) in
  if (fits && negb queue) || force then
    let escaped := bb_fair bb && (negb fits || queue) in
    bb ← charge n g escaped bb;
    bb ← (if queue then refreshLocked g bb else Some bb);
    bb ← (if removed then scheduleLocked bb else Some bb);
    Some (Reservation true (negb fits || escaped) (bb_used bb) None, bb)
  else
    '(w, bb) ← enqueue n g bb;
    bb ← refreshLocked g bb;
    bb ← scheduleLocked bb;
    Some (Reservation false false (bb_used bb) (Some w), bb).

Definition reserveFor (n : Z) (force : bool) (g : option gid) (w : option wid) (bb : ByteBudget)
    : option (reservation * ByteBudget) :=
  if bb_fair bb then
    let g := group g in
    match w with
    | None => reserveFresh n force false g bb
    | Some w =>
        wr ← bb_waiterOf bb !! w;
        if w_granted wr then
          bb ← modGroup g (fun gr => gr <| g_pending := sub64 (g_pending gr) 1 |>) bb;
          bb ← activateLocked g bb;
          bb ← unregisterLocked g bb;
          Some (Reservation true false (bb_used bb) None, bb)
        else if force then
          bb ← removeWaiterLocked w bb;
          reserveFresh n force true g bb
        else Some (Reservation false false (bb_used bb) (Some w), bb)
    end
  else reserveLegacy n force w bb.

Definition cancel (w : option wid) (bb : ByteBudget) : option ByteBudget :=
  match w with
  | Some w =>
      if bb_fair bb then bb ← removeWaiterLocked w bb; scheduleLocked bb else Some bb
  | None => Some bb
  end.

Definition releaseFor (n escape : Z) (g : option gid) (bb : ByteBudget) : option ByteBudget :=
  if decide (n = 0) then Some bb
  else
    let g := group g in
    bb ← releaseLocked n escape g bb;
    if bb_fair bb then
      gr ← bb_groupOf bb !! g;
      bb ← (if decide (g_waiters gr = []) then Some bb else refreshLocked g bb);
      scheduleLocked bb
    else
      match bb_legacyWake bb with
      | Some c => bb ← closeChan (Some c) bb; Some (bb <| bb_legacyWake := None |>)
      | None => Some bb
      end.

Definition release (n : Z) (bb : ByteBudget) : option ByteBudget := releaseFor n 0 None bb.

(** Whether the wake channel of a waiter is closed, as its owner sees it in a select. *)
Definition wakeClosed (w : wid) (bb : ByteBudget) : bool :=
  match bb_waiterOf bb !! w with
  | Some wr => match w_wake wr with Some c => bool_decide (bb_chans bb !! c = Some true) | None => false end
  | None => false
  end.

(** Operations are unfolded by name only. *)
#[global] Arguments unregisterLocked : simpl never.
#[global] Arguments unregister : simpl never.
#[global] Arguments activateLocked : simpl never.
#[global] Arguments share : simpl never.
#[global] Arguments groupNeed : simpl never.
#[global] Arguments fits : simpl never.
#[global] Arguments charge : simpl never.
#[global] Arguments releaseLocked : simpl never.
#[global] Arguments unblock : simpl never.
#[global] Arguments dropAll : simpl never.
#[global] Arguments dropReserve : simpl never.
#[global] Arguments pushReserve : simpl never.
#[global] Arguments eligible : simpl never.
#[global] Arguments refreshLocked : simpl never.
#[global] Arguments nextReserveLocked : simpl never.
#[global] Arguments grant : simpl never.
#[global] Arguments giveCredit : simpl never.
#[global] Arguments rotate : simpl never.
#[global] Arguments schedule_turn : simpl never.
#[global] Arguments scheduleLocked : simpl never.
#[global] Arguments removeWaiterLocked : simpl never.
#[global] Arguments reserveLegacy : simpl never.
#[global] Arguments enqueue : simpl never.
#[global] Arguments reserveFresh : simpl never.
#[global] Arguments reserveFor : simpl never.
#[global] Arguments cancel : simpl never.
#[global] Arguments releaseFor : simpl never.
