(* ===== verification/BudgetIndex.v ===== *)
(** * The scheduling indexes of the byte budget

    [groupHeap] satisfies the laws of GoHeap.v, and [refreshLocked] restores the
    index invariant [idx]: a group is in [waiting] exactly when it has waiters,
    and then in exactly one of [reserveReady] and [blocked]; the stored list and
    heap positions agree with the lists; [blocked] is in heap order. *)

From S2P Require Import Prelude GoHeap ByteBudget.

(** ** Laws of groupHeap *)

(** Everything the heap methods leave alone. *)
Definition strip (bb : ByteBudget) : ByteBudget :=
  bb <| bb_blocked := [] |> <| bb_groupOf ::= fmap (fun gr => gr <| g_heapIndex := 0 |>) |>.

Definition same_strip (bb bb' : ByteBudget) : Prop := strip bb = strip bb'.

#[export] Instance same_strip_equiv : Equivalence same_strip.
Proof. unfold same_strip. split; [by intros ?|by intros ??|intros ???; apply eq_trans]. Qed.

(** Stored positions agree with the slice. *)
Record pos_ok (bb : ByteBudget) : Prop := {
  po_at k g : bb_blocked bb !! k = Some g ->
    exists gr, bb_groupOf bb !! g = Some gr /\ g_heapIndex gr = Z.of_nat k;
  po_neg g gr : bb_groupOf bb !! g = Some gr -> g ∉ bb_blocked bb -> g_heapIndex gr = -1;
}.

Lemma pos_ok_inj bb i j g :
  pos_ok bb -> bb_blocked bb !! i = Some g -> bb_blocked bb !! j = Some g -> i = j.
Proof.
  intros [Hat _] Hi Hj. apply Hat in Hi as (? & ? & ?). apply Hat in Hj as (? & ? & ?).
  simplify_eq. lia.
Qed.

Lemma strip_groupOf bb bb' g gr :
  same_strip bb bb' -> bb_groupOf bb !! g = Some gr ->
  exists gr', bb_groupOf bb' !! g = Some gr' /\ gr' <| g_heapIndex := 0 |> = gr <| g_heapIndex := 0 |>.
Proof.
  unfold same_strip. intros Hs Hg. assert (Hm : bb_groupOf (strip bb) !! g = bb_groupOf (strip bb') !! g) by (by rewrite Hs).
  unfold strip in Hm. simpl in Hm. rewrite !lookup_fmap, Hg in Hm. simpl in Hm.
  destruct (bb_groupOf bb' !! g) as [gr'|]; [|done]. exists gr'. split; [done|]. symmetry. by apply (inj Some).
Qed.

Lemma groupNeed_strip bb g : groupNeed (strip bb) g = groupNeed bb g.
Proof. unfold groupNeed, strip. simpl. rewrite lookup_fmap. by destruct (bb_groupOf bb !! g). Qed.

Lemma strip_modIndex bb g i :
  is_Some (bb_groupOf bb !! g) ->
  exists bb', modGroup g (fun gr => gr <| g_heapIndex := i |>) bb = Some bb' /\ same_strip bb' bb /\
    bb_blocked bb' = bb_blocked bb /\
    bb_groupOf bb' = alter (fun gr => gr <| g_heapIndex := i |>) g (bb_groupOf bb).
Proof.
  intros [gr Hg]. unfold modGroup. rewrite Hg. simpl. eexists. split; [done|].
  split; [|split; [done|]].
  - unfold same_strip. record_eq. simpl. apply map_eq. intros g'.
    rewrite !lookup_fmap. destruct (decide (g = g')) as [<-|]; simplify_map_eq; done.
  - simpl. apply map_eq. intros g'. rewrite lookup_alter.
    destruct (decide (g = g')) as [<-|]; simplify_map_eq; done.
Qed.

Lemma strip_blocked bb l : strip (bb <| bb_blocked := l |>) = strip bb.
Proof. done. Qed.

Lemma alter_index_lookup (m : gmap gid budgetGroup) g g' i gr :
  m !! g' = Some gr ->
  alter (fun gr : budgetGroup => gr <| g_heapIndex := i |>) g m !! g' =
    Some (if decide (g = g') then gr <| g_heapIndex := i |> else gr).
Proof. intros Hg. rewrite lookup_alter. case_decide; subst; by rewrite Hg. Qed.

Lemma groupHeap_Swap bb i j gi gj :
  pos_ok bb -> bb_blocked bb !! i = Some gi -> bb_blocked bb !! j = Some gj ->
  exists bb', Swap bb i j = Some bb' /\
    bb_blocked bb' = <[i:=gj]> (<[j:=gi]> (bb_blocked bb)) /\ pos_ok bb' /\ same_strip bb bb'.
Proof.
  intros Hpos Hi Hj. pose proof Hpos as [Hat Hneg]. simpl. rewrite Hi, Hj. simpl.
  destruct (Hat i gi Hi) as (gri & Hgi & _). destruct (Hat j gj Hj) as (grj & Hgj & _).
  set (bb0 := bb <| bb_blocked := <[j:=gi]> (<[i:=gj]> (bb_blocked bb)) |>).
  destruct (strip_modIndex bb0 gj (Z.of_nat i)) as (bb1 & -> & Hs1 & Hb1 & Hm1); [by exists grj|]. simpl.
  destruct (strip_modIndex bb1 gi (Z.of_nat j)) as (bb2 & -> & Hs2 & Hb2 & Hm2).
  { rewrite Hm1. subst bb0. simpl. rewrite (alter_index_lookup _ _ _ _ _ Hgi). by eexists. }
  exists bb2. split; [done|].
  assert (Hbl : bb_blocked bb2 = <[i:=gj]> (<[j:=gi]> (bb_blocked bb))).
  { rewrite Hb2, Hb1. subst bb0. simpl. destruct (decide (i = j)) as [->|].
    - simplify_eq. by rewrite !list_insert_insert_eq.
    - by rewrite list_insert_insert_ne. }
  split; [done|]. split; [|unfold same_strip in *; by rewrite Hs2, Hs1; subst bb0].
  assert (Hgr : forall g, bb_groupOf bb2 !! g =
    (fun gr => if decide (gi = g) then gr <| g_heapIndex := Z.of_nat j |>
       else if decide (gj = g) then gr <| g_heapIndex := Z.of_nat i |> else gr) <$> bb_groupOf bb !! g).
  { intros g. rewrite Hm2, Hm1. subst bb0. simpl. rewrite !lookup_alter.
    repeat case_decide; subst; destruct (bb_groupOf bb !! g); try done. }
  assert (Hlt := lookup_lt_Some _ _ _ Hi). assert (Hlt' := lookup_lt_Some _ _ _ Hj). split.
  - intros k g Hk. rewrite Hbl in Hk. rewrite Hgr.
    destruct (decide (k = i)) as [->|Hki].
    { rewrite list_lookup_insert_eq in Hk by (by rewrite length_insert). simplify_eq. rewrite Hgj. simpl.
      eexists. split; [done|]. case_decide; [|by rewrite decide_True].
      subst. simpl. f_equal. by eapply pos_ok_inj. }
    rewrite list_lookup_insert_ne in Hk by done. destruct (decide (k = j)) as [->|Hkj].
    { rewrite list_lookup_insert_eq in Hk by done. simplify_eq. rewrite Hgi. simpl.
      eexists. split; [done|]. by rewrite decide_True. }
    rewrite list_lookup_insert_ne in Hk by done. destruct (Hat k g Hk) as (gr & -> & Hix). simpl.
    eexists. split; [done|]. rewrite !decide_False; [done|..]; intros ->.
    + apply Hkj. by eapply pos_ok_inj.
    + apply Hki. by eapply pos_ok_inj.
  - intros g gr Hg Hn. rewrite Hbl, swap_perm in Hn by done. rewrite Hgr in Hg.
    destruct (bb_groupOf bb !! g) as [gr0|] eqn:Hg0; [|done]. simpl in Hg.
    rewrite !decide_False in Hg by (intros ->; apply Hn; by eapply list_elem_of_lookup_2).
    simplify_eq. by eapply Hneg.
Qed.

Lemma groupHeap_Push bb g :
  pos_ok bb -> is_Some (bb_groupOf bb !! g) -> g ∉ bb_blocked bb ->
  exists bb', Push bb g = Some bb' /\ bb_blocked bb' = bb_blocked bb ++ [g] /\ pos_ok bb' /\
    same_strip bb bb'.
Proof.
  intros [Hat Hneg] Hg Hn. simpl.
  destruct (strip_modIndex bb g (Z.of_nat (length (bb_blocked bb)))) as (bb1 & -> & Hs & Hb & Hm); [done|].
  destruct Hg as [gr0 Hg]. simpl. eexists. split; [done|]. simpl. rewrite Hb. split; [done|].
  split; [|unfold same_strip in *; by rewrite strip_blocked]. split; simpl.
  - intros k g' Hk. rewrite Hm. apply lookup_snoc_Some in Hk as [[Hlt Hk]|[-> <-]].
    + destruct (Hat k g' Hk) as (gr & Hgr & Hix). rewrite (alter_index_lookup _ _ _ _ _ Hgr).
      eexists. split; [done|]. rewrite decide_False; [done|]. intros ->.
      apply Hn. by eapply list_elem_of_lookup_2.
    + rewrite (alter_index_lookup _ _ _ _ _ Hg), decide_True by done. by eexists.
  - intros g' gr Hgr Hn'. rewrite elem_of_app, list_elem_of_singleton in Hn'.
    rewrite Hm, lookup_alter_ne in Hgr by naive_solver. eapply Hneg; naive_solver.
Qed.

Lemma groupHeap_Pop bb l g :
  pos_ok bb -> bb_blocked bb = l ++ [g] ->
  exists bb', Pop bb = Some (g, bb') /\ bb_blocked bb' = l /\ pos_ok bb' /\ same_strip bb bb'.
Proof.
  intros Hpos Hl. pose proof Hpos as [Hat Hneg]. simpl. rewrite Hl, last_snoc. simpl.
  rewrite length_app, Nat.add_sub, take_app_length.
  destruct (Hat (length l) g) as (gr0 & Hg & _); [rewrite Hl; by apply list_lookup_middle|].
  destruct (strip_modIndex (bb <| bb_blocked := l |>) g (-1)) as (bb1 & -> & Hs & Hb & Hm); [by exists gr0|].
  simpl in *. eexists. split; [done|]. split; [done|]. split; [|unfold same_strip in *; by rewrite Hs].
  assert (Hgl : g ∉ l).
  { intros [i Hi]%list_elem_of_lookup_1. assert (i = length l); [|apply lookup_lt_Some in Hi; lia].
    eapply (pos_ok_inj bb); [done|rewrite Hl|rewrite Hl; by apply list_lookup_middle].
    by apply lookup_app_l_Some. }
  split; rewrite Hb.
  - intros k g' Hk. destruct (Hat k g') as (gr & Hgr & Hix); [rewrite Hl; by apply lookup_app_l_Some|].
    exists gr. rewrite Hm, (alter_index_lookup _ _ _ _ _ Hgr), decide_False; [done|].
    intros ->. apply Hgl. by eapply list_elem_of_lookup_2.
  - intros g' gr Hgr Hn. rewrite Hm in Hgr. destruct (decide (g = g')) as [<-|Hne].
    + rewrite (alter_index_lookup _ _ _ _ _ Hg), decide_True in Hgr by done. by simplify_eq.
    + rewrite lookup_alter_ne in Hgr by done. eapply Hneg; [done|].
      rewrite Hl, elem_of_app, list_elem_of_singleton. naive_solver.
Qed.

Lemma groupHeap_Less bb i j gi gj ni nj :
  bb_blocked bb !! i = Some gi -> bb_blocked bb !! j = Some gj ->
  groupNeed bb gi = Some ni -> groupNeed bb gj = Some nj ->
  Less bb i j = Some (bool_decide (ni < nj)).
Proof.
  intros Hi Hj Hni Hnj. unfold Less, groupHeap. rewrite Hi, Hj. cbn [mbind option_bind].
  by rewrite Hni, Hnj.
Qed.

#[export] Program Instance groupHeap_laws : HeapLaws ByteBudget gid := {
  view := bb_blocked;
  key := groupNeed;
  hvalid bb g := is_Some (bb_groupOf bb !! g);
  hinv := pos_ok;
  hframe bb bb' := same_strip bb bb';
}.
Next Obligation. intros bb bb' g Hs. simpl. unfold same_strip in Hs. by rewrite <-groupNeed_strip, <-Hs, groupNeed_strip. Qed.
Next Obligation. done. Qed.
Next Obligation. apply groupHeap_Less. Qed.
Next Obligation. apply groupHeap_Swap. Qed.
Next Obligation. apply groupHeap_Push. Qed.
Next Obligation. apply groupHeap_Pop. Qed.

Lemma view_blocked (bb : ByteBudget) : view bb = bb_blocked bb.
Proof. done. Qed.

Lemma key_need (bb : ByteBudget) : key bb = groupNeed bb.
Proof. done. Qed.

(** ** The index invariant *)

(** The state without its index structures: what [refreshLocked] preserves. *)
Definition unindexed (gr : budgetGroup) : budgetGroup :=
  gr <| g_allElem := false |> <| g_reserveElem := false |> <| g_heapIndex := 0 |>.

Definition core (bb : ByteBudget) : ByteBudget :=
  bb <| bb_waiting := [] |> <| bb_reserveReady := [] |> <| bb_blocked := [] |>
     <| bb_groupOf ::= fmap unindexed |>.

Definition same_core (bb bb' : ByteBudget) : Prop := core bb = core bb'.

#[export] Instance same_core_equiv : Equivalence same_core.
Proof. unfold same_core. split; [by intros ?|by intros ??|intros ???; apply eq_trans]. Qed.

(** List and flag agreement, for every group. *)
Record flags_ok (bb : ByteBudget) : Prop := {
  fl_waiting_nd : NoDup (bb_waiting bb);
  fl_ready_nd : NoDup (bb_reserveReady bb);
  fl_waiting_dom g : g ∈ bb_waiting bb -> is_Some (bb_groupOf bb !! g);
  fl_ready_dom g : g ∈ bb_reserveReady bb -> is_Some (bb_groupOf bb !! g);
  fl_group g gr : bb_groupOf bb !! g = Some gr ->
    (g ∈ bb_waiting bb <-> g_allElem gr = true) /\
    (g ∈ bb_reserveReady bb <-> g_reserveElem gr = true) /\
    (g_reserveElem gr = true -> g ∉ bb_blocked bb);
}.

(** The index entries of group [g] match its queue. *)
Definition linked (bb : ByteBudget) (g : gid) : Prop :=
  forall gr, bb_groupOf bb !! g = Some gr ->
    (g_allElem gr = true <-> g_waiters gr <> []) /\
    (g_waiters gr <> [] <-> g_reserveElem gr = true \/ g ∈ bb_blocked bb).

Record idx (bb : ByteBudget) : Prop := {
  ix_flags : flags_ok bb;
  ix_linked g : linked bb g;
  ix_heap : is_heap bb;
}.

(** The invariant except for the queue and the need of group [x]. *)
Record idx_but (x : gid) (bb : ByteBudget) : Prop := {
  ib_flags : flags_ok bb;
  ib_linked g : g <> x -> linked bb g;
  ib_heap : x ∉ bb_blocked bb -> is_heap bb;
  ib_around i : bb_blocked bb !! i = Some x -> heap_around bb i;
}.

Lemma idx_idx_but x bb : idx bb -> idx_but x bb.
Proof. intros []. split; auto. intros. by apply is_heap_around. Qed.

Lemma idx_but_pos x bb : idx_but x bb -> pos_ok bb.
Proof.
  intros [_ _ Hh Ha]. destruct (decide (x ∈ bb_blocked bb)) as [[i Hi]%list_elem_of_lookup_1|Hn].
  - by destruct (Ha i Hi).
  - by destruct (Hh Hn).
Qed.

Lemma idx_but_done x bb y :
  idx_but x bb -> linked bb x -> (x ∈ bb_blocked bb -> groupNeed bb x = Some y /\ is_heap bb) -> idx bb.
Proof.
  intros [Hf Hl Hh _] Hx Hb. split; [done| |].
  - intros g. destruct (decide (g = x)) as [->|]; auto.
  - destruct (decide (x ∈ bb_blocked bb)); [by apply Hb|auto].
Qed.

Lemma Kpos_ext bb bb' i :
  bb_blocked bb' = bb_blocked bb ->
  (forall g, bb_blocked bb !! i = Some g -> groupNeed bb' g = groupNeed bb g) -> Kpos bb' i = Kpos bb i.
Proof.
  intros Hb Hk. unfold Kpos. rewrite !view_blocked, !key_need, Hb.
  destruct (bb_blocked bb !! i) as [g|]; simpl; [|done]. by rewrite (Hk g).
Qed.

(** [bb'] may differ from [bb] in the queue, the accounts and the flags outside
    the heap of group [x], and in the accounts of the others. *)
Record same_heap (x : gid) (bb bb' : ByteBudget) : Prop := {
  sh_blocked : bb_blocked bb' = bb_blocked bb;
  sh_index g : g_heapIndex <$> bb_groupOf bb' !! g = g_heapIndex <$> bb_groupOf bb !! g;
  sh_need g : g <> x -> groupNeed bb' g = groupNeed bb g;
}.

Lemma pos_ok_same x bb bb' : same_heap x bb bb' -> pos_ok bb -> pos_ok bb'.
Proof.
  intros [Hb Hi _] [Hat Hneg]. split; rewrite Hb.
  - intros k g Hk. destruct (Hat k g Hk) as (gr & Hgr & Hix). specialize (Hi g).
    rewrite Hgr in Hi. simpl in Hi. destruct (bb_groupOf bb' !! g) as [gr'|]; [|done].
    exists gr'. split; [done|]. assert (g_heapIndex gr' = g_heapIndex gr) as -> by (by apply (inj Some)). done.
  - intros g gr Hg Hn. specialize (Hi g). rewrite Hg in Hi. simpl in Hi.
    destruct (bb_groupOf bb !! g) as [gr0|] eqn:Hg0; [|done].
    assert (g_heapIndex gr = g_heapIndex gr0) as -> by (by apply (inj Some)). by eapply Hneg.
Qed.

Lemma heap_parts_same x bb bb' :
  same_heap x bb bb' -> (x ∉ bb_blocked bb -> is_heap bb) ->
  (forall i, bb_blocked bb !! i = Some x -> heap_around bb i) ->
  (x ∉ bb_blocked bb' -> is_heap bb') /\ (forall i, bb_blocked bb' !! i = Some x -> heap_around bb' i).
Proof.
  intros Hs Hh Ha. pose proof Hs as [Hb _ Hk]. rewrite Hb.
  assert (Hv : view bb' = view bb) by exact Hb. split.
  - intros Hn. destruct (Hh Hn) as [Hp Hkd Hok].
    assert (Hne : forall i g, bb_blocked bb !! i = Some g -> g <> x).
    { intros i g Hg ->. apply Hn. by eapply list_elem_of_lookup_2. }
    split; rewrite ?Hv.
    + by eapply pos_ok_same.
    + intros i Hi. destruct (Hkd i Hi) as (g & y & Hg & Hy). exists g, y.
      rewrite Hv, key_need, Hk by eauto. done.
    + eapply heap_ok_ext; [|done]. intros i Hi. apply Kpos_ext; [done|]. eauto.
  - intros i Hi. destruct (Ha i Hi) as [Hp Hkd Hok].
    assert (Hne : forall j g, bb_blocked bb !! j = Some g -> j <> i -> g <> x).
    { intros j g Hg Hji ->. apply Hji. by eapply pos_ok_inj. }
    split; rewrite ?Hv.
    + by eapply pos_ok_same.
    + intros j Hj Hlt. destruct (Hkd j Hj Hlt) as (g & y & Hg & Hy). exists g, y.
      rewrite key_need, Hk by eauto. done.
    + eapply around_ok_ext; [|  |exact Hok]; [done|]. intros j Hj Hji. apply Kpos_ext; [done|]. eauto.
Qed.

(** Changing only the accounts and the queue of [x] keeps [idx_but x]. *)
Lemma idx_but_frame x bb bb' gr gr' :
  idx_but x bb ->
  bb_groupOf bb !! x = Some gr -> bb_groupOf bb' = <[x := gr']> (bb_groupOf bb) ->
  g_allElem gr' = g_allElem gr -> g_reserveElem gr' = g_reserveElem gr ->
  g_heapIndex gr' = g_heapIndex gr ->
  bb_waiting bb' = bb_waiting bb -> bb_reserveReady bb' = bb_reserveReady bb ->
  bb_blocked bb' = bb_blocked bb -> (forall g, g <> x -> groupNeed bb' g = groupNeed bb g) ->
  idx_but x bb'.
Proof.
  intros [[Hf1 Hf2 Hf3 Hf4 Hf5] Hl Hh Ha] Hx Hm Hall Hres Hix Hw Hr Hb Hneed.
  assert (Hs : same_heap x bb bb').
  { split; [done| |done]. intros g. rewrite Hm. destruct (decide (g = x)) as [->|]; simplify_map_eq; [|done].
    exact (f_equal Some Hix). }
  destruct (heap_parts_same x bb bb') as [Hh' Ha']; [done..|]. split; [split| |done|done].
  - by rewrite Hw.
  - by rewrite Hr.
  - intros g. rewrite Hw, Hm. intros Hg. destruct (decide (g = x)) as [->|]; simplify_map_eq; [done|auto].
  - intros g. rewrite Hr, Hm. intros Hg. destruct (decide (g = x)) as [->|]; simplify_map_eq; [done|auto].
  - intros g grx Hg. rewrite Hw, Hr, Hb. rewrite Hm in Hg.
    destruct (decide (g = x)) as [->|]; simplify_map_eq; [|auto]. rewrite Hall, Hres. auto.
  - intros g Hg grx Hgr. rewrite Hb. rewrite Hm in Hgr. simplify_map_eq. by apply (Hl g).
Qed.

(** ** [core] and what it determines *)

Lemma core_strip bb : core (strip bb) = core bb.
Proof.
  unfold core, strip. record_eq. simpl. apply map_eq. intros g.
  rewrite !lookup_fmap. by destruct (bb_groupOf bb !! g).
Qed.

Lemma strip_eq_core bb bb' : same_strip bb bb' -> same_core bb bb'.
Proof. unfold same_strip, same_core. intros Hs. by rewrite <-(core_strip bb), Hs, core_strip. Qed.

Lemma core_lookup bb bb' g gr :
  same_core bb bb' -> bb_groupOf bb !! g = Some gr ->
  exists gr', bb_groupOf bb' !! g = Some gr' /\ unindexed gr' = unindexed gr.
Proof.
  unfold same_core. intros Hc Hg. assert (Hm : bb_groupOf (core bb') !! g = bb_groupOf (core bb) !! g) by (by rewrite Hc).
  simpl in Hm. rewrite !lookup_fmap, Hg in Hm. simpl in Hm.
  destruct (bb_groupOf bb' !! g) as [gr'|]; [|done]. exists gr'. split; [done|]. by apply (inj Some).
Qed.

Lemma groupNeed_core bb bb' g : same_core bb bb' -> groupNeed bb' g = groupNeed bb g.
Proof.
  unfold same_core. intros Hc.
  assert (Hn : forall b, groupNeed (core b) g = groupNeed b g); [|by rewrite <-Hn, <-Hc].
  intros b. unfold groupNeed. simpl. rewrite lookup_fmap. by destruct (bb_groupOf b !! g).
Qed.

Lemma share_core bb bb' g : same_core bb bb' -> share g bb' = share g bb.
Proof.
  unfold same_core. intros Hc.
  assert (Hn : forall b, share g (core b) = share g b); [|by rewrite <-Hn, <-Hc].
  intros b. unfold share. simpl. rewrite lookup_fmap. by destruct (bb_groupOf b !! g).
Qed.

Lemma eligible_core bb bb' g : same_core bb bb' -> eligible g bb' = eligible g bb.
Proof. intros Hc. unfold eligible. by rewrite (groupNeed_core _ _ _ Hc), (share_core _ _ _ Hc). Qed.

(** ** The steps of [refreshLocked] *)

(** A flag of group [x] changes together with the matching list. *)
Lemma core_modFlag bb x gr f w r b :
  bb_groupOf bb !! x = Some gr -> unindexed (f gr) = unindexed gr ->
  core (bb <| bb_waiting := w |> <| bb_reserveReady := r |> <| bb_blocked := b |>
           <| bb_groupOf ::= <[x := f gr]> |>) = core bb.
Proof.
  intros Hx Hf. unfold core. record_eq. simpl. apply map_eq. intros g. rewrite !lookup_fmap.
  destruct (decide (g = x)) as [->|].
  - rewrite lookup_insert_eq, Hx. cbn. by rewrite Hf.
  - by rewrite lookup_insert_ne.
Qed.

Lemma strip_flags bb bb' g gr :
  same_strip bb bb' -> bb_groupOf bb' !! g = Some gr ->
  exists gr0, bb_groupOf bb !! g = Some gr0 /\ g_allElem gr0 = g_allElem gr /\
    g_reserveElem gr0 = g_reserveElem gr /\ g_waiters gr0 = g_waiters gr.
Proof.
  intros Hs Hg. destruct (strip_groupOf bb' bb g gr) as (gr0 & Hg0 & He); [by symmetry|done|].
  exists gr0. split; [done|].
  by repeat split; [apply (f_equal g_allElem) in He|apply (f_equal g_reserveElem) in He|
    apply (f_equal g_waiters) in He].
Qed.

(** The heap operations keep [idx_but x] when they only move [x] in or out. *)
Lemma idx_but_strip x bb bb' gr :
  idx_but x bb -> same_strip bb bb' ->
  (forall g, g <> x -> g ∈ bb_blocked bb' <-> g ∈ bb_blocked bb) ->
  bb_groupOf bb !! x = Some gr -> (x ∈ bb_blocked bb' -> g_reserveElem gr = false) ->
  is_heap bb' -> idx_but x bb'.
Proof.
  intros [[Hf1 Hf2 Hf3 Hf4 Hf5] Hl _ _] Hs Hb Hx Hxr Hh.
  assert (Hw : bb_waiting bb' = bb_waiting bb) by (symmetry; apply (f_equal bb_waiting Hs)).
  assert (Hr : bb_reserveReady bb' = bb_reserveReady bb) by (symmetry; apply (f_equal bb_reserveReady Hs)).
  assert (Hdom : forall g, is_Some (bb_groupOf bb !! g) -> is_Some (bb_groupOf bb' !! g)).
  { intros g [gr0 Hg]. destruct (strip_groupOf bb bb' g gr0) as (gr1 & ? & _); eauto. }
  split; [split| |done|intros; by apply is_heap_around]; rewrite ?Hw, ?Hr; auto.
  - intros g gr1 Hg. destruct (strip_flags bb bb' g gr1) as (gr0 & Hg0 & Ha & Hre & _); [done..|].
    destruct (Hf5 g gr0 Hg0) as (F1 & F2 & F3). rewrite Ha, Hre in *. split; [done|]. split; [done|].
    intros Ht Hin. destruct (decide (g = x)) as [->|Hgx].
    + simplify_eq. rewrite Hxr in Hre by done. congruence.
    + apply (F3 Ht). by apply Hb.
  - intros g Hgx gr1 Hg. destruct (strip_flags bb bb' g gr1) as (gr0 & Hg0 & Ha & Hre & Hwt); [done..|].
    rewrite Hb by done. destruct (Hl g Hgx gr0 Hg0) as [L1 L2]. by rewrite <-Ha, <-Hre, <-Hwt.
Qed.

Section steps.
Context (x : gid) (bb : ByteBudget) (gr : budgetGroup).
Context (Hix : idx_but x bb) (Hx : bb_groupOf bb !! x = Some gr).

(** The heap and the other groups do not see a change of the list flags of [x]. *)
Lemma modFlag_same f w r :
  g_heapIndex (f gr) = g_heapIndex gr ->
  let bb' := bb <| bb_waiting := w |> <| bb_reserveReady := r |> <| bb_groupOf ::= <[x := f gr]> |> in
  same_heap x bb bb'.
Proof.
  intros Hf bb'. split; [done| |].
  - intros g. subst bb'. simpl. destruct (decide (g = x)) as [->|]; simplify_map_eq; [exact (f_equal Some Hf)|done].
  - intros g Hgx. subst bb'. unfold groupNeed. simpl. by rewrite lookup_insert_ne.
Qed.

Lemma modFlag_idx_but f w r :
  unindexed (f gr) = unindexed gr -> g_heapIndex (f gr) = g_heapIndex gr ->
  NoDup w -> NoDup r ->
  (forall g, g <> x -> g ∈ w <-> g ∈ bb_waiting bb) ->
  (forall g, g <> x -> g ∈ r <-> g ∈ bb_reserveReady bb) ->
  (x ∈ w <-> g_allElem (f gr) = true) -> (x ∈ r <-> g_reserveElem (f gr) = true) ->
  (g_reserveElem (f gr) = true -> x ∉ bb_blocked bb) ->
  let bb' := bb <| bb_waiting := w |> <| bb_reserveReady := r |> <| bb_groupOf ::= <[x := f gr]> |> in
  idx_but x bb' /\ same_core bb bb'.
Proof.
  intros Hu Hi Hw Hr Hw' Hr' Hxw Hxr Hxb bb'. split.
  2: { symmetry. etrans; [|apply (core_modFlag bb x gr f w r (bb_blocked bb) Hx Hu)]. reflexivity. }
  pose proof Hix as [[Hf1 Hf2 Hf3 Hf4 Hf5] Hl Hh Ha].
  destruct (heap_parts_same x bb bb') as [Hh' Ha']; [by apply modFlag_same|done|done|].
  split; [split| |done|done]; simpl.
  - done.
  - done.
  - intros g Hg. destruct (decide (g = x)) as [->|Hgx]; simplify_map_eq; [done|]. apply Hf3. by apply Hw'.
  - intros g Hg. destruct (decide (g = x)) as [->|Hgx]; simplify_map_eq; [done|]. apply Hf4. by apply Hr'.
  - intros g gr0 Hg. destruct (decide (g = x)) as [->|Hgx]; simplify_map_eq; [by auto|].
    rewrite Hw', Hr' by done. auto.
  - intros g Hgx gr0 Hg. simpl in Hg. simplify_map_eq. by apply (Hl g Hgx).
Qed.

Lemma dropAll_spec :
  exists bb' gr', dropAll x bb = Some bb' /\ idx_but x bb' /\ same_core bb bb' /\
    bb_groupOf bb' !! x = Some gr' /\ g_allElem gr' = false /\
    g_reserveElem gr' = g_reserveElem gr /\ bb_reserveReady bb' = bb_reserveReady bb /\
    bb_blocked bb' = bb_blocked bb.
Proof.
  pose proof (ib_flags _ _ Hix) as [Hf1 Hf2 _ _ Hf5]. destruct (Hf5 x gr Hx) as (F1 & F2 & F3).
  unfold dropAll. rewrite Hx. simpl. destruct (g_allElem gr) eqn:Hall; [|by exists bb, gr].
  unfold modGroup. simpl. rewrite Hx. simpl.
  destruct (modFlag_idx_but (fun gr => gr <| g_allElem := false |>)
    (lremove x (bb_waiting bb)) (bb_reserveReady bb)) as [H1 H2];
    [done|done|by apply NoDup_lremove|done| |done| |done|done|].
  { intros g Hg. rewrite elem_of_lremove by done. tauto. }
  { rewrite elem_of_lremove by done. simpl. split; [by intros []|done]. }
  eexists _, _. split; [reflexivity|]. split; [exact H1|]. split; [exact H2|].
  simpl. rewrite lookup_insert_eq. done.
Qed.

Lemma dropReserve_spec :
  exists bb' gr', dropReserve x bb = Some bb' /\ idx_but x bb' /\ same_core bb bb' /\
    bb_groupOf bb' !! x = Some gr' /\ g_reserveElem gr' = false /\
    g_allElem gr' = g_allElem gr /\ bb_reserveReady bb' = lremove x (bb_reserveReady bb) /\
    bb_blocked bb' = bb_blocked bb.
Proof.
  pose proof (ib_flags _ _ Hix) as [Hf1 Hf2 _ _ Hf5]. destruct (Hf5 x gr Hx) as (F1 & F2 & F3).
  unfold dropReserve. rewrite Hx. simpl. destruct (g_reserveElem gr) eqn:Hres.
  2: { exists bb, gr. rewrite lremove_notin; [done|]. rewrite F2. done. }
  unfold modGroup. simpl. rewrite Hx. simpl.
  destruct (modFlag_idx_but (fun gr => gr <| g_reserveElem := false |>)
    (bb_waiting bb) (lremove x (bb_reserveReady bb))) as [H1 H2];
    [done|done|done|by apply NoDup_lremove|done| |done| |done|].
  { intros g Hg. rewrite elem_of_lremove by done. tauto. }
  { rewrite elem_of_lremove by done. simpl. split; [by intros []|done]. }
  eexists _, _. split; [reflexivity|]. split; [exact H1|]. split; [exact H2|].
  simpl. rewrite lookup_insert_eq. done.
Qed.

Lemma pushAll_spec :
  g_allElem gr = false ->
  exists bb' gr', modGroup x (fun gr => gr <| g_allElem := true |>)
      (bb <| bb_waiting := bb_waiting bb ++ [x] |>) = Some bb' /\
    idx_but x bb' /\ same_core bb bb' /\ bb_groupOf bb' !! x = Some gr' /\ g_allElem gr' = true /\
    g_reserveElem gr' = g_reserveElem gr /\ bb_reserveReady bb' = bb_reserveReady bb.
Proof.
  intros Hall. pose proof (ib_flags _ _ Hix) as [Hf1 Hf2 _ _ Hf5].
  destruct (Hf5 x gr Hx) as (F1 & F2 & F3). rewrite Hall in F1.
  unfold modGroup. simpl. rewrite Hx. simpl.
  destruct (modFlag_idx_but (fun gr => gr <| g_allElem := true |>)
    (bb_waiting bb ++ [x]) (bb_reserveReady bb)) as [H1 H2]; [done|done| |done| |done| |done|done|].
  { apply NoDup_app. split; [done|]. split; [|apply NoDup_singleton].
    intros g Hg ->%list_elem_of_singleton. by apply F1 in Hg. }
  { intros g Hg. rewrite elem_of_app, list_elem_of_singleton. tauto. }
  { rewrite elem_of_app, list_elem_of_singleton. simpl. tauto. }
  eexists _, _. split; [reflexivity|]. split; [exact H1|]. split; [exact H2|].
  simpl. rewrite lookup_insert_eq. done.
Qed.

Lemma pushReserve_spec :
  g_reserveElem gr = false -> x ∉ bb_blocked bb ->
  exists bb' gr', pushReserve x bb = Some bb' /\ idx_but x bb' /\ same_core bb bb' /\
    bb_groupOf bb' !! x = Some gr' /\ g_reserveElem gr' = true /\
    g_allElem gr' = g_allElem gr /\ bb_blocked bb' = bb_blocked bb /\
    bb_reserveReady bb' = bb_reserveReady bb ++ [x].
Proof.
  intros Hres Hnb. pose proof (ib_flags _ _ Hix) as [Hf1 Hf2 _ _ Hf5].
  destruct (Hf5 x gr Hx) as (F1 & F2 & F3). rewrite Hres in F2.
  unfold pushReserve, modGroup. simpl. rewrite Hx. simpl.
  destruct (modFlag_idx_but (fun gr => gr <| g_reserveElem := true |>)
    (bb_waiting bb) (bb_reserveReady bb ++ [x])) as [H1 H2]; [done|done|done| |done| |done| |done|].
  { apply NoDup_app. split; [done|]. split; [|apply NoDup_singleton].
    intros g Hg ->%list_elem_of_singleton. by apply F2 in Hg. }
  { intros g Hg. rewrite elem_of_app, list_elem_of_singleton. tauto. }
  { rewrite elem_of_app, list_elem_of_singleton. simpl. tauto. }
  eexists _, _. split; [reflexivity|]. split; [exact H1|]. split; [exact H2|].
  simpl. rewrite lookup_insert_eq. done.
Qed.

Lemma unblock_spec :
  exists bb' gr', unblock x bb = Some bb' /\ idx_but x bb' /\ same_core bb bb' /\
    bb_groupOf bb' !! x = Some gr' /\ g_allElem gr' = g_allElem gr /\
    g_reserveElem gr' = g_reserveElem gr /\ bb_reserveReady bb' = bb_reserveReady bb /\
    x ∉ bb_blocked bb'.
Proof.
  unfold unblock. rewrite Hx. simpl. pose proof (idx_but_pos _ _ Hix) as Hpos.
  destruct (decide (x ∈ bb_blocked bb)) as [[i Hi]%list_elem_of_lookup_1|Hn].
  2: { rewrite (po_neg _ Hpos x gr) by done. rewrite decide_False by lia. by exists bb, gr. }
  destruct (po_at _ Hpos i x Hi) as (gr0 & ? & Hgi). simplify_eq. rewrite Hgi, decide_True, Nat2Z.id by lia.
  destruct (heap_Remove_spec bb i x) as (bb' & -> & Hf & Hp & Hh); [by apply (ib_around _ _ Hix)|done|].
  simpl in Hf, Hp. cbn [mbind option_bind].
  destruct (strip_groupOf bb bb' x gr) as (gr' & Hgr' & He); [done|done|].
  exists bb', gr'. split; [done|].
  assert (Hnd : NoDup (bb_blocked bb)).
  { apply NoDup_alt. intros i' j' g' Hi' Hj'. by eapply pos_ok_inj. }
  rewrite <-Hp in Hnd. apply NoDup_cons in Hnd as [Hnx _]. split.
  { apply (idx_but_strip x bb bb' gr); [done|done| |done|done|done].
    intros g Hg. rewrite <-Hp, elem_of_cons. naive_solver. }
  split; [by apply strip_eq_core|]. split; [done|].
  split; [by apply (f_equal g_allElem) in He|]. split; [by apply (f_equal g_reserveElem) in He|].
  split; [symmetry; apply (f_equal bb_reserveReady Hf)|done].
Qed.

(** The two ways a group whose need is known ends up in the heap. *)
Lemma block_spec y :
  g_reserveElem gr = false -> groupNeed bb x = Some y ->
  exists bb' gr', (if decide (g_heapIndex gr < 0) then heap_Push bb x
                   else heap_Fix bb (Z.to_nat (g_heapIndex gr))) = Some bb' /\
    idx_but x bb' /\ same_core bb bb' /\ bb_groupOf bb' !! x = Some gr' /\
    g_allElem gr' = g_allElem gr /\ g_reserveElem gr' = false /\
    bb_reserveReady bb' = bb_reserveReady bb /\ x ∈ bb_blocked bb' /\ is_heap bb'.
Proof.
  intros Hres Hy. pose proof (idx_but_pos _ _ Hix) as Hpos.
  assert (Hgoal : forall bb', same_strip bb bb' -> is_heap bb' ->
    (forall g, g ∈ bb_blocked bb' <-> g = x \/ g ∈ bb_blocked bb) ->
    exists gr', idx_but x bb' /\ same_core bb bb' /\ bb_groupOf bb' !! x = Some gr' /\
      g_allElem gr' = g_allElem gr /\ g_reserveElem gr' = false /\
      bb_reserveReady bb' = bb_reserveReady bb /\ x ∈ bb_blocked bb' /\ is_heap bb').
  { intros bb' Hs Hh Hin. destruct (strip_groupOf bb bb' x gr) as (gr' & Hgr' & He); [done|done|].
    exists gr'. split.
    { apply (idx_but_strip x bb bb' gr); try done. intros g Hg. rewrite Hin. naive_solver. }
    split; [by apply strip_eq_core|]. split; [done|].
    split; [by apply (f_equal g_allElem) in He|].
    split; [apply (f_equal g_reserveElem) in He; simpl in He; congruence|].
    split; [symmetry; apply (f_equal bb_reserveReady Hs)|]. split; [apply Hin; by left|done]. }
  destruct (decide (x ∈ bb_blocked bb)) as [Hin|Hn].
  - pose proof Hin as [i Hi]%list_elem_of_lookup_1.
    destruct (po_at _ Hpos i x Hi) as (gr0 & ? & Hgi). simplify_eq. rewrite Hgi, decide_False, Nat2Z.id by lia.
    destruct (heap_Fix_spec bb i y x) as (bb' & -> & Hf & Hp & Hh); [by apply (ib_around _ _ Hix)|done|done|].
    simpl in Hf, Hp. destruct (Hgoal bb') as (gr' & Hg'); [done|done| |by exists bb', gr'].
    intros g. rewrite Hp. split; [by right|]. by intros [->|?].
  - rewrite (po_neg _ Hpos x gr) by done. rewrite decide_True by lia.
    destruct (heap_Push_spec bb x y) as (bb' & -> & Hf & Hp & Hh);
      [by apply (ib_heap _ _ Hix)|by exists gr|done|done|].
    simpl in Hf, Hp. destruct (Hgoal bb') as (gr' & Hg'); [done|done| |by exists bb', gr'].
    intros g. by rewrite Hp, elem_of_cons.
Qed.
End steps.

Lemma core_waiters bb bb' x gr gr' :
  same_core bb bb' -> bb_groupOf bb !! x = Some gr -> bb_groupOf bb' !! x = Some gr' ->
  g_waiters gr' = g_waiters gr.
Proof.
  intros Hc Hg Hg'. destruct (core_lookup bb bb' x gr Hc Hg) as (gr1 & ? & Hu).
  assert (gr1 = gr') as -> by congruence. by apply (f_equal g_waiters) in Hu.
Qed.

(** [refreshLocked] on a group without waiters. *)
Lemma refresh_empty x bb gr :
  idx_but x bb -> bb_groupOf bb !! x = Some gr -> g_waiters gr = [] ->
  exists bb', refreshLocked x bb = Some bb' /\ idx bb' /\ same_core bb bb'.
Proof.
  intros Hix Hx Hw. unfold refreshLocked. rewrite Hx. simpl. rewrite decide_True by done.
  destruct (dropAll_spec x bb gr) as (b1 & g1 & -> & Hix1 & Hc1 & Hx1 & Ha1 & Hr1 & _); [done..|]. simpl.
  destruct (dropReserve_spec x b1 g1) as (b2 & g2 & -> & Hix2 & Hc2 & Hx2 & Hr2 & Ha2 & _); [done..|]. simpl.
  destruct (unblock_spec x b2 g2) as (b3 & g3 & -> & Hix3 & Hc3 & Hx3 & Ha3 & Hr3 & _ & Hnb); [done..|].
  assert (Hc : same_core bb b3) by (by rewrite Hc1, Hc2).
  exists b3. split; [done|]. split; [|done]. apply (idx_but_done x b3 0 Hix3); [|done].
  intros gr' Hg'. simplify_eq. rewrite (core_waiters _ _ _ _ _ Hc Hx Hx3), Hw, Ha3, Ha2, Ha1, Hr3, Hr2.
  naive_solver.
Qed.

Lemma refresh_spec x bb gr :
  idx_but x bb -> bb_groupOf bb !! x = Some gr ->
  (g_waiters gr <> [] -> is_Some (groupNeed bb x)) ->
  exists bb', refreshLocked x bb = Some bb' /\ idx bb' /\ same_core bb bb' /\
    (bb_fair bb = true -> eligible x bb = Some false -> bb_reserveReady bb' = lremove x (bb_reserveReady bb)).
Proof.
  intros Hix Hx Hneed. destruct (decide (g_waiters gr = [])) as [Hw|Hw].
  { destruct (refresh_empty x bb gr) as (b & ? & ? & ?); [done..|]. exists b. split; [done|].
    split; [done|]. split; [done|]. intros _. unfold eligible, groupNeed. rewrite Hx. simpl. by rewrite Hw. }
  destruct (Hneed Hw) as [y Hy].
  assert (Hel : exists e, eligible x bb = Some e).
  { unfold eligible. rewrite Hy. unfold share. rewrite Hx. simpl. by eexists. }
  destruct Hel as [e Hel]. unfold refreshLocked. rewrite Hx. simpl. rewrite decide_False by done.
  assert (H1 : exists b1 g1, (if g_allElem gr then Some bb
      else modGroup x (fun gr => gr <| g_allElem := true |>) (bb <| bb_waiting := bb_waiting bb ++ [x] |>))
        = Some b1 /\ idx_but x b1 /\ same_core bb b1 /\ bb_groupOf b1 !! x = Some g1 /\
        g_allElem g1 = true /\ g_reserveElem g1 = g_reserveElem gr /\ bb_reserveReady b1 = bb_reserveReady bb).
  { destruct (g_allElem gr) eqn:Hall; [by exists bb, gr|]. by apply pushAll_spec. }
  destruct H1 as (b1 & g1 & -> & Hix1 & Hc1 & Hx1 & Ha1 & Hr1 & Hrr1). simpl.
  assert (Hf1 : bb_fair b1 = bb_fair bb) by (symmetry; apply (f_equal bb_fair Hc1)).
  assert (Hsel : exists e', (if bb_fair b1 then eligible x b1 else Some true) = Some e' /\
    (bb_fair bb = true -> e' = e)).
  { rewrite Hf1, (eligible_core _ _ _ Hc1). destruct (bb_fair bb); [by exists e|by exists true]. }
  destruct Hsel as (e' & -> & He'). simpl. destruct e'.
  - destruct (unblock_spec x b1 g1) as (b2 & g2 & -> & Hix2 & Hc2 & Hx2 & Ha2 & Hr2 & Hrr2 & Hnb); [done..|].
    simpl. rewrite Hx2. simpl.
    assert (H3 : exists b3 g3, (if g_reserveElem g2 then Some b2 else pushReserve x b2) = Some b3 /\
      idx_but x b3 /\ same_core b2 b3 /\ bb_groupOf b3 !! x = Some g3 /\ g_reserveElem g3 = true /\
      g_allElem g3 = g_allElem g2 /\ x ∉ bb_blocked b3).
    { destruct (g_reserveElem g2) eqn:Hres; [by exists b2, g2|].
      destruct (pushReserve_spec x b2 g2) as (b3 & g3 & ? & ? & ? & ? & ? & ? & Hb3 & _); [done..|].
      exists b3, g3. rewrite Hb3. done. }
    destruct H3 as (b3 & g3 & -> & Hix3 & Hc3 & Hx3 & Hr3 & Ha3 & Hnb3).
    assert (Hc : same_core bb b3) by (by rewrite Hc1, Hc2).
    exists b3. split; [done|]. split; [|split; [done|]].
    + apply (idx_but_done x b3 0 Hix3); [|done]. intros gr' Hg'. simplify_eq.
      rewrite (core_waiters _ _ _ _ _ Hc Hx Hx3), Ha3, Ha2, Ha1, Hr3. naive_solver.
    + intros Hfair ?. rewrite <-(He' Hfair) in Hel. congruence.
  - destruct (dropReserve_spec x b1 g1) as (b2 & g2 & -> & Hix2 & Hc2 & Hx2 & Hr2 & Ha2 & Hrr2 & _); [done..|].
    simpl. rewrite Hx2. simpl.
    destruct (block_spec x b2 g2 Hix2 Hx2 y) as (b3 & g3 & -> & Hix3 & Hc3 & Hx3 & Ha3 & Hr3 & Hrr3 & Hin & Hh);
      [done|by rewrite (groupNeed_core _ _ _ Hc2), (groupNeed_core _ _ _ Hc1)|].
    assert (Hc : same_core bb b3) by (by rewrite Hc1, Hc2).
    exists b3. split; [done|]. split; [|split; [done|]].
    + apply (idx_but_done x b3 y Hix3); [|by rewrite (groupNeed_core _ _ _ Hc)].
      intros gr' Hg'. simplify_eq.
      rewrite (core_waiters _ _ _ _ _ Hc Hx Hx3), Ha3, Ha2, Ha1, Hr3. naive_solver.
    + intros. by rewrite Hrr3, Hrr2, Hrr1.
Qed.

(** ** Finding a group that may use the reserve *)

(** A group with waiters has a defined need and is active. *)
Definition queues_ok (bb : ByteBudget) : Prop :=
  forall g gr, bb_groupOf bb !! g = Some gr -> g_waiters gr <> [] ->
    is_Some (groupNeed bb g) /\ g_active gr = true.

Lemma queues_ok_core bb bb' : same_core bb bb' -> queues_ok bb -> queues_ok bb'.
Proof.
  intros Hc Hq g gr' Hg' Hw.
  destruct (core_lookup bb' bb g gr') as (gr & Hg & Hu); [by symmetry|done|].
  assert (Hw' := f_equal g_waiters Hu). assert (Ha' := f_equal g_active Hu). cbn in Hw', Ha'.
  rewrite (groupNeed_core _ _ _ Hc), <-Ha'. apply (Hq g gr Hg). by rewrite Hw'.
Qed.

(** Active groups all have the same share. *)
Lemma share_active bb g1 g2 gr1 gr2 :
  bb_groupOf bb !! g1 = Some gr1 -> bb_groupOf bb !! g2 = Some gr2 ->
  g_active gr1 = true -> g_active gr2 = true -> share g1 bb = share g2 bb.
Proof. intros H1 H2 Ha1 Ha2. unfold share. rewrite H1, H2. simpl. by rewrite Ha1, Ha2. Qed.

Lemma idx_blocked bb g :
  idx bb -> g ∈ bb_blocked bb -> exists gr, bb_groupOf bb !! g = Some gr /\ g_waiters gr <> [] /\
    g_reserveElem gr = false.
Proof.
  intros [Hf Hl Hh] Hin. pose proof Hin as [i Hi]%list_elem_of_lookup_1.
  destruct (po_at _ (ih_inv _ Hh) i g Hi) as (gr & Hg & _). exists gr. split; [done|].
  destruct (Hl g gr Hg) as [_ L2]. split; [apply L2; by right|].
  destruct (fl_group _ Hf g gr Hg) as (_ & _ & F3). destruct (g_reserveElem gr); [|done].
  by destruct (F3 eq_refl).
Qed.

Lemma idx_ready bb g :
  idx bb -> g ∈ bb_reserveReady bb -> exists gr, bb_groupOf bb !! g = Some gr /\ g_waiters gr <> [].
Proof.
  intros [Hf Hl _] Hin. destruct (fl_ready_dom _ Hf g Hin) as [gr Hg]. exists gr. split; [done|].
  destruct (Hl g gr Hg) as [_ L2]. apply L2. left. by apply (fl_group _ Hf g gr Hg).
Qed.

Lemma eligible_Some bb g gr :
  queues_ok bb -> bb_groupOf bb !! g = Some gr -> g_waiters gr <> [] -> exists e, eligible g bb = Some e.
Proof.
  intros Hq Hg Hw. destruct (Hq g gr Hg Hw) as [[y Hy] _]. unfold eligible. rewrite Hy. simpl.
  unfold share. rewrite Hg. simpl. by eexists.
Qed.

(** Popping the heap head and appending it to [reserveReady]. *)
Lemma promote_step bb g l :
  idx bb -> bb_blocked bb = g :: l ->
  exists b1 b2, heap_Pop bb = Some (g, b1) /\ pushReserve g b1 = Some b2 /\
    idx b2 /\ same_core bb b2 /\ length (bb_blocked b2) = length l.
Proof.
  intros Hix Hb. pose proof Hix as [Hf Hl Hh].
  destruct (idx_blocked bb g) as (gr & Hg & Hw & Hr); [done|rewrite Hb; by left|].
  destruct (heap_Pop_spec bb g l) as (b1 & -> & Hs & Hp & Hh1); [done|done|]. simpl in Hs, Hp.
  assert (Hng : g ∉ bb_blocked b1).
  { assert (Hnd : NoDup (bb_blocked bb)).
    { apply NoDup_alt. intros i j g' Hi Hj. by eapply (pos_ok_inj bb); [apply Hh|..]. }
    rewrite <-Hp in Hnd. by apply NoDup_cons in Hnd as [? _]. }
  assert (Hix1 : idx_but g b1).
  { apply (idx_but_strip g bb b1 gr); [by apply idx_idx_but|done| |done|done|done].
    intros g' Hg'. rewrite <-Hp, elem_of_cons. tauto. }
  destruct (strip_flags b1 bb g gr) as (gr1 & Hg1 & Ha & Hr1 & Hw1); [by symmetry|done|].
  destruct (pushReserve_spec g b1 gr1) as (b2 & gr2 & Hb2 & Hix2 & Hc2 & Hg2 & Hr2 & Ha2 & Hbl & _);
    [done|done|congruence|done|].
  exists b1, b2. split; [done|]. split; [done|]. split; [|split].
  - apply (idx_but_done g b2 0 Hix2); [|by rewrite Hbl]. intros gr' Hg'. simplify_eq.
    rewrite (core_waiters _ _ _ _ _ Hc2 Hg1 Hg2), Hw1, Hr2, Ha2, Ha.
    destruct (Hl g gr Hg) as [L1 _]. tauto.
  - etrans; [by apply strip_eq_core|done].
  - rewrite Hbl. apply (f_equal length) in Hb. apply Permutation_length in Hp. simpl in *. lia.
Qed.

Lemma promote_loop_spec bb :
  idx bb -> queues_ok bb ->
  exists bb', fuel_loop (S (length (bb_blocked bb))) promote_body bb = Some bb' /\
    idx bb' /\ same_core bb bb' /\ forall g, g ∈ bb_blocked bb' -> eligible g bb' = Some false.
Proof.
  intros Hix Hq.
  apply (fuel_loop_rule (fun b => idx b /\ same_core bb b) (fun b => Z.of_nat (length (bb_blocked b))));
    [|done|lia].
  intros b [Hb Hc]. assert (Hqb := queues_ok_core _ _ Hc Hq). unfold promote_body.
  destruct (bb_blocked b) as [|g l] eqn:Hbl.
  { eexists. split; [done|]. split; [done|]. split; [done|]. rewrite Hbl. intros g Hg. by apply elem_of_nil in Hg. }
  destruct (idx_blocked b g) as (gr & Hg & Hw & Hr); [done|rewrite Hbl; by left|].
  destruct (eligible_Some b g gr) as [e He]; [done..|]. rewrite He. simpl. destruct e.
  - destruct (promote_step b g l) as (b1 & b2 & -> & Hp & Hix2 & Hc2 & Hlen); [done|done|]. simpl. rewrite Hp.
    eexists. split; [done|]. split; [split; [done|by etrans]|]. rewrite Hlen. simpl. lia.
  - eexists. split; [done|]. split; [done|]. split; [done|]. intros g' Hin.
    destruct (idx_blocked b g') as (gr' & Hg' & Hw' & _); [done|done|].
    destruct (Hqb g gr Hg Hw) as [[y Hy] Ha]. destruct (Hqb g' gr' Hg' Hw') as [[y' Hy'] Ha'].
    pose proof Hin as [i Hi]%list_elem_of_lookup_1.
    assert (Hle : y <= y').
    { eapply (is_heap_root_min b i g g'); [apply Hb|by rewrite view_blocked, Hbl|done|done|done]. }
    unfold eligible in *. rewrite Hy in He. rewrite Hy'. simpl in *.
    rewrite (share_active b g' g gr' gr) by done. destruct (share g b) as [s|]; [|done]. simpl in *.
    injection He as He. apply bool_decide_eq_false in He. rewrite bool_decide_false by lia. done.
Qed.

Lemma nextReserve_spec bb :
  idx bb -> queues_ok bb -> bb_fair bb = true ->
  exists og bb', nextReserveLocked bb = Some (og, bb') /\ idx bb' /\ same_core bb bb' /\
    match og with
    | Some g => eligible g bb' = Some true /\
        exists gr, bb_groupOf bb' !! g = Some gr /\ g_waiters gr <> []
    | None => forall g gr, bb_groupOf bb' !! g = Some gr -> g_waiters gr <> [] -> eligible g bb' = Some false
    end.
Proof.
  intros Hix Hq Hfair. unfold nextReserveLocked.
  destruct (promote_loop_spec bb Hix Hq) as (b1 & -> & Hix1 & Hc1 & Hbl1).
  cbn [mbind option_bind].
  set (I := fun b => idx b /\ same_core bb b /\ forall g, g ∈ bb_blocked b -> eligible g b = Some false).
  assert (Hloop : exists r, fuel_loop (S (length (bb_reserveReady b1))) pick_body b1 = Some r /\
    (I r.2 /\ match r.1 with Some g => g ∈ bb_reserveReady r.2 /\ eligible g r.2 = Some true
                       | None => bb_reserveReady r.2 = [] end)).
  { apply (fuel_loop_rule I (fun b => Z.of_nat (length (bb_reserveReady b)))); [|done|lia].
    intros b (Hb & Hc & Hbl). assert (Hqb := queues_ok_core _ _ Hc Hq). unfold pick_body.
    destruct (bb_reserveReady b) as [|g l] eqn:Hrr.
    { eexists. split; [done|]. split; [done|]. done. }
    destruct (idx_ready b g) as (gr & Hg & Hw); [done|rewrite Hrr; by left|].
    destruct (eligible_Some b g gr) as [e He]; [done..|]. rewrite He. simpl. destruct e.
    { eexists. split; [done|]. split; [done|]. simpl. rewrite Hrr. split; [by left|done]. }
    destruct (refresh_spec g b gr) as (b2 & -> & Hix2 & Hc2 & Hrr2);
      [by apply idx_idx_but|done|intros; by eapply Hqb|].
    simpl. eexists. split; [done|]. split.
    - split; [done|]. split; [by etrans|]. intros g' Hg'.
      destruct (idx_blocked b2 g') as (gr2 & Hgr2 & Hw2 & Hr2); [done|done|].
      rewrite (eligible_core _ _ _ Hc2). destruct (decide (g' = g)) as [->|Hne]; [done|]. apply Hbl.
      destruct (core_lookup b2 b g' gr2) as (gr' & Hgr' & Hu); [by symmetry|done|].
      destruct (ix_linked _ Hb g' gr' Hgr') as [_ L2].
      assert (Hwt := f_equal g_waiters Hu). cbn in Hwt.
      destruct L2 as [[Hre|?] _]; [congruence| |done].
      destruct (fl_group _ (ix_flags _ Hb) g' gr' Hgr') as (_ & F2 & _).
      destruct (fl_group _ (ix_flags _ Hix2) g' gr2 Hgr2) as (_ & F2' & _).
      apply F2 in Hre. assert (g' ∈ bb_reserveReady b2); [|naive_solver congruence].
      assert (bb_fair b = true) as Hfb by (rewrite <-Hfair; symmetry; apply (f_equal bb_fair Hc)).
      rewrite (Hrr2 Hfb He). by apply elem_of_lremove; [apply Hb|].
    - assert (bb_fair b = true) as Hfb by (rewrite <-Hfair; symmetry; apply (f_equal bb_fair Hc)).
      rewrite (Hrr2 Hfb He), Hrr. simpl. rewrite decide_True by done. lia. }
  destruct Hloop as ([og b2] & -> & (Hix2 & Hc2 & Hbl2) & Hog). simpl in *.
  exists og, b2. split; [done|]. split; [done|]. split; [done|]. destruct og as [g|].
  - destruct Hog as [Hin He]. split; [done|]. by apply idx_ready.
  - intros g gr Hg Hw. apply Hbl2. destruct (ix_linked _ Hix2 g gr Hg) as [_ L2].
    destruct L2 as [[Hre|?] _]; [done| |done].
    destruct (fl_group _ (ix_flags _ Hix2) g gr Hg) as (_ & F2 & _). apply F2 in Hre.
    rewrite Hog in Hre. by apply elem_of_nil in Hre.
Qed.
