(* ===== verification/BudgetInv.v ===== *)
(** * The accounting invariant of the fair byte budget

    A [ledger] records what the clients of a budget hold: per group the bytes
    and escape bytes admitted and not yet released and the registered clients,
    and the waiters of the [Add] calls in progress with what they asked for.
    [acct L bb] says that the budget's counters are exactly the ledger's:
    nothing is charged twice, lost or left behind.

    A ledger is strict when every escape byte it records belongs to a byte still
    held.  The buffers keep it so as long as none of their frames carries a
    transmission limit; with such limits they can release an escaped frame
    without its escape bytes, and the counters of escape bytes then are exact
    only modulo 2^64.  All of the invariant but the bounds on escape bytes and
    the cap on the total holds of both kinds of ledger. *)

From S2P Require Import Prelude GoHeap ByteBudget BudgetIndex.

#[projections(primitive)] Record ledger := Ledger {
  l_held : gid -> Z;
  l_esc : gid -> Z;
  l_regs : gid -> Z;
  l_live : gmap wid (gid * Z);
  l_strict : bool;
}.
#[export] Instance ledger_eta : Eta ledger := fun L => Ledger (l_held L) (l_esc L) (l_regs L) (l_live L) (l_strict L).
#[export] Instance set_l_held : Setter l_held := ltac:(make_setter).
#[export] Instance set_l_esc : Setter l_esc := ltac:(make_setter).
#[export] Instance set_l_regs : Setter l_regs := ltac:(make_setter).
#[export] Instance set_l_live : Setter l_live := ltac:(make_setter).
#[export] Instance set_l_strict : Setter l_strict := ltac:(make_setter).

(** The credit of waiter [w]. *)
Definition crd (bb : ByteBudget) (w : wid) : Z := from_option w_credit 0 (bb_waiterOf bb !! w).

(** Credits, waiters and requested bytes of one group, and of all. *)
Definition gcredit (bb : ByteBudget) (L : ledger) (g : gid) : Z :=
  msum (fun w p => if decide (p.1 = g) then crd bb w else 0) (l_live L).
Definition gcount (L : ledger) (g : gid) : Z :=
  msum (fun _ p => if decide (p.1 = g) then 1 else 0) (l_live L).
Definition tcredit (bb : ByteBudget) (L : ledger) : Z := msum (fun w _ => crd bb w) (l_live L).
Definition tasked (L : ledger) : Z := msum (fun _ p => p.2) (l_live L).
Definition theld (bb : ByteBudget) (L : ledger) : Z := msum (fun g _ => l_held L g) (bb_groupOf bb).

#[global] Arguments crd : simpl never.
#[global] Arguments gcredit : simpl never.
#[global] Arguments gcount : simpl never.
#[global] Arguments tcredit : simpl never.
#[global] Arguments tasked : simpl never.
#[global] Arguments theld : simpl never.

(** ** The parts of the invariant *)

Record cfg_ok (bb : ByteBudget) : Prop := {
  cf_fair : bb_fair bb = true;
  cf_total : is_u64 (bb_total bb);
  cf_reserve : 0 <= bb_reserve bb /\ (bb_total bb <> 0 -> bb_reserve bb < bb_total bb);
  cf_min : is_u64 (bb_minGroup bb);
  cf_next : (0 < bb_next bb)%nat;
}.

(** A live waiter of group [g] that asked for [n] bytes. *)
Record live_ok (bb : ByteBudget) (w : wid) (g : gid) (n : Z) (wr : budgetWaiter) (c : chan) : Prop := {
  lo_group : is_Some (bb_groupOf bb !! g);
  lo_waiter : bb_waiterOf bb !! w = Some wr;
  lo_n : w_n wr = n;
  lo_pos : messageOverheadBytes <= n;
  lo_wgroup : w_group wr = Some g;
  lo_credit : 0 <= w_credit wr <= n;
  lo_elem : w_elem wr = negb (w_granted wr);
  lo_granted : w_granted wr = bool_decide (w_credit wr = n);
  lo_wake : w_wake wr = Some c;
  lo_chan : bb_chans bb !! c = Some (w_granted wr);
}.

Record waiters_ok (L : ledger) (bb : ByteBudget) : Prop := {
  wo_live w g n : l_live L !! w = Some (g, n) -> exists wr c, live_ok bb w g n wr c;
  wo_wake w1 w2 wr1 wr2 : is_Some (l_live L !! w1) -> is_Some (l_live L !! w2) ->
    bb_waiterOf bb !! w1 = Some wr1 -> bb_waiterOf bb !! w2 = Some wr2 ->
    w_wake wr1 = w_wake wr2 -> w1 = w2;
  wo_nodup g gr : bb_groupOf bb !! g = Some gr -> NoDup (g_waiters gr);
  wo_queue g gr w : bb_groupOf bb !! g = Some gr ->
    w ∈ g_waiters gr <-> exists n wr, l_live L !! w = Some (g, n) /\ bb_waiterOf bb !! w = Some wr /\
      w_granted wr = false;
  wo_fresh_w w : is_Some (bb_waiterOf bb !! w) -> (w < bb_next bb)%nat;
  wo_fresh_c c : is_Some (bb_chans bb !! c) -> (c < bb_next bb)%nat;
  wo_fresh_g g : is_Some (bb_groupOf bb !! g) -> (g < bb_next bb)%nat;
}.

(** The bytes in use that are not escape bytes, as the budget computes them. *)
Definition inuse (bb : ByteBudget) : Z := sub64 (bb_used bb) (bb_escape bb).
#[global] Arguments inuse : simpl never.

(** The counters of one group. *)
Record group_ok (L : ledger) (bb : ByteBudget) (g : gid) (gr : budgetGroup) : Prop := {
  go_used : g_used gr = l_held L g + gcredit bb L g;
  go_escape : g_escape gr = l_esc L g mod W64;
  go_held : 0 <= l_held L g;
  go_esc : l_strict L = true -> 0 <= l_esc L g <= l_held L g;
  go_pending : g_pending gr = gcount L g;
  go_active : g_active gr = bool_decide (g_used gr <> 0 \/ g_pending gr <> 0);
  go_refs : g_refs gr = l_regs L g + g_pending gr;
  go_regs : 0 <= l_regs L g < 2 ^ 63;
}.

Record sums_ok (L : ledger) (bb : ByteBudget) : Prop := {
  su_used : bb_used bb = msum (fun _ gr => g_used gr) (bb_groupOf bb);
  su_escape : bb_escape bb = msum (fun _ gr => g_escape gr) (bb_groupOf bb) mod W64;
  su_active : bb_active bb = msum (fun _ gr => Z.b2z (g_active gr)) (bb_groupOf bb) mod W64;
  su_split : bb_used bb = theld bb L + tcredit bb L;
  su_bound : theld bb L + tasked L < W64;
  su_cap : l_strict L = true -> bb_total bb <> 0 -> bb_used bb - bb_escape bb <= bb_total bb;
}.

Definition keys_ok (bb : ByteBudget) : Prop :=
  forall key g, bb_groups bb !! key = Some g <->
    g <> 0%nat /\ exists gr, bb_groupOf bb !! g = Some gr /\ g_key gr = key /\ 0 < g_refs gr.

Record acct (L : ledger) (bb : ByteBudget) : Prop := {
  ac_cfg : cfg_ok bb;
  ac_waiters : waiters_ok L bb;
  ac_groups g gr : bb_groupOf bb !! g = Some gr -> group_ok L bb g gr;
  ac_sums : sums_ok L bb;
  ac_keys : keys_ok bb;
  ac_dom g : l_regs L g <> 0 \/ l_held L g <> 0 -> is_Some (bb_groupOf bb !! g);
}.

(** The invariant of a fair budget between two method calls. *)
Record budget_ok (L : ledger) (bb : ByteBudget) : Prop := {
  bo_acct : acct L bb;
  bo_idx : idx bb;
}.

(** ** Consequences *)

Section bounds.
Context (L : ledger) (bb : ByteBudget) (Hac : acct L bb).

Lemma crd_bounds w g n : l_live L !! w = Some (g, n) -> 0 <= crd bb w <= n /\ messageOverheadBytes <= n.
Proof.
  intros Hw. destruct (wo_live _ _ (ac_waiters _ _ Hac) w g n Hw) as (wr & c & []).
  unfold crd. rewrite lo_waiter0. simpl. lia.
Qed.

Lemma gcredit_nonneg g : 0 <= gcredit bb L g.
Proof.
  apply msum_nonneg. intros w [g' n] Hw. simpl. case_decide; [|lia].
  by apply crd_bounds in Hw as [[? _] _].
Qed.

Lemma tcredit_bounds : 0 <= tcredit bb L <= tasked L.
Proof.
  split; [apply msum_nonneg|apply msum_le]; intros w [g n] Hw; apply crd_bounds in Hw as [? _]; simpl; lia.
Qed.

Lemma gcount_bounds g : 0 <= gcount L g /\ messageOverheadBytes * gcount L g <= tasked L.
Proof.
  split.
  - apply msum_nonneg. intros w p _. case_decide; lia.
  - unfold gcount. rewrite <-msum_scale. apply msum_le. intros w [g' n] Hw.
    apply crd_bounds in Hw as [? ?]. unfold messageOverheadBytes in *. simpl. case_decide; lia.
Qed.

Lemma asked_le w g n : l_live L !! w = Some (g, n) -> n <= tasked L.
Proof.
  intros Hw. apply (msum_ge (fun (_ : wid) (p : gid * Z) => p.2) (l_live L) w (g, n)); [|done].
  intros w' [g' n'] Hw'. apply crd_bounds in Hw' as [? _]. simpl. lia.
Qed.

Lemma theld_nonneg : 0 <= theld bb L.
Proof.
  apply msum_nonneg. intros g gr Hg. destruct (ac_groups _ _ Hac g gr Hg) as []. lia.
Qed.

Lemma group_used_bounds g gr : bb_groupOf bb !! g = Some gr -> 0 <= g_used gr <= bb_used bb.
Proof.
  intros Hg. rewrite (su_used _ _ (ac_sums _ _ Hac)).
  assert (Hall : forall g gr, bb_groupOf bb !! g = Some gr -> 0 <= g_used gr).
  { intros g' gr' Hg'. destruct (ac_groups _ _ Hac g' gr' Hg') as [-> _ ? _ _ _ _ _].
    pose proof (gcredit_nonneg g'). lia. }
  split; [eauto|]. apply (msum_ge (fun _ gr => g_used gr) _ g gr); eauto.
Qed.

Lemma used_bounds : 0 <= bb_used bb < W64.
Proof.
  destruct (ac_sums _ _ Hac) as [_ _ _ Hs Hb _]. pose proof theld_nonneg. pose proof tcredit_bounds. lia.
Qed.

Lemma escape_u64 : is_u64 (bb_escape bb).
Proof. rewrite (su_escape _ _ (ac_sums _ _ Hac)). apply Z.mod_pos_bound. done. Qed.

Lemma group_escape_u64 g gr : bb_groupOf bb !! g = Some gr -> is_u64 (g_escape gr).
Proof.
  intros Hg. rewrite (go_escape _ _ _ _ (ac_groups _ _ Hac g gr Hg)). apply Z.mod_pos_bound. done.
Qed.

Lemma inuse_u64 : is_u64 (inuse bb).
Proof. apply Z.mod_pos_bound. done. Qed.

Section strict.
Context (Hst : l_strict L = true).

Lemma group_escape_held g gr : bb_groupOf bb !! g = Some gr -> g_escape gr = l_esc L g /\ 0 <= g_escape gr <= g_used gr.
Proof.
  intros Hg. pose proof (group_used_bounds g gr Hg). pose proof used_bounds. pose proof (gcredit_nonneg g).
  destruct (ac_groups _ _ Hac g gr Hg) as [Hu He ? Hs _ _ _ _]. specialize (Hs Hst).
  rewrite Z.mod_small in He by lia. lia.
Qed.

(** Escape bytes are bytes in use. *)
Lemma escape_exact :
  bb_escape bb = msum (fun _ gr => g_escape gr) (bb_groupOf bb) /\ 0 <= bb_escape bb <= bb_used bb.
Proof.
  destruct (ac_sums _ _ Hac) as [Hu He _ _ _ _]. pose proof used_bounds.
  assert (0 <= msum (fun _ gr => g_escape gr) (bb_groupOf bb) <= bb_used bb).
  { rewrite Hu. split; [apply msum_nonneg|apply msum_le]; intros g gr Hg; apply group_escape_held in Hg; lia. }
  rewrite Z.mod_small in He by lia. lia.
Qed.

Lemma escape_bounds : 0 <= bb_escape bb <= bb_used bb.
Proof. apply escape_exact. Qed.

Lemma inuse_strict : inuse bb = bb_used bb - bb_escape bb.
Proof. pose proof escape_bounds. pose proof used_bounds. unfold inuse. rewrite sub64_small; lia. Qed.

(** The bytes of a group that are not escape bytes are part of the total. *)
Lemma group_escape_bounds g gr :
  bb_groupOf bb !! g = Some gr -> 0 <= g_escape gr <= g_used gr /\
    g_used gr - g_escape gr <= bb_used bb - bb_escape bb.
Proof.
  intros Hg. destruct (ac_sums _ _ Hac) as [Hu _ _ _ _ _]. destruct escape_exact as [He _].
  split; [by destruct (group_escape_held g gr Hg)|]. rewrite Hu, He.
  assert (Hd : msum (fun _ gr => g_used gr) (bb_groupOf bb) - msum (fun _ gr => g_escape gr) (bb_groupOf bb)
    = msum (fun _ gr => g_used gr - g_escape gr) (bb_groupOf bb)).
  { pose proof (msum_add (fun _ gr => g_used gr - g_escape gr) (fun _ gr => g_escape gr) (bb_groupOf bb)) as Ha.
    rewrite (msum_ext _ (fun _ gr => g_used gr)) in Ha by (intros; lia). lia. }
  rewrite Hd. apply (msum_ge (fun _ gr => g_used gr - g_escape gr) _ g gr); [|done].
  intros g' gr' Hg'. apply group_escape_held in Hg'. lia.
Qed.
End strict.

Lemma pending_bounds g gr : bb_groupOf bb !! g = Some gr -> 0 <= g_pending gr < 2 ^ 57.
Proof.
  intros Hg. destruct (ac_groups _ _ Hac g gr Hg) as [_ _ _ _ -> _ _ _].
  pose proof (gcount_bounds g). pose proof theld_nonneg. destruct (ac_sums _ _ Hac) as [_ _ _ _ Hb _].
  unfold messageOverheadBytes in *. lia.
Qed.

(** A live waiter makes its group active and contributes to its counters. *)
Lemma live_group w g n gr :
  l_live L !! w = Some (g, n) -> bb_groupOf bb !! g = Some gr ->
  1 <= g_pending gr /\ g_active gr = true /\ l_held L g + crd bb w <= g_used gr.
Proof.
  intros Hw Hg. destruct (ac_groups _ _ Hac g gr Hg) as [Hu _ _ _ Hp Ha _ _].
  assert (1 <= gcount L g).
  { pose proof (msum_ge (fun (_ : wid) (p : gid * Z) => if decide (p.1 = g) then 1 else 0) (l_live L) w (g, n)) as Hge.
    simpl in Hge. rewrite decide_True in Hge by done. apply Hge; [|done].
    intros w' [g' n'] _. simpl. destruct (decide (g' = g)); lia. }
  split; [lia|]. split; [rewrite Ha; apply bool_decide_true; lia|]. rewrite Hu.
  pose proof (msum_ge (fun (w : wid) (p : gid * Z) => if decide (p.1 = g) then crd bb w else 0) (l_live L) w (g, n)) as Hge.
  simpl in Hge. rewrite decide_True in Hge by done. unfold gcredit. apply Z.add_le_mono_l, Hge; [|done].
  intros w' [g' n'] Hw'. simpl. destruct (decide (g' = g)); [|lia]. by apply crd_bounds in Hw' as [[? _] _].
Qed.

(** The head of a queue: a live, ungranted waiter with bytes still to grant. *)
Lemma queue_head g gr w l :
  bb_groupOf bb !! g = Some gr -> g_waiters gr = w :: l ->
  exists n wr c, l_live L !! w = Some (g, n) /\ live_ok bb w g n wr c /\
    w_granted wr = false /\ w_credit wr < n.
Proof.
  intros Hg Hl. destruct (wo_queue _ _ (ac_waiters _ _ Hac) g gr w Hg) as [Hq _].
  destruct Hq as (n & wr & Hw & Hwr & Hgr); [rewrite Hl; by left|].
  destruct (wo_live _ _ (ac_waiters _ _ Hac) w g n Hw) as (wr' & c & Hlo). pose proof Hlo as [].
  simplify_eq. exists (w_n wr), wr, c. split; [done|]. split; [done|]. split; [done|].
  rewrite lo_granted0 in Hgr. apply bool_decide_eq_false in Hgr. lia.
Qed.

Lemma acct_queues_ok : queues_ok bb.
Proof.
  intros g gr Hg Hw. destruct (g_waiters gr) as [|w l] eqn:Hl; [done|].
  destruct (queue_head g gr w l Hg Hl) as (n & wr & c & Hlive & [] & _).
  destruct (live_group w g n gr Hlive Hg) as (_ & Ha & _). split; [|done].
  unfold groupNeed. rewrite Hg. simpl. rewrite Hl. simpl. rewrite lo_waiter0. by eexists.
Qed.
End bounds.

(** ** The accounts do not depend on the indexes *)

Lemma msum_core (f : gid -> budgetGroup -> Z) bb bb' :
  (forall g gr, f g (unindexed gr) = f g gr) -> same_core bb bb' ->
  msum f (bb_groupOf bb') = msum f (bb_groupOf bb).
Proof.
  intros Hf Hc.
  assert (He : forall b, msum f (bb_groupOf b) = msum f (bb_groupOf (core b))).
  { intros b. unfold core. simpl. rewrite msum_fmap. apply msum_ext. intros. by rewrite Hf. }
  rewrite (He bb), (He bb'). by rewrite Hc.
Qed.

Lemma core_group_is_Some bb bb' g :
  same_core bb bb' -> is_Some (bb_groupOf bb' !! g) <-> is_Some (bb_groupOf bb !! g).
Proof.
  intros Hc. split; intros [gr Hg].
  - destruct (core_lookup bb' bb g gr) as (? & ? & _); [by symmetry|done|by eexists].
  - destruct (core_lookup bb bb' g gr) as (? & ? & _); [done|done|by eexists].
Qed.

(** The fields of a state that [same_core] preserves. *)
Record same_state (bb bb' : ByteBudget) : Prop := {
  ss_total : bb_total bb' = bb_total bb;
  ss_used : bb_used bb' = bb_used bb;
  ss_escape : bb_escape bb' = bb_escape bb;
  ss_fair : bb_fair bb' = bb_fair bb;
  ss_reserve : bb_reserve bb' = bb_reserve bb;
  ss_min : bb_minGroup bb' = bb_minGroup bb;
  ss_groups : bb_groups bb' = bb_groups bb;
  ss_active : bb_active bb' = bb_active bb;
  ss_waiterOf : bb_waiterOf bb' = bb_waiterOf bb;
  ss_chans : bb_chans bb' = bb_chans bb;
  ss_next : bb_next bb' = bb_next bb;
}.

Lemma same_core_state bb bb' : same_core bb bb' -> same_state bb bb'.
Proof.
  intros Hc. split.
  - symmetry. apply (f_equal bb_total Hc).
  - symmetry. apply (f_equal bb_used Hc).
  - symmetry. apply (f_equal bb_escape Hc).
  - symmetry. apply (f_equal bb_fair Hc).
  - symmetry. apply (f_equal bb_reserve Hc).
  - symmetry. apply (f_equal bb_minGroup Hc).
  - symmetry. apply (f_equal bb_groups Hc).
  - symmetry. apply (f_equal bb_active Hc).
  - symmetry. apply (f_equal bb_waiterOf Hc).
  - symmetry. apply (f_equal bb_chans Hc).
  - symmetry. apply (f_equal bb_next Hc).
Qed.

Lemma unindexed_fields gr gr' :
  unindexed gr = unindexed gr' ->
  g_key gr = g_key gr' /\ g_refs gr = g_refs gr' /\ g_used gr = g_used gr' /\ g_escape gr = g_escape gr' /\
  g_pending gr = g_pending gr' /\ g_active gr = g_active gr' /\ g_waiters gr = g_waiters gr'.
Proof.
  intros Hu.
  split; [apply (f_equal g_key Hu)|]. split; [apply (f_equal g_refs Hu)|].
  split; [apply (f_equal g_used Hu)|]. split; [apply (f_equal g_escape Hu)|].
  split; [apply (f_equal g_pending Hu)|]. split; [apply (f_equal g_active Hu)|].
  apply (f_equal g_waiters Hu).
Qed.

Lemma crd_core bb bb' w : same_core bb bb' -> crd bb' w = crd bb w.
Proof. intros Hc. unfold crd. by rewrite (ss_waiterOf _ _ (same_core_state _ _ Hc)). Qed.

Lemma waiters_ok_core L bb bb' : same_core bb bb' -> waiters_ok L bb -> waiters_ok L bb'.
Proof.
  intros Hc [H1 H2 H3 H4 H5 H6 H7]. destruct (same_core_state _ _ Hc) as [_ _ _ _ _ _ _ _ Hwo Hch Hnx].
  assert (Hback : forall g gr', bb_groupOf bb' !! g = Some gr' -> exists gr, bb_groupOf bb !! g = Some gr /\
    g_waiters gr = g_waiters gr').
  { intros g gr' Hg. destruct (core_lookup bb' bb g gr') as (gr & Hgr & Hu); [by symmetry|done|].
    exists gr. split; [done|]. by destruct (unindexed_fields _ _ Hu) as (_ & _ & _ & _ & _ & _ & ?). }
  split; rewrite ?Hwo, ?Hch, ?Hnx; try done.
  - intros w g n Hw. destruct (H1 w g n Hw) as (wr & c & []). exists wr, c.
    split; try done; rewrite ?Hwo, ?Hch; try done. by rewrite (core_group_is_Some _ _ _ Hc).
  - intros g gr' Hg. destruct (Hback g gr' Hg) as (gr & Hgr & <-). eauto.
  - intros g gr' w Hg. destruct (Hback g gr' Hg) as (gr & Hgr & <-). eauto.
  - intros g. rewrite (core_group_is_Some _ _ _ Hc). eauto.
Qed.

Lemma acct_core L bb bb' : same_core bb bb' -> acct L bb -> acct L bb'.
Proof.
  intros Hc [[] Hw Hg [] Hk Hdom]. pose proof (same_core_state _ _ Hc) as [].
  assert (Hback : forall g gr', bb_groupOf bb' !! g = Some gr' ->
    exists gr, bb_groupOf bb !! g = Some gr /\ unindexed gr = unindexed gr').
  { intros g gr' Hg'. destruct (core_lookup bb' bb g gr') as (gr & ? & ?); [by symmetry|done|eauto]. }
  assert (Hcr : forall g, gcredit bb' L g = gcredit bb L g).
  { intros g. apply msum_ext. intros. by rewrite (crd_core _ _ _ Hc). }
  assert (Htc : tcredit bb' L = tcredit bb L).
  { apply msum_ext. intros. apply (crd_core _ _ _ Hc). }
  assert (Hth : theld bb' L = theld bb L) by (by apply msum_core).
  split.
  - split; congruence.
  - by eapply waiters_ok_core.
  - intros g gr' Hg'. destruct (Hback g gr' Hg') as (gr & Hgr & Hu).
    destruct (unindexed_fields _ _ Hu) as (Hk1 & Hk2 & Hk3 & Hk4 & Hk5 & Hk6 & Hk7).
    destruct (Hg g gr Hgr) as []. split; try done; rewrite <-?Hk2, <-?Hk3, <-?Hk4, <-?Hk5, <-?Hk6, ?Hcr; done.
  - split; rewrite ?Htc, ?Hth, ?ss_used0, ?ss_escape0, ?ss_active0, ?ss_total0; try done.
    + by rewrite (msum_core _ bb bb').
    + by rewrite (msum_core _ bb bb').
    + by rewrite (msum_core _ bb bb').
  - intros key g. rewrite ss_groups0, (Hk key g). split; intros [H0 (gr & Hgr & Hkey & Hr)]; split; try done.
    + destruct (core_lookup bb bb' g gr) as (gr' & Hgr' & Hu); [done..|]. exists gr'. split; [done|].
      apply unindexed_fields in Hu as (-> & -> & _). done.
    + destruct (Hback g gr Hgr) as (gr' & Hgr' & Hu). exists gr'. split; [done|].
      apply unindexed_fields in Hu as (-> & -> & _). done.
  - intros g Hne. rewrite (core_group_is_Some _ _ _ Hc). auto.
Qed.

(** ** Ledgers are compared group by group *)

Record ledger_eq (L L' : ledger) : Prop := {
  le_held g : l_held L g = l_held L' g;
  le_esc g : l_esc L g = l_esc L' g;
  le_regs g : l_regs L g = l_regs L' g;
  le_live : l_live L = l_live L';
  le_strict : l_strict L = l_strict L';
}.

#[export] Instance ledger_eq_equiv : Equivalence ledger_eq.
Proof.
  split.
  - by intros L.
  - intros L L' []. by split.
  - intros L1 L2 L3 [] []. split; intros; etrans; eauto.
Qed.

Lemma acct_ledger_eq L L' bb : ledger_eq L L' -> acct L bb -> acct L' bb.
Proof.
  intros [Hh He Hr Hl Hs] [Hcfg [] Hg [] Hk Hdom]. destruct L, L'. simpl in *. subst.
  assert (Hth : forall x, msum (fun g (_ : budgetGroup) => l_held0 g) x = msum (fun g _ => l_held1 g) x).
  { intros x. apply msum_ext. intros. apply Hh. }
  split; [done|by split| |split; try done|done|].
  - intros g gr Hgr. destruct (Hg g gr Hgr). simpl in *.
    split; simpl; rewrite <-?Hh, <-?He, <-?Hr; done.
  - unfold theld in *. simpl in *. by rewrite <-Hth.
  - unfold theld in *. simpl in *. by rewrite <-Hth.
  - intros g. simpl. rewrite <-Hr, <-Hh. apply Hdom.
Qed.

#[export] Instance acct_proper : Proper (ledger_eq ==> (=) ==> iff) acct.
Proof. intros L L' He bb ? <-. split; apply acct_ledger_eq; [done|by symmetry]. Qed.

#[export] Instance budget_ok_proper : Proper (ledger_eq ==> (=) ==> iff) budget_ok.
Proof. intros L L' He bb ? <-. split; intros [Ha ?]; (split; [|done]); by rewrite <-?He, ?He in *. Qed.
