(* ===== verification/BudgetOps.v ===== *)
(** * The operations of the fair byte budget keep the invariant

    [charge] and [releaseLocked] move the ledger by exactly the bytes they are
    given; [scheduleLocked] terminates, hands out credits only within the cap
    and leaves no usable room while a group waits; [reserveFor], [cancel] and
    [releaseFor] never panic. *)

From S2P Require Import Prelude GoHeap ByteBudget BudgetIndex BudgetInv.

(** Evaluates field updates and reads on flat records; flattening the records
    keeps the conversion problems small. *)
Ltac eval_fields :=
  cbv beta iota delta [
    with_field set_g_refs set_g_used set_g_escape set_g_pending set_g_active set_g_waiters
    set_g_allElem set_g_reserveElem set_g_heapIndex set_w_credit set_w_wake set_w_elem
    set_w_granted set_bb_used set_bb_escape set_bb_fair set_bb_reserve set_bb_minGroup
    set_bb_groups set_bb_active set_bb_legacyWake set_bb_waiting set_bb_reserveReady set_bb_blocked
    set_bb_groupOf set_bb_waiterOf set_bb_chans set_bb_next g_key g_refs g_used g_escape g_pending
    g_active g_waiters g_allElem g_reserveElem g_heapIndex w_n w_credit w_group w_wake w_elem
    w_granted bb_total bb_used bb_escape bb_fair bb_reserve bb_minGroup bb_groups bb_active
    bb_legacyWake bb_waiting bb_reserveReady bb_blocked bb_groupOf bb_waiterOf bb_chans bb_next].

Ltac flatten_budget :=
  repeat match goal with
    | bb : ByteBudget |- _ => destruct bb
    | gr : budgetGroup |- _ => destruct gr
    | wr : budgetWaiter |- _ => destruct wr
    end; cbn in *.

(** ** Updates of one group's account *)

Definition acc_upd (g : gid) (gr : budgetGroup) (u e a : Z) (bb : ByteBudget) : ByteBudget :=
  bb <| bb_groupOf ::= <[g := gr]> |> <| bb_used := u |> <| bb_escape := e |> <| bb_active := a |>.

Definition group_active (gr : budgetGroup) : bool := bool_decide (g_used gr <> 0 \/ g_pending gr <> 0).

Lemma pending_active gr : g_pending gr <> 0 -> group_active gr = true.
Proof. intros ?. apply bool_decide_true. by right. Qed.

Lemma used_active gr : g_used gr <> 0 -> group_active gr = true.
Proof. intros ?. apply bool_decide_true. by left. Qed.

(** The new value of [bb.active] when a group's flag goes from [old] to [new]. *)
Definition adj (old new : bool) (a : Z) : Z :=
  if decide (new = old) then a else if new then add64 a 1 else sub64 a 1.

Lemma acc_upd_id g gr bb :
  bb_groupOf bb !! g = Some gr -> acc_upd g gr (bb_used bb) (bb_escape bb) (bb_active bb) bb = bb.
Proof. intros Hg. destruct bb. unfold acc_upd. cbn in *. eval_fields. by rewrite insert_id. Qed.

Lemma activate_eq g gr bb :
  bb_fair bb = true -> bb_groupOf bb !! g = Some gr ->
  activateLocked g bb = Some (acc_upd g (gr <| g_active := group_active gr |>) (bb_used bb) (bb_escape bb)
    (adj (g_active gr) (group_active gr) (bb_active bb)) bb).
Proof.
  intros Hf Hg. unfold activateLocked. rewrite Hf, Hg. simpl. fold (group_active gr). unfold adj.
  case_decide as Heq.
  - rewrite Heq. f_equal. symmetry. by apply (acc_upd_id g gr).
  - unfold modGroup. simpl. by rewrite Hg.
Qed.

Lemma charge_eq n g (esc : bool) gr bb :
  bb_fair bb = true -> bb_groupOf bb !! g = Some gr ->
  let gr1 := gr <| g_used := add64 n (g_used gr) |>
                <| g_escape := if esc then add64 n (g_escape gr) else g_escape gr |> in
  charge n g esc bb = Some (acc_upd g (gr1 <| g_active := group_active gr1 |>) (add64 n (bb_used bb))
    (if esc then add64 n (bb_escape bb) else bb_escape bb)
    (adj (g_active gr) (group_active gr1) (bb_active bb)) bb).
Proof.
  intros Hf Hg gr1. unfold charge, modGroup. rewrite Hf, Hg. simpl.
  destruct esc; simpl.
  - rewrite lookup_insert_eq. simpl.
    erewrite activate_eq; [|done|simpl; by rewrite lookup_insert_eq].
    f_equal. unfold acc_upd. record_eq. simpl. by rewrite !insert_insert_eq.
  - erewrite activate_eq; [|done|simpl; by rewrite lookup_insert_eq].
    f_equal. unfold acc_upd. record_eq. simpl. by rewrite insert_insert_eq.
Qed.

Lemma release_eq n e g gr bb :
  bb_fair bb = true -> bb_groupOf bb !! g = Some gr -> n <= g_used gr -> n <= bb_used bb ->
  let gr1 := gr <| g_used := sub64 (g_used gr) n |> <| g_escape := sub64 (g_escape gr) e |> in
  releaseLocked n e g bb = Some (acc_upd g (gr1 <| g_active := group_active gr1 |>) (sub64 (bb_used bb) n)
    (sub64 (bb_escape bb) e) (adj (g_active gr) (group_active gr1) (bb_active bb)) bb).
Proof.
  intros Hf Hg Hn1 Hn2 gr1. unfold releaseLocked. rewrite Hf, Hg. simpl.
  rewrite (decide_False (P := n > g_used gr)) by lia. rewrite (decide_False (P := n > bb_used bb)) by lia.
  unfold modGroup. rewrite Hg. simpl.
  erewrite activate_eq; [|done|simpl; by rewrite lookup_insert_eq].
  f_equal. unfold acc_upd. record_eq. simpl. by rewrite insert_insert_eq.
Qed.

Lemma adj_sum m old new (a s : Z) :
  a = s mod W64 -> m = s - Z.b2z old + Z.b2z new -> adj old new a = m mod W64.
Proof. intros -> ->. unfold adj. destruct old, new; simpl; try case_decide; try done; simpl; u64_lia. Qed.

(** Group [g] of the ledger after its held and escape bytes became [h] and [e]. *)
Definition set_account (g : gid) (h e : Z) (L : ledger) : ledger :=
  L <| l_held ::= <[g := h]> |> <| l_esc ::= <[g := e]> |>.

Lemma set_account_id g L : ledger_eq (set_account g (l_held L g) (l_esc L g) L) L.
Proof.
  split; intros; simpl; try done.
  - destruct (decide (g = g0)) as [<-|]; [by rewrite fn_lookup_insert|by rewrite fn_lookup_insert_ne].
  - destruct (decide (g = g0)) as [<-|]; [by rewrite fn_lookup_insert|by rewrite fn_lookup_insert_ne].
Qed.

Section acc_upd.
Context (L : ledger) (bb : ByteBudget) (Hac : acct L bb).
Context (g : gid) (gr gr' : budgetGroup) (Hg : bb_groupOf bb !! g = Some gr).
Context (Hkey : g_key gr' = g_key gr) (Hrefs : g_refs gr' = g_refs gr).
Context (Hpend : g_pending gr' = g_pending gr) (Hwait : g_waiters gr' = g_waiters gr).

Lemma waiters_ok_acc_upd u e a h x :
  waiters_ok (set_account g h x L) (acc_upd g gr' u e a bb).
Proof.
  destruct (ac_waiters _ _ Hac) as [H1 H2 H3 H4 H5 H6 H7].
  assert (Hdom : forall g', is_Some (<[g:=gr']> (bb_groupOf bb) !! g') <-> is_Some (bb_groupOf bb !! g')).
  { intros g'. by apply (insert_dom _ _ gr). }
  split; simpl; try done.
  - intros w g' n Hw. destruct (H1 w g' n Hw) as (wr & c & []). exists wr, c. split; try done. simpl.
    by apply Hdom.
  - intros g' gr0 Hg'. destruct (decide (g = g')) as [<-|]; simplify_map_eq; [rewrite Hwait|]; eauto.
  - intros g' gr0 w Hg'. destruct (decide (g = g')) as [<-|]; simplify_map_eq; [rewrite Hwait|]; eauto.
  - intros g' Hg'. apply H7. by apply Hdom.
Qed.

(** The escape bytes of the whole budget after those of group [g] became [x]. *)
Lemma escape_acc_upd h x :
  l_strict L = true -> 0 <= x <= h -> theld bb L - l_held L g + h + tasked L < W64 ->
  0 <= bb_escape bb - l_esc L g + x < W64.
Proof.
  intros Hst Hx Hb. destruct (group_escape_held L bb Hac Hst g gr Hg) as [He _].
  destruct (group_escape_bounds L bb Hac Hst g gr Hg) as [_ Hle]. destruct (escape_exact L bb Hac Hst) as [Hs _].
  assert (g_escape gr <= msum (fun _ gr => g_escape gr) (bb_groupOf bb)).
  { apply (msum_ge (fun _ gr => g_escape gr) (bb_groupOf bb) g gr); [|done].
    intros g' gr0 Hg'. apply (group_escape_held L bb Hac Hst) in Hg'. lia. }
  pose proof (tcredit_bounds L bb Hac). pose proof (gcredit_nonneg L bb Hac g).
  destruct (ac_sums _ _ Hac) as [_ _ _ S4 _ _]. destruct (ac_groups _ _ Hac g gr Hg) as [G1 _ _ _ _ _ _ _]. lia.
Qed.

Lemma acct_acc_upd h x :
  g_used gr' = h + gcredit bb L g -> g_escape gr' = x mod W64 -> 0 <= h ->
  (l_strict L = true -> 0 <= x <= h) ->
  g_active gr' = group_active gr' ->
  theld bb L - l_held L g + h + tasked L < W64 ->
  (l_strict L = true -> bb_total bb <> 0 ->
    bb_used bb - l_held L g + h - (bb_escape bb - l_esc L g + x) <= bb_total bb) ->
  acct (set_account g h x L)
    (acc_upd g gr' (bb_used bb - l_held L g + h) ((bb_escape bb - l_esc L g + x) mod W64)
       (adj (g_active gr) (g_active gr') (bb_active bb)) bb).
Proof.
  intros Hu Hx Hh0 Hxh Ha Hb Hcap. pose proof Hac as [Hcfg _ Hgs [S1 S2 S3 S4 S5 S6] Hk Hdom].
  destruct (Hgs g gr Hg) as [G1 G2 _ G3 G4 G5 G6 G7].
  set (bb' := acc_upd _ _ _ _ _ _). set (L' := set_account _ _ _ _).
  assert (Hcr : forall g', gcredit bb' L' g' = gcredit bb L g') by done.
  assert (Hth : theld bb' L' = theld bb L - l_held L g + h).
  { unfold theld. subst bb' L'. simpl. rewrite (msum_insert _ _ _ gr) by done.
    rewrite (msum_change (fun g _ => l_held L g) _ (bb_groupOf bb) g gr) by
      (done || (intros g' x' Hne _; by rewrite fn_lookup_insert_ne)).
    rewrite fn_lookup_insert. lia. }
  split.
  - by destruct Hcfg.
  - apply waiters_ok_acc_upd.
  - intros g' gr0 Hg'. subst bb'. simpl in Hg'. destruct (decide (g = g')) as [<-|Hne].
    + rewrite lookup_insert_eq in Hg'. simplify_eq. split; simpl; rewrite ?fn_lookup_insert; try done.
      * by rewrite Hpend.
      * by rewrite Hrefs, Hpend.
    + rewrite lookup_insert_ne in Hg' by done. destruct (Hgs g' gr0 Hg').
      split; simpl; rewrite ?fn_lookup_insert_ne by done; done.
  - split; rewrite ?Hth; subst bb' L'; simpl; try done.
    + rewrite (msum_insert _ _ _ gr) by done. lia.
    + rewrite (msum_insert _ _ _ gr) by done. rewrite S2, G2, Hx. u64_lia.
    + rewrite (msum_insert _ _ _ gr) by done. eapply adj_sum; [exact S3|lia].
    + change (tcredit _ _) with (tcredit bb L). lia.
    + intros Hst Ht. rewrite Z.mod_small by (apply (escape_acc_upd h x); auto). auto.
  - intros key g'. subst bb'. simpl. rewrite (Hk key g'). split; intros [H0 (gr0 & Hgr0 & Hkk & Hr)]; (split; [done|]).
    + destruct (decide (g = g')) as [<-|Hne].
      * exists gr'. rewrite lookup_insert_eq, Hkey, Hrefs. by simplify_eq.
      * exists gr0. by rewrite lookup_insert_ne.
    + destruct (decide (g = g')) as [<-|Hne].
      * rewrite lookup_insert_eq in Hgr0. exists gr. rewrite <-Hkey, <-Hrefs. by simplify_eq.
      * rewrite lookup_insert_ne in Hgr0 by done. by exists gr0.
  - intros g' Hne'. subst bb' L'. simpl in *. rewrite (insert_dom _ _ gr) by done.
    destruct (decide (g = g')) as [<-|]; [by eexists|]. rewrite fn_lookup_insert_ne in Hne' by done. auto.
Qed.

Lemma idx_but_acc_upd u e a :
  g_allElem gr' = g_allElem gr -> g_reserveElem gr' = g_reserveElem gr ->
  g_heapIndex gr' = g_heapIndex gr -> idx bb -> idx_but g (acc_upd g gr' u e a bb).
Proof.
  intros H1 H2 H3 Hix. eapply (idx_but_frame g bb _ gr gr'); try done; [by apply idx_idx_but|].
  intros g' Hne. unfold groupNeed, acc_upd. simpl. by rewrite lookup_insert_ne.
Qed.
End acc_upd.

(** ** Giving credit to the head of a queue *)

(** The state after [giveCredit]: group [g], waiter [w] and the wake channels. *)
Definition credit_upd (g : gid) (gr : budgetGroup) (w : wid) (wr : budgetWaiter) (u : Z)
    (ch : gmap chan bool) (bb : ByteBudget) : ByteBudget :=
  bb <| bb_groupOf ::= <[g := gr]> |> <| bb_used := u |> <| bb_waiterOf ::= <[w := wr]> |>
     <| bb_chans := ch |>.

Lemma giveCredit_eq cr g w n u k l c gr wr bb :
  bb_fair bb = true -> bb_groupOf bb !! g = Some gr -> bb_waiterOf bb !! w = Some wr ->
  add64 cr (bb_used bb) = u -> add64 cr (g_used gr) = n -> add64 cr (w_credit wr) = k ->
  n <> 0 -> g_active gr = true -> g_waiters gr = w :: l ->
  w_elem wr = true -> w_granted wr = false -> w_wake wr = Some c -> bb_chans bb !! c = Some false ->
  let full := bool_decide (k = w_n wr) in
  giveCredit cr g w bb = Some (credit_upd g
    (gr <| g_used := n |> <| g_waiters := if full then l else w :: l |>) w
    (wr <| w_credit := k |> <| w_elem := negb full |> <| w_granted := full |>) u
    (if full then <[c := true]> (bb_chans bb) else bb_chans bb) bb).
Proof.
  intros Hf Hg Hw Hu Hn Hk Hn0 Ha Hq He Hgr Hwk Hch full. unfold giveCredit.
  rewrite (charge_eq _ _ _ gr) by done. cbn [mbind option_bind].
  flatten_budget. subst. unfold modWaiter. cbn. rewrite Hw. cbn. rewrite lookup_insert_eq. cbn.
  rewrite used_active by done. unfold adj. rewrite (decide_True (P := true = true)) by done. subst full.
  case_decide as Hd.
  - rewrite bool_decide_true by done. unfold grant, modGroup, modWaiter, closeChan. cbn. rewrite lookup_insert_eq. cbn.
    rewrite lookup_insert_eq. cbn. rewrite lookup_insert_eq. cbn. rewrite Hch. cbn.
    unfold credit_upd, acc_upd. eval_fields. rewrite !insert_insert_eq. cbn [lremove]. by rewrite decide_True.
  - rewrite bool_decide_false by done. unfold credit_upd, acc_upd. eval_fields. reflexivity.
Qed.

Section credit.
Context (L : ledger) (bb : ByteBudget) (Hac : acct L bb).
Context (g : gid) (gr : budgetGroup) (Hg : bb_groupOf bb !! g = Some gr).
Context (w : wid) (l : list wid) (Hq : g_waiters gr = w :: l).
Context (n : Z) (wr : budgetWaiter) (c : chan) (Hlive : l_live L !! w = Some (g, n)).
Context (Hlo : live_ok bb w g n wr c) (Hng : w_granted wr = false).
Context (cr : Z) (Hcr : 0 < cr <= n - w_credit wr).

(** Whether the credit completes the request. *)
Definition completes : bool := bool_decide (w_credit wr + cr = n).

Definition credited_group : budgetGroup :=
  gr <| g_used := g_used gr + cr |> <| g_waiters := if completes then l else w :: l |>.
Definition credited_waiter : budgetWaiter :=
  wr <| w_credit := w_credit wr + cr |> <| w_elem := negb completes |> <| w_granted := completes |>.
Definition credited : ByteBudget :=
  credit_upd g credited_group w credited_waiter (bb_used bb + cr)
    (if completes then <[c := true]> (bb_chans bb) else bb_chans bb) bb.

Lemma credit_room : tcredit bb L + cr <= tasked L.
Proof.
  assert (Hsum : tasked L - tcredit bb L = msum (fun w p => p.2 - crd bb w) (l_live L)).
  { pose proof (msum_add (fun w (p : gid * Z) => p.2 - crd bb w) (fun w _ => crd bb w) (l_live L)) as Ha.
    rewrite (msum_ext _ (fun _ p => p.2)) in Ha by (intros; lia). unfold tasked, tcredit. lia. }
  assert (n - w_credit wr <= tasked L - tcredit bb L); [|lia].
  rewrite Hsum. pose proof (msum_ge (fun w (p : gid * Z) => p.2 - crd bb w) (l_live L) w (g, n)) as Hge.
  simpl in Hge. unfold crd in Hge at 2. rewrite (lo_waiter _ _ _ _ _ _ Hlo) in Hge. apply Hge; [|done].
  intros w' [g' n'] Hw'. destruct (crd_bounds _ _ Hac _ _ _ Hw'). simpl. lia.
Qed.

Lemma credited_eq : giveCredit cr g w bb = Some credited.
Proof.
  destruct (live_group L bb Hac w g n gr Hlive Hg) as (Hp & Ha & Hu).
  pose proof (used_bounds L bb Hac) as Hub. pose proof (group_used_bounds L bb Hac g gr Hg) as Hgu.
  pose proof credit_room. pose proof (theld_nonneg L bb Hac). pose proof (asked_le L bb Hac w g n Hlive).
  destruct (ac_sums _ _ Hac) as [_ _ _ Hs Hb _]. destruct Hlo as [_ Hwr Hn _ _ Hc He _ Hwk Hch].
  rewrite Hng in *.
  rewrite (giveCredit_eq cr g w (g_used gr + cr) (bb_used bb + cr) (w_credit wr + cr) l c gr wr); try done.
  - unfold credited, credited_group, credited_waiter, completes. by rewrite Hn.
  - apply (ac_cfg _ _ Hac).
  - rewrite add64_small; lia.
  - rewrite add64_small; lia.
  - rewrite add64_small; lia.
  - lia.
Qed.

Lemma crd_credited w' : crd credited w' = if decide (w' = w) then crd bb w + cr else crd bb w'.
Proof.
  unfold crd, credited, credit_upd. simpl. case_decide as Hd.
  - subst. rewrite lookup_insert_eq, (lo_waiter _ _ _ _ _ _ Hlo). done.
  - by rewrite lookup_insert_ne.
Qed.

Lemma gcredit_credited g' : gcredit credited L g' = gcredit bb L g' + (if decide (g = g') then cr else 0).
Proof.
  unfold gcredit.
  rewrite (msum_change (fun w p => if decide (p.1 = g') then crd bb w else 0) _ (l_live L) w (g, n)); [|done|].
  - cbn. rewrite crd_credited, (decide_True (P := w = w)) by done. case_decide; lia.
  - intros w' p Hne _. cbn. rewrite crd_credited. by rewrite (decide_False (P := w' = w)).
Qed.

Lemma tcredit_credited : tcredit credited L = tcredit bb L + cr.
Proof.
  unfold tcredit. rewrite (msum_change (fun w _ => crd bb w) _ (l_live L) w (g, n)); [|done|].
  - cbn. rewrite crd_credited, decide_True by done. lia.
  - intros w' p Hne _. cbn. rewrite crd_credited. by rewrite (decide_False (P := w' = w)).
Qed.

Lemma credited_group_dom g' : is_Some (bb_groupOf credited !! g') <-> is_Some (bb_groupOf bb !! g').
Proof.
  simpl. by rewrite (insert_dom _ _ gr).
Qed.

(** The other live waiters and their channels are untouched. *)
Lemma credited_live_other w' g' n' wr' c' :
  w' <> w -> l_live L !! w' = Some (g', n') -> live_ok bb w' g' n' wr' c' ->
  live_ok credited w' g' n' wr' c'.
Proof.
  intros Hne Hl' []. split; try done.
  - by apply credited_group_dom.
  - simpl. by rewrite lookup_insert_ne.
  - simpl. destruct completes; [|done]. rewrite lookup_insert_ne; [done|]. intros ->. apply Hne.
    eapply (wo_wake _ _ (ac_waiters _ _ Hac)); [by eexists|by eexists|done|apply Hlo|].
    rewrite lo_wake. symmetry. apply Hlo.
Qed.

Lemma credited_live_self : live_ok credited w g n credited_waiter c.
Proof.
  destruct Hlo. split; try done.
  - by apply credited_group_dom.
  - simpl. by rewrite lookup_insert_eq.
  - simpl. lia.
  - simpl. destruct completes eqn:Hc.
    + by rewrite lookup_insert_eq.
    + by rewrite lo_chan, Hng.
Qed.

Lemma credited_waiters_ok : waiters_ok L credited.
Proof.
  pose proof (ac_waiters _ _ Hac) as Hwo. pose proof Hwo as [H1 H2 H3 H4 H5 H6 H7]. split.
  - intros w' g' n' Hw'. destruct (decide (w' = w)) as [->|Hne].
    + simplify_eq. eexists _, _. apply credited_live_self.
    + destruct (H1 w' g' n' Hw') as (wr' & c' & Hl'). eexists _, _. by apply credited_live_other.
  - intros w1 w2 wr1 wr2 Hl1 Hl2 Hw1 Hw2 Hwk. simpl in Hw1, Hw2.
    assert (Hback : forall w' wr', <[w:=credited_waiter]> (bb_waiterOf bb) !! w' = Some wr' ->
      exists wr0, bb_waiterOf bb !! w' = Some wr0 /\ w_wake wr0 = w_wake wr').
    { intros w' wr'. destruct (decide (w = w')) as [<-|]; intros Hw'; simplify_map_eq; [|eauto].
      exists wr. split; [apply Hlo|done]. }
    apply Hback in Hw1 as (wr1' & ? & ?). apply Hback in Hw2 as (wr2' & ? & ?).
    eapply H2; eauto. congruence.
  - intros g' gr' Hg'. simpl in Hg'. destruct (decide (g = g')) as [<-|]; simplify_map_eq; [|eauto].
    simpl. pose proof (H3 g gr Hg) as Hnd. rewrite Hq in Hnd. destruct completes; [|done].
    by apply NoDup_cons in Hnd as [_ ?].
  - intros g' gr' w' Hg'. simpl in Hg'.
    assert (Hold : exists gr0, bb_groupOf bb !! g' = Some gr0 /\
      (w' ∈ g_waiters gr' <-> w' ∈ g_waiters gr0 /\ (w' = w -> completes = false))).
    { destruct (decide (g = g')) as [<-|]; simplify_map_eq.
      - exists gr. split; [done|]. simpl. pose proof (H3 g gr Hg) as Hnd. rewrite Hq in *.
        apply NoDup_cons in Hnd as [Hn _]. destruct completes; rewrite ?elem_of_cons; naive_solver.
      - exists gr'. split; [done|]. split; [|by intros []]. intros Hin. split; [done|]. intros ->.
        apply (H4 g' gr' w) in Hin as (? & ? & ? & _); [|done]. simplify_eq. }
    destruct Hold as (gr0 & Hgr0 & ->). rewrite (H4 g' gr0 w' Hgr0). simpl.
    destruct (decide (w = w')) as [<-|Hne].
    + rewrite lookup_insert_eq. split.
      * intros [(n0 & wr0 & ? & ? & ?) Hc]. simplify_eq. eexists _, _. split; [done|]. split; [done|]. by apply Hc.
      * intros (n0 & wr0 & ? & ? & Hc). simplify_eq. split; [|by intros _].
        eexists _, wr. split; [done|]. split; [apply Hlo|done].
    + rewrite lookup_insert_ne by done. naive_solver.
  - intros w'. simpl. rewrite lookup_insert_is_Some. intros [<-|[_ ?]]; [|by apply H5].
    apply H5. eexists. apply Hlo.
  - intros c'. simpl. destruct completes; [|apply H6]. rewrite lookup_insert_is_Some. intros [<-|[_ ?]]; [|by apply H6].
    apply H6. eexists. apply Hlo.
  - intros g' Hg'. apply H7. by apply credited_group_dom.
Qed.

Context (Hcap : bb_total bb <> 0 -> inuse bb + cr <= bb_total bb).

Lemma credited_acct : acct L credited.
Proof.
  pose proof Hac as [Hcfg _ Hgs [S1 S2 S3 S4 S5 S6] Hk Hdom].
  destruct (live_group L bb Hac w g n gr Hlive Hg) as (Hp & Ha & _).
  assert (Hth : theld credited L = theld bb L).
  { unfold theld. simpl. rewrite (msum_insert _ _ _ gr) by done. lia. }
  split.
  - by destruct Hcfg.
  - apply credited_waiters_ok.
  - intros g' gr' Hg'. simpl in Hg'. destruct (decide (g = g')) as [<-|Hne].
    + rewrite lookup_insert_eq in Hg'. simplify_eq. destruct (Hgs g gr Hg).
      split; try done; simpl.
      * rewrite gcredit_credited, decide_True by done. lia.
      * rewrite Ha. symmetry. apply bool_decide_true. right. lia.
    + rewrite lookup_insert_ne in Hg' by done. destruct (Hgs g' gr' Hg').
      split; try done. rewrite gcredit_credited, decide_False by done. lia.
  - split; rewrite ?Hth; simpl; try done.
    + rewrite (msum_insert _ _ _ gr) by done. simpl. lia.
    + rewrite (msum_insert _ _ _ gr) by done. simpl. rewrite S2. f_equal. lia.
    + rewrite (msum_insert _ _ _ gr) by done. simpl. rewrite S3. f_equal. lia.
    + rewrite tcredit_credited. lia.
    + intros Hst ?. pose proof (Hcap ltac:(done)) as Hc. rewrite (inuse_strict L bb Hac Hst) in Hc. lia.
  - intros key g'. simpl. rewrite (Hk key g').
    split; intros [H0 (gr0 & Hgr0 & Hkk & Hr)]; (split; [done|]); destruct (decide (g = g')) as [<-|Hne].
    + exists credited_group. rewrite lookup_insert_eq. simplify_eq. done.
    + exists gr0. by rewrite lookup_insert_ne.
    + rewrite lookup_insert_eq in Hgr0. exists gr. by simplify_eq.
    + rewrite lookup_insert_ne in Hgr0 by done. by exists gr0.
  - intros g' Hne'. apply credited_group_dom. auto.
Qed.

(** Another group's need does not involve waiter [w]. *)
Lemma credited_need g' : g' <> g -> groupNeed credited g' = groupNeed bb g'.
Proof.
  intros Hne. unfold groupNeed, credited, credit_upd. simpl. rewrite lookup_insert_ne by done.
  destruct (bb_groupOf bb !! g') as [gr'|] eqn:Hg'; [|done]. simpl.
  destruct (g_waiters gr') as [|w' l'] eqn:Hw'; [done|]. simpl. rewrite lookup_insert_ne; [done|]. intros <-.
  destruct (queue_head L bb Hac g' gr' w l' Hg' Hw') as (? & ? & ? & ? & _). simplify_eq.
Qed.

Lemma credited_idx_but : idx bb -> idx_but g credited.
Proof.
  intros Hix. eapply (idx_but_frame g bb credited gr credited_group); try done;
    [by apply idx_idx_but|apply credited_need].
Qed.
End credit.
