(* ===== verification/BudgetSchedule.v ===== *)
(** * The credit scheduler of the fair byte budget

    [scheduleLocked] terminates within its bound, never panics, keeps the
    invariant of BudgetInv.v and the ledger, only ever adds credit, and stops
    only when nothing more can be handed out ([settled]). *)

From S2P Require Import Prelude GoHeap ByteBudget BudgetIndex BudgetInv BudgetOps.

(** ** What a run of the scheduler may change *)

Record sched_le (bb bb' : ByteBudget) : Prop := {
  sl_total : bb_total bb' = bb_total bb;
  sl_fair : bb_fair bb' = bb_fair bb;
  sl_reserve : bb_reserve bb' = bb_reserve bb;
  sl_min : bb_minGroup bb' = bb_minGroup bb;
  sl_escape : bb_escape bb' = bb_escape bb;
  sl_used : bb_used bb <= bb_used bb';
  sl_groups : bb_groups bb' = bb_groups bb;
  sl_next : bb_next bb' = bb_next bb;
  sl_dom g : is_Some (bb_groupOf bb' !! g) <-> is_Some (bb_groupOf bb !! g);
  sl_waiter w wr : bb_waiterOf bb !! w = Some wr -> exists wr', bb_waiterOf bb' !! w = Some wr' /\
    w_n wr' = w_n wr /\ w_credit wr <= w_credit wr' /\ (w_granted wr = true -> wr' = wr);
  (** requests of a group are granted in arrival order *)
  sl_fifo g gr : bb_groupOf bb !! g = Some gr -> exists gr' k, bb_groupOf bb' !! g = Some gr' /\
    g_waiters gr' = drop k (g_waiters gr);
}.

#[export] Instance sched_le_preorder : PreOrder sched_le.
Proof.
  split.
  - intros bb. split; try done; [intros w wr Hw; by exists wr|intros g gr Hg; by exists gr, 0%nat].
  - intros b1 b2 b3 [] []. split; try congruence; try lia.
    + intros g. etrans; eauto.
    + intros w wr Hw. destruct (sl_waiter0 w wr Hw) as (wr2 & H2 & ? & ? & Hg2).
      destruct (sl_waiter1 w wr2 H2) as (wr3 & H3 & ? & ? & Hg3). exists wr3.
      split; [done|]. split; [congruence|]. split; [lia|]. intros Hg.
      rewrite <-(Hg2 Hg). apply Hg3. by rewrite (Hg2 Hg).
    + intros g gr Hg. destruct (sl_fifo0 g gr Hg) as (gr2 & k2 & H2 & Hd2).
      destruct (sl_fifo1 g gr2 H2) as (gr3 & k3 & H3 & Hd3). exists gr3, (k2 + k3)%nat.
      split; [done|]. by rewrite Hd3, Hd2, drop_drop.
Qed.

Lemma same_core_sched_le bb bb' : same_core bb bb' -> sched_le bb bb'.
Proof.
  intros Hc. destruct (same_core_state _ _ Hc). split; try done; try lia.
  - intros g. by apply core_group_is_Some.
  - intros w wr Hw. exists wr. by rewrite ss_waiterOf.
  - intros g gr Hg. destruct (core_lookup bb bb' g gr Hc Hg) as (gr' & Hg' & _). exists gr', 0%nat.
    split; [done|]. by apply (core_waiters bb bb' g).
Qed.

(** Nothing more can be handed out: no group waits, or the pool is full, or only
    the reserve is left and no waiting group is within its share. *)
Definition settled (bb : ByteBudget) : Prop :=
  bb_waiting bb = [] \/
  (bb_total bb <> 0 /\ bb_total bb <= inuse bb) \/
  (bb_total bb <> 0 /\ bb_total bb - bb_reserve bb <= inuse bb /\
    forall g gr, bb_groupOf bb !! g = Some gr -> g_waiters gr <> [] -> eligible g bb = Some false).

(** ** Rotation *)

(** The order of the two queues is immaterial to the indexes. *)
Lemma idx_perm bb w r :
  idx bb -> w ≡ₚ bb_waiting bb -> r ≡ₚ bb_reserveReady bb ->
  idx (bb <| bb_waiting := w |> <| bb_reserveReady := r |>).
Proof.
  intros [[F1 F2 F3 F4 F5] Hl [Hp Hk Ho]] Hw Hr.
  split; [split; simpl|done|split; [by destruct Hp|done..]].
  - by rewrite Hw.
  - by rewrite Hr.
  - intros g. rewrite Hw. apply F3.
  - intros g. rewrite Hr. apply F4.
  - intros g gr Hg. rewrite Hw, Hr. by apply F5.
Qed.

Lemma core_perm bb w r : same_core bb (bb <| bb_waiting := w |> <| bb_reserveReady := r |>).
Proof. done. Qed.

Lemma rotate_spec g bb gr :
  idx_but g bb -> bb_groupOf bb !! g = Some gr ->
  (g_waiters gr <> [] -> is_Some (groupNeed bb g)) ->
  exists bb', rotate g bb = Some bb' /\ idx bb' /\ same_core bb bb'.
Proof.
  intros Hix Hg Hneed. unfold rotate.
  destruct (refresh_spec g bb gr) as (b1 & -> & Hix1 & Hc & _); [done..|]. cbn [mbind option_bind].
  destruct (core_lookup _ _ _ _ Hc Hg) as (gr1 & Hg1 & _). rewrite Hg1. cbn [mbind option_bind].
  destruct (fl_group _ (ix_flags _ Hix1) g gr1 Hg1) as (Fa & Fr & _).
  set (w := if g_allElem gr1 then lmove_to_back g (bb_waiting b1) else bb_waiting b1).
  set (r := if g_reserveElem gr1 then lmove_to_back g (bb_reserveReady b1) else bb_reserveReady b1).
  exists (b1 <| bb_waiting := w |> <| bb_reserveReady := r |>). split.
  { subst w r. by destruct (g_allElem gr1), (g_reserveElem gr1). }
  split; [|by etrans; [|apply core_perm]]. apply idx_perm; [done|..].
  - subst w. destruct (g_allElem gr1); [|done]. apply lmove_to_back_perm. by apply Fa.
  - subst r. destruct (g_reserveElem gr1); [|done]. apply lmove_to_back_perm. by apply Fr.
Qed.

(** ** One turn *)

Lemma credited_sched_le L bb g gr w l n wr c cr :
  acct L bb -> bb_groupOf bb !! g = Some gr -> g_waiters gr = w :: l -> live_ok bb w g n wr c -> w_granted wr = false -> 0 <= cr ->
  sched_le bb (credited bb g gr w l n wr c cr).
Proof.
  intros Hac Hg Hq [] Hng Hcr. split; try done.
  - simpl. lia.
  - intros g'. simpl. by apply (insert_dom _ _ gr).
  - intros w' wr' Hw'. simpl. destruct (decide (w = w')) as [<-|].
    + rewrite lookup_insert_eq. eexists. split; [done|]. simplify_eq. simpl. split; [done|].
      split; [lia|]. intros. congruence.
    + rewrite lookup_insert_ne by done. by exists wr'.
  - intros g' gr' Hg'. simpl. destruct (decide (g = g')) as [<-|].
    + rewrite lookup_insert_eq. assert (gr' = gr) as -> by congruence. rewrite Hq. eexists _, (if completes n wr cr then 1%nat else 0%nat).
      split; [done|]. simpl. by destruct (completes n wr cr).
    + rewrite lookup_insert_ne by done. by exists gr', 0%nat.
Qed.

(** The credit of one turn. *)
Definition turn_credit (rem room : Z) : Z :=
  let credit := if decide (rem > budgetQuantum) then budgetQuantum else rem in
  if decide (credit > room) then room else credit.

Lemma turn_credit_bounds rem room :
  0 < rem -> 0 < room -> 0 < turn_credit rem room <= rem /\ turn_credit rem room <= room.
Proof. intros. unfold turn_credit, budgetQuantum. repeat case_decide; lia. Qed.

(** Giving a positive credit that fits the cap to the head of a queue. *)
Lemma give_spec L bb g gr w l n wr c cr :
  budget_ok L bb -> bb_groupOf bb !! g = Some gr -> g_waiters gr = w :: l ->
  l_live L !! w = Some (g, n) -> live_ok bb w g n wr c -> w_granted wr = false ->
  0 < cr <= n - w_credit wr ->
  (bb_total bb <> 0 -> inuse bb + cr <= bb_total bb) ->
  exists b1 b2, giveCredit cr g w bb = Some b1 /\ rotate g b1 = Some b2 /\
    budget_ok L b2 /\ tcredit b2 L = tcredit bb L + cr /\ sched_le bb b2.
Proof.
  intros [Hac Hix] Hg Hq Hl Hlo Hng Hcr Hcap.
  set (b1 := credited bb g gr w l n wr c cr).
  assert (Hac1 : acct L b1) by (by apply credited_acct).
  assert (Hg1 : bb_groupOf b1 !! g = Some (credited_group gr w l n wr cr)) by (simpl; apply lookup_insert_eq).
  destruct (rotate_spec g b1 (credited_group gr w l n wr cr)) as (b2 & Hb2 & Hix2 & Hc2);
    [by apply (credited_idx_but L)|done|intros; by eapply (acct_queues_ok L)|].
  exists b1, b2. split; [by apply (credited_eq L)|]. split; [done|]. split.
  { split; [|done]. by eapply acct_core. }
  split.
  - rewrite <-(tcredit_credited L bb g gr w l n wr c) by done. unfold tcredit. apply msum_ext.
    intros. by apply crd_core.
  - etrans; [by eapply (credited_sched_le L bb g gr w l n wr c cr); [..|lia]|by apply same_core_sched_le].
Qed.

Lemma schedule_turn_spec L bb g gr base used :
  budget_ok L bb -> bb_groupOf bb !! g = Some gr -> g_waiters gr <> [] ->
  used = inuse bb ->
  (bb_total bb <> 0 -> used < bb_total bb /\ 0 <= base <= bb_total bb - used /\
    (eligible g bb = Some true \/ 0 < base)) ->
  exists bb', schedule_turn g base used bb = Some (inl bb') /\ budget_ok L bb' /\
    tcredit bb L < tcredit bb' L /\ sched_le bb bb'.
Proof.
  intros Hok Hg Hw Hused Hroom. pose proof Hok as [Hac Hix]. pose proof (ac_cfg _ _ Hac) as [Hf [? ?] _ _ _].
  destruct (g_waiters gr) as [|w l] eqn:Hq; [done|].
  destruct (queue_head L bb Hac g gr w l Hg Hq) as (n & wr & c & Hl & Hlo & Hng & Hlt).
  pose proof Hlo as [_ Hwr Hn Hpos _ Hc _ _ _ _].
  pose proof (asked_le L bb Hac w g n Hl). pose proof (theld_nonneg L bb Hac).
  pose proof (su_bound _ _ (ac_sums _ _ Hac)). pose proof (inuse_u64 bb) as [? ?].
  destruct (eligible_Some bb g gr) as [e He]; [by eapply acct_queues_ok|done|by rewrite Hq|].
  unfold schedule_turn. rewrite Hg. cbn [mbind option_bind]. rewrite Hq. cbn [mbind option_bind head].
  rewrite Hwr. cbn [mbind option_bind].
  assert (Hr : exists room, (if decide (bb_total bb = 0) then Some maxUint64
      else el ← (if bb_fair bb then eligible g bb else Some true);
           Some (if (el : bool) then sub64 (bb_total bb) used else base)) = Some room /\
      0 < room /\ (bb_total bb <> 0 -> used + room <= bb_total bb)).
  { destruct (decide (bb_total bb = 0)) as [|Ht0]; [by eexists|]. destruct (Hroom Ht0) as (? & ? & Hor).
    rewrite Hf, He. cbn [mbind option_bind]. eexists. split; [done|].
    destruct e; [rewrite sub64_small by lia|]; [lia|]. destruct Hor; [congruence|lia]. }
  destruct Hr as (room & -> & Hr0 & Hrt). cbn [mbind option_bind].
  assert (Hrem : sub64 (w_n wr) (w_credit wr) = n - w_credit wr) by (rewrite Hn, sub64_small; lia).
  rewrite Hrem. fold (turn_credit (n - w_credit wr) room).
  destruct (turn_credit_bounds (n - w_credit wr) room) as [Hb1 Hb2]; [lia|done|].
  set (cr := turn_credit _ _) in *. rewrite decide_False by lia.
  destruct (give_spec L bb g gr w l n wr c cr) as (b1 & b2 & -> & Hb & ? & ? & ?); try done.
  { intros Ht0. pose proof (Hrt Ht0). lia. }
  cbn [mbind option_bind]. rewrite Hb. cbn [mbind option_bind].
  exists b2. split; [done|]. split; [done|]. split; [lia|done].
Qed.

(** ** The loop *)

Lemma waiting_group bb g :
  idx bb -> g ∈ bb_waiting bb -> exists gr, bb_groupOf bb !! g = Some gr /\ g_waiters gr <> [].
Proof.
  intros [Hf Hl _] Hin. destruct (fl_waiting_dom _ Hf g Hin) as [gr Hg]. exists gr. split; [done|].
  destruct (Hl g gr Hg) as [L1 _]. apply L1. by apply (fl_group _ Hf g gr Hg).
Qed.

(** [base] of [scheduleLocked] without wrap-around. *)
Lemma schedule_base L bb :
  budget_ok L bb -> bb_total bb <> 0 -> inuse bb < bb_total bb ->
  (if decide (inuse bb < sub64 (bb_total bb) (bb_reserve bb))
   then sub64 (sub64 (bb_total bb) (bb_reserve bb)) (inuse bb) else 0) =
  Z.max 0 (bb_total bb - bb_reserve bb - inuse bb).
Proof.
  intros [Hac _] Ht Hu. pose proof (ac_cfg _ _ Hac) as [_ [? ?] [? Hr] _ _]. specialize (Hr Ht).
  pose proof (inuse_u64 bb) as [? ?].
  rewrite (sub64_small (bb_total bb)) by lia. case_decide; [rewrite sub64_small|]; lia.
Qed.

(** What one iteration establishes. *)
Definition step_post (L : ledger) (bb : ByteBudget) (r : ByteBudget + ByteBudget) : Prop :=
  match r with
  | inl bb' => budget_ok L bb' /\ tcredit bb L < tcredit bb' L /\ sched_le bb bb'
  | inr bb' => budget_ok L bb' /\ settled bb' /\ sched_le bb bb'
  end.

(** A turn after the indexes were reorganised. *)
Lemma turn_core L bb b g gr base used :
  budget_ok L bb -> same_core bb b -> idx b -> bb_groupOf b !! g = Some gr -> g_waiters gr <> [] ->
  used = inuse bb ->
  (bb_total bb <> 0 -> used < bb_total bb /\ 0 <= base <= bb_total bb - used /\
    (eligible g b = Some true \/ 0 < base)) ->
  exists r, schedule_turn g base used b = Some r /\ step_post L bb r.
Proof.
  intros [Hac _] Hc Hixb Hg0 Hw0 Hu Hb. pose proof (same_core_state _ _ Hc) as [].
  destruct (schedule_turn_spec L b g gr base used) as (b' & -> & ? & ? & ?); try done.
  - split; [by eapply acct_core|done].
  - unfold inuse. by rewrite ss_used, ss_escape.
  - by rewrite ss_total.
  - exists (inl b'). split; [done|]. split; [done|]. split; [|by etrans; [apply same_core_sched_le|]].
    assert (tcredit b L = tcredit bb L) as <-; [|done]. apply msum_ext. intros. by apply crd_core.
Qed.

Lemma schedule_body_spec L bb :
  budget_ok L bb -> exists r, schedule_body bb = Some r /\ step_post L bb r.
Proof.
  intros Hok. pose proof Hok as [Hac Hix]. pose proof (ac_cfg _ _ Hac) as [Hf Ht [Hr0 Hr] _ _].
  pose proof (schedule_base L bb Hok) as Hbase. pose proof (inuse_u64 bb) as [? ?]. unfold schedule_body.
  destruct (bb_waiting bb) as [|front rest] eqn:Hw.
  { exists (inr bb). split; [done|]. split; [done|]. split; [by left|done]. }
  fold (inuse bb). set (used := inuse bb) in *.
  destruct (decide (bb_total bb <> 0 /\ used >= bb_total bb)) as [Hfull|Hfull].
  { exists (inr bb). split; [done|]. split; [done|]. split; [right; left; lia|done]. }
  destruct (waiting_group bb front Hix) as (gr & Hg & Hgw); [rewrite Hw; by left|].
  destruct (decide (bb_total bb = 0)) as [Ht0|Ht0].
  { rewrite decide_True by (left; done). by eapply (turn_core L bb bb). }
  rewrite Hbase by lia. destruct (decide (Z.max 0 _ <> 0 \/ _)) as [Hb0|Hb0].
  { eapply (turn_core L bb bb); [done..|]. intros _. split; [lia|]. destruct Hb0; [lia|congruence]. }
  destruct (nextReserve_spec bb) as (og & b1 & -> & Hix1 & Hc1 & Hog); [done|by eapply acct_queues_ok|done|].
  cbn [mbind option_bind]. pose proof (same_core_state _ _ Hc1) as []. destruct og as [g|].
  - destruct Hog as (He & gr1 & Hg1 & Hw1). eapply (turn_core L bb b1); [done..|]. intros _.
    split; [lia|]. split; [lia|by left].
  - exists (inr b1). split; [done|]. split; [split; [by eapply acct_core|done]|].
    split; [|by apply same_core_sched_le]. right. right. unfold inuse. rewrite ss_total, ss_reserve, ss_used, ss_escape.
    fold (inuse bb).
    split; [done|]. split; [lia|done].
Qed.

Lemma schedule_spec L bb :
  budget_ok L bb ->
  exists bb', scheduleLocked bb = Some bb' /\ budget_ok L bb' /\ settled bb' /\ sched_le bb bb'.
Proof.
  intros Hok. unfold scheduleLocked.
  apply (for_loop_rule (fun b => budget_ok L b /\ sched_le bb b) (fun b => tasked L - tcredit b L)); [|done|].
  - intros b [Hb Hle]. destruct (schedule_body_spec L b Hb) as ([b'|b'] & -> & H1 & H2 & H3).
    + exists (inl b'). split; [done|]. pose proof (tcredit_bounds L b' (bo_acct _ _ H1)).
      split; [split; [done|by etrans]|lia].
    + exists (inr b'). split; [done|]. split; [done|]. split; [done|by etrans].
  - destruct (bo_acct _ _ Hok) as [_ _ _ [_ _ _ _ Hb _] _ _].
    pose proof (theld_nonneg L bb (bo_acct _ _ Hok)). pose proof (tcredit_bounds L bb (bo_acct _ _ Hok)). lia.
Qed.
