(* ===== verification/BudgetMethods.v ===== *)
(** * The methods buffers call on a fair byte budget

    Each method is total on states that satisfy the invariant (no panic, no
    exhausted loop), keeps it, and moves the ledger by exactly what the caller
    asked for: admitted bytes become held bytes, a queued request becomes a live
    waiter, a granted one turns its credit into held bytes, a cancelled one
    leaves nothing behind. *)

From S2P Require Import Prelude GoHeap ByteBudget BudgetIndex BudgetInv BudgetOps BudgetSchedule.

(** ** A step that changes one group *)

(** [bb'] and [L'] differ from [bb] and [L] in group [g] only, whose counters
    [gr'] are again right; the totals moved by the same amounts. *)
Record group_step (L : ledger) (bb : ByteBudget) (L' : ledger) (bb' : ByteBudget)
    (g : gid) (gr gr' : budgetGroup) : Prop := {
  gs_cfg : bb_total bb' = bb_total bb /\ bb_fair bb' = bb_fair bb /\ bb_reserve bb' = bb_reserve bb /\
    bb_minGroup bb' = bb_minGroup bb /\ (bb_next bb <= bb_next bb')%nat;
  gs_strict : l_strict L' = l_strict L;
  gs_groupOf : bb_groupOf bb' = <[g := gr']> (bb_groupOf bb);
  gs_ledger g' : g' <> g -> l_held L' g' = l_held L g' /\ l_esc L' g' = l_esc L g' /\ l_regs L' g' = l_regs L g';
  gs_credit g' : g' <> g -> gcredit bb' L' g' = gcredit bb L g' /\ gcount L' g' = gcount L g';
  gs_tcredit : tcredit bb' L' = tcredit bb L - gcredit bb L g + gcredit bb' L' g;
  gs_used : bb_used bb' = bb_used bb - g_used gr + g_used gr';
  gs_escape : bb_escape bb' = bb_escape bb /\ g_escape gr' = g_escape gr;
  gs_active : bb_active bb' = adj (g_active gr) (g_active gr') (bb_active bb);
  gs_group : group_ok L' bb' g gr';
  gs_bound : theld bb L - l_held L g + l_held L' g + tasked L' < W64;
  gs_cap : l_strict L = true -> bb_total bb <> 0 -> bb_used bb' - bb_escape bb' <= bb_total bb;
  gs_key : g_key gr' = g_key gr;
  gs_refs : 0 < g_refs gr' -> 0 < g_refs gr;
  gs_groups : bb_groups bb' =
    if decide (0 < g_refs gr /\ g_refs gr' = 0) then delete (g_key gr) (bb_groups bb) else bb_groups bb;
  gs_waiters : waiters_ok L' bb';
}.

Lemma keys_step L bb L' bb' g gr gr' :
  acct L bb -> bb_groupOf bb !! g = Some gr -> (g = 0%nat -> g_refs gr = 0) ->
  group_step L bb L' bb' g gr gr' -> 0 <= g_refs gr' -> keys_ok bb'.
Proof.
  intros Hac Hg Hg0 [_ _ Hm _ _ _ _ _ _ _ _ _ Hkey Hrefs Hgs _] Hpos key g'.
  pose proof (ac_keys _ _ Hac) as Hk. rewrite Hm, Hgs. destruct (decide (0 < g_refs gr /\ g_refs gr' = 0)) as [[H1 H2]|Hn].
  - assert (Hkg : bb_groups bb !! g_key gr = Some g).
    { apply Hk. split; [intros ->; specialize (Hg0 eq_refl); lia|]. by exists gr. }
    rewrite lookup_delete_Some, (Hk key g'). split.
    + intros (Hne & H0 & gr0 & Hgr0 & Hkk & Hr). split; [done|]. exists gr0. split; [|done].
      destruct (decide (g = g')) as [<-|]; [|by rewrite lookup_insert_ne]. congruence.
    + intros (H0 & gr0 & Hgr0 & Hkk & Hr). destruct (decide (g = g')) as [<-|Hne].
      { rewrite lookup_insert_eq in Hgr0. simplify_eq. lia. }
      rewrite lookup_insert_ne in Hgr0 by done. split; [|split; [done|by exists gr0]].
      intros <-. assert (bb_groups bb !! g_key gr = Some g'); [|congruence]. apply Hk. split; [done|by exists gr0].
  - rewrite (Hk key g'). split; intros (H0 & gr0 & Hgr0 & Hkk & Hr); (split; [done|]);
      destruct (decide (g = g')) as [<-|Hne].
    + exists gr'. rewrite lookup_insert_eq. simplify_eq. split; [done|]. split; [done|]. lia.
    + exists gr0. by rewrite lookup_insert_ne.
    + rewrite lookup_insert_eq in Hgr0. simplify_eq. exists gr. split; [done|]. split; [done|]. auto.
    + rewrite lookup_insert_ne in Hgr0 by done. by exists gr0.
Qed.

Lemma group_step_acct L bb L' bb' g gr gr' :
  acct L bb -> bb_groupOf bb !! g = Some gr -> (g = 0%nat -> g_refs gr = 0) ->
  group_step L bb L' bb' g gr gr' -> acct L' bb'.
Proof.
  intros Hac Hg Hg0 Hst. pose proof Hac as [[] _ Hgs [S1 S2 S3 S4 S5 S6] Hk Hdom].
  pose proof Hst as [(C1 & C2 & C3 & C4 & C5) Hstr Hm Hled Hcr Htc Hu [He He'] Ha Hgo Hb Hcap Hkey Hrefs Hgrps Hw].
  assert (Hth : theld bb' L' = theld bb L - l_held L g + l_held L' g).
  { unfold theld. rewrite Hm, (msum_insert _ _ _ gr) by done.
    rewrite (msum_change (fun g _ => l_held L g) (fun g _ => l_held L' g) (bb_groupOf bb) g gr); [lia|done|].
    intros g' ? Hne _. symmetry. by apply Hled. }
  pose proof Hgo as [G1 G2 _ G3 G4 G5 G6 G7]. destruct (Hgs g gr Hg) as [O1 O2 _ O3 O4 O5 O6 O7].
  assert (Hpos : 0 <= g_refs gr').
  { rewrite G6, G4. assert (0 <= gcount L' g); [|lia]. apply msum_nonneg. intros w [g1 n] _. simpl. destruct (decide (g1 = g)); lia. }
  split.
  - split; rewrite ?C1, ?C2, ?C3, ?C4; try done. lia.
  - done.
  - intros g' gr0 Hg'. rewrite Hm in Hg'. destruct (decide (g = g')) as [<-|Hne].
    { rewrite lookup_insert_eq in Hg'. by simplify_eq. }
    rewrite lookup_insert_ne in Hg' by done. destruct (Hgs g' gr0 Hg').
    destruct (Hled g') as (L1 & L2 & L3); [done|]. destruct (Hcr g') as (E1 & E2); [done|].
    split; rewrite ?Hstr, ?L1, ?L2, ?L3, ?E1, ?E2; done.
  - split; rewrite ?Hth, ?C1, ?Hm, ?(msum_insert _ _ _ gr) by done; rewrite ?Hu, ?He, ?He', ?Ha, ?Hstr; try lia.
    + rewrite S2. f_equal. lia.
    + by eapply adj_sum; [exact S3|].
    + intros Hs Ht. rewrite <-Hu, <-He. auto.
  - by eapply keys_step.
  - intros g' Hne'. rewrite Hm. destruct (decide (g = g')) as [<-|]; [rewrite lookup_insert_eq; by eexists|].
    rewrite lookup_insert_ne by done. apply Hdom. destruct (Hled g') as (<- & _ & <-); done.
Qed.

(** ** Indexes after a step *)

(** A step that leaves every queue head and need as it was. *)
Lemma idx_frame x bb bb' gr gr' :
  idx bb -> bb_groupOf bb !! x = Some gr -> bb_groupOf bb' = <[x := gr']> (bb_groupOf bb) ->
  g_allElem gr' = g_allElem gr -> g_reserveElem gr' = g_reserveElem gr ->
  g_heapIndex gr' = g_heapIndex gr -> g_waiters gr' = g_waiters gr ->
  bb_waiting bb' = bb_waiting bb -> bb_reserveReady bb' = bb_reserveReady bb ->
  bb_blocked bb' = bb_blocked bb -> (forall g, g ∈ bb_blocked bb -> groupNeed bb' g = groupNeed bb g) ->
  (forall g, g <> x -> groupNeed bb' g = groupNeed bb g) -> idx bb'.
Proof.
  intros Hix Hx Hm Hall Hres Hi Hw H1 H2 H3 Hn Hn'.
  destruct (idx_but_frame x bb bb' gr gr') as [Hf Hl Hh _]; try done; [by apply idx_idx_but|].
  split; [done|..].
  - intros g. destruct (decide (g = x)) as [->|]; [|auto]. intros gr0 Hg0. rewrite Hm, lookup_insert_eq in Hg0.
    simplify_eq. rewrite H3, Hall, Hres, Hw. by apply (ix_linked _ Hix).
  - destruct (decide (x ∈ bb_blocked bb)) as [Hin|Hnin]; [|apply Hh; by rewrite H3].
    set (y := fresh (list_to_set (bb_blocked bb) : gset gid)).
    assert (Hy : y ∉ bb_blocked bb).
    { intros Hin'. apply (is_fresh (list_to_set (bb_blocked bb) : gset gid)). by apply elem_of_list_to_set. }
    destruct (heap_parts_same y bb bb') as [Hok _].
    + split; [done| |].
      * intros g. rewrite Hm. destruct (decide (g = x)) as [->|]; simplify_map_eq; [exact (f_equal Some Hi)|done].
      * intros g Hgy. destruct (decide (g = x)) as [->|]; auto.
    + intros _. by apply ix_heap.
    + intros i Hy'. destruct Hy. by eapply list_elem_of_lookup_2.
    + apply Hok. by rewrite H3.
Qed.

(** ** The sums over live waiters *)

Section live_sums.
Context (L L' : ledger) (bb bb' : ByteBudget) (w : wid) (g : gid) (n : Z).

Lemma sums_delete :
  l_live L !! w = Some (g, n) -> l_live L' = delete w (l_live L) ->
  (forall w', w' <> w -> crd bb' w' = crd bb w') ->
  tasked L' = tasked L - n /\ tcredit bb' L' = tcredit bb L - crd bb w /\
  (forall g', gcredit bb' L' g' = gcredit bb L g' - (if decide (g = g') then crd bb w else 0)) /\
  (forall g', gcount L' g' = gcount L g' - (if decide (g = g') then 1 else 0)).
Proof.
  intros Hl Hd Hc. unfold tasked, tcredit, gcredit, gcount. rewrite Hd.
  assert (Hext : forall f1 f2 : wid -> gid * Z -> Z, (forall w' p, w' <> w -> f1 w' p = f2 w' p) ->
    msum f1 (delete w (l_live L)) = msum f2 (l_live L) - f2 w (g, n)).
  { intros f1 f2 Hf. rewrite <-(msum_delete f2 _ w (g, n) Hl). apply msum_ext.
    intros w' p [? _]%lookup_delete_Some. auto. }
  split; [by apply Hext|]. split; [by apply (Hext _ (fun w _ => crd bb w)); auto|]. split; intros g'.
  - apply (Hext _ (fun w p => if decide (p.1 = g') then crd bb w else 0)). intros. by rewrite Hc.
  - by apply Hext.
Qed.

Lemma sums_insert :
  l_live L !! w = None -> l_live L' = <[w := (g, n)]> (l_live L) -> crd bb' w = 0 ->
  (forall w', w' <> w -> crd bb' w' = crd bb w') ->
  tasked L' = tasked L + n /\ tcredit bb' L' = tcredit bb L /\
  (forall g', gcredit bb' L' g' = gcredit bb L g') /\
  (forall g', gcount L' g' = gcount L g' + (if decide (g = g') then 1 else 0)).
Proof.
  intros Hl Hd H0 Hc. unfold tasked, tcredit, gcredit, gcount. rewrite Hd.
  assert (Hext : forall f1 f2 : wid -> gid * Z -> Z, (forall w' p, w' <> w -> f1 w' p = f2 w' p) ->
    msum f1 (<[w := (g, n)]> (l_live L)) = msum f2 (l_live L) + f1 w (g, n)).
  { intros f1 f2 Hf. rewrite msum_insert_new by done. rewrite Z.add_comm. f_equal. apply msum_ext.
    intros w' p Hp. apply Hf. intros ->. congruence. }
  split; [by apply Hext|]. split; [|split; intros g'].
  - rewrite (Hext _ (fun w _ => crd bb w)) by auto. lia.
  - rewrite (Hext _ (fun w p => if decide (p.1 = g') then crd bb w else 0)) by (intros; by rewrite Hc).
    simpl. rewrite H0. case_decide; lia.
  - by apply Hext.
Qed.

Lemma sums_same :
  l_live L' = l_live L -> (forall w', crd bb' w' = crd bb w') ->
  tasked L' = tasked L /\ tcredit bb' L' = tcredit bb L /\
  (forall g', gcredit bb' L' g' = gcredit bb L g') /\ (forall g', gcount L' g' = gcount L g').
Proof.
  intros Hl Hc. unfold tasked, tcredit, gcredit, gcount. rewrite Hl.
  split; [done|]. split; [by apply msum_ext|]. split; [|done]. intros g'. apply msum_ext.
  intros. by rewrite Hc.
Qed.
End live_sums.

(** ** Live waiters that come and go *)

Lemma fresh_waiter L bb w :
  waiters_ok L bb -> (bb_next bb <= w)%nat -> l_live L !! w = None /\ bb_waiterOf bb !! w = None.
Proof.
  intros Hok Hw. assert (Hn : bb_waiterOf bb !! w = None).
  { destruct (bb_waiterOf bb !! w) eqn:E; [|done].
    assert (w < bb_next bb)%nat by (apply (wo_fresh_w _ _ Hok); by eexists). lia. }
  split; [|done]. destruct (l_live L !! w) as [[g0 n0]|] eqn:E; [|done].
  destruct (wo_live _ _ Hok w g0 n0 E) as (wr & c0 & []). congruence.
Qed.

(** A request of group [g] joins the back of its queue. *)
Section join.
Context (L L' : ledger) (bb bb' : ByteBudget) (g : gid) (gr gr' : budgetGroup) (n : Z) (w : wid) (c : chan).
Context (Hok : waiters_ok L bb) (Hn : messageOverheadBytes <= n).
Context (Hc : (bb_next bb <= c < bb_next bb')%nat) (Hw : (bb_next bb <= w < bb_next bb')%nat).
Context (Hl : l_live L' = <[w := (g, n)]> (l_live L)).
Context (Hg : bb_groupOf bb !! g = Some gr) (Hm : bb_groupOf bb' = <[g := gr']> (bb_groupOf bb)).
Context (Hq : g_waiters gr' = g_waiters gr ++ [w]).
Context (Hwo : bb_waiterOf bb' = <[w := BudgetWaiter n 0 (Some g) (Some c) true false]> (bb_waiterOf bb)).
Context (Hch : bb_chans bb' = <[c := false]> (bb_chans bb)).

Lemma join_live_new : l_live L !! w = None.
Proof. apply (fresh_waiter L bb w Hok). lia. Qed.

Lemma join_wake_new w0 g0 n0 wr0 :
  l_live L !! w0 = Some (g0, n0) -> bb_waiterOf bb !! w0 = Some wr0 -> w_wake wr0 <> Some c.
Proof.
  intros E0 Ew Ec. destruct (wo_live _ _ Hok w0 g0 n0 E0) as (wr & c0 & []). simplify_eq.
  assert (c < bb_next bb)%nat; [|lia]. apply (wo_fresh_c _ _ Hok). simplify_eq. by eexists.
Qed.

Lemma join_dom g' : is_Some (bb_groupOf bb' !! g') <-> is_Some (bb_groupOf bb !! g').
Proof.
  rewrite Hm. by apply (insert_dom _ _ gr).
Qed.

Lemma join_live w0 g0 n0 : l_live L' !! w0 = Some (g0, n0) -> exists wr c0, live_ok bb' w0 g0 n0 wr c0.
Proof.
  rewrite Hl. intros [[<- E]|[Hne E]]%lookup_insert_Some.
  - assert (g0 = g /\ n0 = n) as [-> ->] by (by injection E). eexists _, c. split; rewrite ?Hwo, ?Hch, ?lookup_insert_eq; try done; simpl.
    + apply join_dom. by eexists.
    + unfold messageOverheadBytes in Hn. lia.
    + symmetry. apply bool_decide_false. unfold messageOverheadBytes in Hn. lia.
  - destruct (wo_live _ _ Hok w0 g0 n0 E) as (wr & c0 & []). exists wr, c0.
    split; rewrite ?Hwo, ?Hch; try done; [by apply join_dom|by rewrite lookup_insert_ne|].
    rewrite lookup_insert_ne; [done|]. intros <-. by eapply join_wake_new.
Qed.

Lemma join_wake w1 w2 wr1 wr2 :
  is_Some (l_live L' !! w1) -> is_Some (l_live L' !! w2) ->
  bb_waiterOf bb' !! w1 = Some wr1 -> bb_waiterOf bb' !! w2 = Some wr2 -> w_wake wr1 = w_wake wr2 -> w1 = w2.
Proof.
  rewrite Hl, Hwo, !lookup_insert_is_Some. intros Hl1 Hl2 E1 E2 Ek.
  destruct (decide (w1 = w)) as [->|N1], (decide (w2 = w)) as [->|N2]; [done|..].
  - rewrite lookup_insert_eq in E1. rewrite lookup_insert_ne in E2 by done. simplify_eq. simpl in Ek.
    destruct Hl2 as [|[_ [[g0 n0] E]]]; [done|]. by destruct (join_wake_new w2 g0 n0 wr2).
  - rewrite lookup_insert_eq in E2. rewrite lookup_insert_ne in E1 by done. simplify_eq. simpl in Ek.
    destruct Hl1 as [|[_ [[g0 n0] E]]]; [done|]. by destruct (join_wake_new w1 g0 n0 wr1).
  - rewrite lookup_insert_ne in E1, E2 by done.
    destruct Hl1 as [|[_ ?]], Hl2 as [|[_ ?]]; [congruence..|]. by eapply (wo_wake _ _ Hok).
Qed.

Lemma join_queue g' gr0 w0 :
  bb_groupOf bb' !! g' = Some gr0 ->
  w0 ∈ g_waiters gr0 <-> exists n wr, l_live L' !! w0 = Some (g', n) /\ bb_waiterOf bb' !! w0 = Some wr /\
    w_granted wr = false.
Proof.
  rewrite Hm, Hl, Hwo. intros Hg'.
  assert (Hex : exists gr1, bb_groupOf bb !! g' = Some gr1 /\
    (w0 ∈ g_waiters gr0 <-> w0 ∈ g_waiters gr1 \/ (g = g' /\ w0 = w))).
  { destruct (decide (g = g')) as [<-|]; simplify_map_eq.
    - exists gr. split; [done|]. rewrite Hq, elem_of_app, list_elem_of_singleton. tauto.
    - exists gr0. split; [done|]. tauto. }
  destruct Hex as (gr1 & Hgr1 & ->). rewrite (wo_queue _ _ Hok g' gr1 w0 Hgr1). split.
  - intros [(n0 & wr & E & Ew & Eg)|[-> ->]].
    + exists n0, wr. pose proof join_live_new. rewrite !lookup_insert_ne by congruence. done.
    + eexists _, _. rewrite !lookup_insert_eq. done.
  - intros (n0 & wr & E & Ew & Eg). destruct (decide (w0 = w)) as [->|Hne].
    + rewrite lookup_insert_eq in E. simplify_eq. by right.
    + rewrite lookup_insert_ne in E by done. rewrite lookup_insert_ne in Ew by done. left. eauto.
Qed.

Lemma waiters_ok_join : waiters_ok L' bb'.
Proof.
  pose proof Hok as [_ _ H3 H4 H5 H6 H7].
  split; [apply join_live|apply join_wake| |apply join_queue|..].
  - intros g' gr0 Hg'. rewrite Hm in Hg'. destruct (decide (g = g')) as [<-|]; simplify_map_eq; [|eauto].
    rewrite Hq. apply NoDup_app. split; [eauto|]. split; [|apply NoDup_singleton].
    intros w0 Hin ->%list_elem_of_singleton. pose proof join_live_new.
    apply (H4 g gr w Hg) in Hin as (? & ? & ? & _). congruence.
  - intros w0. rewrite Hwo, lookup_insert_is_Some. intros [<-|[_ E]]; [lia|]. apply H5 in E. lia.
  - intros c0. rewrite Hch, lookup_insert_is_Some. intros [<-|[_ E]]; [lia|]. apply H6 in E. lia.
  - intros g'. rewrite join_dom. intros E. apply H7 in E. lia.
Qed.
End join.

(** A live waiter of group [g] leaves. *)
Section leave.
Context (L L' : ledger) (bb bb' : ByteBudget) (g : gid) (gr gr' : budgetGroup) (n : Z) (w : wid).
Context (Hok : waiters_ok L bb) (Hw : l_live L !! w = Some (g, n)).
Context (Hl : l_live L' = delete w (l_live L)).
Context (Hg : bb_groupOf bb !! g = Some gr) (Hm : bb_groupOf bb' = <[g := gr']> (bb_groupOf bb)).
Context (Hq : g_waiters gr' = lremove w (g_waiters gr)).
Context (Hwo : forall w', w' <> w -> bb_waiterOf bb' !! w' = bb_waiterOf bb !! w').
Context (Hch : bb_chans bb' = bb_chans bb) (Hnx : bb_next bb' = bb_next bb).

Lemma waiters_ok_leave : waiters_ok L' bb'.
Proof.
  pose proof Hok as [H1 H2 H3 H4 H5 H6 H7].
  assert (Hdom : forall g', is_Some (bb_groupOf bb' !! g') <-> is_Some (bb_groupOf bb !! g')).
  { intros g'. rewrite Hm. by apply (insert_dom _ _ gr). }
  split; rewrite ?Hl, ?Hch, ?Hnx.
  - intros w0 g0 n0 [Hne E]%lookup_delete_Some. destruct (H1 w0 g0 n0 E) as (wr & c0 & []). exists wr, c0.
    split; rewrite ?Hch, ?Hwo by done; try done. by apply Hdom.
  - intros w1 w2 wr1 wr2 [? [N1 E1]%lookup_delete_Some] [? [N2 E2]%lookup_delete_Some].
    rewrite !Hwo by done. eauto.
  - intros g' gr0 Hg'. rewrite Hm in Hg'. destruct (decide (g = g')) as [<-|]; simplify_map_eq; [|eauto].
    rewrite Hq. apply NoDup_lremove. eauto.
  - intros g' gr0 w0 Hg'. rewrite Hm in Hg'.
    assert (Hex : exists gr1, bb_groupOf bb !! g' = Some gr1 /\
      (w0 ∈ g_waiters gr0 <-> w0 ∈ g_waiters gr1 /\ w0 <> w)).
    { destruct (decide (g = g')) as [<-|]; simplify_map_eq.
      - exists gr. split; [done|]. rewrite Hq. by apply elem_of_lremove; eauto.
      - exists gr0. split; [done|]. split; [|by intros []]. intros Hin. split; [done|]. intros ->.
        apply (H4 g' gr0 w) in Hin as (? & ? & ? & _); [congruence|done]. }
    destruct Hex as (gr1 & Hgr1 & ->). rewrite (H4 g' gr1 w0 Hgr1). split.
    + intros [(n0 & wr & E & Ew & Eg) Hne]. exists n0, wr. rewrite Hwo by done.
      by rewrite lookup_delete_ne by done.
    + intros (n0 & wr & [Hne E]%lookup_delete_Some & Ew & Eg). rewrite Hwo in Ew by done. eauto 10.
  - intros w0 Hs. destruct (decide (w0 = w)) as [->|]; [|apply H5; by rewrite <-Hwo].
    destruct (H1 w g n Hw) as (wr & c0 & []). apply H5. by eexists.
  - apply H6.
  - intros g'. rewrite Hdom. apply H7.
Qed.
End leave.

(** ** Charging and releasing bytes of a group *)

Lemma idle_not_blocked bb g gr :
  idx bb -> bb_groupOf bb !! g = Some gr -> g_waiters gr = [] -> g ∉ bb_blocked bb.
Proof. intros Hix Hg Hw Hin. destruct (ix_linked _ Hix g gr Hg) as [_ L2]. destruct L2 as [_ L2]. by apply L2; [right|]. Qed.

(** After a change of the account of [g], its queue is still indexed; the whole
    index is right when nothing of [g] is queued. *)
Record account_post (g : gid) (gr : budgetGroup) (bb bb' : ByteBudget) : Prop := {
  ap_idx_but : idx_but g bb';
  ap_idx : g_waiters gr = [] -> idx bb';
  ap_group : exists gr', bb_groupOf bb' !! g = Some gr' /\ g_waiters gr' = g_waiters gr;
  ap_fair : bb_fair bb' = bb_fair bb;
  ap_total : bb_total bb' = bb_total bb;
  ap_next : bb_next bb' = bb_next bb;
  ap_dom g' : is_Some (bb_groupOf bb' !! g') <-> is_Some (bb_groupOf bb !! g');
}.

Lemma acc_upd_post g gr gr' u e a bb :
  idx bb -> bb_groupOf bb !! g = Some gr -> g_waiters gr' = g_waiters gr ->
  g_allElem gr' = g_allElem gr -> g_reserveElem gr' = g_reserveElem gr -> g_heapIndex gr' = g_heapIndex gr ->
  account_post g gr bb (acc_upd g gr' u e a bb).
Proof.
  intros Hix Hg Hw H1 H2 H3.
  assert (Hneed : forall g', g' <> g -> groupNeed (acc_upd g gr' u e a bb) g' = groupNeed bb g').
  { intros g' Hne. unfold groupNeed, acc_upd. simpl. by rewrite lookup_insert_ne. }
  split; try done.
  - by apply (idx_but_acc_upd bb g gr gr').
  - intros Hq. eapply (idx_frame g bb _ gr gr'); try done. intros g' Hin. apply Hneed. intros ->.
    by eapply idle_not_blocked.
  - exists gr'. simpl. by rewrite lookup_insert_eq.
  - intros g'. simpl. by apply (insert_dom _ _ gr).
Qed.

Lemma charge_spec L bb g gr n (esc : bool) :
  budget_ok L bb -> bb_groupOf bb !! g = Some gr -> 0 <= n ->
  theld bb L + tasked L + n < W64 ->
  (esc = false -> bb_total bb <> 0 -> inuse bb + n <= bb_total bb) ->
  exists bb', charge n g esc bb = Some bb' /\
    acct (set_account g (l_held L g + n) (l_esc L g + if esc then n else 0) L) bb' /\
    account_post g gr bb bb'.
Proof.
  intros [Hac Hix] Hg Hn Hb Hcap.
  pose proof (group_used_bounds L bb Hac g gr Hg). pose proof (used_bounds L bb Hac) as Hub.
  pose proof (escape_u64 L bb Hac).
  pose proof (tcredit_bounds L bb Hac). pose proof (su_split _ _ (ac_sums _ _ Hac)) as Hsp.
  destruct (ac_groups _ _ Hac g gr Hg) as [G1 G2 G2' G3 G4 G5 G6 G7].
  rewrite (charge_eq n g esc gr bb (cf_fair _ (ac_cfg _ _ Hac)) Hg).
  set (gr1 := gr <| g_used := _ |> <| g_escape := _ |>). set (gr2 := gr1 <| g_active := _ |>).
  eexists. split; [done|]. split; [|by apply acc_upd_post].
  assert (Hu : add64 n (bb_used bb) = bb_used bb - l_held L g + (l_held L g + n)) by (rewrite add64_small; lia).
  assert (He : (if esc then add64 n (bb_escape bb) else bb_escape bb) =
    (bb_escape bb - l_esc L g + (l_esc L g + if esc then n else 0)) mod W64) by (destruct esc; u64_lia).
  rewrite Hu, He. change (group_active gr1) with (g_active gr2).
  apply (acct_acc_upd L bb Hac g gr gr2); try done; simpl.
  - rewrite add64_small by lia. lia.
  - rewrite G2. destruct esc; u64_lia.
  - lia.
  - intros Hst. specialize (G3 Hst). destruct esc; lia.
  - lia.
  - intros Hst Ht. pose proof (su_cap _ _ (ac_sums _ _ Hac) Hst Ht). destruct esc; [lia|].
    specialize (Hcap eq_refl Ht). rewrite (inuse_strict L bb Hac Hst) in Hcap. lia.
Qed.

(** What a group may give back: bytes it holds and, when the ledger is strict,
    escape bytes it holds, never leaving more escape bytes than bytes. *)
Definition releasable (L : ledger) (g : gid) (n e : Z) : Prop :=
  0 <= n <= l_held L g /\ 0 <= e <= n /\
  (l_strict L = true -> e <= l_esc L g /\ l_esc L g - e <= l_held L g - n).

Lemma release_spec L bb g gr n e :
  budget_ok L bb -> bb_groupOf bb !! g = Some gr -> releasable L g n e ->
  exists bb', releaseLocked n e g bb = Some bb' /\
    acct (set_account g (l_held L g - n) (l_esc L g - e) L) bb' /\ account_post g gr bb bb'.
Proof.
  intros [Hac Hix] Hg (Hn & He & Hle).
  pose proof (group_used_bounds L bb Hac g gr Hg). pose proof (used_bounds L bb Hac) as Hub.
  pose proof (escape_u64 L bb Hac).
  pose proof (tcredit_bounds L bb Hac). pose proof (gcredit_nonneg L bb Hac g).
  pose proof (su_bound _ _ (ac_sums _ _ Hac)) as Hsb.
  destruct (ac_groups _ _ Hac g gr Hg) as [G1 G2 G2' G3 G4 G5 G6 G7].
  rewrite (release_eq n e g gr bb (cf_fair _ (ac_cfg _ _ Hac)) Hg) by lia.
  set (gr1 := gr <| g_used := _ |> <| g_escape := _ |>). set (gr2 := gr1 <| g_active := _ |>).
  eexists. split; [done|]. split; [|by apply acc_upd_post].
  assert (Hu : sub64 (bb_used bb) n = bb_used bb - l_held L g + (l_held L g - n)) by (rewrite sub64_small; lia).
  assert (Hx : sub64 (bb_escape bb) e = (bb_escape bb - l_esc L g + (l_esc L g - e)) mod W64) by u64_lia.
  rewrite Hu, Hx. change (group_active gr1) with (g_active gr2).
  apply (acct_acc_upd L bb Hac g gr gr2); try done; simpl.
  - rewrite sub64_small by lia. lia.
  - rewrite G2. u64_lia.
  - lia.
  - intros Hst. specialize (G3 Hst). specialize (Hle Hst). lia.
  - lia.
  - intros Hst Ht. pose proof (su_cap _ _ (ac_sums _ _ Hac) Hst Ht). lia.
Qed.

(** Refreshing the group makes the index right again. *)
Lemma refresh_post L g gr bb bb' :
  acct L bb' -> account_post g gr bb bb' ->
  exists bb2, refreshLocked g bb' = Some bb2 /\ budget_ok L bb2 /\ same_core bb' bb2.
Proof.
  intros Hac []. destruct ap_group0 as (gr' & Hg' & _).
  destruct (refresh_spec g bb' gr') as (b2 & -> & Hix2 & Hc & _);
    [done|done|intros; by eapply (acct_queues_ok L)|].
  exists b2. split; [done|]. split; [|done]. split; [by eapply acct_core|done].
Qed.

(** ** releaseFor *)

Lemma releaseFor_spec L bb g n e :
  budget_ok L bb -> is_Some (bb_groupOf bb !! g) -> releasable L g n e ->
  exists bb', releaseFor n e (Some g) bb = Some bb' /\
    budget_ok (set_account g (l_held L g - n) (l_esc L g - e) L) bb' /\ (n <> 0 -> settled bb').
Proof.
  intros Hok [gr Hg] Hr. pose proof Hr as (Hn & He & Hle). unfold releaseFor. destruct (decide (n = 0)) as [->|Hn0].
  { exists bb. split; [done|]. split; [|done]. assert (e = 0) as -> by lia. rewrite !Z.sub_0_r.
    by rewrite set_account_id. }
  change (group (Some g)) with g. destruct (release_spec L bb g gr n e) as (b1 & -> & Hac1 & Hp); [done..|].
  cbn [mbind option_bind]. rewrite (cf_fair _ (ac_cfg _ _ Hac1)).
  set (L' := set_account _ _ _ _) in *. pose proof Hp as [_ Hidx (gr1 & Hg1 & Hw1) _ _ _ _]. simpl. rewrite Hg1.
  cbn [mbind option_bind].
  assert (H2 : exists b2, (if decide (g_waiters gr1 = []) then Some b1 else refreshLocked g b1) = Some b2 /\
    budget_ok L' b2).
  { case_decide as Hd.
    - exists b1. split; [done|]. split; [done|]. apply Hidx. congruence.
    - destruct (refresh_post L' g gr bb b1) as (b2 & ? & ? & _); [done..|]. by exists b2. }
  destruct H2 as (b2 & -> & Hok2). cbn [mbind option_bind].
  destruct (schedule_spec L' b2 Hok2) as (b3 & -> & ? & ? & _). by exists b3.
Qed.

(** ** A live waiter leaves: granted, forced or cancelled *)

Definition leave_upd (g : gid) (gr : budgetGroup) (u a : Z) (ks : gmap string gid) (ws : gmap wid budgetWaiter)
    (bb : ByteBudget) : ByteBudget :=
  bb <| bb_groupOf ::= <[g := gr]> |> <| bb_used := u |> <| bb_active := a |> <| bb_groups := ks |>
     <| bb_waiterOf := ws |>.

(** Group [gr] without one of its pending requests, with [u] bytes and queue [q]. *)
Definition left_group (u : Z) (q : list wid) (gr : budgetGroup) : budgetGroup :=
  gr <| g_used := u |> <| g_waiters := q |> <| g_pending := g_pending gr - 1 |>
     <| g_active := bool_decide (u <> 0 \/ g_pending gr - 1 <> 0) |> <| g_refs := g_refs gr - 1 |>.

Definition left_keys (gr : budgetGroup) (ks : gmap string gid) : gmap string gid :=
  if decide (g_refs gr - 1 = 0) then delete (g_key gr) ks else ks.

(** [w.group.pending--], [activateLocked], [unregisterLocked], and then [K]. *)
Lemma leave_tail_eq {R} (K : ByteBudget -> option R) g gr bb :
  bb_fair bb = true -> bb_groupOf bb !! g = Some gr -> 1 <= g_pending gr < W64 -> 1 <= g_refs gr < W64 ->
  (bb ← modGroup g (fun gr => gr <| g_pending := sub64 (g_pending gr) 1 |>) bb;
   bb ← activateLocked g bb; bb ← unregisterLocked g bb; K bb) =
  K (leave_upd g (left_group (g_used gr) (g_waiters gr) gr) (bb_used bb)
       (adj (g_active gr) (g_active (left_group (g_used gr) (g_waiters gr) gr)) (bb_active bb))
       (left_keys gr (bb_groups bb)) (bb_waiterOf bb) bb).
Proof.
  intros Hf Hg Hp Hr. unfold modGroup at 1. rewrite Hg. cbn [mbind option_bind].
  rewrite (activate_eq g (gr <| g_pending := g_pending gr - 1 |>)); [|done|].
  2:{ simpl. rewrite lookup_insert_eq, sub64_small by lia. done. }
  cbn [mbind option_bind]. unfold unregisterLocked, modGroup.
  destruct bb, gr. cbn in *. subst. eval_fields. rewrite lookup_insert_eq. cbn [mbind option_bind].
  rewrite lookup_insert_eq. cbn [mbind option_bind]. eval_fields. rewrite sub64_small by lia.
  unfold left_keys, leave_upd, left_group, acc_upd. eval_fields. rewrite !insert_insert_eq.
  by destruct (decide (g_refs - 1 = 0)).
Qed.

Section leaving.
Context (L : ledger) (bb : ByteBudget) (Hok : budget_ok L bb).
Context (g : gid) (gr : budgetGroup) (Hg : bb_groupOf bb !! g = Some gr) (Hg0 : g <> 0%nat).
Context (w : wid) (n : Z) (wr : budgetWaiter) (c : chan).
Context (Hl : l_live L !! w = Some (g, n)) (Hlo : live_ok bb w g n wr c).

(** The ledger after [k] bytes of the request became held bytes of [g]. *)
Definition left_ledger (k : Z) : ledger :=
  (set_account g (l_held L g + k) (l_esc L g) L) <| l_live := delete w (l_live L) |>.

Lemma left_ledger_eq k :
  ledger_eq (left_ledger k)
    (set_account g (l_held L g + k) (l_esc L g) (L <| l_live ::= delete w |>)).
Proof. by split. Qed.

Lemma leaving_bounds :
  1 <= g_pending gr < W64 /\ 1 <= g_refs gr < W64 /\ g_active gr = true /\ crd bb w = w_credit wr /\
  w_credit wr <= g_used gr <= bb_used bb /\ bb_used bb < W64.
Proof.
  pose proof (bo_acct _ _ Hok) as Hac. destruct (live_group L bb Hac w g n gr Hl Hg) as (Hp & Ha & Hu).
  pose proof (pending_bounds L bb Hac g gr Hg). pose proof (group_used_bounds L bb Hac g gr Hg).
  pose proof (used_bounds L bb Hac). destruct (ac_groups _ _ Hac g gr Hg) as [_ _ G3 _ _ _ G6 G7].
  assert (Hcr : crd bb w = w_credit wr) by (unfold crd; by rewrite (lo_waiter _ _ _ _ _ _ Hlo)).
  rewrite Hcr in Hu. repeat split; try done; lia.
Qed.

(** The state in which [w] has left with [k] of its credit kept. *)
Definition left_state (k : Z) (ws : gmap wid budgetWaiter) : ByteBudget :=
  let gr' := left_group (g_used gr - w_credit wr + k) (lremove w (g_waiters gr)) gr in
  leave_upd g gr' (bb_used bb - w_credit wr + k) (adj (g_active gr) (g_active gr') (bb_active bb))
    (left_keys gr (bb_groups bb)) ws bb.

Lemma left_acct k ws :
  k = 0 \/ k = w_credit wr -> (forall w', w' <> w -> ws !! w' = bb_waiterOf bb !! w') ->
  acct (left_ledger k) (left_state k ws).
Proof.
  intros Hk Hws. pose proof (bo_acct _ _ Hok) as Hac. pose proof leaving_bounds as (Hp & Hr & Ha & Hcw & Hu & _).
  pose proof Hlo as [_ _ _ Hpos _ Hcr _ _ _ _].
  destruct (sums_delete L (left_ledger k) bb (left_state k ws) w g n) as (T1 & T2 & T3 & T4); [done|done| |].
  { intros w' Hne. unfold crd. simpl. by rewrite Hws. }
  pose proof (T3 g) as T3g. pose proof (T4 g) as T4g. rewrite decide_True in T3g, T4g by done.
  destruct (ac_groups _ _ Hac g gr Hg) as [G1 G2 G2' G3 G4 G5 G6 G7].
  eapply (group_step_acct L bb _ _ g gr); [done|done|done|].
  split; try done.
  - intros g' Hne. simpl. by rewrite !fn_lookup_insert_ne.
  - intros g' Hne. rewrite T3, T4, !decide_False by done. lia.
  - lia.
  - simpl. lia.
  - split; try done; simpl; rewrite ?fn_lookup_insert, ?T3g, ?T4g; try done; try lia.
    intros Hst. specialize (G3 Hst). lia.
  - rewrite T1. simpl. rewrite fn_lookup_insert. pose proof (su_bound _ _ (ac_sums _ _ Hac)).
    unfold messageOverheadBytes in Hpos. lia.
  - intros Hst Ht. simpl. pose proof (su_cap _ _ (ac_sums _ _ Hac) Hst Ht). lia.
  - simpl. lia.
  - simpl. unfold left_keys. repeat case_decide; try done; lia.
  - eapply (waiters_ok_leave L (left_ledger k) bb _ g gr _ n w); try done. apply Hac.
Qed.

Lemma left_need k ws g' :
  (forall w', w' <> w -> ws !! w' = bb_waiterOf bb !! w') ->
  g' <> g -> groupNeed (left_state k ws) g' = groupNeed bb g'.
Proof.
  intros Hws Hne. unfold groupNeed. simpl. rewrite lookup_insert_ne by done.
  destruct (bb_groupOf bb !! g') as [gr'|] eqn:Hg'; [|done]. simpl.
  destruct (g_waiters gr') as [|w' l'] eqn:Hw'; [done|]. simpl. rewrite Hws; [done|]. intros ->.
  destruct (queue_head L bb (bo_acct _ _ Hok) g' gr' w l' Hg' Hw') as (? & ? & ? & ? & _). congruence.
Qed.
End leaving.

(** The state after [w] left its queue and gave back its credit. *)
Definition dequeued (g : gid) (q : list wid) (u gu : Z) (gr : budgetGroup) (ws : gmap wid budgetWaiter)
    (bb : ByteBudget) : ByteBudget :=
  bb <| bb_groupOf ::= <[g := gr <| g_used := gu |> <| g_waiters := q |>]> |> <| bb_used := u |>
     <| bb_waiterOf := ws |>.

Lemma dequeued_id g gr bb :
  bb_groupOf bb !! g = Some gr ->
  dequeued g (g_waiters gr) (bb_used bb) (g_used gr) gr (bb_waiterOf bb) bb = bb.
Proof. intros Hg. destruct bb, gr. unfold dequeued. cbn in *. eval_fields. by rewrite insert_id. Qed.

Lemma dequeued_release g q u gu gr ws cr bb :
  bb_fair bb = true -> 0 <= cr -> cr <= gu < W64 -> cr <= u < W64 -> g_active gr = true ->
  is_u64 (g_escape gr) -> is_u64 (bb_escape bb) -> g_pending gr <> 0 ->
  releaseLocked cr 0 g (dequeued g q u gu gr ws bb) =
    Some (dequeued g q (u - cr) (gu - cr) gr ws bb).
Proof.
  intros Hf Hc Hgu Hu Ha He He' Hp.
  rewrite (release_eq _ _ _ (gr <| g_used := gu |> <| g_waiters := q |>)); simpl; [|done| |lia|lia].
  2:{ by rewrite lookup_insert_eq. }
  rewrite pending_active by done. rewrite Ha. unfold adj. rewrite decide_True by done.
  assert (Hs0 : forall z, is_u64 z -> sub64 z 0 = z) by (intros; u64_lia).
  f_equal. destruct bb, gr. unfold acc_upd, dequeued. cbn in *. subst. eval_fields.
  rewrite !Hs0, !sub64_small, insert_insert_eq by (done || lia). done.
Qed.

Section removing.
Context (L : ledger) (bb : ByteBudget) (Hok : budget_ok L bb).
Context (g : gid) (gr : budgetGroup) (Hg : bb_groupOf bb !! g = Some gr) (Hg0 : g <> 0%nat).
Context (w : wid) (n : Z) (wr : budgetWaiter) (c : chan).
Context (Hl : l_live L !! w = Some (g, n)) (Hlo : live_ok bb w g n wr c).

Lemma granted_dequeued : w_granted wr = true -> lremove w (g_waiters gr) = g_waiters gr.
Proof.
  intros Hgt. apply lremove_notin. intros Hin.
  apply (wo_queue _ _ (ac_waiters _ _ (bo_acct _ _ Hok)) g gr w Hg) in Hin as (? & wr' & _ & Hw & Hf).
  destruct Hlo. congruence.
Qed.

Lemma remove_eq :
  exists ws, removeWaiterLocked w bb = refreshLocked g (left_state bb g gr w wr 0 ws) /\
    (forall w', w' <> w -> ws !! w' = bb_waiterOf bb !! w').
Proof.
  pose proof (leaving_bounds L bb Hok g gr Hg Hg0 w n wr c Hl Hlo) as (Hp & Hr & Ha & Hcw & Hu & Hlt).
  pose proof (bo_acct _ _ Hok) as Hac. pose proof (cf_fair _ (ac_cfg _ _ Hac)) as Hf.
  pose proof (group_escape_u64 L bb Hac g gr Hg) as He. pose proof (escape_u64 L bb Hac) as He'.
  pose proof Hlo as [_ Hw _ _ Hwg Hcr Hel _ _ _].
  unfold removeWaiterLocked. rewrite Hw. cbn [mbind option_bind]. rewrite Hwg. cbn [mbind option_bind].
  set (q := lremove w (g_waiters gr)).
  assert (H1 : exists wr1, (if w_elem wr then
      bb ← modGroup g (fun gr => gr <| g_waiters ::= lremove w |>) bb;
      modWaiter w (fun wr => wr <| w_elem := false |>) bb else Some bb) =
      Some (dequeued g q (bb_used bb) (g_used gr) gr (<[w := wr1]> (bb_waiterOf bb)) bb)).
  { destruct (w_elem wr) eqn:Hwe.
    - exists (wr <| w_elem := false |>). unfold modGroup, modWaiter. rewrite Hg. cbn [mbind option_bind].
      destruct bb, gr. cbn in *. rewrite Hw. done.
    - exists wr. rewrite insert_id by done. subst q. rewrite granted_dequeued by (by destruct (w_granted wr)).
      by rewrite dequeued_id. }
  destruct H1 as (wr1 & ->). cbn [mbind option_bind].
  assert (H2 : exists wr2, (if decide (w_credit wr <> 0) then
      bb ← releaseLocked (w_credit wr) 0 g (dequeued g q (bb_used bb) (g_used gr) gr (<[w := wr1]> (bb_waiterOf bb)) bb);
      modWaiter w (fun wr => wr <| w_credit := 0 |>) bb
      else Some (dequeued g q (bb_used bb) (g_used gr) gr (<[w := wr1]> (bb_waiterOf bb)) bb)) =
      Some (dequeued g q (bb_used bb - w_credit wr) (g_used gr - w_credit wr) gr (<[w := wr2]> (bb_waiterOf bb)) bb)).
  { case_decide as Hd.
    - exists (wr1 <| w_credit := 0 |>).
      rewrite dequeued_release by (try done; unfold is_u64; lia). cbn [mbind option_bind]. unfold modWaiter.
      simpl. rewrite lookup_insert_eq. cbn [mbind option_bind]. f_equal. unfold dequeued. eval_fields.
      by rewrite insert_insert_eq.
    - exists wr1. replace (w_credit wr) with 0 by lia. by rewrite !Z.sub_0_r. }
  destruct H2 as (wr2 & ->). cbn [mbind option_bind].
  exists (<[w := wr2]> (bb_waiterOf bb)). split; [|intros; by rewrite lookup_insert_ne].
  rewrite (leave_tail_eq _ g (gr <| g_used := g_used gr - w_credit wr |> <| g_waiters := q |>)); try done.
  2:{ simpl. by rewrite lookup_insert_eq. }
  f_equal. unfold left_state, leave_upd, dequeued, left_group, left_keys. rewrite !Z.add_0_r.
  destruct bb, gr. cbn in *. eval_fields. by rewrite insert_insert_eq.
Qed.

Lemma removeWaiter_spec :
  exists bb', removeWaiterLocked w bb = Some bb' /\ budget_ok (left_ledger L g w 0) bb' /\
    is_Some (bb_groupOf bb' !! g) /\ theld bb' (left_ledger L g w 0) = theld bb L.
Proof.
  destruct remove_eq as (ws & -> & Hws).
  assert (Hac : acct (left_ledger L g w 0) (left_state bb g gr w wr 0 ws))
    by (eapply (left_acct L bb Hok g gr Hg Hg0 w n wr c); auto).
  set (gr' := left_group (g_used gr - w_credit wr + 0) (lremove w (g_waiters gr)) gr).
  assert (Hg' : bb_groupOf (left_state bb g gr w wr 0 ws) !! g = Some gr') by (simpl; by rewrite lookup_insert_eq).
  destruct (refresh_spec g (left_state bb g gr w wr 0 ws) gr') as (b2 & -> & Hix & Hc & _); [|done| |].
  - eapply (idx_but_frame g bb _ gr gr'); try done; [apply idx_idx_but, Hok|].
    intros. by eapply (left_need L bb Hok g gr w n wr).
  - intros. by eapply (acct_queues_ok _ _ Hac).
  - exists b2. split; [done|]. split; [split; [by eapply acct_core|done]|].
    split; [apply (core_group_is_Some _ _ g Hc); by eexists|].
    unfold theld. rewrite (msum_core (fun g0 _ => l_held (left_ledger L g w 0) g0) _ _ (fun _ _ => eq_refl) Hc). unfold left_state, leave_upd. simpl.
    rewrite (msum_insert _ _ _ gr) by done. rewrite Z.sub_add. apply msum_ext.
    intros g' _ _. simpl. destruct (decide (g = g')) as [<-|].
    + rewrite fn_lookup_insert. lia.
    + by rewrite fn_lookup_insert_ne.
Qed.

Lemma cancel_spec :
  exists bb', cancel (Some w) bb = Some bb' /\ budget_ok (left_ledger L g w 0) bb' /\ settled bb'.
Proof.
  unfold cancel. rewrite (cf_fair _ (ac_cfg _ _ (bo_acct _ _ Hok))).
  destruct removeWaiter_spec as (b1 & -> & Hok1 & _ & _). cbn [mbind option_bind].
  destruct (schedule_spec _ b1 Hok1) as (b2 & -> & ? & ? & _). by exists b2.
Qed.

(** A granted request turns its credit into held bytes. *)
Lemma reserve_granted_spec force :
  w_granted wr = true ->
  exists bb', reserveFor n force (Some g) (Some w) bb = Some (Reservation true false (bb_used bb) None, bb') /\
    budget_ok (left_ledger L g w n) bb' /\ bb_used bb' = bb_used bb.
Proof.
  intros Hgt. pose proof (leaving_bounds L bb Hok g gr Hg Hg0 w n wr c Hl Hlo) as (Hp & Hr & Ha & Hcw & Hu & Hlt).
  pose proof Hok as [Hac Hix]. pose proof (cf_fair _ (ac_cfg _ _ Hac)) as Hf. pose proof Hlo as [_ Hw _ _ _ _ _ Hgr _ _].
  assert (Hcn : w_credit wr = n) by (rewrite Hgt in Hgr; symmetry in Hgr; by apply bool_decide_eq_true in Hgr).
  unfold reserveFor. rewrite Hf, Hw. cbn [mbind option_bind]. rewrite Hgt. change (group (Some g)) with g.
  rewrite (leave_tail_eq (fun bb => Some (Reservation true false (bb_used bb) None, bb)) g gr) by done.
  assert (Heq : leave_upd g (left_group (g_used gr) (g_waiters gr) gr) (bb_used bb)
     (adj (g_active gr) (g_active (left_group (g_used gr) (g_waiters gr) gr)) (bb_active bb))
     (left_keys gr (bb_groups bb)) (bb_waiterOf bb) bb = left_state bb g gr w wr n (bb_waiterOf bb)).
  { unfold left_state. by rewrite granted_dequeued, Hcn, !Z.sub_add. }
  rewrite Heq. eexists. split; [|split].
  - do 2 f_equal. f_equal. simpl. lia.
  - split; [eapply (left_acct L bb Hok g gr Hg Hg0 w n wr c); auto|].
    eapply (idx_frame g bb _ gr); try done.
    + simpl. by apply granted_dequeued.
    + intros g' _. destruct (decide (g' = g)) as [->|]; [|by eapply (left_need L bb Hok g gr w n wr)].
      unfold groupNeed. simpl. rewrite lookup_insert_eq, Hg. simpl. rewrite granted_dequeued by done.
      by rewrite Hcn, Z.sub_add.
    + intros. by eapply (left_need L bb Hok g gr w n wr).
  - simpl. lia.
Qed.
End removing.

(** ** Admission *)

(** When [fits] answers yes: the request fits the pool and either leaves the
    reserve alone or keeps its group within its share. *)
Definition admissible (n : Z) (g : gid) (bb : ByteBudget) : Prop :=
  bb_total bb = 0 \/
  (inuse bb + n <= bb_total bb /\
    (inuse bb + n <= bb_total bb - bb_reserve bb \/
     exists gr s, bb_groupOf bb !! g = Some gr /\ share g bb = Some s /\ g_used gr + n <= s)).

Lemma share_bounds L bb g gr :
  acct L bb -> bb_groupOf bb !! g = Some gr -> exists s, share g bb = Some s /\ is_u64 s.
Proof.
  intros Hac Hg. destruct (ac_cfg _ _ Hac) as [_ [? ?] _ [? ?] _]. unfold share. rewrite Hg. cbn [mbind option_bind].
  eexists. split; [done|].
  assert (Hdiv : forall m, 2 <= m -> 0 <= bb_total bb / m < W64).
  { intros m Hm. split; [apply Z.div_pos; lia|]. apply Z.div_lt_upper_bound; lia. }
  set (k := if g_active gr then _ else _). assert (Hk : 2 <= (if decide (k < 2) then 2 else k)) by (case_decide; lia).
  apply Hdiv in Hk. set (s := bb_total bb / _) in *. destruct (decide (s < bb_minGroup bb)); split; lia.
Qed.

Lemma fits_spec L bb g gr n :
  acct L bb -> bb_groupOf bb !! g = Some gr -> 0 <= n < W64 ->
  exists b, fits n g bb = Some b /\ (b = true <-> admissible n g bb).
Proof.
  intros Hac Hg Hn. destruct (ac_cfg _ _ Hac) as [Hf [? ?] [? Hr] _ _].
  pose proof (inuse_u64 bb) as [? ?]. pose proof (used_bounds L bb Hac).
  pose proof (group_used_bounds L bb Hac g gr Hg).
  destruct (share_bounds L bb g gr Hac Hg) as (s & Hs & [? ?]).
  unfold fits, admissible. destruct (decide (bb_total bb = 0)) as [Ht|Ht]; [exists true; naive_solver|].
  specialize (Hr Ht). fold (inuse bb). rewrite (sub64_small _ (bb_reserve bb)) by lia.
  destruct (decide _) as [Hno|Hyes].
  { exists false. split; [done|]. split; [done|]. intros [?|[? _]]; [done|].
    destruct Hno as [?|Hno]; [lia|]. destruct (decide (n <= bb_total bb)); [|lia].
    rewrite sub64_small in Hno by lia. lia. }
  assert (Hfit : inuse bb + n <= bb_total bb).
  { destruct (decide (n <= bb_total bb)); [|lia]. rewrite sub64_small in Hyes by lia. lia. }
  rewrite add64_small by lia. rewrite Hf.
  destruct (decide _) as [[?|Hb]|Hnb]; [done|exists true; split; [done|]; split; [|done]; by right; split; [|left]|].
  rewrite Hs, Hg. cbn [mbind option_bind]. eexists. split; [done|]. rewrite bool_decide_eq_true. split.
  - intros [Hns Hh]. rewrite sub64_small in Hh by lia. right. split; [done|]. right. exists gr, s.
    split; [done|]. split; [done|]. lia.
  - intros [?|[_ [?|(gr' & s' & Hg' & Hs' & Hle)]]]; [done|exfalso; apply Hnb; by right|].
    simplify_eq. rewrite sub64_small by lia. lia.
Qed.

(** ** A request is queued *)

Definition queued_group (w : wid) (gr : budgetGroup) : budgetGroup :=
  gr <| g_waiters := g_waiters gr ++ [w] |> <| g_pending := g_pending gr + 1 |>
     <| g_refs := g_refs gr + 1 |> <| g_active := true |>.

Definition queued_state (g : gid) (gr : budgetGroup) (n : Z) (bb : ByteBudget) : ByteBudget :=
  let c := bb_next bb in
  let w := S c in
  bb <| bb_chans ::= <[c := false]> |> <| bb_next := S w |>
     <| bb_waiterOf ::= <[w := BudgetWaiter n 0 (Some g) (Some c) true false]> |>
     <| bb_groupOf ::= <[g := queued_group w gr]> |>
     <| bb_active := adj (g_active gr) true (bb_active bb) |>.

Definition queued_ledger (g : gid) (n : Z) (w : wid) (L : ledger) : ledger :=
  L <| l_live ::= <[w := (g, n)]> |>.

Section queueing.
Context (L : ledger) (bb : ByteBudget) (Hok : budget_ok L bb).
Context (g : gid) (gr : budgetGroup) (Hg : bb_groupOf bb !! g = Some gr) (Hg0 : g <> 0%nat).
Context (n : Z) (Hn : messageOverheadBytes <= n) (Hb : theld bb L + tasked L + n < W64).
Context (Hreg : 1 <= l_regs L g).

Lemma queued_bounds : 0 <= g_pending gr < 2 ^ 57 /\ 1 <= g_refs gr < 2 ^ 63 + 2 ^ 57.
Proof.
  pose proof (bo_acct _ _ Hok) as Hac. pose proof (pending_bounds L bb Hac g gr Hg).
  destruct (ac_groups _ _ Hac g gr Hg) as [_ _ _ _ _ _ G6 G7]. lia.
Qed.

Lemma queued_acct : acct (queued_ledger g n (S (bb_next bb)) L) (queued_state g gr n bb).
Proof.
  pose proof (bo_acct _ _ Hok) as Hac. pose proof queued_bounds as [Hp Hr]. set (w := S (bb_next bb)).
  pose proof (ac_waiters _ _ Hac) as Hwo.
  destruct (fresh_waiter L bb w Hwo) as [Hnl Hnw]; [lia|].
  destruct (sums_insert L (queued_ledger g n w L) bb (queued_state g gr n bb) w g n) as (T1 & T2 & T3 & T4);
    [done|done| | |].
  { unfold crd. simpl. by rewrite lookup_insert_eq. }
  { intros w' Hne. unfold crd. simpl. by rewrite lookup_insert_ne. }
  pose proof (T4 g) as T4g. rewrite decide_True in T4g by done.
  destruct (ac_groups _ _ Hac g gr Hg) as [G1 G2 G2' G3 G4 G5 G6 G7].
  eapply (group_step_acct L bb _ _ g gr (queued_group w gr)); [done|done|done|].
  split; try done.
  - simpl. repeat split; lia.
  - intros g' Hne. rewrite T3, T4, decide_False by done. lia.
  - rewrite T2, T3. lia.
  - simpl. lia.
  - split; try done; rewrite ?T3, ?T4g; simpl; try lia. symmetry. apply bool_decide_true. right. lia.
  - rewrite T1. simpl. lia.
  - intros Hst Ht. apply (su_cap _ _ (ac_sums _ _ Hac) Hst Ht).
  - simpl. lia.
  - simpl. rewrite decide_False by lia. done.
  - eapply (waiters_ok_join L _ bb _ g gr _ n w (bb_next bb)); try done; simpl; lia.
Qed.

Lemma queued_idx_but : idx_but g (queued_state g gr n bb).
Proof.
  pose proof (bo_acct _ _ Hok) as Hac.
  eapply (idx_but_frame g bb _ gr); try done; [apply idx_idx_but, Hok|].
  intros g' Hne. unfold groupNeed. simpl. rewrite lookup_insert_ne by done.
  destruct (bb_groupOf bb !! g') as [gr'|] eqn:Hg'; [|done]. simpl.
  destruct (g_waiters gr') as [|w' l'] eqn:Hw'; [done|]. simpl.
  destruct (queue_head L bb Hac g' gr' w' l' Hg' Hw') as (? & wr & ? & ? & [] & _).
  rewrite lookup_insert_ne; [done|]. intros <-.
  assert (S (bb_next bb) < bb_next bb)%nat; [|lia]. apply (wo_fresh_w _ _ (ac_waiters _ _ Hac)). by eexists.
Qed.

Lemma enqueue_eq : enqueue n g bb = Some (S (bb_next bb), queued_state g gr n bb).
Proof.
  pose proof queued_bounds as [Hp Hr]. pose proof (cf_fair _ (ac_cfg _ _ (bo_acct _ _ Hok))) as Hf.
  unfold enqueue, makeChan, modGroup. simpl. rewrite Hg. cbn [mbind option_bind]. simpl. rewrite Hf, lookup_insert_eq.
  cbn [mbind option_bind].
  assert (E1 : add64 1 (g_pending gr) = g_pending gr + 1) by (rewrite add64_small; lia).
  assert (E2 : add64 1 (g_refs gr) = g_refs gr + 1) by (rewrite add64_small; lia).
  erewrite activate_eq; [|done|simpl; by rewrite lookup_insert_eq]. cbn [mbind option_bind]. do 2 f_equal.
  rewrite pending_active by (simpl; rewrite E1; lia).
  clear Hok Hreg Hp Hr Hb Hg. destruct gr. cbn in *. unfold queued_state, queued_group, acc_upd. eval_fields.
  by rewrite E1, E2, !insert_insert_eq.
Qed.
End queueing.
