(* ===== verification/BudgetReserve.v ===== *)
(** * reserveFor, register and unregister on a fair byte budget

    The three outcomes of [reserveFor] (admitted, admitted as an escape, queued)
    with the ledger each leaves, construction, and the life of a group. *)

From S2P Require Import Prelude GoHeap ByteBudget BudgetIndex BudgetInv BudgetOps BudgetSchedule BudgetMethods.

(** ** reserveFor *)

Definition charged_ledger (g : gid) (n : Z) (esc : bool) (L : ledger) : ledger :=
  set_account g (l_held L g + n) (l_esc L g + if esc then n else 0) L.

(** What the caller of [reserveFor] gets. *)
Inductive reserve_post (L : ledger) (g : gid) (n : Z) (force : bool) :
    reservation -> ByteBudget -> Prop :=
  | reserve_admitted esc used bb' :
      (esc = true -> force = true) -> budget_ok (charged_ledger g n esc L) bb' -> used = bb_used bb' ->
      reserve_post L g n force (Reservation true esc used None) bb'
  | reserve_queued w used bb' :
      force = false -> l_live L !! w = None -> budget_ok (queued_ledger g n w L) bb' -> settled bb' ->
      reserve_post L g n force (Reservation false false used (Some w)) bb'.

Lemma refresh_schedule L g bb :
  acct L bb -> idx_but g bb -> is_Some (bb_groupOf bb !! g) ->
  exists b2 b3, refreshLocked g bb = Some b2 /\ scheduleLocked b2 = Some b3 /\ budget_ok L b3 /\ settled b3.
Proof.
  intros Hac Hix [gr Hg].
  destruct (refresh_spec g bb gr Hix Hg) as (b2 & H2 & Hix2 & Hc2 & _); [intros; by eapply (acct_queues_ok _ _ Hac)|].
  destruct (schedule_spec L b2) as (b3 & H3 & ? & ? & _); [split; [by eapply acct_core|done]|].
  by exists b2, b3.
Qed.

Section reserve.
Context (L : ledger) (bb : ByteBudget) (Hok : budget_ok L bb).
Context (g : gid) (Hg0 : g <> 0%nat) (Hgs : is_Some (bb_groupOf bb !! g)) (Hreg : 1 <= l_regs L g).
Context (n : Z) (Hn : messageOverheadBytes <= n) (Hb : theld bb L + tasked L + n < W64).

(** The admitting branch of [reserveFor], whatever [fits] said. *)
Lemma reserve_admit gr (f removed : bool) :
  bb_groupOf bb !! g = Some gr -> (f = true -> admissible n g bb) ->
  let q := bool_decide (g_waiters gr <> []) in
  exists bb', (bb ← charge n g (negb f || q) bb;
               bb ← (if q then refreshLocked g bb else Some bb);
               bb ← (if removed then scheduleLocked bb else Some bb);
               Some (Reservation true (negb f || (negb f || q)) (bb_used bb) None, bb)) =
    Some (Reservation true (negb f || q) (bb_used bb') None, bb') /\
    budget_ok (charged_ledger g n (negb f || q) L) bb'.
Proof.
  intros Hg Hfit q. unfold messageOverheadBytes in Hn.
  destruct (charge_spec L bb g gr n (negb f || q)) as (b1 & -> & Hac1 & Hp); [done|done|lia|lia| |].
  { intros He Ht. apply orb_false_iff in He as [He _]. apply negb_false_iff in He.
    destruct (Hfit He) as [?|[? _]]; [done|lia]. }
  fold (charged_ledger g n (negb f || q) L) in Hac1. set (L' := charged_ledger g n _ L) in *.
  cbn [mbind option_bind].
  assert (H2 : exists b2, (if q then refreshLocked g b1 else Some b1) = Some b2 /\ budget_ok L' b2).
  { destruct q eqn:Hq.
    - destruct (refresh_post L' g gr bb b1) as (b2 & ? & ? & _); [done..|]. by exists b2.
    - exists b1. split; [done|]. split; [done|]. apply Hp. apply bool_decide_eq_false in Hq. by apply dec_stable. }
  destruct H2 as (b2 & -> & Hok2). cbn [mbind option_bind].
  assert (H3 : exists b3, (if removed then scheduleLocked b2 else Some b2) = Some b3 /\ budget_ok L' b3).
  { destruct removed; [|by exists b2]. destruct (schedule_spec L' b2 Hok2) as (b3 & ? & ? & _). by exists b3. }
  destruct H3 as (b3 & -> & Hok3). cbn [mbind option_bind]. exists b3.
  by rewrite (orb_assoc (negb f)), orb_diag.
Qed.

(** The queueing branch. *)
Lemma reserve_queue gr :
  bb_groupOf bb !! g = Some gr ->
  exists w bq b2 b3, enqueue n g bb = Some (w, bq) /\ refreshLocked g bq = Some b2 /\
    scheduleLocked b2 = Some b3 /\ l_live L !! w = None /\ budget_ok (queued_ledger g n w L) b3 /\ settled b3.
Proof.
  intros Hg.
  destruct (refresh_schedule (queued_ledger g n (S (bb_next bb)) L) g (queued_state g gr n bb))
    as (b2 & b3 & ? & ? & ? & ?).
  - by apply queued_acct.
  - by apply (queued_idx_but L).
  - exists (queued_group (S (bb_next bb)) gr). unfold queued_state. simpl. apply lookup_insert_eq.
  - exists (S (bb_next bb)), (queued_state g gr n bb), b2, b3. split; [by apply (enqueue_eq L)|].
    split; [done|]. split; [done|]. split; [|done]. apply (fresh_waiter L bb); [apply Hok|lia].
Qed.

Lemma reserveFresh_spec force removed :
  exists r bb', reserveFresh n force removed g bb = Some (r, bb') /\ reserve_post L g n force r bb'.
Proof.
  pose proof Hok as [Hac Hix]. destruct Hgs as [gr Hg].
  pose proof (theld_nonneg L bb Hac). pose proof (tcredit_bounds L bb Hac).
  destruct (fits_spec L bb g gr n Hac Hg) as (f & Hf & Hfit); [unfold messageOverheadBytes in Hn; lia|].
  unfold reserveFresh. rewrite Hf, Hg. cbn [mbind option_bind].
  destruct (f && negb (bool_decide (g_waiters gr <> [])) || force) eqn:Himm.
  - rewrite (cf_fair _ (ac_cfg _ _ Hac)). cbn [andb].
    destruct (reserve_admit gr f removed) as (b & -> & Hb'); [done|by apply Hfit|]. eexists _, b. split; [done|].
    apply reserve_admitted; try done.
    intros He. destruct force; [done|]. rewrite orb_false_r in Himm. apply andb_true_iff in Himm as [-> Hq].
    apply negb_true_iff in Hq. by rewrite Hq in He.
  - apply orb_false_iff in Himm as [_ ->].
    destruct (reserve_queue gr Hg) as (w & bq & b2 & b3 & -> & H2 & H3 & Hl & Hok' & Hset).
    rewrite bind_ret, H2, bind_ret, H3, bind_ret.
    eexists _, b3. split; [done|]. by apply reserve_queued.
Qed.
End reserve.

(** [reserveFor] of a request that holds no waiter yet. *)
Lemma reserveFor_new L bb g n force :
  budget_ok L bb -> g <> 0%nat -> is_Some (bb_groupOf bb !! g) -> 1 <= l_regs L g ->
  messageOverheadBytes <= n -> theld bb L + tasked L + n < W64 ->
  exists r bb', reserveFor n force (Some g) None bb = Some (r, bb') /\ reserve_post L g n force r bb'.
Proof.
  intros Hok Hg0 Hgs Hreg Hn Hb. unfold reserveFor. rewrite (cf_fair _ (ac_cfg _ _ (bo_acct _ _ Hok))).
  by apply reserveFresh_spec.
Qed.

(** The ledger without the live waiter [w]. *)
Definition without (w : wid) (L : ledger) : ledger := L <| l_live ::= delete w |>.

Lemma left_without L g w : ledger_eq (left_ledger L g w 0) (without w L).
Proof.
  split; intros; simpl; try done; (destruct (decide (g = g0)) as [<-|];
    [rewrite fn_lookup_insert; lia|by rewrite fn_lookup_insert_ne]).
Qed.

Lemma left_charged L g w n : ledger_eq (left_ledger L g w n) (charged_ledger g n false (without w L)).
Proof.
  split; intros; simpl; try done. rewrite Z.add_0_r. done.
Qed.

#[export] Instance charged_ledger_proper g n esc : Proper (ledger_eq ==> ledger_eq) (charged_ledger g n esc).
Proof.
  intros L L' [H1 H2 H3 H4]. split; intros; simpl; try done; (destruct (decide (g = g0)) as [<-|];
    [rewrite !fn_lookup_insert, ?H1, ?H2; done|by rewrite !fn_lookup_insert_ne]).
Qed.

(** [reserveFor] of a request that is already queued. *)
Lemma reserveFor_queued L bb g n w force :
  budget_ok L bb -> g <> 0%nat -> 1 <= l_regs L g -> l_live L !! w = Some (g, n) ->
  exists r bb', reserveFor n force (Some g) (Some w) bb = Some (r, bb') /\
    ((exists esc, r = Reservation true esc (bb_used bb') None /\ (esc = true -> force = true) /\
        budget_ok (charged_ledger g n esc (without w L)) bb') \/
     (force = false /\ r = Reservation false false (bb_used bb) (Some w) /\ bb' = bb)) /\
    (wakeClosed w bb = false -> force = false -> r_ok r = false).
Proof.
  intros Hok Hg0 Hreg Hl. pose proof (bo_acct _ _ Hok) as Hac.
  destruct (wo_live _ _ (ac_waiters _ _ Hac) w g n Hl) as (wr & c & Hlo).
  destruct (lo_group _ _ _ _ _ _ Hlo) as [gr Hg]. destruct (w_granted wr) eqn:Hgt.
  { destruct (reserve_granted_spec L bb Hok g gr Hg Hg0 w n wr c Hl Hlo force Hgt) as (b & -> & Hok' & Hu).
    eexists _, b. split; [done|]. split.
    - left. exists false. rewrite Hu. split; [done|]. split; [done|]. by rewrite <-left_charged.
    - intros Hwk. unfold wakeClosed in Hwk. rewrite (lo_waiter _ _ _ _ _ _ Hlo), (lo_wake _ _ _ _ _ _ Hlo) in Hwk.
      apply bool_decide_eq_false in Hwk. destruct Hwk. by rewrite (lo_chan _ _ _ _ _ _ Hlo), Hgt. }
  unfold reserveFor. rewrite (cf_fair _ (ac_cfg _ _ Hac)), (lo_waiter _ _ _ _ _ _ Hlo), bind_ret, Hgt.
  destruct force; [|eexists _, bb; split; [done|]; split; [by right|done]].
  destruct (removeWaiter_spec L bb Hok g gr Hg Hg0 w n wr c Hl Hlo) as (b1 & -> & Hok1 & Hgs1 & Hth).
  rewrite bind_ret. change (group (Some g)) with g.
  destruct (crd_bounds L bb Hac w g n Hl) as [_ Hpos].
  destruct (sums_delete L (left_ledger L g w 0) bb bb w g n) as (T1 & _); [done..|].
  destruct (reserveFresh_spec _ b1 Hok1 g Hg0 Hgs1 Hreg n Hpos) with (force := true) (removed := true)
    as (r & b2 & -> & Hpost).
  { rewrite Hth, T1. pose proof (su_bound _ _ (ac_sums _ _ Hac)). lia. }
  exists r, b2. split; [done|]. split; [left|done]. inversion Hpost as [esc used b' Hesc Hok2 Hu|]; subst; [|done].
  exists esc. split; [done|]. split; [done|]. by rewrite <-left_without.
Qed.

Lemma cancel_live L bb g n w :
  budget_ok L bb -> g <> 0%nat -> l_live L !! w = Some (g, n) ->
  exists bb', cancel (Some w) bb = Some bb' /\ budget_ok (without w L) bb' /\ settled bb'.
Proof.
  intros Hok Hg0 Hl. pose proof (bo_acct _ _ Hok) as Hac.
  destruct (wo_live _ _ (ac_waiters _ _ Hac) w g n Hl) as (wr & c & Hlo).
  destruct (lo_group _ _ _ _ _ _ Hlo) as [gr Hg].
  destruct (cancel_spec L bb Hok g gr Hg Hg0 w n wr c Hl Hlo) as (b & -> & Hok' & ?).
  exists b. split; [done|]. split; [|done]. by rewrite <-left_without.
Qed.

(** ** Construction and registration *)

Definition empty_ledger (strict : bool) : ledger := Ledger (fun _ => 0) (fun _ => 0) (fun _ => 0) ∅ strict.

Definition set_regs (g : gid) (r : Z) (L : ledger) : ledger := L <| l_regs ::= <[g := r]> |>.

(** A new budget has only the embedded group, idle and unregistered. *)
Lemma NewFair_ok strict total o bb :
  is_u64 total -> is_u64 (ReserveBytes o) -> is_u64 (MinGroupBytes o) ->
  NewFairByteBudget total o = Some bb -> budget_ok (empty_ledger strict) bb.
Proof.
  unfold NewFairByteBudget. intros [? ?] [? ?] [? ?] Hnew.
  assert (Hr : 0 <= (if decide (ReserveBytes o = 0) then total / 8 else ReserveBytes o)).
  { destruct (decide (ReserveBytes o = 0)); [apply Z.div_pos|]; lia. }
  set (r := if decide (ReserveBytes o = 0) then _ else _) in *.
  destruct (decide ((total = 0 /\ r <> 0) \/ (total <> 0 /\ r >= total))) as [|Hok]; [done|].
  set (m := if decide (MinGroupBytes o = 0) then _ else _) in *.
  assert (Hmin : is_u64 m) by (unfold m, messageOverheadBytes; destruct (decide (MinGroupBytes o = 0)); split; lia).
  assert (bb = MkByteBudget total 0 0 true r m ∅ 0 None [] [] [] {[0%nat := newGroup "" 0]} ∅ ∅ 1)
    as -> by (by injection Hnew as <-). clear Hnew.
  assert (Hone : forall g gr, ({[0%nat := newGroup "" 0]} : gmap gid budgetGroup) !! g = Some gr ->
    g = 0%nat /\ gr = newGroup "" 0) by (by intros g gr [<- <-]%lookup_singleton_Some).
  assert (Hnl : forall x : gid, x ∉ @nil gid) by apply not_elem_of_nil.
  split; split; simpl.
  - split; simpl; [done|done|lia|done|lia].
  - split; simpl; try done.
    + intros g gr [-> ->]%Hone. apply NoDup_nil_2.
    + intros g gr w [-> ->]%Hone. simpl. split; [by intros ?%Hnl|naive_solver].
    + intros w [x Hw]. by rewrite lookup_empty in Hw.
    + intros w [x Hw]. by rewrite lookup_empty in Hw.
    + intros g [x [-> _]%Hone]. lia.
  - intros g gr [-> ->]%Hone. by split.
  - split; simpl; try (by vm_compute); lia.
  - intros key g. simpl. rewrite lookup_empty. split; [done|]. intros (Hne & gr & [-> _]%Hone & _). done.
  - simpl. intros g [?|?]; done.
  - split; simpl; try apply NoDup_nil_2; try (by intros ? ?%Hnl).
    intros g gr [-> ->]%Hone. simpl. split; [split; [by intros ?%Hnl|done]|]. split; [split; [by intros ?%Hnl|done]|done].
  - intros g gr [-> ->]%Hone. simpl. split; [split; [done|done]|]. split; [done|]. intros [?|?%Hnl]; done.
  - split; [split; simpl|..].
    + intros k g. by rewrite lookup_nil.
    + intros g gr [-> ->]%Hone _. done.
    + intros i Hi. simpl in Hi. lia.
    + intros i Hi. simpl in Hi. lia.
Qed.

(** A step on [g] that touches only its reference count. *)
Lemma refs_step L bb g gr r bb' :
  budget_ok L bb -> bb_groupOf bb !! g = Some gr -> g <> 0%nat -> 0 <= r < 2 ^ 63 ->
  0 < g_refs gr -> bb' = bb <| bb_groupOf ::= <[g := gr <| g_refs := r + g_pending gr |>]> |>
    <| bb_groups := if decide (r + g_pending gr = 0) then delete (g_key gr) (bb_groups bb) else bb_groups bb |> ->
  budget_ok (set_regs g r L) bb'.
Proof.
  intros [Hac Hix] Hg Hg0 Hr Hpos ->. destruct (ac_groups _ _ Hac g gr Hg) as [].
  set (gr' := gr <| g_refs := r + g_pending gr |>). set (bb' := bb <| bb_groupOf ::= _ |> <| bb_groups := _ |>).
  destruct (sums_same L (set_regs g r L) bb bb') as (T1 & T2 & T3 & T4); [done|done|].
  split.
  - eapply (group_step_acct L bb _ _ g gr gr'); [done|done|done|]. split; try done.
    + intros g' Hne. simpl. by rewrite fn_lookup_insert_ne.
    + rewrite T2, T3. lia.
    + simpl. lia.
    + simpl. unfold adj. by rewrite decide_True.
    + split; simpl; rewrite ?fn_lookup_insert, ?T3, ?T4; try done.
    + rewrite T1. simpl. pose proof (su_bound _ _ (ac_sums _ _ Hac)). lia.
    + apply (su_cap _ _ (ac_sums _ _ Hac)).
    + simpl. repeat case_decide; try done; lia.
    + destruct (ac_waiters _ _ Hac) as [H1 H2 H3 H4 H5 H6 H7].
      assert (Hdom : forall g', is_Some (<[g:=gr']> (bb_groupOf bb) !! g') <-> is_Some (bb_groupOf bb !! g')).
      { intros g'. by apply (insert_dom _ _ gr). }
      split; simpl; try done.
      * intros w g' n Hw. destruct (H1 w g' n Hw) as (wr & c & []). exists wr, c. split; try done. by apply Hdom.
      * intros g' gr0 [[<- <-]|[_ Hg']]%lookup_insert_Some; [by apply (H3 g gr)|eauto].
      * intros g' gr0 w [[<- <-]|[_ Hg']]%lookup_insert_Some; [by apply (H4 g gr)|eauto].
      * intros g' Hg'. apply H7. by apply Hdom.
  - assert (Hneed : forall g', groupNeed bb' g' = groupNeed bb g').
    { intros g'. unfold groupNeed. simpl. destruct (decide (g = g')) as [<-|].
      - by rewrite lookup_insert_eq, Hg.
      - by rewrite lookup_insert_ne. }
    by eapply (idx_frame g bb _ gr gr').
Qed.

Lemma unregister_spec L bb g :
  budget_ok L bb -> g <> 0%nat -> is_Some (bb_groupOf bb !! g) -> 1 <= l_regs L g ->
  exists bb', unregister (Some g) bb = Some bb' /\ budget_ok (set_regs g (l_regs L g - 1) L) bb'.
Proof.
  intros Hok Hg0 [gr Hg] Hreg. pose proof (bo_acct _ _ Hok) as Hac.
  destruct (ac_groups _ _ Hac g gr Hg) as [_ _ _ _ _ _ Hrefs Hlt]. pose proof (pending_bounds L bb Hac g gr Hg).
  assert (Hr : sub64 (g_refs gr) 1 = (l_regs L g - 1) + g_pending gr) by (rewrite sub64_small; lia).
  unfold unregister, unregisterLocked, modGroup. rewrite (cf_fair _ (ac_cfg _ _ Hac)), Hg, !bind_ret, Hr.
  cbn [with_field set_bb_groupOf bb_groupOf]. rewrite lookup_insert_eq, bind_ret.
  eexists. split; [|eapply (refs_step L bb g gr (l_regs L g - 1)); [done|done|done|lia|lia|reflexivity]].
  simpl. case_decide; [done|]. by destruct bb.
Qed.

Lemma register_known L bb key g :
  budget_ok L bb -> key <> "" -> bb_groups bb !! key = Some g -> l_regs L g < 2 ^ 63 - 1 ->
  exists bb', register key bb = inr (Some g, bb') /\ budget_ok (set_regs g (l_regs L g + 1) L) bb' /\
    g <> 0%nat /\ is_Some (bb_groupOf bb' !! g).
Proof.
  intros Hok Hk Hkg Hlt. pose proof (bo_acct _ _ Hok) as Hac.
  apply (ac_keys _ _ Hac) in Hkg as Hkey. destruct Hkey as (Hg0 & gr & Hg & Hkk & Hpos).
  destruct (ac_groups _ _ Hac g gr Hg) as [_ _ _ _ _ _ Hrefs ?]. pose proof (pending_bounds L bb Hac g gr Hg).
  unfold register. rewrite (cf_fair _ (ac_cfg _ _ Hac)), decide_False, Hkg by done. eexists. split; [done|].
  split; [|split; [done|]].
  - eapply (refs_step L bb g gr (l_regs L g + 1)); [done|done|done|lia|done|].
    rewrite decide_False by lia.
    assert (Hal : alter (fun gr => gr <| g_refs ::= add64 1 |>) g (bb_groupOf bb) =
      <[g := gr <| g_refs := l_regs L g + 1 + g_pending gr |>]> (bb_groupOf bb)).
    { apply map_eq. intros g'. destruct (decide (g = g')) as [<-|];
        [|by rewrite lookup_alter_ne, lookup_insert_ne].
      rewrite lookup_alter, decide_True, Hg, lookup_insert_eq by done.
      assert (E : add64 1 (g_refs gr) = l_regs L g + 1 + g_pending gr) by (rewrite add64_small; lia).
      rewrite <-E. done. }
    revert Hal. eval_fields. by intros ->.
  - simpl. rewrite lookup_alter, decide_True, Hg by done. by eexists.
Qed.

(** ** A group that is registered for the first time *)

Section newcomer.
Context (L : ledger) (bb : ByteBudget) (Hok : budget_ok L bb) (key : string).
Context (Hk : key <> "") (Hkn : bb_groups bb !! key = None).

Definition newcomer : gid := bb_next bb.

Definition newcomer_state : ByteBudget :=
  bb <| bb_groupOf ::= <[newcomer := newGroup key 1]> |> <| bb_groups ::= <[key := newcomer]> |>
     <| bb_next ::= S |>.

Definition newcomer_ledger : ledger := set_regs newcomer 1 (set_account newcomer 0 0 L).

Lemma newcomer_fresh : bb_groupOf bb !! newcomer = None.
Proof.
  destruct (bb_groupOf bb !! newcomer) eqn:E; [|done].
  assert (newcomer < bb_next bb)%nat; [|unfold newcomer in *; lia].
  apply (wo_fresh_g _ _ (ac_waiters _ _ (bo_acct _ _ Hok))). by eexists.
Qed.

Lemma newcomer_old g gr : bb_groupOf bb !! g = Some gr -> g <> newcomer.
Proof. intros Hg ->. pose proof newcomer_fresh. congruence. Qed.

(** No live waiter belongs to the new group. *)
Lemma newcomer_sums : gcount newcomer_ledger newcomer = 0 /\ gcredit newcomer_state newcomer_ledger newcomer = 0.
Proof.
  assert (Hno : forall w p, l_live L !! w = Some p -> p.1 <> newcomer).
  { intros w [g n] Hw. destruct (wo_live _ _ (ac_waiters _ _ (bo_acct _ _ Hok)) w g n Hw) as (? & ? & [[gr Hg] _]).
    by eapply newcomer_old. }
  assert (Hz : forall f : wid -> gid * Z -> Z, (forall w p, p.1 <> newcomer -> f w p = 0) -> msum f (l_live L) = 0).
  { intros f Hf. rewrite (msum_ext f (fun _ _ => 0 * 0)) by eauto. rewrite msum_scale. lia. }
  split; apply Hz; intros w p Hp; by rewrite decide_False.
Qed.

Lemma newcomer_acct : acct newcomer_ledger newcomer_state.
Proof.
  pose proof (bo_acct _ _ Hok) as [[] [H1 H2 H3 H4 H5 H6 H7] Hg [S1 S2 S3 S4 S5 S6] Hks Hdom].
  pose proof newcomer_fresh as Hfr. pose proof newcomer_sums as [Hc1 Hc2].
  assert (Hth : theld newcomer_state newcomer_ledger = theld bb L).
  { unfold theld. simpl. rewrite msum_insert_new, fn_lookup_insert by done. simpl. apply msum_ext.
    intros g gr Hgr. rewrite fn_lookup_insert_ne; [done|]. apply not_eq_sym. by eapply newcomer_old. }
  split; [split; simpl; done || lia| | | | |].
  - split; simpl; try done.
    + intros w g n Hw. destruct (H1 w g n Hw) as (wr & c & [[gr Hgr] ? ? ? ? ? ? ? ? ?]). exists wr, c.
      split; try done. simpl. rewrite lookup_insert_ne; [by eexists|]. apply not_eq_sym. by eapply newcomer_old.
    + intros g gr [[_ <-]|[_ Hgr]]%lookup_insert_Some; [apply NoDup_nil_2|eauto].
    + intros g gr w [[<- <-]|[_ Hgr]]%lookup_insert_Some; [|eauto]. simpl. split; [by intros ?%not_elem_of_nil|].
      intros (n & wr & Hw & _). destruct (H1 w newcomer n Hw) as (? & ? & [[? ?] _]). congruence.
    + intros w Hw. apply H5 in Hw. lia.
    + intros w Hw. apply H6 in Hw. lia.
    + intros g [gr [[<- _]|[_ Hgr]]%lookup_insert_Some]; [unfold newcomer; lia|].
      assert (g < bb_next bb)%nat by (apply H7; by eexists). lia.
  - intros g gr Hgr0. simpl in Hgr0.
    apply lookup_insert_Some in Hgr0 as [[<- <-]|[Hne Hgr]].
    + split; simpl; rewrite ?fn_lookup_insert, ?Hc1, ?Hc2; done.
    + destruct (Hg g gr Hgr). split; simpl; rewrite ?fn_lookup_insert_ne by done; done.
  - split; rewrite ?Hth; simpl; rewrite ?msum_insert_new by done; simpl; done.
  - intros k g. simpl. split.
    + intros [[<- <-]|[Hne Hkg]]%lookup_insert_Some.
      * split; [|eexists; split; [apply lookup_insert_eq|done]]. unfold newcomer. intros E.
        lia.
      * apply Hks in Hkg as (H0 & gr & Hgr & ? & ?). split; [done|]. exists gr. split; [|done].
        rewrite lookup_insert_ne; [done|]. apply not_eq_sym. by eapply newcomer_old.
    + intros (H0 & gr & [[<- <-]|[Hne Hgr]]%lookup_insert_Some & Hkk & Hr).
      * simpl in Hkk. subst. apply lookup_insert_eq.
      * assert (Hkg : bb_groups bb !! k = Some g) by (apply Hks; split; [done|by exists gr]).
        rewrite lookup_insert_ne; [done|]. congruence.
  - intros g. simpl. destruct (decide (newcomer = g)) as [<-|]; [rewrite lookup_insert_eq; by eexists|].
    rewrite !fn_lookup_insert_ne, lookup_insert_ne by done. auto.
Qed.

Lemma newcomer_need g : g <> newcomer -> groupNeed newcomer_state g = groupNeed bb g.
Proof. intros Hne. unfold groupNeed. simpl. by rewrite lookup_insert_ne. Qed.

Lemma newcomer_idx : idx newcomer_state.
Proof.
  pose proof (bo_idx _ _ Hok) as [[F1 F2 F3 F4 F5] Hl [[P1 P2] Hkd Hho]]. pose proof newcomer_fresh as Hfr.
  assert (Hdom : forall g, is_Some (bb_groupOf bb !! g) -> <[newcomer := newGroup key 1]> (bb_groupOf bb) !! g =
    bb_groupOf bb !! g).
  { intros g [gr Hg]. apply lookup_insert_ne, not_eq_sym. by eapply newcomer_old. }
  assert (Hout : forall l : list gid, (forall g, g ∈ l -> is_Some (bb_groupOf bb !! g)) -> newcomer ∉ l).
  { intros l Hall [gr Hg]%Hall. congruence. }
  assert (Hblk : forall g, g ∈ bb_blocked bb -> is_Some (bb_groupOf bb !! g)).
  { intros g [i Hi]%list_elem_of_lookup_1. destruct (P1 i g Hi) as (gr & Hg & _). by eexists. }
  assert (N1 := Hout _ F3). assert (N2 := Hout _ F4). assert (N3 := Hout _ Hblk).
  split; [split; simpl; try done| |split].
  - intros g Hg. rewrite Hdom by auto. auto.
  - intros g Hg. rewrite Hdom by auto. auto.
  - intros g gr [[<- <-]|[_ Hg]]%lookup_insert_Some; [|by apply F5]. simpl. by repeat split.
  - intros g gr Hg0. simpl in Hg0. apply lookup_insert_Some in Hg0 as [[<- <-]|[_ Hg]]; [|by apply (Hl g)].
    simpl. split; [done|]. split; [done|]. by intros [?|?].
  - split; simpl.
    + intros k g Hg. rewrite Hdom by (apply Hblk; by eapply list_elem_of_lookup_2). by apply P1.
    + intros g gr [[<- <-]|[_ Hg]]%lookup_insert_Some Hn; [done|by apply (P2 g)].
  - intros i Hi. destruct (Hkd i Hi) as (g & y & Hg & Hy). exists g, y. split; [done|].
    rewrite key_need, newcomer_need; [done|]. intros ->. apply N3. by eapply list_elem_of_lookup_2.
  - eapply heap_ok_ext; [|exact Hho]. intros i Hi. apply Kpos_ext; [done|]. intros g Hg. apply newcomer_need.
    intros ->. apply N3. by eapply list_elem_of_lookup_2.
Qed.

Lemma register_new :
  register key bb = inr (Some newcomer, newcomer_state) /\ budget_ok newcomer_ledger newcomer_state /\
  newcomer <> 0%nat.
Proof.
  pose proof (bo_acct _ _ Hok) as Hac. split; [|split].
  - unfold register. by rewrite (cf_fair _ (ac_cfg _ _ Hac)), decide_False, Hkn.
  - split; [apply newcomer_acct|apply newcomer_idx].
  - pose proof (cf_next _ (ac_cfg _ _ Hac)). unfold newcomer. lia.
Qed.
End newcomer.
