(* ===== verification/BudgetSpec.v ===== *)
(** * What a fair byte budget promises

    The budget as a machine: buffers issue calls, [run] executes one, and the
    ledger records what the callers hold.  Theorems about every call, every
    reachable state and every grant. *)

From S2P Require Import Prelude GoHeap ByteBudget BudgetIndex BudgetInv BudgetOps BudgetSchedule BudgetMethods BudgetReserve.

(** ** Calls *)

Inductive call :=
  | CRegister (key : string)
  | CUnregister (g : gid)
  | CReserve (g : gid) (n : Z) (force : bool)
  | CRetry (g : gid) (n : Z) (w : wid) (force : bool)
  | CCancel (w : wid)
  | CRelease (g : gid) (n e : Z).

Definition run (c : call) (bb : ByteBudget) : option (option reservation * ByteBudget) :=
  match c with
  | CRegister key => match register key bb with inr (_, bb) => Some (None, bb) | inl _ => None end
  | CUnregister g => bb ← unregister (Some g) bb; Some (None, bb)
  | CReserve g n force => '(r, bb) ← reserveFor n force (Some g) None bb; Some (Some r, bb)
  | CRetry g n w force => '(r, bb) ← reserveFor n force (Some g) (Some w) bb; Some (Some r, bb)
  | CCancel w => bb ← cancel (Some w) bb; Some (None, bb)
  | CRelease g n e => bb ← releaseFor n e (Some g) bb; Some (None, bb)
  end.

(** [g] was returned by [register]. *)
Definition handle (bb : ByteBudget) (g : gid) : Prop := g <> 0%nat /\ is_Some (bb_groupOf bb !! g).

(** What a caller may ask for, given what it holds. *)
Definition legal (L : ledger) (bb : ByteBudget) (c : call) : Prop :=
  match c with
  | CRegister key => key <> "" /\ (forall g, bb_groups bb !! key = Some g -> l_regs L g < 2 ^ 63 - 1)
  | CUnregister g => handle bb g /\ 1 <= l_regs L g
  | CReserve g n force => handle bb g /\ 1 <= l_regs L g /\ messageOverheadBytes <= n /\
      theld bb L + tasked L + n < W64
  | CRetry g n w force => handle bb g /\ 1 <= l_regs L g /\ l_live L !! w = Some (g, n)
  | CCancel w => exists g n, l_live L !! w = Some (g, n) /\ g <> 0%nat
  | CRelease g n e => handle bb g /\ releasable L g n e
  end.

(** What the callers hold afterwards. *)
Definition ledger_after (c : call) (r : option reservation) (L : ledger) (bb : ByteBudget) : ledger :=
  match c, r with
  | CRegister key, _ =>
      match bb_groups bb !! key with
      | Some g => set_regs g (l_regs L g + 1) L
      | None => newcomer_ledger L bb
      end
  | CUnregister g, _ => set_regs g (l_regs L g - 1) L
  | CReserve g n _, Some (Reservation true esc _ _) => charged_ledger g n esc L
  | CReserve g n _, Some (Reservation false _ _ (Some w)) => queued_ledger g n w L
  | CRetry g n w _, Some (Reservation true esc _ _) => charged_ledger g n esc (without w L)
  | CCancel w, _ => without w L
  | CRelease g n e, _ => set_account g (l_held L g - n) (l_esc L g - e) L
  | _, _ => L
  end.

(** Only a forced call may exceed the limit. *)
Definition escapes_only_forced (c : call) (r : option reservation) : Prop :=
  match c, r with
  | CReserve _ _ force, Some rv | CRetry _ _ _ force, Some rv => r_overshot rv = true -> force = true
  | _, _ => True
  end.

Lemma run_spec L bb c :
  budget_ok L bb -> legal L bb c ->
  exists r bb', run c bb = Some (r, bb') /\ budget_ok (ledger_after c r L bb) bb' /\ escapes_only_forced c r.
Proof.
  intros Hok Hleg. destruct c as [key|g|g n force|g n w force|w|g n e]; simpl in Hleg; unfold run.
  - destruct Hleg as [Hk Hlt]. destruct (bb_groups bb !! key) as [g|] eqn:Hkg.
    + destruct (register_known L bb key g) as (bb' & -> & ? & _); [done..|by apply Hlt|].
      exists None, bb'. simpl. by rewrite Hkg.
    + destruct (register_new L bb Hok key Hk Hkg) as (-> & ? & _). eexists None, _. simpl. by rewrite Hkg.
  - destruct Hleg as [[Hg0 Hg] Hr]. destruct (unregister_spec L bb g) as (bb' & -> & ?); [done..|].
    by exists None, bb'.
  - destruct Hleg as ([Hg0 Hg] & Hr & Hn & Hb).
    destruct (reserveFor_new L bb g n force) as (r & bb' & -> & Hpost); [done..|]. rewrite bind_ret.
    exists (Some r), bb'. split; [done|]. by destruct Hpost.
  - destruct Hleg as ([Hg0 Hg] & Hr & Hl).
    destruct (reserveFor_queued L bb g n w force) as (r & bb' & -> & Hpost & _); [done..|]. rewrite bind_ret.
    exists (Some r), bb'. split; [done|]. destruct Hpost as [(esc & -> & Hesc & Hok')|(-> & -> & ->)]; done.
  - destruct Hleg as (g & n & Hl & Hg0).
    destruct (cancel_live L bb g n w) as (bb' & -> & ? & _); [done..|]. by exists None, bb'.
  - destruct Hleg as ([_ Hg] & Hrel).
    destruct (releaseFor_spec L bb g n e) as (bb' & -> & ? & _); [done..|]. by exists None, bb'.
Qed.

(** ** Reachable states *)

Inductive reachable (total : Z) (o : FairByteBudgetOptions) : ledger -> ByteBudget -> Prop :=
  | reach_new bb : NewFairByteBudget total o = Some bb -> reachable total o (empty_ledger true) bb
  | reach_call L bb c r bb' :
      reachable total o L bb -> legal L bb c -> run c bb = Some (r, bb') ->
      reachable total o (ledger_after c r L bb) bb'.

Lemma reachable_ok total o L bb :
  is_u64 total -> is_u64 (ReserveBytes o) -> is_u64 (MinGroupBytes o) ->
  reachable total o L bb -> budget_ok L bb.
Proof.
  intros Ht Hr Hm. induction 1 as [bb Hnew|L bb c r bb' _ IH Hleg Hrun].
  - by apply (NewFair_ok _ total o).
  - destruct (run_spec L bb c IH Hleg) as (r0 & b0 & Hrun0 & Hok & _). congruence.
Qed.

(** The callers of the machine return the escape bytes with the bytes. *)
Lemma reachable_strict total o L bb : reachable total o L bb -> l_strict L = true.
Proof.
  induction 1 as [|L bb c r bb' _ IH]; [done|].
  destruct c; simpl; repeat case_match; try done.
Qed.

(** ** Properties of every reachable state *)


(** C22. Every legal call on a reachable budget returns: no nil dereference, no
    double close of a wake channel, no list or heap index out of range, no loop
    that does not end; it moves what the callers hold by exactly the request;
    and only a forced call is reported as over the limit. *)
Theorem fair_budget_call total o L bb c :
  is_u64 total -> is_u64 (ReserveBytes o) -> is_u64 (MinGroupBytes o) -> reachable total o L bb ->
  legal L bb c ->
  exists r bb', run c bb = Some (r, bb') /\ reachable total o (ledger_after c r L bb) bb' /\
    escapes_only_forced c r.
Proof.
  intros Ht Hr Hm Hre Hleg.
  destruct (run_spec L bb c) as (r & bb' & Hrun & _ & ?); [by apply (reachable_ok total o)|done|].
  exists r, bb'. split; [done|]. split; [by econstructor|done].
Qed.

(** ** The scheduler *)

(** C23. [scheduleLocked] ends within its bound, and when it stops nothing more
    can be granted: bytes outside the reserve are left only when no request
    waits, and a waiting group that is within its share waits only because the
    whole pool is in use.  As long as the escape bytes on record belong to bytes
    still held, the bytes in use are [used - escape] without wrap-around and
    never exceed the total, so that the pool then is used exactly. *)
Theorem schedule_work_conserving L bb :
  budget_ok L bb ->
  exists bb', scheduleLocked bb = Some bb' /\ budget_ok L bb' /\
    (inuse bb' < bb_total bb' - bb_reserve bb' -> bb_waiting bb' = []) /\
    (bb_total bb' = 0 -> bb_waiting bb' = []) /\
    (forall g gr, bb_groupOf bb' !! g = Some gr -> g_waiters gr <> [] -> eligible g bb' = Some true ->
      bb_total bb' <= inuse bb' /\ (l_strict L = true -> bb_used bb' - bb_escape bb' = bb_total bb')) /\
    (l_strict L = true -> inuse bb' = bb_used bb' - bb_escape bb').
Proof.
  intros Hok. destruct (schedule_spec L bb Hok) as (bb' & Hs & Hok' & Hset & _). exists bb'.
  pose proof (bo_acct _ _ Hok') as Hac. pose proof (ac_cfg _ _ Hac) as [_ _ [? _] _ _].
  split; [done|]. split; [done|]. split; [|split; [|split]].
  - intros Hlt. destruct Hset as [?|[[? ?]|(? & ? & _)]]; [done|lia|lia].
  - intros Ht. destruct Hset as [?|[[? ?]|(? & ? & _)]]; done.
  - intros g gr Hg Hw He. destruct Hset as [Hem|[[Ht Hle]|(_ & _ & Hall)]].
    + destruct (ix_linked _ (bo_idx _ _ Hok') g gr Hg) as [L1 _].
      destruct (fl_group _ (ix_flags _ (bo_idx _ _ Hok')) g gr Hg) as [F1 _].
      apply L1, F1 in Hw. rewrite Hem in Hw. by apply elem_of_nil in Hw.
    + split; [done|]. intros Hst. pose proof (su_cap _ _ (ac_sums _ _ Hac) Hst Ht).
      rewrite (inuse_strict _ _ Hac Hst) in Hle. lia.
    + rewrite (Hall g gr Hg Hw) in He. done.
  - apply (inuse_strict _ _ Hac).
Qed.

(** C24. Requests of a group are granted in arrival order: after scheduling the
    queue is a suffix of the old one, and each request that left it has its full
    credit, is marked granted and its wake channel is closed. *)
Theorem schedule_fifo L bb g gr :
  budget_ok L bb -> bb_groupOf bb !! g = Some gr ->
  exists bb' gr' k, scheduleLocked bb = Some bb' /\ bb_groupOf bb' !! g = Some gr' /\
    g_waiters gr' = drop k (g_waiters gr) /\
    forall w, w ∈ take k (g_waiters gr) -> exists wr c, bb_waiterOf bb' !! w = Some wr /\
      w_granted wr = true /\ w_credit wr = w_n wr /\ w_wake wr = Some c /\ bb_chans bb' !! c = Some true.
Proof.
  intros Hok Hg. destruct (schedule_spec L bb Hok) as (bb' & Hs & Hok' & _ & Hle).
  destruct (sl_fifo _ _ Hle g gr Hg) as (gr' & k & Hg' & Hq). exists bb', gr', k.
  split; [done|]. split; [done|]. split; [done|]. intros w Hw.
  pose proof (ac_waiters _ _ (bo_acct _ _ Hok)) as Hwo. pose proof (ac_waiters _ _ (bo_acct _ _ Hok')) as Hwo'.
  assert (Hin : w ∈ g_waiters gr) by (rewrite <-(take_drop k); apply elem_of_app; by left).
  apply (wo_queue _ _ Hwo g gr w Hg) in Hin as (n & wr0 & Hl & _ & _).
  destruct (wo_live _ _ Hwo' w g n Hl) as (wr & c & [_ Hwr Hn _ _ _ _ Hgt Hwk Hch]). exists wr, c.
  assert (Hgr : w_granted wr = true).
  { destruct (w_granted wr) eqn:E; [done|]. exfalso.
    assert (Hq' : w ∈ g_waiters gr') by (apply (wo_queue _ _ Hwo' g gr' w Hg'); eauto).
    rewrite Hq in Hq'. pose proof (wo_nodup _ _ Hwo g gr Hg) as Hnd. rewrite <-(take_drop k) in Hnd.
    apply NoDup_app in Hnd as (_ & Hd & _). by eapply Hd. }
  split; [done|]. split; [done|]. rewrite Hgr in *. symmetry in Hgt. apply bool_decide_eq_true in Hgt.
  split; [congruence|]. done.
Qed.

(** [nextReserveLocked] returns a waiting group that is within its share
    whenever there is one, and nil only when there is none; both of its loops
    end. *)
Theorem nextReserve_sound_complete L bb :
  budget_ok L bb ->
  exists og bb', nextReserveLocked bb = Some (og, bb') /\ budget_ok L bb' /\
    match og with
    | Some g => eligible g bb' = Some true /\ exists gr, bb_groupOf bb' !! g = Some gr /\ g_waiters gr <> []
    | None => forall g gr, bb_groupOf bb' !! g = Some gr -> g_waiters gr <> [] -> eligible g bb' = Some false
    end.
Proof.
  intros [Hac Hix].
  destruct (nextReserve_spec bb) as (og & bb' & Hn & Hix' & Hc & Hog);
    [done|by eapply acct_queues_ok|apply (ac_cfg _ _ Hac)|].
  exists og, bb'. split; [done|]. split; [split; [by eapply acct_core|done]|done].
Qed.

(** ** Admission *)

(** A request that is not forced is admitted at once exactly when nobody of
    its group waits and it fits: within the total, and outside the reserve or
    within the group's share; otherwise it is queued and charged nothing. *)
Theorem reserve_admission L bb g gr n :
  budget_ok L bb -> g <> 0%nat -> bb_groupOf bb !! g = Some gr -> 1 <= l_regs L g ->
  messageOverheadBytes <= n -> theld bb L + tasked L + n < W64 ->
  exists r bb', reserveFor n false (Some g) None bb = Some (r, bb') /\ r_overshot r = false /\
    (r_ok r = true <-> admissible n g bb /\ g_waiters gr = []) /\
    (r_ok r = true -> budget_ok (charged_ledger g n false L) bb') /\
    (r_ok r = false -> exists w, r_waiter r = Some w /\ budget_ok (queued_ledger g n w L) bb').
Proof.
  intros Hok Hg0 Hg Hr Hn Hb. pose proof (bo_acct _ _ Hok) as Hac.
  destruct (reserveFor_new L bb g n false) as (r & bb' & Hrun & Hpost); [done|done|by eexists|done..|].
  pose proof (theld_nonneg _ _ Hac). pose proof (tcredit_bounds _ _ Hac).
  destruct (fits_spec L bb g gr n Hac Hg) as (f & Hf & Hfit); [unfold messageOverheadBytes in *; lia|].
  assert (Hiff : r_ok r = true <-> f && negb (bool_decide (g_waiters gr <> [])) = true).
  { revert Hrun. unfold reserveFor, reserveFresh. rewrite (cf_fair _ (ac_cfg _ _ Hac)).
    change (group (Some g)) with g. rewrite Hf, Hg, !bind_ret, orb_false_r.
    destruct (f && _); rewrite ?(cf_fair _ (ac_cfg _ _ Hac)).
    - intros (? & _ & (? & _ & (? & _ & [= <- <-])%bind_Some)%bind_Some)%bind_Some. done.
    - intros ([? ?] & _ & (? & _ & (? & _ & [= <- <-])%bind_Some)%bind_Some)%bind_Some. done. }
  exists r, bb'. split; [done|]. split; [|split; [|split]].
  - destruct Hpost as [esc used b Hesc _ _|]; [|done]. simpl. destruct esc; [|done]. by specialize (Hesc eq_refl).
  - rewrite Hiff, andb_true_iff, negb_true_iff, bool_decide_eq_false, Hfit. split; intros [? Hw]; (split; [done|]).
    + by apply dec_stable.
    + by intros ?.
  - destruct Hpost as [esc used b Hesc Hok' _|]; [|done]. simpl. intros _. destruct esc; [|done].
    by specialize (Hesc eq_refl).
  - destruct Hpost as [|w used b _ _ Hok' _]; [done|]. simpl. intros _. by exists w.
Qed.

(** A queued request that comes back is admitted once it was granted, without
    being charged again, and a forced one gives its place and credit back before
    it is admitted; a request that is still queued and not forced changes
    nothing. *)
Theorem reserve_retry L bb g n w force :
  budget_ok L bb -> g <> 0%nat -> 1 <= l_regs L g -> l_live L !! w = Some (g, n) ->
  exists r bb', reserveFor n force (Some g) (Some w) bb = Some (r, bb') /\
    ((exists esc, r = Reservation true esc (bb_used bb') None /\ (esc = true -> force = true) /\
        budget_ok (charged_ledger g n esc (without w L)) bb') \/
     (force = false /\ r = Reservation false false (bb_used bb) (Some w) /\ bb' = bb)).
Proof. intros. destruct (reserveFor_queued L bb g n w force) as (r & bb' & ? & ? & _); [done..|]. by exists r, bb'. Qed.

(** Cancelling a queued or granted request gives back its credit, its place
    and its reference on the group, and lets the others use the room. *)
Theorem cancel_gives_back L bb g n w :
  budget_ok L bb -> g <> 0%nat -> l_live L !! w = Some (g, n) ->
  exists bb', cancel (Some w) bb = Some bb' /\ budget_ok (without w L) bb' /\ settled bb'.
Proof. apply cancel_live. Qed.

(** Releasing bytes and escape bytes a group holds lowers its account and the
    totals by exactly these amounts and wakes the requests the room allows. *)
Theorem release_gives_back L bb g n e :
  budget_ok L bb -> is_Some (bb_groupOf bb !! g) -> n <> 0 -> releasable L g n e ->
  exists bb', releaseFor n e (Some g) bb = Some bb' /\
    budget_ok (set_account g (l_held L g - n) (l_esc L g - e) L) bb' /\ settled bb'.
Proof.
  intros Hok Hg Hn Hrel. destruct (releaseFor_spec L bb g n e) as (bb' & ? & ? & Hset); [done..|].
  exists bb'. split; [done|]. split; [done|]. by apply Hset.
Qed.

(** C33. A key is registered exactly as long as some client or some request of it
    is left: the map of groups holds it with one group, and no other. *)
Theorem group_lifecycle total o L bb key g :
  is_u64 total -> is_u64 (ReserveBytes o) -> is_u64 (MinGroupBytes o) -> reachable total o L bb ->
  bb_groups bb !! key = Some g <->
    g <> 0%nat /\ exists gr, bb_groupOf bb !! g = Some gr /\ g_key gr = key /\ 0 < l_regs L g + gcount L g.
Proof.
  intros Ht Hr Hm Hre. pose proof (bo_acct _ _ (reachable_ok _ _ _ _ Ht Hr Hm Hre)) as Hac.
  rewrite (ac_keys _ _ Hac key g). split; intros (H0 & gr & Hg & Hk & Hp); (split; [done|]); exists gr;
    (split; [done|]); (split; [done|]); destruct (ac_groups _ _ Hac g gr Hg) as [_ _ _ _ E1 _ E2 _]; lia.
Qed.

(** [NewFairByteBudget] rejects exactly a reserve without a limit and a
    reserve that leaves nothing outside it; otherwise the budget starts empty
    with an eighth of the total as default reserve. *)
Theorem NewFair_validation total o :
  is_u64 total -> is_u64 (ReserveBytes o) -> is_u64 (MinGroupBytes o) ->
  (NewFairByteBudget total o = None <-> ReserveBytes o <> 0 /\ total <= ReserveBytes o) /\
  forall bb, NewFairByteBudget total o = Some bb ->
    bb_total bb = total /\ bb_fair bb = true /\ bb_used bb = 0 /\ budget_ok (empty_ledger true) bb /\
    bb_reserve bb = (if decide (ReserveBytes o = 0) then total / 8 else ReserveBytes o) /\
    0 < bb_minGroup bb.
Proof.
  intros Ht Hr Hm. split.
  - unfold NewFairByteBudget. destruct (decide (ReserveBytes o = 0)) as [Hz|Hz].
    + assert (total / 8 < total \/ total = 0).
      { destruct Ht. destruct (decide (total = 0)); [by right|]. left. apply Z.div_lt; lia. }
      destruct Ht. split; [|lia]. destruct (decide _) as [[[-> ?]|[? ?]]|]; [done|lia|done].
    + destruct Ht, Hr. destruct (decide _) as [Hd|Hd]; [|split; [done|lia]]. split; [|done]. lia.
  - intros bb Hnew. assert (Hok : budget_ok (empty_ledger true) bb) by (by apply (NewFair_ok true total o)).
    unfold NewFairByteBudget in Hnew. destruct Hm.
    destruct (decide (_ \/ _)) in Hnew; [done|]. injection Hnew as <-.
    split; [done|]. split; [done|]. split; [done|]. split; [done|]. split; [done|]. simpl.
    unfold messageOverheadBytes. destruct (decide (MinGroupBytes o = 0)); lia.
Qed.

(** ** The ungrouped budget *)

(** The wake channel waiters share is open. *)
Definition legacy_ok (bb : ByteBudget) : Prop :=
  bb_fair bb = false /\ is_u64 (bb_total bb) /\ is_u64 (bb_used bb) /\
  (forall c, is_Some (bb_chans bb !! c) -> (c < bb_next bb)%nat) /\
  (forall w, is_Some (bb_waiterOf bb !! w) -> (w < bb_next bb)%nat) /\
  forall c, bb_legacyWake bb = Some c -> bb_chans bb !! c = Some false.

(** What the waiters may rely on in a step of the budget, apart from one that
    moves itself: a waiter keeps its channel, a closed channel stays closed, and
    the wake channel stays while nothing is returned. *)
Record legacy_calm (w : option wid) (bb bb' : ByteBudget) : Prop := {
  lc_waiter w' wr : Some w' <> w -> bb_waiterOf bb !! w' = Some wr -> bb_waiterOf bb' !! w' = Some wr;
  lc_closed c : bb_chans bb !! c = Some true -> bb_chans bb' !! c = Some true;
  lc_wake c : bb_legacyWake bb = Some c -> bb_chans bb' !! c = Some true \/
    (bb_legacyWake bb' = Some c /\ bb_used bb <= bb_used bb' /\ bb_total bb' = bb_total bb);
}.

(** The state with a wake channel for the refused request to wait on. *)
Definition legacy_open (bb : ByteBudget) : ByteBudget :=
  match bb_legacyWake bb with
  | Some _ => bb
  | None => let '(c, bb) := makeChan bb in bb <| bb_legacyWake := Some c |>
  end.

Lemma legacy_calm_trans w bb bb1 bb2 : legacy_calm None bb bb1 -> legacy_calm w bb1 bb2 -> legacy_calm w bb bb2.
Proof.
  intros [W1 C1 L1] [W2 C2 L2]. split; [by auto|by auto|].
  intros c Hc. destruct (L1 c Hc) as [?|(Hc1 & ? & ?)]; [left; by apply C2|].
  destruct (L2 c Hc1) as [?|(? & ? & ?)]; [by left|right; split_and!; [done|lia|congruence]].
Qed.

Lemma legacy_open_spec bb :
  legacy_ok bb -> legacy_ok (legacy_open bb) /\ legacy_calm None bb (legacy_open bb) /\
    bb_used (legacy_open bb) = bb_used bb /\ bb_total (legacy_open bb) = bb_total bb /\
    bb_waiterOf (legacy_open bb) = bb_waiterOf bb /\ is_Some (bb_legacyWake (legacy_open bb)).
Proof.
  intros Hok. unfold legacy_open. pose proof Hok as (Hf & ? & ? & Hfr & Hfw & _).
  destruct (bb_legacyWake bb) as [c|] eqn:Hl; simpl.
  - rewrite Hl. split; [done|]. split; [|by eauto]. split; [done|done|]. intros c' ?. by right.
  - split; [|split; [|by eauto]].
    + split_and!; [done..| | |].
      * intros c. simpl. rewrite lookup_insert_is_Some. intros [<-|[_ ?%Hfr]]; lia.
      * simpl. intros w ?%Hfw. lia.
      * simpl. intros c [= <-]. by rewrite lookup_insert_eq.
    + split; simpl; [done| |congruence]. intros c Hc. rewrite lookup_insert_ne; [done|].
      intros <-. assert (bb_next bb < bb_next bb)%nat; [|lia]. apply Hfr. by eexists.
Qed.

(** A refused request waits on the wake channel. *)
Lemma legacy_queue_spec bb w c :
  legacy_ok bb -> bb_legacyWake bb = Some c -> is_Some (bb_waiterOf bb !! w) ->
  exists bb' wr, modWaiter w (fun wr => wr <| w_wake := bb_legacyWake bb |>) bb = Some bb' /\ legacy_ok bb' /\
    legacy_calm (Some w) bb bb' /\ bb_used bb' = bb_used bb /\ bb_total bb' = bb_total bb /\
    (forall w', is_Some (bb_waiterOf bb !! w') -> is_Some (bb_waiterOf bb' !! w')) /\
    bb_waiterOf bb' !! w = Some wr /\ w_wake wr = Some c /\ bb_legacyWake bb' = Some c.
Proof.
  intros Hok Hc [wr Hwr]. unfold modWaiter. rewrite Hwr, bind_ret. eexists _, _. split; [reflexivity|].
  pose proof Hok as (? & ? & ? & Hfr & Hfw & ?). split.
  { split_and!; try done. simpl. intros w' [<-|[_ ?%Hfw]]%lookup_insert_is_Some; [|done]. apply Hfw. by eexists. }
  split_and!; try done; simpl.
  - split; simpl; [|done|intros c' ?; by right]. intros w' wr' Hne Hw'. rewrite lookup_insert_ne by congruence. done.
  - intros w' ?. apply lookup_insert_is_Some'. by right.
  - apply lookup_insert_eq.
  - done.
Qed.

(** What a request gets, and where a refused one waits. *)
Lemma legacy_fits bb n :
  legacy_ok bb -> 0 <= n ->
  bool_decide (bb_total bb = 0 \/ n <= bb_total bb /\ bb_used bb <= sub64 (bb_total bb) n) = true <->
  bb_total bb = 0 \/ bb_used bb + n <= bb_total bb.
Proof.
  intros (_ & [? ?] & [? ?] & _) Hn. rewrite bool_decide_eq_true. split.
  - intros [?|[? Hle]]; [by left|]. rewrite sub64_small in Hle by lia. lia.
  - intros [?|?]; [by left|]. right. rewrite sub64_small by lia. lia.
Qed.

(** The waiter of a refused request, made when it has none. *)
Definition waiter_of (w : option wid) (bb : ByteBudget) : wid := match w with Some w => w | None => bb_next bb end.
Definition legacy_waiter (w : option wid) (bb : ByteBudget) : ByteBudget :=
  match w with
  | Some _ => bb
  | None => bb <| bb_waiterOf ::= <[waiter_of w bb := BudgetWaiter 0 0 None None false false]> |> <| bb_next ::= S |>
  end.

Lemma legacy_waiter_spec b1 w c :
  legacy_ok b1 -> bb_legacyWake b1 = Some c -> (forall w', w = Some w' -> is_Some (bb_waiterOf b1 !! w')) ->
  let b2 := legacy_waiter w b1 in let w0 := waiter_of w b1 in
  legacy_ok b2 /\ legacy_calm None b1 b2 /\ bb_legacyWake b2 = Some c /\ is_Some (bb_waiterOf b2 !! w0) /\
  bb_used b2 = bb_used b1 /\ bb_total b2 = bb_total b1 /\
  (forall w', is_Some (bb_waiterOf b1 !! w') -> is_Some (bb_waiterOf b2 !! w')) /\
  ((w = None /\ bb_waiterOf b1 !! w0 = None) \/ w = Some w0).
Proof.
  intros Hok1 Hc Hw. pose proof Hok1 as (? & ? & ? & Hfr1 & Hfw1 & Hwk1). destruct w as [w|]; simpl.
  - split_and!; try done; [split; [done|done|intros ? ?; by right]|by apply Hw|by right].
  - assert (Hnew : bb_waiterOf b1 !! bb_next b1 = None).
    { destruct (bb_waiterOf b1 !! bb_next b1) eqn:E; [|done]. assert (bb_next b1 < bb_next b1)%nat; [|lia]. apply Hfw1. by eexists. }
    split.
    { split_and!; simpl; try done; [intros c' ?%Hfr1; lia|intros w' [<-|[_ ?%Hfw1]]%lookup_insert_is_Some; lia]. }
    split_and!; simpl; try done.
    + split; simpl; [|done|intros ? ?; by right]. intros w' wr _ Hw'. rewrite lookup_insert_ne by congruence. done.
    + rewrite lookup_insert_eq. by eexists.
    + intros w' ?. apply lookup_insert_is_Some'. by right.
    + by left.
Qed.

Lemma reserveLegacy_spec bb n force w :
  legacy_ok bb -> 0 <= n -> bb_used bb + n < W64 -> (forall w', w = Some w' -> is_Some (bb_waiterOf bb !! w')) ->
  exists r bb', reserveLegacy n force w bb = Some (r, bb') /\ legacy_ok bb' /\
    (r_ok r = true <-> force = true \/ bb_total bb = 0 \/ bb_used bb + n <= bb_total bb) /\
    (r_overshot r = true <-> force = true /\ bb_total bb <> 0 /\ bb_total bb < bb_used bb + n) /\
    (forall w', is_Some (bb_waiterOf bb !! w') -> is_Some (bb_waiterOf bb' !! w')) /\
    if r_ok r then bb_used bb' = bb_used bb + n /\ r_waiter r = None /\ legacy_calm None bb bb'
    else bb_used bb' = bb_used bb /\ bb_total bb' = bb_total bb /\
      exists w' wr c, r_waiter r = Some w' /\ ((w = None /\ bb_waiterOf bb !! w' = None) \/ w = Some w') /\
        bb_waiterOf bb' !! w' = Some wr /\ w_wake wr = Some c /\ bb_legacyWake bb' = Some c /\ legacy_calm (Some w') bb bb'.
Proof.
  intros Hleg Hn Hb Hw. pose proof Hleg as (Hf & [? ?] & [? ?] & Hfr & Hfw & Hwk). unfold reserveLegacy.
  pose proof (legacy_fits bb n Hleg Hn) as Hfits. set (fits := bool_decide _) in *.
  destruct (fits || force) eqn:Hadm.
  - eexists _, _. split; [done|]. simpl. rewrite add64_small by lia.
    split; [by split_and!; [| |apply add64_range| | |]|].
    apply orb_true_iff in Hadm. split; [split; [intros _|done]; destruct Hadm as [?%Hfits|?]; [by right|by left]|].
    split; [|split; [done|split; [lia|split; [done|split; simpl; [done|done|intros c ?; right; rewrite add64_small by lia; split_and!; [done|lia|done]]]]]].
    destruct fits.
    + destruct (proj1 Hfits eq_refl); split; [done|lia|done|lia].
    + assert (~ (bb_total bb = 0 \/ bb_used bb + n <= bb_total bb)) by (rewrite <-Hfits; done).
      destruct Hadm as [?| ->]; [done|]. split; [intros _|done]. split; [done|lia].
  - apply orb_false_iff in Hadm as [Hfalse ->].
    assert (Hno : ~ (bb_total bb = 0 \/ bb_used bb + n <= bb_total bb)) by (rewrite <-Hfits, Hfalse; done).
    fold (legacy_open bb). destruct (legacy_open_spec bb Hleg) as (Hok1 & Hcalm1 & Hu1 & Ht1 & Hw1 & c & Hc).
    set (b1 := legacy_open bb) in *. clearbody b1. pose proof Hok1 as (? & ? & ? & Hfr1 & Hfw1 & Hwk1).
    destruct (legacy_waiter_spec b1 w c Hok1 Hc) as (Hok2 & Hcalm2 & Hc2 & Hs2 & Hu2 & Ht2 & Hm2 & Hw2); [by rewrite Hw1|].
    set (b2 := legacy_waiter w b1) in *. set (w0 := waiter_of w b1) in *. rewrite Hw1 in Hw2.
    destruct (legacy_queue_spec b2 w0 c Hok2 Hc2 Hs2) as (b3 & wr & Hmod & Hok3 & Hcalm3 & Hu3 & Ht3 & Hm3 & Hwr & Hwk3 & Hc3).
    exists (Reservation false false (bb_used b3) (Some w0)), b3. split.
    { transitivity (bb ← Some b3; Some (Reservation false false (bb_used bb) (Some w0), bb)); [|reflexivity].
      rewrite <-Hmod. unfold b2, w0, legacy_waiter, waiter_of. by destruct w as [w|]. }
    split; [done|]. simpl. split; [split; [done|by intros [?|?]]|]. split; [split; [done|by intros [? _]]|].
    split; [intros w' Hs; apply Hm3, Hm2; by rewrite Hw1|]. split; [congruence|]. split; [congruence|].
    exists w0, wr, c. split_and!; try done. by do 2 (eapply legacy_calm_trans; [eassumption|]).
Qed.

(** A release lowers the total and wakes whoever waits. *)
Lemma legacy_release_spec bb m e g :
  legacy_ok bb -> m <> 0 ->
  exists bb', releaseFor m e g bb = Some bb' /\ legacy_ok bb' /\ bb_waiterOf bb' = bb_waiterOf bb /\
    (0 <= m <= bb_used bb -> bb_used bb' = bb_used bb - m) /\
    legacy_calm None bb bb' /\ (forall c, bb_legacyWake bb = Some c -> bb_chans bb' !! c = Some true).
Proof.
  intros (Hf & ? & [? ?] & Hfr & Hfw & Hwk) Hm. unfold releaseFor. rewrite decide_False by done.
  unfold releaseLocked. rewrite Hf, bind_ret. simpl. rewrite Hf.
  set (n := if decide (m > bb_used bb) then bb_used bb else m).
  assert (Hn : 0 <= m <= bb_used bb -> sub64 (bb_used bb) n = bb_used bb - m).
  { intros ?. unfold n. rewrite decide_False by lia. rewrite sub64_small by lia. done. }
  destruct (bb_legacyWake bb) as [c|] eqn:Hl.
  - unfold closeChan. simpl. rewrite (Hwk c eq_refl). simpl. eexists. split; [done|]. simpl.
    split; [|split; [done|split; [done|split]]].
    + split_and!; try done; [apply sub64_range|]. simpl. intros c' [<-|[_ ?]]%lookup_insert_is_Some; [|auto].
      apply Hfr. rewrite (Hwk c eq_refl). by eexists.
    + split; simpl; [done| |intros c' [= <-]%(eq_trans (eq_sym Hl)); left; apply lookup_insert_eq].
      intros c' Hc'. apply lookup_insert_Some. destruct (decide (c = c')); [by left|by right].
    + intros c' [= <-]. apply lookup_insert_eq.
  - eexists. split; [done|]. simpl. split; [split_and!; try done; [apply sub64_range|simpl; by rewrite Hl]|].
    split; [done|]. split; [done|]. split; [|done]. split; [done|done|]. by rewrite Hl.
Qed.

(** The ungrouped budget admits a request exactly when it fits or is forced,
    and reports an overshoot exactly when it was forced without fitting; a
    refused request waits on a channel that the next release of any bytes
    closes, so no wake-up is lost. *)
Theorem legacy_reserve_release bb n force g m e :
  legacy_ok bb -> 0 <= n -> bb_used bb + n < W64 -> m <> 0 ->
  exists r bb', reserveFor n force g None bb = Some (r, bb') /\ legacy_ok bb' /\
    (r_ok r = true <-> force = true \/ bb_total bb = 0 \/ bb_used bb + n <= bb_total bb) /\
    (r_overshot r = true <-> force = true /\ bb_total bb <> 0 /\ bb_total bb < bb_used bb + n) /\
    (r_ok r = true -> bb_used bb' = bb_used bb + n) /\
    (r_ok r = false -> bb_used bb' = bb_used bb /\ exists w wr c bb2, r_waiter r = Some w /\
      bb_waiterOf bb' !! w = Some wr /\ w_wake wr = Some c /\ bb_chans bb' !! c = Some false /\
      releaseFor m e g bb' = Some bb2 /\ bb_chans bb2 !! c = Some true).
Proof.
  intros Hleg Hn Hb Hm. unfold reserveFor. rewrite (proj1 Hleg).
  destruct (reserveLegacy_spec bb n force None) as (r & bb' & -> & Hok & Hr & Ho & _ & Hpost); [done..|].
  exists r, bb'. split; [done|]. split; [done|]. split; [done|]. split; [done|]. destruct (r_ok r); [by destruct Hpost|].
  destruct Hpost as (Hu & _ & w & wr & c & Hrw & _ & Hwr & Hwk & Hc & _). split; [done|]. intros _. split; [done|].
  destruct (legacy_release_spec bb' m e g Hok Hm) as (bb2 & H2 & _ & _ & _ & _ & Hcl).
  exists w, wr, c, bb2. split_and!; try done; [|by apply Hcl]. by apply Hok.
Qed.

(** ** A concrete budget

    Of 1024 bytes with a reserve of 128, group [a] holds 300 and waits for 800
    more, 596 of which it has as credit; the rest of the pool is the reserve. *)

Definition w_opts : FairByteBudgetOptions := MkFairByteBudgetOptions 128 256.

Definition w_new : ByteBudget := default (NewByteBudget 0) (NewFairByteBudget 1024 w_opts).

Definition call_step (c : call) (p : ledger * ByteBudget) : ledger * ByteBudget :=
  match run c p.2 with Some (r, bb') => (ledger_after c r p.1 p.2, bb') | None => p end.

Definition w_registered : ledger * ByteBudget := call_step (CRegister "a") (empty_ledger true, w_new).
Definition w_holding : ledger * ByteBudget := call_step (CReserve 1 300 false) w_registered.
Definition w_waiting : ledger * ByteBudget := call_step (CReserve 1 800 false) w_holding.

Lemma call_step_reachable total o c p :
  reachable total o p.1 p.2 -> legal p.1 p.2 c -> reachable total o (call_step c p).1 (call_step c p).2.
Proof.
  intros Hre Hleg. unfold call_step. destruct (run c p.2) as [[r bb']|] eqn:Hrun; [|done]. by econstructor.
Qed.

(** Decides the side conditions of concrete calls by evaluation. *)
Ltac legal_now :=
  lazymatch goal with
  | |- _ /\ _ => split; legal_now
  | |- is_u64 _ => split; legal_now
  | |- handle _ _ => split; legal_now
  | |- legal _ _ _ => unfold legal; legal_now
  | |- is_Some _ => vm_compute; by eexists
  | |- _ => vm_compute; done
  end.

Lemma w_holding_reachable : reachable 1024 w_opts w_holding.1 w_holding.2.
Proof.
  apply call_step_reachable; [apply call_step_reachable; [by apply reach_new|]|].
  - split; [done|]. intros g Hg. vm_compute in Hg. done.
  - legal_now.
Qed.

Lemma w_waiting_reachable : reachable 1024 w_opts w_waiting.1 w_waiting.2.
Proof. apply call_step_reachable; [apply w_holding_reachable|legal_now]. Qed.

Lemma w_waiting_ok : budget_ok w_waiting.1 w_waiting.2.
Proof. apply (reachable_ok 1024 w_opts); [legal_now..|apply w_waiting_reachable]. Qed.

Lemma w_holding_ok : budget_ok w_holding.1 w_holding.2.
Proof. apply (reachable_ok 1024 w_opts); [legal_now..|apply w_holding_reachable]. Qed.


Lemma fair_budget_call_witness :
  exists r bb', run (CCancel 3) w_waiting.2 = Some (r, bb') /\ bb_used bb' = 300.
Proof.
  destruct (fair_budget_call 1024 w_opts w_waiting.1 w_waiting.2 (CCancel 3)) as (r & bb' & Hrun & _);
    [legal_now..|apply w_waiting_reachable|exists 1%nat, 800; legal_now|].
  exists r, bb'. split; [assumption|]. vm_compute in Hrun. by injection Hrun as _ <-.
Defined.

Lemma schedule_work_conserving_witness :
  exists bb', scheduleLocked w_waiting.2 = Some bb' /\ budget_ok w_waiting.1 bb'.
Proof.
  destruct (schedule_work_conserving w_waiting.1 w_waiting.2) as (bb' & ? & ? & _); [apply w_waiting_ok|].
  exists bb'. split; assumption.
Defined.

Lemma schedule_fifo_witness :
  exists bb', scheduleLocked w_waiting.2 = Some bb' /\ is_Some (bb_groupOf bb' !! 1%nat).
Proof.
  destruct (bb_groupOf w_waiting.2 !! 1%nat) as [gr|] eqn:Hg; [|vm_compute in Hg; done].
  destruct (schedule_fifo w_waiting.1 w_waiting.2 1 gr) as (bb' & gr' & k & ? & ? & _); [apply w_waiting_ok|assumption|].
  exists bb'. split; [assumption|eexists; eassumption].
Defined.

Lemma nextReserve_sound_complete_witness :
  exists og bb', nextReserveLocked w_waiting.2 = Some (og, bb') /\ og = None.
Proof.
  destruct (nextReserve_sound_complete w_waiting.1 w_waiting.2) as (og & bb' & Hn & _); [apply w_waiting_ok|].
  exists og, bb'. split; [assumption|]. vm_compute in Hn. by injection Hn as <- _.
Defined.

Lemma reserve_admission_witness :
  exists r bb', reserveFor 500 false (Some 1%nat) None w_holding.2 = Some (r, bb') /\ r_ok r = true.
Proof.
  destruct (bb_groupOf w_holding.2 !! 1%nat) as [gr|] eqn:Hg; [|vm_compute in Hg; done].
  destruct (reserve_admission w_holding.1 w_holding.2 1 gr 500) as (r & bb' & Hr & _);
    [apply w_holding_ok|done|done|legal_now..|].
  exists r, bb'. split; [assumption|]. vm_compute in Hr. by injection Hr as <- _.
Defined.

Lemma reserve_retry_witness :
  exists r bb', reserveFor 800 true (Some 1%nat) (Some 3%nat) w_waiting.2 = Some (r, bb') /\ r_overshot r = true.
Proof.
  destruct (reserve_retry w_waiting.1 w_waiting.2 1 800 3 true) as (r & bb' & Hr & _);
    [apply w_waiting_ok|done|legal_now..|].
  exists r, bb'. split; [assumption|]. vm_compute in Hr. by injection Hr as <- _.
Defined.

Lemma cancel_gives_back_witness :
  exists bb', cancel (Some 3%nat) w_waiting.2 = Some bb' /\ budget_ok (without 3 w_waiting.1) bb' /\ settled bb'.
Proof. apply (cancel_gives_back w_waiting.1 w_waiting.2 1 800 3); [apply w_waiting_ok|done|legal_now]. Defined.

Lemma release_gives_back_witness :
  exists bb', releaseFor 300 0 (Some 1%nat) w_waiting.2 = Some bb' /\ bb_used bb' = 800.
Proof.
  destruct (release_gives_back w_waiting.1 w_waiting.2 1 300 0) as (bb' & Hr & _);
    [apply w_waiting_ok|legal_now|done|unfold releasable; split; [legal_now|split; [legal_now|intros _; legal_now]]|].
  exists bb'. split; [assumption|]. vm_compute in Hr. by injection Hr as <-.
Defined.

Lemma group_lifecycle_witness : exists gr, bb_groupOf w_waiting.2 !! 1%nat = Some gr /\ g_key gr = "a".
Proof.
  destruct (group_lifecycle 1024 w_opts w_waiting.1 w_waiting.2 "a" 1) as [Hiff _];
    [legal_now..|apply w_waiting_reachable|].
  destruct Hiff as (_ & gr & ? & ? & _); [legal_now|]. exists gr. split; assumption.
Defined.

Lemma NewFair_validation_witness : NewFairByteBudget 100 (MkFairByteBudgetOptions 100 0) = None.
Proof. apply (NewFair_validation 100 (MkFairByteBudgetOptions 100 0)); legal_now. Defined.

Lemma legacy_reserve_release_witness :
  exists r bb', reserveFor 1000 false None None (NewByteBudget 512) = Some (r, bb') /\ r_ok r = false.
Proof.
  destruct (legacy_reserve_release (NewByteBudget 512) 1000 false None 1 0) as (r & bb' & Hr & _).
  - split; [done|]. split; [legal_now|]. split; [legal_now|].
    split; [|split; [|done]]; intros c [x Hc]; simpl in Hc; by rewrite lookup_empty in Hc.
  - done.
  - done.
  - done.
  - exists r, bb'. split; [assumption|]. vm_compute in Hr. by injection Hr as <- _.
Defined.
