(* ===== verification/Event.v ===== *)
(** * Events (event.go)

    An [Event] is a flag with waiters.  [WaitFor] registers a channel of
    capacity one and selects on it and on a timer; [Set] sends on and closes
    every registered channel while it holds the lock.  [Wait] sleeps on the
    condition variable and tests the flag again when [Set] broadcasts.  Each
    method body under the lock is one atomic state transformer; [None] is a
    panic, or a send that would block with the lock held.  The interleaving of
    callers is a step relation. *)

From S2P Require Import Prelude.

(** ** State *)

(** A [chan struct{}] of capacity one. *)
Record gochan := GoChan { ch_full : bool; ch_closed : bool }.

Abbreviation cid := nat.

Record Event := MkEvent {
  ev_v : bool;
  ev_waiters : list cid;
  (** the channels [WaitFor] made *)
  ev_chans : gmap cid gochan;
  ev_next : nat;
  (** the callers of [Wait] asleep on [c] *)
  ev_cond : gset nat;
}.

#[export] Instance Event_eta : Eta Event := fun e => MkEvent (ev_v e) (ev_waiters e) (ev_chans e) (ev_next e) (ev_cond e).
#[export] Instance set_ev_v : Setter ev_v := ltac:(make_setter).
#[export] Instance set_ev_waiters : Setter ev_waiters := ltac:(make_setter).
#[export] Instance set_ev_chans : Setter ev_chans := ltac:(make_setter).
#[export] Instance set_ev_next : Setter ev_next := ltac:(make_setter).
#[export] Instance set_ev_cond : Setter ev_cond := ltac:(make_setter).

(** ** Operations *)

Definition NewEvent : Event := MkEvent false [] ∅ 0 ∅.

(** [w <- struct{}{}; close(w)]: [None] when the send would block or panic. *)
Definition notify (w : cid) (chans : gmap cid gochan) : option (gmap cid gochan) :=
  c ← chans !! w;
  if ch_closed c then None
  else if ch_full c then None
  else Some (<[w := GoChan true true]> chans).

Fixpoint notifyAll (ws : list cid) (chans : gmap cid gochan) : option (gmap cid gochan) :=
  match ws with
  | [] => Some chans
  | w :: ws => chans ← notify w chans; notifyAll ws chans
  end.

(** [e.c.Broadcast()] *)
Definition Broadcast (e : Event) : Event := e <| ev_cond := ∅ |>.

Definition Set_ (e : Event) : option Event :=
  let e := e <| ev_v := true |> in
  let e := Broadcast e in
  if decide (length (ev_waiters e) <> 0%nat) then
    chans ← notifyAll (ev_waiters e) (ev_chans e);
    Some (e <| ev_chans := chans |> <| ev_waiters := [] |>)
  else Some e.

Definition Clear (e : Event) : Event := if ev_v e then e <| ev_v := false |> else e.

Definition IsSet (e : Event) : bool := ev_v e.

(** A turn of the loop of [Wait], by caller [t]: it returns when the flag is set,
    and otherwise unlocks and goes to sleep in one step. *)
Definition Wait (t : nat) (e : Event) : unit + Event :=
  if ev_v e then inl tt else inr (e <| ev_cond ::= ({[t]} ∪.) |>).

(** The part of [WaitFor] before the select: [inl] when the flag is set,
    otherwise the registered channel. *)
Definition WaitFor_register (e : Event) : unit + (cid * Event) :=
  if ev_v e then inl tt
  else
    let w := ev_next e in
    inr (w, e <| ev_waiters := ev_waiters e ++ [w] |> <| ev_chans ::= <[w := GoChan false false]> |>
              <| ev_next ::= S |>).

(** The receive [<-w] of the select: a closed channel or a buffered value. *)
Definition WaitFor_receive (w : cid) (e : Event) : option Event :=
  c ← ev_chans e !! w;
  if ch_full c then Some (e <| ev_chans ::= <[w := GoChan false (ch_closed c)]> |>)
  else if ch_closed c then Some e else None.

(** [removeWaiter]: swap with the last and cut; [None] is an index out of range. *)
Definition removeWaiter (s : list cid) (i : nat) : option (list cid) :=
  si ← s !! i;
  sl ← last s;
  let s := <[i := sl]> (<[(length s - 1)%nat := si]> s) in
  Some (take (length s - 1) s).

(** The deferred removal: the first position holding [w], if any. *)
Definition WaitFor_deregister (w : cid) (e : Event) : option Event :=
  match list_find (fun t => t = w) (ev_waiters e) with
  | Some (i, _) => ws ← removeWaiter (ev_waiters e) i; Some (e <| ev_waiters := ws |>)
  | None => Some e
  end.

(** ** Callers *)

(** Where a caller of [WaitFor] or of [Wait] is. *)
Inductive caller :=
  | Selecting (w : cid)
  | Leaving (w : cid) (res : bool)
  (** in [e.c.Wait()], asleep or about to lock and test again *)
  | InCond
  | Returned (res : bool).

Record esystem := MkESystem { es_event : Event; es_callers : gmap nat caller }.

Inductive estep : esystem -> esystem -> Prop :=
  | step_set e e' cs : Set_ e = Some e' -> estep (MkESystem e cs) (MkESystem e' cs)
  | step_clear e cs : estep (MkESystem e cs) (MkESystem (Clear e) cs)
  | step_wait_set e cs t :
      cs !! t = None -> WaitFor_register e = inl tt ->
      estep (MkESystem e cs) (MkESystem e (<[t := Returned true]> cs))
  | step_wait e e' cs t w :
      cs !! t = None -> WaitFor_register e = inr (w, e') ->
      estep (MkESystem e cs) (MkESystem e' (<[t := Selecting w]> cs))
  | step_receive e e' cs t w :
      cs !! t = Some (Selecting w) -> WaitFor_receive w e = Some e' ->
      estep (MkESystem e cs) (MkESystem e' (<[t := Leaving w true]> cs))
  | step_timeout e cs t w :
      cs !! t = Some (Selecting w) -> estep (MkESystem e cs) (MkESystem e (<[t := Leaving w false]> cs))
  | step_leave e e' cs t w b :
      cs !! t = Some (Leaving w b) -> WaitFor_deregister w e = Some e' ->
      estep (MkESystem e cs) (MkESystem e' (<[t := Returned b]> cs))
  | step_cond e cs t :
      cs !! t = None \/ cs !! t = Some InCond /\ t ∉ ev_cond e ->
      estep (MkESystem e cs)
        match Wait t e with
        | inl _ => MkESystem e (<[t := Returned true]> cs)
        | inr e' => MkESystem e' (<[t := InCond]> cs)
        end.

Definition einit : esystem := MkESystem NewEvent ∅.

(** ** Invariant *)

(** A registered channel is open and empty, so notifying it neither blocks nor
    panics; nobody sleeps while the flag is set. *)
Record event_ok (e : Event) : Prop := {
  eo_nodup : NoDup (ev_waiters e);
  eo_waiter w : w ∈ ev_waiters e -> ev_chans e !! w = Some (GoChan false false);
  eo_fresh w : is_Some (ev_chans e !! w) -> (w < ev_next e)%nat;
  eo_cond : ev_v e = true -> ev_cond e = ∅;
}.

(** Owning a channel: selecting on it or about to deregister it. *)
Definition owns (c : caller) (w : cid) : Prop := c = Selecting w \/ exists b, c = Leaving w b.

(** A channel a caller selects on is registered, or was notified; every channel
    has one owner. *)
Record esystem_ok (s : esystem) : Prop := {
  so_event : event_ok (es_event s);
  so_selecting t w : es_callers s !! t = Some (Selecting w) ->
    w ∈ ev_waiters (es_event s) \/ ev_chans (es_event s) !! w = Some (GoChan true true);
  so_chan t c w : es_callers s !! t = Some c -> owns c w -> is_Some (ev_chans (es_event s) !! w);
  so_own t1 t2 c1 c2 w : es_callers s !! t1 = Some c1 -> es_callers s !! t2 = Some c2 ->
    owns c1 w -> owns c2 w -> t1 = t2;
}.

(** ** Notification *)

Lemma notifyAll_spec ws chans :
  NoDup ws -> (forall w, w ∈ ws -> chans !! w = Some (GoChan false false)) ->
  exists chans', notifyAll ws chans = Some chans' /\
    (forall w, w ∈ ws -> chans' !! w = Some (GoChan true true)) /\
    (forall w, w ∉ ws -> chans' !! w = chans !! w).
Proof.
  revert chans. induction ws as [|w ws IH]; intros chans Hnd Hall.
  { exists chans. split; [done|]. split; [by intros w ?%not_elem_of_nil|done]. }
  apply NoDup_cons in Hnd as [Hn Hnd]. simpl. unfold notify at 1. rewrite Hall by left. simpl.
  destruct (IH (<[w:=GoChan true true]> chans)) as (chans' & Hc & Hin & Hout); [done| |].
  { intros w' Hw'. rewrite lookup_insert_ne by (by intros ->). apply Hall. by right. }
  exists chans'. split; [done|]. split.
  - intros w' [->|Hw']%elem_of_cons; [|auto]. rewrite Hout by done. apply lookup_insert_eq.
  - intros w' Hw'. rewrite not_elem_of_cons in Hw'. destruct Hw' as [? ?].
    rewrite Hout by done. by rewrite lookup_insert_ne.
Qed.

Lemma Set_spec e :
  event_ok e ->
  exists e', Set_ e = Some e' /\ event_ok e' /\ (ev_v e' = true /\ ev_cond e' = ∅) /\ ev_waiters e' = [] /\ ev_next e' = ev_next e /\
    (forall w, w ∈ ev_waiters e -> ev_chans e' !! w = Some (GoChan true true)) /\
    (forall w, w ∉ ev_waiters e -> ev_chans e' !! w = ev_chans e !! w).
Proof.
  intros [H1 H2 H3 _]. unfold Set_. simpl.
  destruct (notifyAll_spec (ev_waiters e) (ev_chans e)) as (chans & Hc & Hin & Hout); [done|done|].
  case_decide as Hd.
  - rewrite Hc. simpl. eexists. split; [done|]. simpl. split; [|done]. split; simpl.
    + apply NoDup_nil_2.
    + by intros w ?%not_elem_of_nil.
    + intros w Hw. apply H3. destruct (decide (w ∈ ev_waiters e)) as [Hi|Hi]; [rewrite H2 by done; by eexists|].
      by rewrite <-Hout.
    + done.
  - destruct (ev_waiters e) eqn:Hw; [|simpl in Hd; lia]. eexists. split; [done|]. simpl. rewrite Hw.
    split; [split; simpl; rewrite ?Hw; [apply NoDup_nil_2|by intros w ?%not_elem_of_nil|done|done]|].
    split; [done|]. split; [done|]. split; [done|].
    split; [by intros w ?%not_elem_of_nil|done].
Qed.

Lemma Clear_ok e : event_ok e -> event_ok (Clear e) /\ ev_v (Clear e) = false.
Proof. intros He. unfold Clear. destruct (ev_v e) eqn:Hv; [|done]. split; [|done]. by destruct He; split. Qed.

(** [removeWaiter] removes exactly the element at the given position. *)
Lemma removeWaiter_at s i w :
  s !! i = Some w -> exists s', removeWaiter s i = Some s' /\ w :: s' ≡ₚ s.
Proof.
  intros Hi. assert (Hlt := lookup_lt_Some _ _ _ Hi).
  destruct (exists_last (l := s)) as (l & x & Hs); [by intros ->|]. subst s.
  rewrite length_app in Hlt. simpl in Hlt.
  assert (Hx : (l ++ [x]) !! length l = Some x) by (by apply list_lookup_middle).
  unfold removeWaiter. rewrite Hi, last_snoc. cbn [mbind option_bind]. eexists. split; [done|].
  rewrite !length_insert, length_app, Nat.add_sub. set (t := <[i:=x]> (<[length l:=w]> (l ++ [x]))).
  assert (Hp : t ≡ₚ l ++ [x]) by (by apply swap_perm).
  assert (Hl : t !! length l = Some w).
  { unfold t. destruct (decide (i = length l)) as [->|].
    - rewrite list_insert_insert_eq, list_lookup_insert_eq by (rewrite length_app; simpl; lia). congruence.
    - rewrite list_lookup_insert_ne by done. apply list_lookup_insert_eq. rewrite length_app; simpl; lia. }
  etrans; [|exact Hp]. transitivity (take (length l) t ++ [w]); [by rewrite <-Permutation_cons_append|].
  rewrite <-(take_drop (length l) t) at 2. rewrite (drop_S t w) by done. rewrite (drop_ge t); [done|].
  unfold t. rewrite !length_insert, length_app. simpl. lia.
Qed.

Lemma deregister_spec w e :
  NoDup (ev_waiters e) ->
  exists ws, WaitFor_deregister w e = Some (e <| ev_waiters := ws |>) /\
    (w ∈ ev_waiters e -> w :: ws ≡ₚ ev_waiters e) /\ (w ∉ ev_waiters e -> ws = ev_waiters e).
Proof.
  intros Hnd. unfold WaitFor_deregister.
  destruct (list_find (fun t => t = w) (ev_waiters e)) as [[i t]|] eqn:Hf.
  - apply list_find_Some in Hf as (Hi & -> & _). destruct (removeWaiter_at _ _ _ Hi) as (ws & -> & Hp).
    exists ws. split; [done|]. split; [done|]. intros Hn. destruct Hn. by eapply list_elem_of_lookup_2.
  - apply list_find_None in Hf. exists (ev_waiters e). split; [by destruct e|]. split; [|done].
    intros Hin. rewrite Forall_forall in Hf. by destruct (Hf w Hin).
Qed.

Lemma deregister_ok w e :
  event_ok e -> exists ws, WaitFor_deregister w e = Some (e <| ev_waiters := ws |>) /\
    event_ok (e <| ev_waiters := ws |>) /\ forall w', w' ∈ ws <-> w' ∈ ev_waiters e /\ w' <> w.
Proof.
  intros [H1 H2 H3 H4]. destruct (deregister_spec w e H1) as (ws & Hr & Hin & Hout). exists ws. split; [done|].
  assert (Hiff : forall w', w' ∈ ws <-> w' ∈ ev_waiters e /\ w' <> w).
  { intros w'. destruct (decide (w ∈ ev_waiters e)) as [Hi|Hn].
    - assert (Hnd := H1). rewrite <-(Hin Hi) in Hnd. apply NoDup_cons in Hnd as [Hn _].
      rewrite <-(Hin Hi), elem_of_cons. split; [|tauto]. intros Hw'. split; [by right|]. by intros ->.
    - rewrite (Hout Hn). split; [|tauto]. intros Hw'. split; [done|]. by intros ->. }
  split; [|done]. split; simpl; [|intros w' [? _]%Hiff; auto|done|done].
  destruct (decide (w ∈ ev_waiters e)) as [Hi|Hn]; [|by rewrite (Hout Hn)].
  rewrite <-(Hin Hi) in H1. by apply NoDup_cons in H1 as [_ ?].
Qed.

(** A caller that moves on keeps or gives up the channel it owns. *)
Lemma own_update (cs : gmap nat caller) t (c c' : caller) :
  cs !! t = Some c -> (forall w, owns c' w -> owns c w) ->
  forall t0 c0 w, <[t := c']> cs !! t0 = Some c0 -> owns c0 w -> exists c1, cs !! t0 = Some c1 /\ owns c1 w.
Proof. intros Ht Hc t0 c0 w [[<- <-]|[_ Hl]]%lookup_insert_Some Ho; eauto. Qed.

Lemma own_chan_update e e' cs t c c' :
  esystem_ok (MkESystem e cs) -> cs !! t = Some c -> (forall w, owns c' w -> owns c w) ->
  (forall w, is_Some (ev_chans e !! w) -> is_Some (ev_chans e' !! w)) ->
  (forall t0 c0 w, <[t := c']> cs !! t0 = Some c0 -> owns c0 w -> is_Some (ev_chans e' !! w)) /\
  (forall t1 t2 c1 c2 w, <[t := c']> cs !! t1 = Some c1 -> <[t := c']> cs !! t2 = Some c2 ->
    owns c1 w -> owns c2 w -> t1 = t2).
Proof.
  intros [_ _ H3 H4] Ht Hc Hch. split.
  - intros t0 c0 w Hl Ho. destruct (own_update cs t c c' Ht Hc t0 c0 w Hl Ho) as (c1 & ? & ?). eauto.
  - intros t1 t2 c1 c2 w Hl1 Hl2 Ho1 Ho2.
    destruct (own_update cs t c c' Ht Hc t1 c1 w Hl1 Ho1) as (c1' & ? & ?).
    destruct (own_update cs t c c' Ht Hc t2 c2 w Hl2 Ho2) as (c2' & ? & ?). by eapply (H4 t1 t2).
Qed.

(** A caller registers. *)
Lemma register_step_ok e e' cs t w :
  esystem_ok (MkESystem e cs) -> cs !! t = None -> WaitFor_register e = inr (w, e') ->
  esystem_ok (MkESystem e' (<[t := Selecting w]> cs)).
Proof.
  intros [He H2 H3 H4] Ht Hr. simpl in *.
  unfold WaitFor_register in Hr. destruct (ev_v e) eqn:Hv; [done|]. injection Hr as <- <-.
  destruct He as [E1 E2 E3 E4]. set (w := ev_next e).
  assert (Hnew : ev_chans e !! w = None).
  { destruct (ev_chans e !! w) eqn:E; [|done]. assert (w < ev_next e)%nat by (apply E3; by eexists). subst w. lia. }
  assert (Hnc : forall t0 c0, cs !! t0 = Some c0 -> ~ owns c0 w).
  { intros t0 c0 Hc Ho. destruct (H3 t0 c0 w Hc Ho). congruence. }
  split; simpl; [split; simpl| | |].
  - apply NoDup_app. split; [done|]. split; [|apply NoDup_singleton].
    intros w' Hw' ->%list_elem_of_singleton. apply E2 in Hw'. congruence.
  - intros w' [Hw'| ->%list_elem_of_singleton]%elem_of_app; [|apply lookup_insert_eq].
    rewrite lookup_insert_ne; [auto|]. intros <-. apply E2 in Hw'. congruence.
  - intros w' [<-|[_ ?%E3]]%lookup_insert_is_Some; lia.
  - done.
  - intros t0 w' [[<- [= <-]]|[_ Hl]]%lookup_insert_Some; [left; apply elem_of_app; right; by left|].
    destruct (H2 t0 w' Hl) as [Hi|Hf]; [left; apply elem_of_app; by left|]. right.
    rewrite lookup_insert_ne; [done|]. congruence.
  - intros t0 c w' [[<- <-]|[_ Hl]]%lookup_insert_Some Ho.
    + destruct Ho as [[= <-]|[? ?]]; [|done]. rewrite lookup_insert_eq. by eexists.
    + rewrite lookup_insert_is_Some'. right. eauto.
  - intros t1 t2 c1 c2 w' [[<- <-]|[_ Hl1]]%lookup_insert_Some [[<- <-]|[_ Hl2]]%lookup_insert_Some Ho1 Ho2; [done|..].
    + destruct Ho1 as [[= <-]|[? ?]]; [|done]. by destruct (Hnc t2 c2 Hl2).
    + destruct Ho2 as [[= <-]|[? ?]]; [|done]. by destruct (Hnc t1 c1 Hl1).
    + eauto.
Qed.

(** A caller is woken. *)
Lemma receive_step_ok e e' cs t w :
  esystem_ok (MkESystem e cs) -> cs !! t = Some (Selecting w) -> WaitFor_receive w e = Some e' ->
  esystem_ok (MkESystem e' (<[t := Leaving w true]> cs)).
Proof.
  intros Hok Ht Hr. pose proof Hok as [He H2 H3 H4]. simpl in *.
  unfold WaitFor_receive in Hr. destruct (ev_chans e !! w) as [c|] eqn:Hc; [|done]. simpl in Hr.
  destruct (H2 t w Ht) as [Hi|Hf].
  { rewrite (eo_waiter _ He w Hi) in Hc. injection Hc as <-. done. }
  rewrite Hf in Hc. injection Hc as <-. simpl in Hr. injection Hr as <-.
  assert (Hnw : w ∉ ev_waiters e) by (intros Hi; apply (eo_waiter _ He) in Hi; congruence).
  destruct (own_chan_update e (e <| ev_chans ::= <[w := GoChan false true]> |>) cs t (Selecting w) (Leaving w true))
    as [K3 K4]; [done|done| | |].
  { intros w' [?|[b [= <- _]]]; [done|by left]. }
  { intros w' ?. simpl. apply lookup_insert_is_Some'. by right. }
  destruct He as [E1 E2 E3 E4]. split; [split; simpl; [done| | |done]| |done|done]; simpl.
  - intros w' Hw'. rewrite lookup_insert_ne; [auto|]. by intros <-.
  - intros w' [<-|[_ ?]]%lookup_insert_is_Some; [apply E3; by eexists|auto].
  - intros t0 w' [[_ [=]]|[Hne Hl]]%lookup_insert_Some. destruct (H2 t0 w' Hl) as [?|Hf']; [by left|]. right.
    rewrite lookup_insert_ne; [done|]. intros <-. apply Hne. eapply (H4 t t0); [done|done|by left|by left].
Qed.

(** A caller that owns no channel moves on. *)
Lemma unowned_step_ok e e' cs t c :
  esystem_ok (MkESystem e cs) -> event_ok e' -> ev_waiters e' = ev_waiters e -> ev_chans e' = ev_chans e ->
  (forall w, ~ owns c w) -> esystem_ok (MkESystem e' (<[t := c]> cs)).
Proof.
  intros [_ H2 H3 H4] He Hw Hc Hn. simpl in *. split; simpl; rewrite ?Hw, ?Hc; [done|..].
  - intros t0 w [[_ ->]|[_ Hl]]%lookup_insert_Some; [|eauto]. destruct (Hn w). by left.
  - intros t0 c0 w [[_ <-]|[_ Hl]]%lookup_insert_Some; [|eauto]. by intros ?%Hn.
  - intros t1 t2 c1 c2 w [[_ <-]|[_ Hl1]]%lookup_insert_Some [[_ <-]|[_ Hl2]]%lookup_insert_Some Ho1 Ho2;
      try (by destruct (Hn w)). eauto.
Qed.

Lemma Wait_ok t e : event_ok e -> match Wait t e with inl _ => ev_v e = true | inr e' => event_ok e' /\ ev_v e = false end.
Proof. intros [H1 H2 H3 H4]. unfold Wait. destruct (ev_v e) eqn:Hv; [done|]. split; [|done]. split; simpl; try done. by rewrite Hv. Qed.

Lemma estep_ok s s' : esystem_ok s -> estep s s' -> esystem_ok s'.
Proof.
  intros Hok Hst. pose proof Hok as [He H2 H3 H4].
  destruct Hst as [e e' cs Hset|e cs|e cs t Ht Hr|e e' cs t w Ht Hr|e e' cs t w Ht Hr|e cs t w Ht|e e' cs t w b Ht Hr|e cs t Ht];
    simpl in *.
  - destruct (Set_spec e He) as (e1 & He1 & Hok1 & _ & Hw & _ & Hin & Hout). simplify_eq.
    split; simpl; [done| | |done].
    + intros t w Hc. right. destruct (H2 t w Hc) as [Hi|Hf]; [auto|].
      destruct (decide (w ∈ ev_waiters e)); [auto|by rewrite Hout].
    + intros t c w Hc Ho. destruct (H3 t c w Hc Ho) as [x Hx]. destruct (decide (w ∈ ev_waiters e)).
      * rewrite Hin by done. by eexists.
      * rewrite Hout by done. by eexists.
  - destruct (Clear_ok e He) as [Hok1 _]. unfold Clear in *. split; simpl; [done|..]; by destruct (ev_v e).
  - eapply unowned_step_ok; [done..|]. by intros w [?|[? ?]].
  - by eapply register_step_ok.
  - by eapply receive_step_ok.
  - destruct (own_chan_update e e cs t (Selecting w) (Leaving w false)) as [K3 K4]; [done|done| |done|].
    { intros w' [?|[b [= <- _]]]; [done|by left]. }
    split; simpl; [done| |done|done].
    intros t0 w' [[_ [=]]|[Hne Hl]]%lookup_insert_Some. eauto.
  - destruct (deregister_ok w e He) as (ws & Hd & Hok1 & Hiff). rewrite Hd in Hr. injection Hr as <-.
    destruct (own_chan_update e (e <| ev_waiters := ws |>) cs t (Leaving w b) (Returned b)) as [K3 K4]; [done|done| |done|].
    { intros w' [?|[b' ?]]; done. }
    split; simpl; [done| |done|done].
    intros t0 w' [[_ [=]]|[Hne Hl]]%lookup_insert_Some. destruct (H2 t0 w' Hl) as [Hi|?]; [|by right].
    left. apply Hiff. split; [done|]. intros ->. apply Hne. eapply (H4 t t0); [done|done|right; by exists b|by left].
  - pose proof (Wait_ok t e He) as Hw. unfold Wait in *. destruct (ev_v e); [|destruct Hw as [Hw _]];
      (eapply unowned_step_ok; [done..|]; by intros w [?|[? ?]]).
Qed.

Lemma einit_ok : esystem_ok einit.
Proof.
  split; simpl; [split; simpl| | |]; try (intros *; by rewrite lookup_empty).
  - apply NoDup_nil_2.
  - by intros w ?%not_elem_of_nil.
  - done.
Qed.

Lemma reachable_esystem_ok s : rtc estep einit s -> esystem_ok s.
Proof.
  assert (Hgen : forall s1 s2, rtc estep s1 s2 -> esystem_ok s1 -> esystem_ok s2).
  { induction 1 as [|s1 s2 s3 Hst _ IH]; [done|]. intros Hok. apply IH. by eapply estep_ok. }
  intros Hr. eapply Hgen; [done|apply einit_ok].
Qed.

(** ** Properties *)

(** A caller of [Wait] that sleeps, or a caller of [WaitFor] that selects. *)
Definition waiting (s : esystem) (t : nat) : Prop :=
  match es_callers s !! t with Some (Selecting _) | Some InCond => True | _ => False end.

(** What a waiting caller can do next. *)
Definition awake (s : esystem) (t : nat) : Prop :=
  match es_callers s !! t with
  | Some (Selecting w) => is_Some (WaitFor_receive w (es_event s))
  | Some InCond => t ∉ ev_cond (es_event s)
  | _ => False
  end.

(** C34. No wake-up is lost.  In every interleaving of callers [Set] returns: it
    neither panics nor blocks on a waiter while it holds the lock.  After it every
    waiting caller can run, and one in [WaitFor] receives even when the event is
    cleared again first.  Nobody sleeps in [Wait] while the flag is set. *)
Theorem event_no_lost_wakeup s t :
  rtc estep einit s -> waiting s t ->
  exists e', Set_ (es_event s) = Some e' /\ IsSet e' = true /\
    awake (MkESystem e' (es_callers s)) t /\ awake (MkESystem (Clear e') (es_callers s)) t /\
    (es_callers s !! t = Some InCond -> Wait t e' = inl tt) /\
    (IsSet (es_event s) = true -> es_callers s !! t = Some InCond -> awake s t).
Proof.
  intros Hr Ht. pose proof (reachable_esystem_ok s Hr) as Hok. destruct s as [e cs]. simpl in *.
  destruct (Set_spec e) as (e' & He' & _ & [Hv Hcd] & Hw & _); [apply Hok|].
  assert (Hok1 : esystem_ok (MkESystem e' cs)) by (by eapply estep_ok, step_set).
  assert (Hcl : ev_waiters (Clear e') = [] /\ ev_chans (Clear e') = ev_chans e' /\ ev_cond (Clear e') = ∅).
  { unfold Clear. by destruct (ev_v e'). }
  destruct Hcl as (Hcw & Hcc & Hcd').
  assert (Ha : forall e1, ev_chans e1 = ev_chans e' -> ev_cond e1 = ∅ -> awake (MkESystem e1 cs) t).
  { intros e1 H1 H2. unfold awake, waiting, WaitFor_receive in *. simpl in *. rewrite H1, H2. destruct (cs !! t) as [[]|] eqn:Hc; [|done..|set_solver|done|done].
    destruct (so_selecting _ Hok1 _ _ Hc) as [Hi|Hf]; simpl in *; [rewrite Hw in Hi; by apply elem_of_nil in Hi|].
    rewrite Hf. by eexists. }
  exists e'. unfold IsSet. split_and!; try done; [by apply Ha|by apply Ha|intros _; unfold Wait; by rewrite Hv|].
  intros Hs Hc. unfold awake. simpl. rewrite Hc. pose proof (eo_cond _ (so_event _ Hok) Hs) as Hn. simpl in Hn. rewrite Hn. set_solver.
Qed.

(** A caller that leaves removes its own channel, if it is still registered,
    and nobody else's. *)
Theorem event_deregister_exact s t w b :
  rtc estep einit s -> es_callers s !! t = Some (Leaving w b) ->
  exists e', WaitFor_deregister w (es_event s) = Some e' /\
    forall w', w' ∈ ev_waiters e' <-> w' ∈ ev_waiters (es_event s) /\ w' <> w.
Proof.
  intros Hr Hc. destruct (deregister_ok w (es_event s)) as (ws & ? & _ & Hiff).
  - by apply reachable_esystem_ok.
  - eexists. split; [done|]. exact Hiff.
Qed.

(** ** A concrete run: one caller waits, another times out, a third sleeps *)

Definition w_two : esystem :=
  MkESystem (MkEvent false [0; 1]%nat {[0%nat := GoChan false false; 1%nat := GoChan false false]} 2 {[2%nat]})
    {[0%nat := Selecting 0; 1%nat := Leaving 1 false; 2%nat := InCond]}.

Lemma w_two_reachable : rtc estep einit w_two.
Proof.
  eapply rtc_l; [by eapply (step_wait NewEvent _ ∅ 0 0)|].
  eapply rtc_l; [by eapply (step_wait _ _ _ 1 1)|].
  eapply rtc_l; [by eapply (step_timeout _ _ 1 1)|].
  eapply rtc_l; [eapply (step_cond _ _ 2); by left|].
  match goal with |- rtc _ ?x ?y => assert (x = y) as -> by (by vm_compute) end. apply rtc_refl.
Qed.

(** The sleeper of the run is woken, and misses the event if it is cleared before
    its turn: the receiver does not. *)
Lemma event_no_lost_wakeup_witness :
  exists e', Set_ (es_event w_two) = Some e' /\ is_Some (WaitFor_receive 0 (Clear e')) /\
    (2%nat ∉ ev_cond e') /\ Wait 2 e' = inl tt /\ exists e1, Wait 2 (Clear e') = inr e1.
Proof.
  destruct (event_no_lost_wakeup w_two 0 w_two_reachable I) as (e' & He & _ & _ & Ha & _).
  destruct (event_no_lost_wakeup w_two 2 w_two_reachable I) as (e'' & He' & _ & Hb & _ & Hw & _).
  assert (e'' = e') as -> by congruence. exists e'. split_and!; [done|exact Ha|exact Hb|by apply Hw|].
  unfold Wait, Clear. destruct (ev_v e') eqn:Hv; [by eexists|]. rewrite Hv. by eexists.
Defined.

Lemma event_deregister_exact_witness :
  exists e', WaitFor_deregister 1 (es_event w_two) = Some e' /\ ev_waiters e' = [0%nat].
Proof.
  destruct (event_deregister_exact w_two 1 1 false w_two_reachable) as (e' & He & _); [done|].
  exists e'. split; [done|]. vm_compute in He. by injection He as <-.
Defined.
