(* ===== verification/Protocol.v ===== *)
(** * Messages and descriptors (protocol/, size estimation of byte_budget.go)

    Data and control messages, the connection header with its mapping and
    indexing descriptors and their validation, and the size estimate the byte
    accounting charges.  Decoded JSON payloads are heap objects that may share
    parts or even be cyclic, so they live in a store.  Regular expressions, grok
    patterns, the time zone database and the JSON codec are parameters. *)

From S2P Require Import Prelude ByteBudget.

(** ** Messages (messages.go) *)

Definition ControlMessageACK : string := "ack".
Definition ControlMessageBACKOFF : string := "bo".
Definition ControlMessageRECONNECT : string := "re".
Definition ControlMessageERROR : string := "error".
Definition ControlMessageREADY : string := "rd".
Definition ControlMessageFLOW : string := "fl".

(** Addresses of decoded JSON maps and slices. *)
Abbreviation jaddr := nat.

(** A Go string or byte slice enters the estimate through its length only. *)
#[projections(primitive)] Record DataMessage := MkDataMessage {
  SeqNum : Z;
  AckRequested : bool;
  TextPayload : string;
  JsonPayload : option jaddr;
  BinaryPayload : string;
  BundlePayload : list Byte.byte;
  CompressedBundlePayload : list Byte.byte;
  EventType : string;
  TimestampMs : Z;
  ThisAtom : string;
  ParentAtom : string;
  TargetAtom : string;
  InvestigationID : string;
}.

#[export] Instance DataMessage_eta : Eta DataMessage := fun m =>
  MkDataMessage (SeqNum m) (AckRequested m) (TextPayload m) (JsonPayload m) (BinaryPayload m)
    (BundlePayload m) (CompressedBundlePayload m) (EventType m) (TimestampMs m) (ThisAtom m)
    (ParentAtom m) (TargetAtom m) (InvestigationID m).
#[export] Instance set_SeqNum : Setter SeqNum := ltac:(make_setter).
#[export] Instance set_AckRequested : Setter AckRequested := ltac:(make_setter).

(** [&DataMessage{SeqNum: seq}] *)
Definition placeholder (seq : Z) : DataMessage :=
  MkDataMessage seq false "" None "" [] [] "" 0 "" "" "" "".

Record ControlMessage := MkControlMessage {
  Verb : string;
  cm_SeqNum : Z;
  Duration : Z;
  WindowSize : Z;
  Error : string;
}.

(** ** Decoded JSON *)

(** The cases of the type switch of [estimateJSONValue]. *)
Inductive jvalue :=
  | JString (s : string)
  | JMap (a : jaddr)
  | JSlice (a : jaddr)
  | JStrings (l : list string)
  | JStringMap (l : list (string * string))
  | JBytes (l : list Byte.byte)
  | JScalar
  | JOther.

(** Maps are association lists in some iteration order. *)
Inductive jobject :=
  | OMap (l : list (string * jvalue))
  | OSlice (l : list jvalue).

Abbreviation jheap := (gmap jaddr jobject).

Definition map_at (h : jheap) (a : jaddr) : list (string * jvalue) :=
  match h !! a with Some (OMap l) => l | _ => [] end.
Definition slice_at (h : jheap) (a : jaddr) : list jvalue :=
  match h !! a with Some (OSlice l) => l | _ => [] end.

(** ** Size estimation (byte_budget.go) *)

Definition jsonEntryOverheadBytes : Z := 64.
Definition jsonScalarBytes : Z := 16.
Definition maxEstimateDepth : nat := 32.
Definition jsonDeepPenaltyBytes : Z := 4096.

(** [len(s)] *)
Definition slen (s : string) : Z := Z.of_nat (String.length s).
Definition llen {A} (l : list A) : Z := Z.of_nat (length l).

(** [for _, x := range l { n += f(x) }] *)
Definition sum64 {A} (f : A -> Z) (l : list A) : Z := foldl (fun n x => add64 n (f x)) 0 l.

(** [levels] is [maxEstimateDepth - depth]: the recursion stops at level 0, so it
    ends on cyclic payloads too. *)
Fixpoint estimateJSONValue (h : jheap) (levels : nat) (v : jvalue) : Z :=
  match v with
  | JString s => slen s
  | JMap a =>
      match levels with
      | O => jsonDeepPenaltyBytes
      | S d => sum64 (fun kv => add64 (add64 jsonEntryOverheadBytes (slen kv.1)) (estimateJSONValue h d kv.2)) (map_at h a)
      end
  | JSlice a =>
      match levels with
      | O => jsonDeepPenaltyBytes
      | S d => sum64 (fun e => add64 jsonEntryOverheadBytes (estimateJSONValue h d e)) (slice_at h a)
      end
  | JStrings l => sum64 (fun s => add64 jsonEntryOverheadBytes (slen s)) l
  | JStringMap l => sum64 (fun ks => add64 (add64 jsonEntryOverheadBytes (slen ks.1)) (slen ks.2)) l
  | JBytes l => llen l
  | JScalar => jsonScalarBytes
  | JOther => mul64 2 jsonEntryOverheadBytes
  end.

(** [estimateJSONMap] at [depth = maxEstimateDepth - levels]. *)
Definition estimateJSONMap (h : jheap) (m : list (string * jvalue)) (levels : nat) : Z :=
  match levels with
  | O => jsonDeepPenaltyBytes
  | S d => sum64 (fun kv => add64 (add64 jsonEntryOverheadBytes (slen kv.1)) (estimateJSONValue h d kv.2)) m
  end.

Definition estimateMessageSize (h : jheap) (m : DataMessage) : Z :=
  let n := add64 messageOverheadBytes
    ((slen (TextPayload m) + slen (BinaryPayload m) + llen (BundlePayload m) +
      llen (CompressedBundlePayload m) + slen (EventType m) + slen (ThisAtom m) + slen (ParentAtom m) +
      slen (TargetAtom m) + slen (InvestigationID m)) mod W64) in
  match JsonPayload m with
  | Some a =>
      if decide (length (map_at h a) <> 0%nat)
      then add64 n (estimateJSONMap h (map_at h a) maxEstimateDepth) else n
  | None => n
  end.

(** *** The estimate without wrap-around *)

Fixpoint value_size (h : jheap) (levels : nat) (v : jvalue) : Z :=
  match v with
  | JString s => slen s
  | JMap a =>
      match levels with
      | O => jsonDeepPenaltyBytes
      | S d => sumZ ((fun kv => jsonEntryOverheadBytes + slen kv.1 + value_size h d kv.2) <$> map_at h a)
      end
  | JSlice a =>
      match levels with
      | O => jsonDeepPenaltyBytes
      | S d => sumZ ((fun e => jsonEntryOverheadBytes + value_size h d e) <$> slice_at h a)
      end
  | JStrings l => sumZ ((fun s => jsonEntryOverheadBytes + slen s) <$> l)
  | JStringMap l => sumZ ((fun ks => jsonEntryOverheadBytes + slen ks.1 + slen ks.2) <$> l)
  | JBytes l => llen l
  | JScalar => jsonScalarBytes
  | JOther => 2 * jsonEntryOverheadBytes
  end.

Definition message_size (h : jheap) (m : DataMessage) : Z :=
  messageOverheadBytes + slen (TextPayload m) + slen (BinaryPayload m) + llen (BundlePayload m) +
  llen (CompressedBundlePayload m) + slen (EventType m) + slen (ThisAtom m) + slen (ParentAtom m) +
  slen (TargetAtom m) + slen (InvestigationID m) +
  match JsonPayload m with Some a => value_size h maxEstimateDepth (JMap a) | None => 0 end.

Lemma sum64_mod {A} (f g : A -> Z) l :
  (forall x, f x mod W64 = g x mod W64) -> sum64 f l = sumZ (g <$> l) mod W64.
Proof.
  intros Hfg. unfold sum64.
  assert (Hgen : forall n, foldl (fun n x => add64 n (f x)) (n mod W64) l = (n + sumZ (g <$> l)) mod W64).
  { induction l as [|x l IH]; intros n; csimpl; [by rewrite Z.add_0_r|].
    assert (E : add64 (n mod W64) (f x) = (n + g x) mod W64).
    { unfold add64. rewrite Zplus_mod, Hfg, Zmod_mod, <-Zplus_mod. done. }
    rewrite E, IH. f_equal. lia. }
  apply (Hgen 0).
Qed.

Lemma slen_nonneg s : 0 <= slen s.
Proof. unfold slen. lia. Qed.

Lemma llen_nonneg {A} (l : list A) : 0 <= llen l.
Proof. unfold llen. lia. Qed.

Lemma value_size_nonneg h d v : 0 <= value_size h d v.
Proof.
  assert (Hs := slen_nonneg).
  assert (Hsum : forall A (f : A -> Z) l, (forall x, 0 <= f x) -> 0 <= sumZ (f <$> l)).
  { intros A f l Hf. apply sumZ_nonneg, Forall_fmap, Forall_true. apply Hf. }
  assert (Hov : 0 <= jsonEntryOverheadBytes) by done.
  revert v. induction d as [|d IH]; intros v; destruct v as [s|a|a|l|l|l| |]; simpl;
    try (apply Hs || apply llen_nonneg || done); apply Hsum; intros x.
  - pose proof (Hs x). lia.
  - pose proof (Hs x.1). pose proof (Hs x.2). lia.
  - pose proof (Hs x.1). pose proof (IH x.2). lia.
  - pose proof (IH x). lia.
  - pose proof (Hs x). lia.
  - pose proof (Hs x.1). pose proof (Hs x.2). lia.
Qed.

Lemma add64_mod a b a' b' :
  a mod W64 = a' mod W64 -> b mod W64 = b' mod W64 -> add64 a b mod W64 = (a' + b') mod W64.
Proof. intros Ha Hb. unfold add64. by rewrite Zmod_mod, Zplus_mod, Ha, Hb, <-Zplus_mod. Qed.

(** The estimate is the exact size modulo 2^64. *)
Lemma estimateJSONValue_mod h d v : estimateJSONValue h d v mod W64 = value_size h d v mod W64.
Proof.
  assert (Hent : forall k, add64 jsonEntryOverheadBytes (slen k) mod W64 = (jsonEntryOverheadBytes + slen k) mod W64)
    by (intros; by apply add64_mod).
  revert v. induction d as [|d IH]; intros v; destruct v as [s|a|a|l|l|l| |]; simpl; try done;
    (erewrite sum64_mod; [apply Zmod_mod|]); intros x; simpl;
    try (by apply Hent); apply add64_mod; try done; try (by apply Hent); apply IH.
Qed.

Lemma estimateJSONMap_eq h d a : estimateJSONMap h (map_at h a) d = estimateJSONValue h d (JMap a).
Proof. by destruct d. Qed.

Lemma value_size_nil h d a : d <> 0%nat -> map_at h a = [] -> value_size h d (JMap a) = 0.
Proof. intros Hd Hm. destruct d; [done|]. simpl. by rewrite Hm. Qed.

Lemma estimateMessageSize_mod h m : estimateMessageSize h m = message_size h m mod W64.
Proof.
  unfold estimateMessageSize, message_size.
  set (base := slen (TextPayload m) + _ + _ + _ + _ + _ + _ + _ + _).
  assert (Hb : add64 messageOverheadBytes (base mod W64) = (messageOverheadBytes + base) mod W64).
  { unfold add64. by rewrite Zplus_mod, Zmod_mod, <-Zplus_mod. }
  destruct (JsonPayload m) as [a|].
  - case_decide as Hl.
    + rewrite estimateJSONMap_eq, Hb. unfold add64. rewrite Zplus_mod, Zmod_mod, estimateJSONValue_mod, <-Zplus_mod.
      f_equal. subst base. lia.
    + rewrite Hb. assert (Hnil : map_at h a = []) by (destruct (map_at h a); [done|simpl in Hl; lia]).
      rewrite (value_size_nil h maxEstimateDepth a) by done. f_equal. subst base. lia.
  - rewrite Hb. f_equal. subst base. lia.
Qed.

Lemma message_size_ge h m : messageOverheadBytes <= message_size h m.
Proof.
  unfold message_size. assert (Hs := slen_nonneg). assert (Hl := @llen_nonneg Byte.byte).
  pose proof (Hs (TextPayload m)). pose proof (Hs (BinaryPayload m)). pose proof (Hl (BundlePayload m)).
  pose proof (Hl (CompressedBundlePayload m)). pose proof (Hs (EventType m)). pose proof (Hs (ThisAtom m)).
  pose proof (Hs (ParentAtom m)). pose proof (Hs (TargetAtom m)). pose proof (Hs (InvestigationID m)).
  destruct (JsonPayload m) as [a|]; [pose proof (value_size_nonneg h maxEstimateDepth (JMap a))|]; lia.
Qed.

(** The same value up to the iteration order of a map of strings. *)
Inductive same_value : jvalue -> jvalue -> Prop :=
  | same_as v : same_value v v
  | same_strings l l' : l ≡ₚ l' -> same_value (JStringMap l) (JStringMap l').

Definition same_entry (x y : string * jvalue) : Prop := x.1 = y.1 /\ same_value x.2 y.2.

(** Two stores that differ only in the iteration order of their maps. *)
Definition same_objects (h h' : jheap) : Prop :=
  forall a, (exists l, map_at h a ≡ₚ l /\ Forall2 same_entry l (map_at h' a)) /\ Forall2 same_value (slice_at h a) (slice_at h' a).

Lemma sumZ_perm l l' : l ≡ₚ l' -> sumZ l = sumZ l'.
Proof. induction 1; simpl; lia. Qed.

Lemma sumZ_same {A} (R : A -> A -> Prop) (f g : A -> Z) l l' :
  (forall x y, R x y -> f x = g y) -> Forall2 R l l' -> sumZ (f <$> l) = sumZ (g <$> l').
Proof. intros Hfg. induction 1 as [|x y l l' Hxy _ IH]; [done|]. csimpl. by rewrite (Hfg x y Hxy), IH. Qed.

Lemma value_size_perm h h' d v v' : same_objects h h' -> same_value v v' -> value_size h d v = value_size h' d v'.
Proof.
  intros Hh. revert v v'. induction d as [|d IH]; intros v v' [v0|l l' Hp]; [destruct v0; done|simpl; apply sumZ_perm; by rewrite Hp| |
    simpl; apply sumZ_perm; by rewrite Hp].
  destruct v0 as [s|a|a|l|l|l| |]; simpl; try done.
  - destruct (Hh a) as [(l & Hm & Hl) _]. etrans; [apply sumZ_perm; by rewrite Hm|]. eapply sumZ_same; [|exact Hl].
    intros [k x] [k' y] [Hk Hv]. simpl in *. by rewrite Hk, (IH x y Hv).
  - destruct (Hh a) as [_ Hl]. eapply sumZ_same; [|exact Hl]. intros x y Hv. simpl. by rewrite (IH x y Hv).
Qed.

(** C35. The charged size of a message is its overhead plus the sizes of all its
    parts, modulo 2^64, and does not depend on the order in which Go iterates the
    maps of the payload, those of strings included.  As long as the sum is below
    2^64 it is charged exactly, so no message is free. *)
Theorem estimate_size h m :
  estimateMessageSize h m = message_size h m mod W64 /\
  (forall h', same_objects h h' -> estimateMessageSize h' m = estimateMessageSize h m) /\
  (message_size h m < W64 -> estimateMessageSize h m = message_size h m /\ messageOverheadBytes <= estimateMessageSize h m).
Proof.
  split; [apply estimateMessageSize_mod|]. split.
  - intros h' Hh. rewrite !estimateMessageSize_mod. f_equal. unfold message_size. destruct (JsonPayload m) as [a|]; [|done].
    by rewrite (value_size_perm h h' maxEstimateDepth (JMap a) (JMap a) Hh (same_as _)).
  - intros Hlt. pose proof (message_size_ge h m) as Hge.
    rewrite estimateMessageSize_mod, Z.mod_small; [done|]. unfold messageOverheadBytes in Hge. lia.
Qed.

(** A cyclic payload: the estimate still ends. *)
Definition w_cyclic : jheap := {[0%nat := OMap [("a", JString "xyz"); ("self", JMap 0)]]}.
Definition w_message : DataMessage :=
  MkDataMessage 0 false "hello" (Some 0%nat) "" [] [] "type" 0 "" "" "" "".

Lemma estimate_size_witness : estimateMessageSize w_cyclic w_message = 8713.
Proof. destruct (estimate_size w_cyclic w_message) as [-> _]. by vm_compute. Defined.

(** ** Descriptors (mapping.go, indexing.go, auth.go) *)

Record FieldMapping := MkFieldMapping { SourceField : string; DestinationField : string }.

Record MappingDescriptor := MkMappingDescriptor {
  ParsingRE : string;
  ParsingGrok : gmap string string;
  SensorKeyPath : string;
  SensorIdentityType : string;
  SensorHostnamePath : string;
  EventTypePath : string;
  EventTimePath : string;
  EventTimeTimezone : string;
  InvestigationIDPath : string;
  IsRenameOnly : bool;
  Mappings : list FieldMapping;
  Transform : option jaddr;
  DropFields : list string;
  SensorIDReplicationPath : string;
}.

Record IndexDescriptor := MkIndexDescriptor {
  EventsIncluded : list string;
  EventsExcluded : list string;
  Path : string;
  Regexp : string;
  IndexType : string;
}.

Definition CurrentVersion : Z := 2.

Record ConnectionHeader := MkConnectionHeader {
  Version : Z;
  Oid : string;
  InstallationKey : string;
  Hostname : string;
  Platform : string;
  Architecture : string;
  ch_Mapping : MappingDescriptor;
  ch_Mappings : list MappingDescriptor;
  SensorSeedKey : string;
  IsCompressed : bool;
  DataFormat : string;
  InstanceID : string;
  Indexing : list IndexDescriptor;
}.

Definition ValidSensorIdentityType (t : string) : bool :=
  bool_decide (t = "" \/ t = "email" \/ t = "username" \/ t = "github_login" \/ t = "device").

(** The errors of the validators; [e] is the error of the library called. *)
Inductive descriptor_error (E : Type) :=
  | InvalidIdentityType
  | InvalidRegexp (e : E)
  | InvalidGrok (e : E)
  | InvalidTimezone (tz : string) (e : E).
Arguments InvalidIdentityType {E}.
Arguments InvalidRegexp {E} e.
Arguments InvalidGrok {E} e.
Arguments InvalidTimezone {E} tz e.

Section validate.
(** [regexp.Compile], [grok.NewComplete] and [time.LoadLocation]: [None] is success. *)
Context {E : Type} (Compile : string -> option E) (NewComplete : gmap string string -> option E)
  (LoadLocation : string -> option E).

Definition Validate (d : MappingDescriptor) : option (descriptor_error E) :=
  if negb (ValidSensorIdentityType (SensorIdentityType d)) then Some InvalidIdentityType
  else
    match (if decide (ParsingRE d <> "") then Compile (ParsingRE d) else None) with
    | Some e => Some (InvalidRegexp e)
    | None =>
        match (if decide (0 < size (ParsingGrok d))%nat then NewComplete (ParsingGrok d) else None) with
        | Some e => Some (InvalidGrok e)
        | None =>
            match (if decide (EventTimeTimezone d <> "") then LoadLocation (EventTimeTimezone d) else None) with
            | Some e => Some (InvalidTimezone (EventTimeTimezone d) e)
            | None => None
            end
        end
    end.

Definition IndexDescriptor_Validate (d : IndexDescriptor) : option (descriptor_error E) :=
  if decide (Regexp d <> "") then InvalidRegexp <$> Compile (Regexp d) else None.

(** A mapping descriptor is valid exactly when its identity type is in the
    closed vocabulary and each of its optional expression, patterns and time
    zone, when given, is accepted by its library; an absent one is never
    compiled. *)
Theorem mapping_validate d :
  Validate d = None <->
    (SensorIdentityType d ∈ [""; "email"; "username"; "github_login"; "device"]) /\
    (ParsingRE d <> "" -> Compile (ParsingRE d) = None) /\
    (ParsingGrok d <> ∅ -> NewComplete (ParsingGrok d) = None) /\
    (EventTimeTimezone d <> "" -> LoadLocation (EventTimeTimezone d) = None).
Proof.
  unfold Validate, ValidSensorIdentityType.
  assert (Hv : forall t, bool_decide (t = "" \/ t = "email" \/ t = "username" \/ t = "github_login" \/ t = "device") = true
    <-> t ∈ [""; "email"; "username"; "github_login"; "device"]).
  { intros t. rewrite bool_decide_eq_true, !elem_of_cons, elem_of_nil. tauto. }
  assert (Hg : (0 < size (ParsingGrok d))%nat <-> ParsingGrok d <> ∅).
  { rewrite <-(map_size_empty_iff (ParsingGrok d)). lia. }
  rewrite <-Hv. destruct (bool_decide _); simpl; [|intuition congruence].
  destruct (decide (ParsingRE d <> "")) as [Hr|Hr]; [destruct (Compile (ParsingRE d)) eqn:Ec; [intuition congruence|]|];
    (destruct (decide (0 < size (ParsingGrok d))%nat) as [Hs|Hs]; rewrite Hg in Hs;
      [destruct (NewComplete (ParsingGrok d)) eqn:En; [intuition congruence|]|]);
    (destruct (decide (EventTimeTimezone d <> "")) as [Ht|Ht];
      [destruct (LoadLocation (EventTimeTimezone d)) eqn:El; [intuition congruence|]|]); tauto.
Qed.
End validate.

(** [strconv.ParseBool] *)
Definition ParseBool (s : string) : option bool :=
  if decide (s ∈ ["1"; "t"; "T"; "TRUE"; "true"; "True"]) then Some true
  else if decide (s ∈ ["0"; "f"; "F"; "FALSE"; "false"; "False"]) then Some false
  else None.

(** Values of the decoded dictionary, as far as [UnmarshalJSON] looks at them. *)
Inductive dict_value := DString (s : string) | DBool (b : bool) | DValue (v : jvalue).

Section unmarshal.
(** The JSON codec of encoding/json: [inl] is an error. *)
Context {D E : Type} (syntax_error : string -> E).
Context (UnmarshalDict : D -> E + gmap string dict_value).
Context (Marshal : gmap string dict_value -> E + D).
Context (UnmarshalTemp : D -> E + MappingDescriptor).

(** The dictionary after [rename_only] was made a bool. *)
Definition fixRenameOnly (d : gmap string dict_value) : E + gmap string dict_value :=
  match d !! "rename_only" with
  | Some (DString ros) =>
      match ParseBool ros with
      | Some b => inr (<["rename_only" := DBool b]> d)
      | None => inl (syntax_error ros)
      end
  | _ => inr d
  end.

Definition UnmarshalJSON (data : D) : E + MappingDescriptor :=
  match UnmarshalDict data with
  | inl e => inl e
  | inr d =>
      match fixRenameOnly d with
      | inl e => inl e
      | inr d =>
          match Marshal d with
          | inl e => inl e
          | inr t => UnmarshalTemp t
          end
      end
  end.

(** A descriptor whose [rename_only] is a string decodes like the one with
    the boolean the string spells, every other field untouched, and is rejected
    when the string spells none. *)
Theorem unmarshal_rename_only data d s :
  UnmarshalDict data = inr d -> d !! "rename_only" = Some (DString s) ->
  match ParseBool s with
  | Some b => forall data', UnmarshalDict data' = inr (<["rename_only" := DBool b]> d) ->
      UnmarshalJSON data = UnmarshalJSON data'
  | None => UnmarshalJSON data = inl (syntax_error s)
  end.
Proof.
  intros Hd Hs. unfold UnmarshalJSON. rewrite Hd. unfold fixRenameOnly at 1. rewrite Hs.
  destruct (ParseBool s) as [b|] eqn:Hb.
  - intros data' ->. unfold fixRenameOnly. by rewrite lookup_insert_eq.
  - unfold fixRenameOnly. by rewrite Hs, Hb.
Qed.
End unmarshal.

Definition w_descriptor : MappingDescriptor :=
  MkMappingDescriptor "a+" ∅ "user/id" "email" "" "" "" "UTC" "" true [] None [] "".

(** A codec whose documents are the dictionaries themselves. *)
Definition w_dict (v : dict_value) : gmap string dict_value := {["rename_only" := v]}.
Definition w_decode (d : gmap string dict_value) : string + MappingDescriptor :=
  match d !! "rename_only" with Some (DBool true) => inr w_descriptor | _ => inl "type" end.

Lemma unmarshal_rename_only_witness :
  UnmarshalJSON (fun s => s) inr inr w_decode (w_dict (DString "T")) = inr w_descriptor.
Proof.
  pose proof (unmarshal_rename_only (fun s => s) inr inr w_decode (w_dict (DString "T")) (w_dict (DString "T")) "T"
    eq_refl eq_refl (w_dict (DBool true)) eq_refl) as H. rewrite H. reflexivity.
Defined.
