(* ===== verification/SharedBudget.v ===== *)
(** * The shared budget as its clients see it

    A buffer holds a [*ByteBudget] that may be nil, ungrouped or fair.
    [SharedBudget] lists the methods it calls.  [SharedBudgetLaws] is what the
    buffers may rely on: [sb_holds A s] says that the budget [s] accounts for
    exactly the clients of [A], each with the bytes and escape bytes it holds and
    its queued requests, and the laws say how each call moves the account of the
    caller and no other.  The three kinds of budget satisfy the laws.

    A client keeps the escape bytes of one frame at a time: a second forced
    overshoot replaces what it has on record.  The laws come in two strengths.
    The lenient ones ask nothing about this and do not tell what the budget's
    own count of escape bytes is.  The strict ones ask that a forced request is
    made only while no escape bytes are on record, and then the budget counts
    exactly the escape bytes of its clients and the others never exceed the
    total.  Held bytes and queued requests are exact under both. *)

From S2P Require Import Prelude GoHeap ByteBudget BudgetIndex BudgetInv BudgetOps BudgetSchedule BudgetMethods BudgetReserve BudgetSpec.

Create HintDb budget.

(** ** Interface *)

Class SharedBudget (B : Type) := {
  (** [b.shared != nil] *)
  sb_present : B -> bool;
  sb_register : string -> B -> unit + (option gid * B);
  sb_unregister : option gid -> B -> option B;
  sb_reserveFor : Z -> bool -> option gid -> option wid -> B -> option (reservation * B);
  sb_cancel : option wid -> B -> option B;
  sb_releaseFor : Z -> Z -> option gid -> B -> option B;
  sb_Total : B -> Z;
  (** whether the wake channel of a waiter is closed *)
  sb_woken : wid -> B -> bool;
}.

(** What one client has with the budget: its group handle and whether it is
    registered, the bytes and escape bytes it holds, its queued requests. *)
#[projections(primitive)] Record account := Account {
  a_group : option gid;
  a_registered : bool;
  a_held : Z;
  a_escape : Z;
  a_requests : gmap wid Z;
}.
#[export] Instance account_eta : Eta account := fun a =>
  Account (a_group a) (a_registered a) (a_held a) (a_escape a) (a_requests a).
#[export] Instance set_a_registered : Setter a_registered := ltac:(make_setter).
#[export] Instance set_a_held : Setter a_held := ltac:(make_setter).
#[export] Instance set_a_escape : Setter a_escape := ltac:(make_setter).
#[export] Instance set_a_requests : Setter a_requests := ltac:(make_setter).

Abbreviation accounts := (gmap nat account).

(** A request that ended, if there was one. *)
Definition ended (w : option wid) (m : gmap wid Z) : gmap wid Z :=
  match w with Some w => delete w m | None => m end.

(** An overshoot is kept apart as escape bytes only by a grouped budget; the
    client then has the escape bytes of this admission on record. *)
Definition admitted (n : Z) (overshot : bool) (w : option wid) (a : account) : account :=
  a <| a_held := a_held a + n |> <| a_requests ::= ended w |>
    <| a_escape := if overshot && bool_decide (a_group a <> None) then n else a_escape a |>.

Definition requested (A : accounts) : Z := msum (fun _ a => msum (fun _ n => n) (a_requests a)) A.
Definition total_held (A : accounts) : Z := msum (fun _ a => a_held a) A.

Class SharedBudgetLaws (B : Type) `{SharedBudget B} := {
  sb_holds : accounts -> B -> Prop;
  sb_strict : bool;

  sb_absent A s i a :
    sb_holds A s -> sb_present s = false -> a_group a = None -> sb_holds (<[i := a]> A) s;
  sb_no_group A s i a : sb_holds A s -> A !! i = Some a -> sb_present s = false -> a_group a = None;
  sb_releaseFor_spec A s i a n e :
    sb_holds A s -> A !! i = Some a -> 0 <= n <= a_held a -> 0 <= e <= a_escape a -> e <= n ->
    a_escape a - e <= a_held a - n ->
    exists s', sb_releaseFor n e (a_group a) s = Some s' /\ sb_present s' = sb_present s /\
      sb_holds (<[i := a <| a_held := a_held a - n |> <| a_escape := a_escape a - e |>]> A) s';
  sb_cancel_spec A s i a w :
    sb_holds A s -> A !! i = Some a -> (forall w', w = Some w' -> is_Some (a_requests a !! w')) ->
    exists s', sb_cancel w s = Some s' /\ sb_present s' = sb_present s /\
      sb_holds (<[i := a <| a_requests ::= ended w |>]> A) s';
  (** the bytes asked for and held never reach 2^64 *)
  sb_reserveFor_spec A s i a n force w :
    sb_holds A s -> A !! i = Some a -> sb_present s = true -> (a_group a <> None -> a_registered a = true) ->
    messageOverheadBytes <= n -> (forall w', w = Some w' -> a_requests a !! w' = Some n) ->
    total_held A + requested A + n < W64 ->
    (sb_strict = true -> force = true -> a_escape a = 0) ->
    exists r s', sb_reserveFor n force (a_group a) w s = Some (r, s') /\ sb_present s' = sb_present s /\
      (r_overshot r = true -> force = true) /\ (force = true -> r_ok r = true) /\
      (forall w', w = Some w' -> force = false -> sb_woken w' s = false -> r_ok r = false) /\
      if r_ok r then sb_holds (<[i := admitted n (r_overshot r) w a]> A) s' /\ r_waiter r = None
      else exists w', r_waiter r = Some w' /\ ((w = None /\ a_requests a !! w' = None) \/ w = Some w') /\
        sb_holds (<[i := a <| a_requests ::= <[w' := n]> |>]> A) s';
  sb_unregister_spec A s i a :
    sb_holds A s -> A !! i = Some a -> a_registered a = true -> a_group a <> None ->
    exists s', sb_unregister (a_group a) s = Some s' /\ sb_present s' = sb_present s /\
      sb_holds (<[i := a <| a_registered := false |>]> A) s';
  (** a client with this group key may join *)
  sb_joinable : string -> B -> Prop;
  sb_register_spec A s i key :
    sb_holds A s -> A !! i = None -> sb_joinable key s -> Z.of_nat (size A) < 2 ^ 62 ->
    exists g s', sb_register key s = inr (g, s') /\ sb_present s' = sb_present s /\
      sb_holds (<[i := Account g (bool_decide (g <> None)) 0 0 ∅]> A) s';
}.

(** ** The pointer to a ByteBudget *)

#[export] Instance budgetPointer : SharedBudget (option ByteBudget) := {
  sb_present p := bool_decide (p <> None);
  sb_register key p :=
    match p with
    | None => inr (None, None)
    | Some bb => match register key bb with inl e => inl e | inr (g, bb) => inr (g, Some bb) end
    end;
  sb_unregister g p := match p with None => Some None | Some bb => Some <$> unregister g bb end;
  sb_reserveFor n force g w p := bb ← p; '(r, bb) ← reserveFor n force g w bb; Some (r, Some bb);
  sb_cancel w p := match p with None => Some None | Some bb => Some <$> cancel w bb end;
  sb_releaseFor n e g p := match p with None => Some None | Some bb => Some <$> releaseFor n e g bb end;
  sb_Total p := match p with None => 0 | Some bb => Total bb end;
  sb_woken w p := match p with None => false | Some bb => wakeClosed w bb end;
}.

(** ** A fair budget satisfies the laws *)

(** The weight of a client in group [g]. *)
Definition in_group (g : gid) (z : Z) (a : account) : Z := if decide (a_group a = Some g) then z else 0.

Record fair_tie (A : accounts) (L : ledger) (bb : ByteBudget) : Prop := {
  ft_ok : budget_ok L bb;
  ft_held g : l_held L g = msum (fun _ a => in_group g (a_held a) a) A;
  ft_esc g : l_strict L = true -> l_esc L g = msum (fun _ a => in_group g (a_escape a) a) A;
  ft_regs g : l_regs L g = msum (fun _ a => in_group g (Z.b2z (a_registered a)) a) A;
  ft_live w g n : l_live L !! w = Some (g, n) <->
    exists i a, A !! i = Some a /\ a_group a = Some g /\ a_requests a !! w = Some n;
  ft_uniq w i j a a' : A !! i = Some a -> A !! j = Some a' ->
    is_Some (a_requests a !! w) -> is_Some (a_requests a' !! w) -> i = j;
  ft_acc i a : A !! i = Some a -> 0 <= a_escape a <= a_held a /\ exists g, a_group a = Some g /\ g <> 0%nat;
}.

Definition fair_holds (strict : bool) (A : accounts) (bb : ByteBudget) : Prop :=
  exists L, l_strict L = strict /\ fair_tie A L bb.

Section tie.
Context (A : accounts) (L : ledger) (bb : ByteBudget) (T : fair_tie A L bb).
Context (i : nat) (a : account) (Hi : A !! i = Some a) (g : gid) (Hg : a_group a = Some g).

(** What the group holds beyond this client belongs to the others. *)
Lemma tie_bounds :
  a_held a <= l_held L g /\ Z.b2z (a_registered a) <= l_regs L g /\
  (l_strict L = true -> a_escape a <= l_esc L g /\ l_esc L g - a_escape a <= l_held L g - a_held a).
Proof.
  assert (Hin : forall z, in_group g z a = z) by (intros; unfold in_group; by rewrite decide_True).
  assert (Hacc : forall j b, A !! j = Some b -> 0 <= in_group g (a_escape b) b <= in_group g (a_held b) b).
  { intros j b Hb. unfold in_group. destruct (ft_acc _ _ _ T j b Hb). case_decide; lia. }
  rewrite (ft_held _ _ _ T), (ft_regs _ _ _ T). split_and!.
  - pose proof (msum_ge (fun _ a => in_group g (a_held a) a) A i a) as Hge. cbv beta in Hge. rewrite Hin in Hge.
    apply Hge; [|done]. intros j b Hb. specialize (Hacc j b Hb). lia.
  - pose proof (msum_ge (fun _ a => in_group g (Z.b2z (a_registered a)) a) A i a) as Hge. cbv beta in Hge.
    rewrite Hin in Hge. apply Hge; [|done]. intros j b Hb. unfold in_group. case_decide; [|lia]. by destruct (a_registered b).
  - intros Hst. rewrite (ft_esc _ _ _ T) by done.
    assert (Hrest : msum (fun _ a => in_group g (a_escape a) a) (delete i A) <=
                    msum (fun _ a => in_group g (a_held a) a) (delete i A)).
    { apply msum_le. intros j b [_ Hb]%lookup_delete_Some. by eapply Hacc. }
    rewrite !(msum_delete _ _ _ _ Hi), !Hin in Hrest. split; [|lia].
    pose proof (msum_ge (fun _ a => in_group g (a_escape a) a) A i a) as Hge. cbv beta in Hge. rewrite Hin in Hge.
    apply Hge; [|done]. intros j b Hb. specialize (Hacc j b Hb). lia.
Qed.

Lemma tie_group : g <> 0%nat.
Proof. destruct (ft_acc _ _ _ T i a Hi) as (_ & g' & ? & ?). congruence. Qed.

(** A call that moves only this client's account. *)
Lemma tie_update a' L' bb' :
  a_group a' = Some g -> 0 <= a_escape a' <= a_held a' -> budget_ok L' bb' -> l_strict L' = l_strict L ->
  (forall g', l_held L' g' = l_held L g' + in_group g' (a_held a' - a_held a) a) ->
  (l_strict L = true -> forall g', l_esc L' g' = l_esc L g' + in_group g' (a_escape a' - a_escape a) a) ->
  (forall g', l_regs L' g' = l_regs L g' + in_group g' (Z.b2z (a_registered a') - Z.b2z (a_registered a)) a) ->
  (forall w g' n, l_live L' !! w = Some (g', n) <->
    (g' = g /\ a_requests a' !! w = Some n) \/
    (exists j b, j <> i /\ A !! j = Some b /\ a_group b = Some g' /\ a_requests b !! w = Some n)) ->
  (forall w j b, is_Some (a_requests a' !! w) -> A !! j = Some b -> is_Some (a_requests b !! w) -> j = i) ->
  fair_tie (<[i := a']> A) L' bb'.
Proof.
  intros Hg' Hle Hok Hst Hh He Hr Hl Hu.
  assert (Hsum : forall (p : account -> Z) g', msum (fun _ a => in_group g' (p a) a) (<[i := a']> A) =
    msum (fun _ a => in_group g' (p a) a) A + in_group g' (p a' - p a) a).
  { intros p g'. rewrite (msum_insert _ _ _ a) by done. unfold in_group. rewrite Hg, Hg'. case_decide; lia. }
  split; [done|..].
  - intros g'. by rewrite Hsum, <-(ft_held _ _ _ T), Hh.
  - rewrite Hst. intros g' Hs. by rewrite Hsum, <-(ft_esc _ _ _ T), He.
  - intros g'. rewrite (Hsum (fun a => Z.b2z (a_registered a))), <-(ft_regs _ _ _ T). apply Hr.
  - intros w g' n. rewrite Hl. split.
    + intros [[-> Hw]|(j & b & Hne & Hb & Hbg & Hw)].
      * exists i, a'. by rewrite lookup_insert_eq.
      * exists j, b. by rewrite lookup_insert_ne by done.
    + intros (j & b & [[<- <-]|[Hne Hb]]%lookup_insert_Some & Hbg & Hw); [left; split; [congruence|done]|].
      right. exists j, b. done.
  - intros w j k b c [[<- <-]|[Hne Hb]]%lookup_insert_Some [[<- <-]|[Hne' Hc]]%lookup_insert_Some Hsb Hsc; [done|..].
    + symmetry. by eapply Hu.
    + by eapply Hu.
    + by eapply (ft_uniq _ _ _ T w j k b c).
  - intros j b [[<- <-]|[Hne Hb]]%lookup_insert_Some; [|by eapply ft_acc].
    split; [done|]. exists g. split; [done|apply tie_group].
Qed.

Lemma tie_live w n : a_requests a !! w = Some n -> l_live L !! w = Some (g, n).
Proof. intros Hw. apply (ft_live _ _ _ T). by exists i, a. Qed.

(** The requests of the client and those of the others. *)
Lemma tie_live_split w g' n : l_live L !! w = Some (g', n) <->
  (g' = g /\ a_requests a !! w = Some n) \/
  (exists j b, j <> i /\ A !! j = Some b /\ a_group b = Some g' /\ a_requests b !! w = Some n).
Proof.
  rewrite (ft_live _ _ _ T). split.
  - intros (j & b & Hj & Hgb & Hw). destruct (decide (j = i)) as [->|]; [left|right; by exists j, b].
    split; congruence.
  - intros [[-> Hw]|(j & b & _ & ? & ? & ?)]; [by exists i, a|by exists j, b].
Qed.

Lemma tie_owner w j b : is_Some (a_requests a !! w) -> A !! j = Some b -> is_Some (a_requests b !! w) -> j = i.
Proof. intros. by eapply (ft_uniq _ _ _ T w). Qed.

(** The requests left when one of the client's ended. *)
Lemma tie_live_ended w w' g' n : is_Some (a_requests a !! w) ->
  delete w (l_live L) !! w' = Some (g', n) <->
  (g' = g /\ delete w (a_requests a) !! w' = Some n) \/
  (exists j b, j <> i /\ A !! j = Some b /\ a_group b = Some g' /\ a_requests b !! w' = Some n).
Proof.
  intros Hs. rewrite !lookup_delete_Some, tie_live_split. split.
  - intros [Hne [[-> Hw]|Ho]]; [by left|by right].
  - intros [[-> [? Hw]]|(j & b & Hj & Hb & Hbg & Hw)]; [split; [done|by left]|]. split; [|right; by exists j, b].
    intros <-. apply Hj. eapply tie_owner; [done|exact Hb|by eexists].
Qed.

Lemma tie_owner_ended w w' j b :
  is_Some (delete w (a_requests a) !! w') -> A !! j = Some b -> is_Some (a_requests b !! w') -> j = i.
Proof. intros [n [_ Hw]%lookup_delete_Some] ? ?. eapply tie_owner; [by eexists|done|done]. Qed.

Lemma in_group_self z : in_group g z a = z.
Proof. unfold in_group. by rewrite decide_True. Qed.

Lemma in_group_other g' z : g' <> g -> in_group g' z a = 0.
Proof. intros. unfold in_group. rewrite decide_False; congruence. Qed.
End tie.

(** Compares a function updated at the client's group with its old value. *)
Ltac ledger_point Hg g :=
  let g' := fresh "g'" in
  intros g'; simpl; destruct (decide (g' = g)) as [->|];
  [rewrite ?fn_lookup_insert, ?(in_group_self _ g Hg)|rewrite ?fn_lookup_insert_ne, ?(in_group_other _ g Hg) by done];
  simpl; rewrite ?Hg; lia.

Lemma fair_is_fair st A bb : fair_holds st A bb -> bb_fair bb = true.
Proof. intros (L & Hst & T). apply (ac_cfg _ _ (bo_acct _ _ (ft_ok _ _ _ T))). Qed.

Lemma fair_release st A bb i a n e :
  fair_holds st A bb -> A !! i = Some a -> 0 <= n <= a_held a -> 0 <= e <= a_escape a -> e <= n ->
  a_escape a - e <= a_held a - n ->
  exists bb', releaseFor n e (a_group a) bb = Some bb' /\
    fair_holds st (<[i := a <| a_held := a_held a - n |> <| a_escape := a_escape a - e |>]> A) bb'.
Proof.
  intros (L & Hst & T) Hi Hn He Hen Hle. destruct (ft_acc _ _ _ T i a Hi) as (_ & g & Hg & _).
  pose proof (tie_bounds A L bb T i a Hi g Hg) as (Hh & _ & Hd).
  assert (Hdom : is_Some (bb_groupOf bb !! g) \/ n = 0).
  { destruct (decide (n = 0)); [by right|left]. apply (ac_dom _ _ (bo_acct _ _ (ft_ok _ _ _ T))). right. lia. }
  assert (exists bb', releaseFor n e (a_group a) bb = Some bb' /\
    budget_ok (set_account g (l_held L g - n) (l_esc L g - e) L) bb') as (bb' & -> & Hok').
  { rewrite Hg. destruct Hdom as [Hdom| ->].
    - destruct (releaseFor_spec L bb g n e) as (bb' & ? & ? & _); [apply T|done| |by exists bb'].
      split; [lia|]. split; [lia|]. intros Hs. specialize (Hd Hs). lia.
    - assert (e = 0) as -> by lia. exists bb. split; [done|]. rewrite !Z.sub_0_r, set_account_id. apply T. }
  exists bb'. split; [done|]. eexists. split; [|eapply (tie_update A L bb T i a Hi g Hg); simpl; [done|lia|exact Hok'|done|..]]; [done|..].
  - ledger_point Hg g.
  - intros _. ledger_point Hg g.
  - ledger_point Hg g.
  - intros w g' m. by apply (tie_live_split A L bb T i a Hi g Hg).
  - intros w j b. by apply (tie_owner A L bb T i a Hi).
Qed.

Lemma fair_cancel st A bb i a w :
  fair_holds st A bb -> A !! i = Some a -> (forall w', w = Some w' -> is_Some (a_requests a !! w')) ->
  exists bb', cancel w bb = Some bb' /\ fair_holds st (<[i := a <| a_requests ::= ended w |>]> A) bb'.
Proof.
  intros Hf Hi Hw. destruct w as [w|]; simpl.
  2:{ exists bb. split; [done|]. by rewrite insert_id by done. }
  destruct Hf as (L & Hst & T). destruct (ft_acc _ _ _ T i a Hi) as (Hle & g & Hg & Hg0).
  destruct (Hw w eq_refl) as [n Hn]. pose proof (tie_live A L bb T i a Hi g Hg w n Hn) as Hl.
  destruct (cancel_live L bb g n w) as (bb' & Hc & Hok' & _); [apply T|done|done|].
  exists bb'. split; [done|]. eexists. split; [|eapply (tie_update A L bb T i a Hi g Hg); simpl; [done|lia|exact Hok'|done|..]]; [done|..].
  - ledger_point Hg g.
  - intros _. ledger_point Hg g.
  - ledger_point Hg g.
  - intros w' g' m. apply (tie_live_ended A L bb T i a Hi g Hg). by eexists.
  - intros w' j b. by apply (tie_owner_ended A L bb T i a Hi).
Qed.

(** *** What the clients hold and ask for bounds the counters *)

Lemma msum_exchange `{Countable K1, Countable K2} {X Y} (f : K1 -> X -> K2 -> Y -> Z) (m1 : gmap K1 X) (m2 : gmap K2 Y) :
  msum (fun k x => msum (fun l y => f k x l y) m2) m1 = msum (fun l y => msum (fun k x => f k x l y) m1) m2.
Proof.
  induction m1 as [|k x m1 Hk IH] using map_ind.
  - rewrite msum_empty. symmetry. apply msum_zero. intros. apply msum_empty.
  - rewrite msum_insert_new, IH, <-msum_add by done. apply msum_ext. intros l y _. by rewrite msum_insert_new.
Qed.

Lemma msum_cover `{Countable K} {X} (M : gmap K X) (m : gmap K Z) :
  (forall k n, m !! k = Some n -> 0 <= n) -> msum (fun k _ => default 0 (m !! k)) M <= msum (fun _ n => n) m.
Proof.
  revert m. induction M as [|k x M Hk IH] using map_ind; intros m Hm.
  { rewrite msum_empty. apply msum_nonneg. done. }
  rewrite msum_insert_new by done.
  rewrite (msum_ext _ (fun k' _ => default 0 (delete k m !! k'))).
  2:{ intros k' x' Hk'. rewrite lookup_delete_ne; [done|congruence]. }
  specialize (IH (delete k m)). destruct (m !! k) as [n|] eqn:Hn; simpl.
  - rewrite (msum_delete _ _ _ _ Hn) in IH. etrans; [apply Z.add_le_mono_l, IH|lia].
    intros k' n' [_ ?]%lookup_delete_Some. eauto.
  - rewrite (delete_id m k Hn) in *. by apply IH.
Qed.

Lemma msum_point `{Countable K} {X} (m : gmap K X) k z :
  0 <= z -> msum (fun k' _ => if decide (k = k') then z else 0) m <= z.
Proof.
  intros Hz. induction m as [|k' x m Hk IH] using map_ind; [by rewrite msum_empty|]. rewrite msum_insert_new by done.
  case_decide as Heq; [|done]. subst k'. rewrite msum_zero; [lia|].
  intros k' x' Hk'. rewrite decide_False; [done|]. congruence.
Qed.

Lemma tie_theld A L bb : fair_tie A L bb -> theld bb L <= total_held A.
Proof.
  intros T. unfold theld, total_held.
  rewrite (msum_ext _ (fun g _ => msum (fun _ a => in_group g (a_held a) a) A)) by (intros; apply T).
  rewrite msum_exchange. apply msum_le. intros i a Hi. destruct (ft_acc _ _ _ T i a Hi) as (? & g & Hg & _).
  rewrite (msum_ext _ (fun g' _ => if decide (g = g') then a_held a else 0)).
  - apply msum_point. lia.
  - intros g' gr _. unfold in_group. rewrite Hg. repeat case_decide; congruence.
Qed.

Lemma tie_request_pos A L bb i a w n :
  fair_tie A L bb -> A !! i = Some a -> a_requests a !! w = Some n -> messageOverheadBytes <= n.
Proof.
  intros T Hi Hw. destruct (ft_acc _ _ _ T i a Hi) as (_ & g & Hg & _).
  pose proof (tie_live A L bb T i a Hi g Hg w n Hw) as Hl.
  destruct (wo_live _ _ (ac_waiters _ _ (bo_acct _ _ (ft_ok _ _ _ T))) w g n Hl) as (wr & c & []). done.
Qed.

Lemma tie_tasked A L bb : fair_tie A L bb -> tasked L <= requested A.
Proof.
  intros T. unfold tasked, requested. etrans; [|apply (msum_le (fun _ a => msum (fun w _ => default 0 (a_requests a !! w)) (l_live L)))].
  - rewrite <-(msum_exchange (fun w _ _ a => default 0 (a_requests a !! w))). apply msum_le. intros w [g n] Hw.
    apply (ft_live _ _ _ T) in Hw as (i & a & Hi & _ & Hr).
    pose proof (msum_ge (fun _ a => default 0 (a_requests a !! w)) A i a) as Hge. cbv beta in Hge.
    rewrite Hr in Hge. apply Hge; [|done]. intros j b Hb. destruct (a_requests b !! w) as [m|] eqn:Hm; simpl; [|lia].
    pose proof (tie_request_pos _ _ _ j b w m T Hb Hm) as Hpos. unfold messageOverheadBytes in Hpos. lia.
  - intros i a Hi. apply msum_cover. intros w n Hw.
    pose proof (tie_request_pos _ _ _ i a w n T Hi Hw) as Hpos. unfold messageOverheadBytes in Hpos. lia.
Qed.

(** *** Admission *)

(** Turning an admission into the group, with the request [w] ended, into one of
    the client. *)
Lemma fair_admitted st A L L0 bb bb' i a g n esc w :
  l_strict L = st -> fair_tie A L bb -> A !! i = Some a -> a_group a = Some g -> 0 <= n ->
  (st = true -> esc = true -> a_escape a = 0) ->
  (forall w', w = Some w' -> is_Some (a_requests a !! w')) ->
  L0 = match w with Some w => without w L | None => L end ->
  budget_ok (charged_ledger g n esc L0) bb' -> fair_holds st (<[i := admitted n esc w a]> A) bb'.
Proof.
  intros Hst T Hi Hg Hn Hz Hw -> Hok. destruct (ft_acc _ _ _ T i a Hi) as (Hle & _).
  assert (Hh : forall g', l_held (charged_ledger g n esc (match w with Some w => without w L | None => L end)) g' =
     l_held L g' + in_group g' n a) by (destruct w; ledger_point Hg g).
  assert (He : forall g', l_esc (charged_ledger g n esc (match w with Some w => without w L | None => L end)) g' =
     l_esc L g' + in_group g' (if esc then n else 0) a) by (destruct w; ledger_point Hg g).
  assert (Hs : forall L0, L0 = charged_ledger g n esc (match w with Some w => without w L | None => L end) -> l_strict L0 = l_strict L)
    by (intros ? ->; by destruct w).
  eexists. split; [|eapply (tie_update A L bb T i a Hi g Hg); simpl; [done| |exact Hok|by apply Hs|..]].
  - rewrite <-Hst. by apply Hs.
  - destruct (esc && _); lia.
  - intros g'. rewrite Hh. do 2 f_equal. lia.
  - intros Hs' g'. rewrite He. do 2 f_equal. rewrite Hg, bool_decide_true, andb_true_r by done.
    destruct esc; [rewrite Hz by congruence|]; lia.
  - intros g'. replace (l_regs _ g') with (l_regs L g') by (by destruct w). unfold in_group. case_decide; lia.
  - intros w' g' m. destruct w as [w|]; simpl.
    + apply (tie_live_ended A L bb T i a Hi g Hg). by apply Hw.
    + by apply (tie_live_split A L bb T i a Hi g Hg).
  - intros w' j b. destruct w as [w|]; simpl; [by apply (tie_owner_ended A L bb T i a Hi)|by apply (tie_owner A L bb T i a Hi)].
Qed.

Lemma fair_queued st A L bb bb' i a g n w :
  l_strict L = st -> fair_tie A L bb -> A !! i = Some a -> a_group a = Some g -> l_live L !! w = None ->
  budget_ok (queued_ledger g n w L) bb' -> fair_holds st (<[i := a <| a_requests ::= <[w := n]> |>]> A) bb'.
Proof.
  intros Hst T Hi Hg Hnew Hok. destruct (ft_acc _ _ _ T i a Hi) as (Hle & _). 
  assert (Hfree : forall j b, A !! j = Some b -> a_requests b !! w = None).
  { intros j b Hb. destruct (a_requests b !! w) eqn:E; [|done]. destruct (ft_acc _ _ _ T j b Hb) as (_ & g' & Hg' & _).
    pose proof (tie_live A L bb T j b Hb g' Hg' w _ E). congruence. }
  eexists. split; [|eapply (tie_update A L bb T i a Hi g Hg); simpl; [done|lia|exact Hok|done|..]]; [done|..].
  - ledger_point Hg g.
  - intros _. ledger_point Hg g.
  - ledger_point Hg g.
  - intros w' g' m. unfold queued_ledger. simpl. rewrite !lookup_insert_Some, (tie_live_split A L bb T i a Hi g Hg). split.
    + intros [[<- [= <- <-]]|[Hne [[-> ?]|?]]]; [by left; split; [|left]|by left; split; [|right]|by right].
    + intros [[-> [[<- <-]|[Hne ?]]]|(j & b & ? & Hb & ? & Hw)]; [by left|right; split; [done|by left]|].
      right. split; [|right; by exists j, b]. intros <-. by rewrite (Hfree j b Hb) in Hw.
  - intros w' j b [<-|[Hne Hw]]%lookup_insert_is_Some Hb Hs; [rewrite (Hfree j b Hb) in Hs; by destruct Hs|].
    by apply (tie_owner A L bb T i a Hi w' j b).
Qed.

Lemma fair_reserve st A bb i a n force w :
  fair_holds st A bb -> A !! i = Some a -> a_registered a = true -> messageOverheadBytes <= n ->
  (forall w', w = Some w' -> a_requests a !! w' = Some n) -> total_held A + requested A + n < W64 ->
  (st = true -> force = true -> a_escape a = 0) ->
  exists r bb', reserveFor n force (a_group a) w bb = Some (r, bb') /\
    (r_overshot r = true -> force = true) /\ (force = true -> r_ok r = true) /\
    (forall w', w = Some w' -> force = false -> wakeClosed w' bb = false -> r_ok r = false) /\
    if r_ok r then fair_holds st (<[i := admitted n (r_overshot r) w a]> A) bb' /\ r_waiter r = None
    else exists w', r_waiter r = Some w' /\ ((w = None /\ a_requests a !! w' = None) \/ w = Some w') /\
      fair_holds st (<[i := a <| a_requests ::= <[w' := n]> |>]> A) bb'.
Proof.
  intros (L & Hst & T) Hi Hr Hn Hw Hroom Hz. destruct (ft_acc _ _ _ T i a Hi) as (_ & g & Hg & Hg0).
  pose proof (tie_bounds A L bb T i a Hi g Hg) as (_ & Hreg & _). rewrite Hr in Hreg. simpl in Hreg.
  pose proof (ft_ok _ _ _ T) as Hok. assert (Hn0 : 0 <= n) by (unfold messageOverheadBytes in Hn; lia).
  assert (Hgs : is_Some (bb_groupOf bb !! g)) by (apply (ac_dom _ _ (bo_acct _ _ Hok)); left; lia).
  rewrite Hg. destruct w as [w|].
  - specialize (Hw w eq_refl). pose proof (tie_live A L bb T i a Hi g Hg w n Hw) as Hl.
    destruct (reserveFor_queued L bb g n w force) as (r & bb' & -> & Hpost & Hopen); [done..|].
    exists r, bb'. split; [done|].
    assert (Hopen' : forall w', Some w = Some w' -> force = false -> wakeClosed w' bb = false -> r_ok r = false)
      by (intros w' [= <-] ? ?; by apply Hopen).
    clear Hopen. destruct Hpost as [(esc & -> & Hesc & Hok')|(-> & -> & ->)]; simpl in *.
    + split; [done|]. split; [done|]. split; [done|]. split; [|done].
      eapply (fair_admitted _ A L); [done|done|done|done|done|by auto| |done|done]. intros w' [= <-]. by eexists.
    + split; [done|]. split; [done|]. split; [done|]. exists w. split; [done|]. split; [by right|].
      rewrite insert_id; [by exists L; split|]. rewrite Hi. f_equal. destruct a; simpl in *. unfold with_field, set_a_requests. simpl. f_equal. by rewrite insert_id.
  - pose proof (tie_theld A L bb T). pose proof (tie_tasked A L bb T).
    destruct (reserveFor_new L bb g n force) as (r & bb' & -> & Hpost); [done|done|done|done|done|lia|].
    exists r, bb'. split; [done|]. destruct Hpost as [esc used b Hesc Hok' _|w used b -> Hw' Hok' _]; simpl.
    + split; [done|]. split; [done|]. split; [done|]. split; [|done]. eapply (fair_admitted _ A L L); [done..|by auto|done|done|done].
    + split; [done|]. split; [done|]. split; [done|]. exists w. split; [done|]. split; [left|by eapply (fair_queued _ A L)].
      split; [done|]. destruct (a_requests a !! w) eqn:E; [|done]. by rewrite (tie_live A L bb T i a Hi g Hg w _ E) in Hw'.
Qed.

(** *** Registration *)

Lemma fair_unregister st A bb i a :
  fair_holds st A bb -> A !! i = Some a -> a_registered a = true ->
  exists bb', unregister (a_group a) bb = Some bb' /\ fair_holds st (<[i := a <| a_registered := false |>]> A) bb'.
Proof.
  intros (L & Hst & T) Hi Hr. destruct (ft_acc _ _ _ T i a Hi) as (Hle & g & Hg & Hg0). rewrite Hg.
  pose proof (tie_bounds A L bb T i a Hi g Hg) as (_ & Hreg & _). rewrite Hr in Hreg. simpl in Hreg.
  pose proof (ft_ok _ _ _ T) as Hok.
  destruct (unregister_spec L bb g) as (bb' & -> & Hok'); [done|done| |done|].
  { apply (ac_dom _ _ (bo_acct _ _ Hok)). left. lia. }
  exists bb'. split; [done|]. eexists. split; [|eapply (tie_update A L bb T i a Hi g Hg); simpl; [done|lia|exact Hok'|done|..]]; [done|..].
  - ledger_point Hg g.
  - intros _. ledger_point Hg g.
  - rewrite Hr. ledger_point Hg g.
  - intros w g' m. by apply (tie_live_split A L bb T i a Hi g Hg).
  - intros w j b. by apply (tie_owner A L bb T i a Hi).
Qed.

(** A new client with nothing yet joins the accounts. *)
Lemma tie_join A L bb L' bb' i g :
  fair_tie A L bb -> A !! i = None -> g <> 0%nat -> budget_ok L' bb' ->
  l_strict L' = l_strict L -> (forall g', l_held L' g' = l_held L g') ->
  (l_strict L = true -> forall g', l_esc L' g' = l_esc L g') ->
  (forall g', l_regs L' g' = l_regs L g' + if decide (g = g') then 1 else 0) -> l_live L' = l_live L ->
  fair_tie (<[i := Account (Some g) true 0 0 ∅]> A) L' bb'.
Proof.
  intros T Hi Hg0 Hok Hst Hh He Hr Hl. split; [done|..].
  - intros g'. rewrite Hh, (ft_held _ _ _ T), msum_insert_new by done. unfold in_group at 2. simpl. by case_decide.
  - rewrite Hst. intros g' Hs. rewrite He, (ft_esc _ _ _ T), msum_insert_new by done. unfold in_group at 2. simpl. by case_decide.
  - intros g'. rewrite Hr, (ft_regs _ _ _ T), msum_insert_new by done. unfold in_group at 2. simpl.
    repeat case_decide; simplify_eq; lia.
  - intros w g' n. rewrite Hl, (ft_live _ _ _ T). split.
    + intros (j & b & Hj & ? & ?). exists j, b. rewrite lookup_insert_ne; [done|congruence].
    + intros (j & b & [[<- <-]|[_ Hb]]%lookup_insert_Some & ? & Hw); [by simpl in Hw; rewrite lookup_empty in Hw|by exists j, b].
  - intros w j k b c [[<- <-]|[Hne Hb]]%lookup_insert_Some [[<- <-]|[Hne' Hc]]%lookup_insert_Some Hsb Hsc; [done|..].
    + simpl in Hsb. rewrite lookup_empty in Hsb. by destruct Hsb.
    + simpl in Hsc. rewrite lookup_empty in Hsc. by destruct Hsc.
    + by eapply (ft_uniq _ _ _ T w j k b c).
  - intros j b [[<- <-]|[Hne Hb]]%lookup_insert_Some; [|by eapply ft_acc]. simpl. split; [lia|by exists g].
Qed.

Lemma msum_size (A : accounts) (f : nat -> account -> Z) :
  (forall i a, f i a <= 1) -> msum f A <= Z.of_nat (size A).
Proof.
  intros Hf. induction A as [|i a A Hi IH] using map_ind; [by rewrite msum_empty|].
  rewrite msum_insert_new, map_size_insert_None by done. specialize (Hf i a). lia.
Qed.

Lemma fair_register st A bb i key :
  fair_holds st A bb -> A !! i = None -> key <> "" -> Z.of_nat (size A) < 2 ^ 62 ->
  exists g bb', register key bb = inr (Some g, bb') /\ fair_holds st (<[i := Account (Some g) true 0 0 ∅]> A) bb'.
Proof.
  intros (L & Hst & T) Hi Hk Hsz. pose proof (ft_ok _ _ _ T) as Hok. pose proof (bo_acct _ _ Hok) as Hac.
  destruct (bb_groups bb !! key) as [g|] eqn:Hkg.
  - destruct (register_known L bb key g) as (bb' & -> & Hok' & Hg0 & _); [done..| |].
    { rewrite (ft_regs _ _ _ T). eapply Z.le_lt_trans; [apply msum_size|lia].
      intros j a. unfold in_group. case_decide; [|lia]. by destruct (a_registered a). }
    exists g, bb'. split; [done|]. eexists. split; [|eapply (tie_join A L bb); [done|done|done|exact Hok'|done|done|done| |done]]; [done|].
    intros g'. simpl. case_decide as E; [subst; by rewrite fn_lookup_insert|]. rewrite fn_lookup_insert_ne by done. lia.
  - destruct (register_new L bb Hok key Hk Hkg) as (-> & Hok' & Hg0). eexists _, _. split; [done|].
    pose proof (newcomer_fresh L bb Hok) as Hfr. set (g := newcomer bb) in *.
    assert (Hz : l_regs L g = 0 /\ l_held L g = 0).
    { split; [destruct (decide (l_regs L g = 0))|destruct (decide (l_held L g = 0))]; [done| |done|];
        (assert (Hd : is_Some (bb_groupOf bb !! g)) by (apply (ac_dom _ _ Hac); lia)); rewrite Hfr in Hd; by destruct Hd. }
    assert (Hacc : forall j b, A !! j = Some b -> 0 <= in_group g (a_escape b) b <= in_group g (a_held b) b).
    { intros j b Hb. unfold in_group. destruct (ft_acc _ _ _ T j b Hb). case_decide; lia. }
    assert (He : l_strict L = true -> l_esc L g = 0).
    { intros Hs. destruct Hz as [_ Hz]. rewrite (ft_held _ _ _ T) in Hz. rewrite (ft_esc _ _ _ T) by done. apply Z.le_antisymm.
      - rewrite <-Hz. apply msum_le. intros j b Hb. by apply (Hacc j b).
      - apply msum_nonneg. intros j b Hb. by apply (Hacc j b). }
    eexists. split; [|eapply (tie_join A L bb); [done|done|done|exact Hok'|done|..|done]]; [done|..];
      [|intros Hs; specialize (He Hs)|]; intros g'; simpl;
      fold g; (destruct (decide (g = g')) as [<-|]; [rewrite fn_lookup_insert|rewrite fn_lookup_insert_ne by done]); lia.
Qed.

(** ** The other budgets *)

(** A waiting request: its channel is closed, or it is the wake channel of the
    budget and the request still does not fit. *)
Definition legacy_waits (bb : ByteBudget) (w : wid) (n : Z) : Prop :=
  exists wr c, bb_waiterOf bb !! w = Some wr /\ w_wake wr = Some c /\
    (bb_chans bb !! c = Some true \/ (bb_legacyWake bb = Some c /\ bb_total bb <> 0 /\ bb_total bb < bb_used bb + n)).

Lemma legacy_waits_calm x bb bb' w n :
  legacy_calm x bb bb' -> Some w <> x -> legacy_waits bb w n -> legacy_waits bb' w n.
Proof.
  intros [W C L] Hx (wr & c & Hw & Hc & Hor). exists wr, c. split; [by apply W|]. split; [done|].
  destruct Hor as [?|(Hl & ? & ?)]; [left; by apply C|]. destruct (L c Hl) as [?|(? & ? & ->)]; [by left|].
  right. split_and!; [done|done|lia].
Qed.

(** Who waits on an open channel would be refused again. *)
Lemma legacy_waits_open bb w n :
  legacy_waits bb w n -> wakeClosed w bb = false -> bb_total bb <> 0 /\ bb_total bb < bb_used bb + n.
Proof.
  intros (wr & c & Hw & Hc & Hor) Ho. unfold wakeClosed in Ho. rewrite Hw, Hc in Ho. apply bool_decide_eq_false in Ho.
  by destruct Hor as [?|(_ & ?)].
Qed.

(** An ungrouped budget knows only the total; clients have no handle. *)
Record legacy_tie (A : accounts) (bb : ByteBudget) : Prop := {
  lt_ok : legacy_ok bb;
  lt_used : bb_used bb = total_held A;
  lt_acc i a : A !! i = Some a -> a_group a = None /\ 0 <= a_held a;
  lt_req i a w n : A !! i = Some a -> a_requests a !! w = Some n -> 0 <= n /\ legacy_waits bb w n;
  lt_uniq w i j a a' : A !! i = Some a -> A !! j = Some a' ->
    is_Some (a_requests a !! w) -> is_Some (a_requests a' !! w) -> i = j;
}.

Section legacy.
Context (A : accounts) (bb : ByteBudget) (T : legacy_tie A bb) (i : nat) (a : account) (Hi : A !! i = Some a).

(** A call that moves only this client's account and the waiter [x]. *)
Lemma legacy_update x bb' a' :
  legacy_ok bb' -> a_group a' = None -> 0 <= a_held a' -> bb_used bb' = bb_used bb - a_held a + a_held a' ->
  legacy_calm x bb bb' ->
  (forall w j b, x = Some w \/ is_Some (a_requests a' !! w) -> A !! j = Some b -> is_Some (a_requests b !! w) -> j = i) ->
  (forall w n, a_requests a' !! w = Some n -> 0 <= n /\ legacy_waits bb' w n) ->
  legacy_tie (<[i := a']> A) bb'.
Proof.
  intros Hok Hg Hh Hu Hc Hx Hr. split; [done|..].
  - unfold total_held. rewrite (msum_insert _ _ _ a) by done. rewrite Hu, (lt_used _ _ T). done.
  - intros j b [[<- <-]|[_ Hb]]%lookup_insert_Some; [done|by eapply lt_acc].
  - intros j b w n [[<- <-]|[Hne Hb]]%lookup_insert_Some Hw; [by apply Hr|].
    destruct (lt_req _ _ T j b w n Hb Hw) as [? Hwait]. split; [done|]. eapply legacy_waits_calm; [done| |done].
    intros Heq. apply Hne. symmetry. eapply (Hx w); [by left|done|by eexists].
  - intros w j k b c [[<- <-]|[Hne Hb]]%lookup_insert_Some [[<- <-]|[Hne' Hc']]%lookup_insert_Some Hsb Hsc; [done|..].
    + symmetry. eapply Hx; [by right|done|done].
    + eapply Hx; [by right|done|done].
    + by eapply (lt_uniq _ _ T w j k b c).
Qed.

Lemma legacy_owner w j b : is_Some (a_requests a !! w) -> A !! j = Some b -> is_Some (a_requests b !! w) -> j = i.
Proof. intros. by eapply (lt_uniq _ _ T w). Qed.

Lemma legacy_held : 0 <= a_held a <= bb_used bb.
Proof.
  rewrite (lt_used _ _ T). split; [by eapply lt_acc|]. apply (msum_ge (fun _ a => a_held a)) with (k := i); [|done].
  intros j b Hb. by eapply lt_acc.
Qed.

(** The requests that are left when some ended, in a step they do not move in. *)
Lemma legacy_fewer bb' a' :
  legacy_ok bb' -> a_group a' = None -> 0 <= a_held a' -> bb_used bb' = bb_used bb - a_held a + a_held a' ->
  legacy_calm None bb bb' -> a_requests a' ⊆ a_requests a -> legacy_tie (<[i := a']> A) bb'.
Proof.
  intros Hok Hg Hh Hu Hc Hsub. apply (legacy_update None); try done.
  - intros w j b [?|[n Hn]]; [done|]. apply legacy_owner. exists n. by eapply lookup_weaken.
  - intros w n Hn. destruct (lt_req _ _ T i a w n Hi) as [? Hwait]; [by eapply lookup_weaken|].
    split; [done|]. by eapply legacy_waits_calm.
Qed.

Lemma ended_subseteq w (m : gmap wid Z) : ended w m ⊆ m.
Proof. destruct w; [apply delete_subseteq|done]. Qed.

Lemma legacy_calm_refl : legacy_calm None bb bb.
Proof. split; [done|done|]. intros c ?. by right. Qed.

Lemma legacy_release n e :
  0 <= n <= a_held a -> exists bb', releaseFor n e (a_group a) bb = Some bb' /\
    legacy_tie (<[i := a <| a_held := a_held a - n |> <| a_escape := a_escape a - e |>]> A) bb'.
Proof.
  intros Hn. pose proof legacy_held. destruct (lt_acc _ _ T i a Hi) as [Hg _]. destruct (decide (n = 0)) as [->|Hn0].
  - exists bb. split; [done|]. apply legacy_fewer; simpl; [apply T|done|lia|lia|apply legacy_calm_refl|done].
  - destruct (legacy_release_spec bb n e (a_group a) (lt_ok _ _ T) Hn0) as (bb' & -> & Hok & Hw & Hu & Hc & _).
    exists bb'. split; [done|]. apply legacy_fewer; simpl; [done|done|lia|rewrite Hu; lia|done|done].
Qed.

Lemma legacy_ended w :
  legacy_tie (<[i := a <| a_requests ::= ended w |>]> A) bb.
Proof.
  destruct (lt_acc _ _ T i a Hi) as [Hg ?].
  apply legacy_fewer; simpl; [apply T|done|lia|lia|apply legacy_calm_refl|apply ended_subseteq].
Qed.

Lemma legacy_reserve n force w :
  0 <= n -> (forall w', w = Some w' -> a_requests a !! w' = Some n) -> total_held A + requested A + n < W64 ->
  exists r bb', reserveFor n force (a_group a) w bb = Some (r, bb') /\
    (r_overshot r = true -> force = true) /\ (force = true -> r_ok r = true) /\
    (forall w', w = Some w' -> force = false -> wakeClosed w' bb = false -> r_ok r = false) /\
    if r_ok r then legacy_tie (<[i := admitted n (r_overshot r) w a]> A) bb' /\ r_waiter r = None
    else exists w', r_waiter r = Some w' /\ ((w = None /\ a_requests a !! w' = None) \/ w = Some w') /\
      legacy_tie (<[i := a <| a_requests ::= <[w' := n]> |>]> A) bb'.
Proof.
  intros Hn Hw Hroom. destruct (lt_acc _ _ T i a Hi) as [Hg Hh]. pose proof (lt_ok _ _ T) as Hok.
  assert (0 <= requested A).
  { apply msum_nonneg. intros j b Hb. apply msum_nonneg. intros w0 m Hm. by eapply lt_req. }
  assert (Hsome : forall j b w0, A !! j = Some b -> is_Some (a_requests b !! w0) -> is_Some (bb_waiterOf bb !! w0)).
  { intros j b w0 Hb [m Hm]. destruct (lt_req _ _ T j b w0 m Hb Hm) as (_ & wr & c & -> & _). by eexists. }
  unfold reserveFor. rewrite (proj1 Hok).
  destruct (reserveLegacy_spec bb n force w) as (r & bb' & -> & Hok' & Hr & Ho & Hm & Hpost); [done|done| | |].
  { rewrite (lt_used _ _ T). lia. }
  { intros w' Hw'. eapply Hsome; [done|]. rewrite (Hw w' Hw'). by eexists. }
  exists r, bb'. split; [done|]. split; [by intros [? _]%Ho|]. split; [intros; apply Hr; by left|]. split.
  { intros w' Hw' -> Hwk. destruct (lt_req _ _ T i a w' n Hi (Hw w' Hw')) as [_ Hwait].
    destruct (legacy_waits_open bb w' n Hwait Hwk). destruct (r_ok r); [|done]. destruct (proj1 Hr eq_refl) as [?|[?|?]]; [done|done|lia]. }
  destruct (r_ok r) eqn:Hrok.
  - destruct Hpost as (Hu & Hrw & Hc). split; [|done]. apply legacy_fewer; simpl; [done|done|lia|lia|done|apply ended_subseteq].
  - destruct Hpost as (Hu & Ht & w' & wr & c & Hrw & Hor & Hwr & Hwk & Hlw & Hc).
    assert (Hfr : forall j b, A !! j = Some b -> is_Some (a_requests b !! w') -> j = i).
    { intros j b Hb Hs. destruct Hor as [[_ Hnone]|Hsw]; [destruct (Hsome j b w' Hb Hs); congruence|].
      apply (legacy_owner w' j b); [rewrite (Hw w' Hsw); by eexists|done|done]. }
    assert (Hnofit : bb_total bb <> 0 /\ bb_total bb < bb_used bb + n).
    { split; [intros Hz|apply Z.nle_gt; intros Hle]; (discriminate (proj2 Hr ltac:(tauto))). }
    exists w'. split; [done|]. split.
    { destruct Hor as [[-> Hnone]|?]; [left|by right]. split; [done|]. destruct (a_requests a !! w') eqn:E; [|done].
      destruct (Hsome i a w' Hi) as [? ?]; [by eexists|congruence]. }
    apply (legacy_update (Some w')); simpl; [done|done|lia|lia|done|..].
    + intros w0 j b [[= <-]|[m [[<- _]|[_ Hq]]%lookup_insert_Some]]; [by apply Hfr..|]. apply legacy_owner. by eexists.
    + intros w0 m [[<- <-]|[Hne Hq]]%lookup_insert_Some.
      * split; [lia|]. exists wr, c. split_and!; try done. right. rewrite Ht, Hu. split_and!; [done|tauto|lia].
      * destruct (lt_req _ _ T i a w0 m Hi Hq). split; [done|]. eapply legacy_waits_calm; [done|congruence|done].
Qed.
End legacy.

Lemma legacy_join A bb i :
  legacy_tie A bb -> A !! i = None -> legacy_tie (<[i := Account None false 0 0 ∅]> A) bb.
Proof.
  intros T Hi. split; [apply T|..].
  - unfold total_held. rewrite msum_insert_new by done. apply T.
  - intros j b [[<- <-]|[_ Hb]]%lookup_insert_Some; [simpl; split; [done|lia]|by eapply lt_acc].
  - intros j b w n [[<- <-]|[_ Hb]]%lookup_insert_Some Hw; [by simpl in Hw; rewrite lookup_empty in Hw|by eapply lt_req].
  - intros w j k b c [[<- <-]|[Hne Hb]]%lookup_insert_Some [[<- <-]|[Hne' Hc]]%lookup_insert_Some Hsb Hsc; [done|..].
    + simpl in Hsb. rewrite lookup_empty in Hsb. by destruct Hsb.
    + simpl in Hsc. rewrite lookup_empty in Hsc. by destruct Hsc.
    + by eapply (lt_uniq _ _ T w j k b c).
Qed.

(** ** The laws *)

(** Without a budget no client has a handle. *)
Definition nil_tie (A : accounts) : Prop := forall i a, A !! i = Some a -> a_group a = None.

Definition pointer_holds (st : bool) (A : accounts) (p : option ByteBudget) : Prop :=
  match p with
  | None => nil_tie A
  | Some bb => if bb_fair bb then fair_holds st A bb else legacy_tie A bb
  end.

Definition pointer_joinable (key : string) (p : option ByteBudget) : Prop :=
  match p with Some bb => bb_fair bb = true -> key <> "" | None => True end.

Lemma pointer_fair st A bb : fair_holds st A bb -> pointer_holds st A (Some bb).
Proof. intros Hf. simpl. by rewrite (fair_is_fair st A bb Hf). Qed.

Lemma pointer_legacy st A bb : legacy_tie A bb -> pointer_holds st A (Some bb).
Proof. intros T. simpl. by rewrite (proj1 (lt_ok _ _ T)). Qed.

#[export] Hint Resolve pointer_fair pointer_legacy : budget.

(** The lenient laws forget the bounds on escape bytes. *)
Lemma acct_lenient L bb : acct L bb -> acct (L <| l_strict := false |>) bb.
Proof.
  intros [Hcfg [] Hg [] Hk Hdom]. split; [done|by split| |by split|done|done].
  intros g gr Hgr. destruct (Hg g gr Hgr). by split.
Qed.

Lemma pointer_lenient A p : pointer_holds true A p -> pointer_holds false A p.
Proof.
  destruct p as [bb|]; simpl; [|done]. destruct (bb_fair bb); [|done]. intros (L & _ & [[Hac Hix] Hh He Hr Hl Hu Ha]).
  exists (L <| l_strict := false |>). split; [done|]. split; try done. split; [by apply acct_lenient|done].
Qed.

(** A client of a fair budget has a group. *)
Lemma fair_group st A bb i a : fair_holds st A bb -> A !! i = Some a -> a_group a <> None.
Proof. intros (L & Hst & T) Hi. destruct (ft_acc _ _ _ T i a Hi) as (_ & g & -> & _). done. Qed.

Lemma nil_update (A : accounts) i a : nil_tie A -> a_group a = None -> nil_tie (<[i := a]> A).
Proof. intros HA Ha j b [[_ <-]|[_ Hb]]%lookup_insert_Some; eauto. Qed.

Lemma pointer_absent st A p i a :
  pointer_holds st A p -> sb_present p = false -> a_group a = None -> pointer_holds st (<[i := a]> A) p.
Proof.
  destruct p as [bb|]; intros HA Hp Ha; [done|]. by apply nil_update.
Qed.

Lemma pointer_no_group st A p i a :
  pointer_holds st A p -> A !! i = Some a -> sb_present p = false -> a_group a = None.
Proof.
  destruct p as [bb|]; intros HA Hi Hp; [done|]. by eapply HA.
Qed.

Lemma pointer_releaseFor st A p i a n e :
  pointer_holds st A p -> A !! i = Some a -> 0 <= n <= a_held a -> 0 <= e <= a_escape a -> e <= n ->
  a_escape a - e <= a_held a - n ->
  exists p', sb_releaseFor n e (a_group a) p = Some p' /\ sb_present p' = sb_present p /\
    pointer_holds st (<[i := a <| a_held := a_held a - n |> <| a_escape := a_escape a - e |>]> A) p'.
Proof.
  destruct p as [bb|]; intros HA Hi Hn He Hen Hle; simpl in *.
  - destruct (bb_fair bb).
    + destruct (fair_release st A bb i a n e) as (bb' & -> & ?); [done..|]. eexists. by eauto with budget.
    + destruct (legacy_release A bb HA i a Hi n e) as (bb' & -> & ?); [done..|]. eexists. by eauto with budget.
  - eexists. split; [done|]. split; [done|]. apply nil_update; [done|]. by eapply (HA i a).
Qed.

Lemma pointer_cancel st A p i a w :
  pointer_holds st A p -> A !! i = Some a -> (forall w', w = Some w' -> is_Some (a_requests a !! w')) ->
  exists p', sb_cancel w p = Some p' /\ sb_present p' = sb_present p /\
    pointer_holds st (<[i := a <| a_requests ::= ended w |>]> A) p'.
Proof.
  destruct p as [bb|]; intros HA Hi Hw; simpl in *.
  - destruct (bb_fair bb) eqn:Hf.
    + destruct (fair_cancel st A bb i a w) as (bb' & -> & ?); [done..|]. eexists. by eauto with budget.
    + unfold cancel. rewrite Hf. replace (match w with Some _ => Some bb | None => Some bb end) with (Some bb) by (by destruct w).
      eexists. split; [done|]. split; [done|]. by apply pointer_legacy, legacy_ended.
  - eexists. split; [done|]. split; [done|]. apply nil_update; [done|]. by eapply (HA i a).
Qed.

Lemma pointer_reserveFor st A p i a n force w :
  pointer_holds st A p -> A !! i = Some a -> sb_present p = true -> (a_group a <> None -> a_registered a = true) ->
  messageOverheadBytes <= n -> (forall w', w = Some w' -> a_requests a !! w' = Some n) ->
  total_held A + requested A + n < W64 -> (st = true -> force = true -> a_escape a = 0) ->
  exists r p', sb_reserveFor n force (a_group a) w p = Some (r, p') /\ sb_present p' = sb_present p /\
    (r_overshot r = true -> force = true) /\ (force = true -> r_ok r = true) /\
    (forall w', w = Some w' -> force = false -> sb_woken w' p = false -> r_ok r = false) /\
    if r_ok r then pointer_holds st (<[i := admitted n (r_overshot r) w a]> A) p' /\ r_waiter r = None
    else exists w', r_waiter r = Some w' /\ ((w = None /\ a_requests a !! w' = None) \/ w = Some w') /\
      pointer_holds st (<[i := a <| a_requests ::= <[w' := n]> |>]> A) p'.
Proof.
  destruct p as [bb|]; intros HA Hi Hp Hr Hn Hw Hroom Hz; simpl in *; [|done]. destruct (bb_fair bb).
  - destruct (fair_reserve st A bb i a n force w) as (r & bb' & -> & ? & ? & ? & Hpost); [done|done|by apply Hr, (fair_group st A bb i)|done..|].
    exists r, (Some bb'). split; [done|]. split; [done|]. split; [done|]. split; [done|]. split; [done|]. destruct (r_ok r).
    + destruct Hpost. by eauto with budget.
    + destruct Hpost as (w' & ? & ? & ?). exists w'. by eauto with budget.
  - assert (0 <= n) by (unfold messageOverheadBytes in Hn; lia).
    destruct (legacy_reserve A bb HA i a Hi n force w) as (r & bb' & -> & ? & ? & ? & Hpost); [done..|].
    exists r, (Some bb'). split; [done|]. split; [done|]. split; [done|]. split; [done|]. split; [done|]. destruct (r_ok r).
    + destruct Hpost. by eauto with budget.
    + destruct Hpost as (w' & ? & ? & ?). exists w'. by eauto with budget.
Qed.

Lemma pointer_unregister st A p i a :
  pointer_holds st A p -> A !! i = Some a -> a_registered a = true -> a_group a <> None ->
  exists p', sb_unregister (a_group a) p = Some p' /\ sb_present p' = sb_present p /\
    pointer_holds st (<[i := a <| a_registered := false |>]> A) p'.
Proof.
  destruct p as [bb|]; intros HA Hi Hr Hg; simpl in *; [|by destruct Hg; eapply HA]. destruct (bb_fair bb).
  - destruct (fair_unregister st A bb i a) as (bb' & -> & ?); [done..|]. eexists. by eauto with budget.
  - destruct Hg. by eapply lt_acc.
Qed.

Lemma pointer_register st A p i key :
  pointer_holds st A p -> A !! i = None -> pointer_joinable key p -> Z.of_nat (size A) < 2 ^ 62 ->
  exists g p', sb_register key p = inr (g, p') /\ sb_present p' = sb_present p /\
    pointer_holds st (<[i := Account g (bool_decide (g <> None)) 0 0 ∅]> A) p'.
Proof.
  destruct p as [bb|]; intros HA Hi Hj Hsz; simpl in *.
  - destruct (bb_fair bb) eqn:Hf.
    + destruct (fair_register st A bb i key) as (g & bb' & -> & ?); [done|done|by apply Hj|done|]. eexists _, _. split; [done|].
      split; [done|]. by apply pointer_fair.
    + unfold register. rewrite Hf. eexists _, _. split; [done|]. split; [done|]. by apply pointer_legacy, legacy_join.
  - eexists _, _. split; [done|]. split; [done|]. by apply nil_update.
Qed.

Definition budgetPointer_laws (strict : bool) : SharedBudgetLaws (option ByteBudget) := {|
  sb_holds := pointer_holds strict;
  sb_strict := strict;
  sb_joinable := pointer_joinable;
  sb_absent := pointer_absent strict;
  sb_no_group := pointer_no_group strict;
  sb_releaseFor_spec := pointer_releaseFor strict;
  sb_cancel_spec := pointer_cancel strict;
  sb_reserveFor_spec := pointer_reserveFor strict;
  sb_unregister_spec := pointer_unregister strict;
  sb_register_spec := pointer_register strict;
|}.

(** The laws that ask nothing of the callers' escapes are the default. *)
#[export] Instance lenient_laws : SharedBudgetLaws (option ByteBudget) := budgetPointer_laws false.
Abbreviation strict_laws := (budgetPointer_laws true).

(** Fresh budgets have no clients yet. *)
Lemma legacy_empty st total : is_u64 total -> pointer_holds st ∅ (Some (NewByteBudget total)).
Proof.
  intros Ht. apply pointer_legacy. split; [|done|intros *; by rewrite lookup_empty..].
  split; [done|]. split; [done|]. split; [done|].
  split; [|split; [|done]]; intros c [? Hc]; simpl in Hc; by rewrite lookup_empty in Hc.
Qed.

Lemma fair_empty st total o bb :
  is_u64 total -> is_u64 (ReserveBytes o) -> is_u64 (MinGroupBytes o) ->
  NewFairByteBudget total o = Some bb -> pointer_holds st ∅ (Some bb).
Proof.
  intros Ht Hr Hm Hnew. apply pointer_fair. exists (empty_ledger st). split; [done|].
  split; [exact (NewFair_ok st total o bb Ht Hr Hm Hnew)|done|done|done| |intros *; by rewrite lookup_empty|intros *; by rewrite lookup_empty].
  intros w g n. simpl. rewrite lookup_empty. split; [done|]. intros (i & a & Hi & _). by rewrite lookup_empty in Hi.
Qed.

Lemma nil_empty st : pointer_holds st ∅ None.
Proof. intros i a Hi. by rewrite lookup_empty in Hi. Qed.
