(* ===== verification/AckBuffer.v ===== *)
(** * The retransmission buffer (ack_buffer.go, the buffer part of receipt.go)

    One definition per method of [AckBuffer].  Messages, receipt cells, tracked
    admissions and wake channels are heap objects the buffer shares with its
    callers, so slots hold addresses into the stores [ab_msgs], [ab_cells] and
    [ab_chans].  The linked list of tracked admissions is the list of its nodes
    in link order; the delivery cursor is the address of a node.  The shared
    budget is an abstract [SharedBudget].

    Each method body under the lock is one state transformer; [None] is a
    run-time panic (index out of range, nil dereference, close of a closed
    channel, oversized allocation).  The callbacks [onAck] and [onBackPressure]
    do not touch the buffer and are left out. *)

From S2P Require Import Prelude ByteBudget Event Protocol SharedBudget.

Definition pressureStepDivisor : Z := 16.
Definition initialCapacity : Z := 1.

(** ** Go slices, indexed by unsigned integers *)

Section slices.
Context {A : Type}.
Implicit Types (l : list A) (i j : Z).

(** [l[i]] *)
Definition zget l i : option A := if decide (0 <= i) then l !! Z.to_nat i else None.

(** [l[i] = x] *)
Definition zset l i (x : A) : option (list A) :=
  if decide (0 <= i < Z.of_nat (length l)) then Some (<[Z.to_nat i := x]> l) else None.

(** [l[i:j]], within the length *)
Definition zslice l i j : option (list A) :=
  if decide (0 <= i /\ i <= j /\ j <= Z.of_nat (length l))
  then Some (take (Z.to_nat (j - i)) (drop (Z.to_nat i) l)) else None.

(** [copy(dst, src)]: the new contents of [dst] *)
Definition go_copy (dst src : list A) : list A := take (length dst) src ++ drop (length src) dst.
End slices.

(** [clear(l[i:j])] on a slice of pointers *)
Definition zclear {A} (l : list (option A)) (i j : Z) : option (list (option A)) :=
  if decide (0 <= i /\ i <= j /\ j <= Z.of_nat (length l))
  then Some (take (Z.to_nat i) l ++ replicate (Z.to_nat (j - i)) None ++ drop (Z.to_nat j) l) else None.

(** The number of pointers an allocation may hold: 2^48 bytes of address space. *)
Definition max_slots : Z := 35184372088832.

(** [make([]*T, n)] *)
Definition makeslice {A} (n : Z) : option (list (option A)) :=
  if decide (n > max_slots) then None else Some (replicate (Z.to_nat n) None).

(** [float64(n)] for an unsigned [n]: the nearest number with a 53-bit
    significand, ties to even. *)
Definition float64_of (n : Z) : Z :=
  let e := Z.max 0 (Z.log2 n - 52) in
  let q := Z.shiftr n e in
  let r := n - Z.shiftl q e in
  let half := Z.shiftl 1 (e - 1) in
  let q := if decide (e = 0) then q
           else if decide (r < half) then q
           else if decide (half < r) then q + 1
           else if Z.odd q then q + 1 else q in
  Z.shiftl q e.

(** [uint64(float64(n) * 0.5)]: halving is exact, the conversion truncates. *)
Definition ackPercentOf (n : Z) : Z := float64_of n / 2.

(** [int(n)] of an unsigned [n] *)
Definition int_of (n : Z) : Z := if decide (n < 2 ^ 63) then n else n - W64.

(** ** Receipts *)

Inductive ReceiptFrameState :=
  | ReceiptInvalid
  | ReceiptRetained
  | ReceiptAcknowledged
  | ReceiptClosedUnconfirmed
  | ReceiptRetired.
#[export] Instance ReceiptFrameState_eq_dec : EqDecision ReceiptFrameState.
Proof. solve_decision. Defined.

Abbreviation maddr := nat.
Abbreviation cell := nat.

Record trackedAdmission := TrackedAdmission {
  (** the address of the node *)
  te_id : nat;
  te_seq : Z;
  te_state : cell;
  te_max : Z;
  te_sends : Z;
}.
#[export] Instance trackedAdmission_eta : Eta trackedAdmission := fun e =>
  TrackedAdmission (te_id e) (te_seq e) (te_state e) (te_max e) (te_sends e).
#[export] Instance set_te_sends : Setter te_sends := ltac:(make_setter).

(** The node at address [id] and the address of its successor. *)
Fixpoint node_at (id : nat) (l : list trackedAdmission) : option (trackedAdmission * option nat) :=
  match l with
  | [] => None
  | e :: l => if decide (te_id e = id) then Some (e, te_id <$> head l) else node_at id l
  end.

(** A write to the node at address [id]. *)
Fixpoint node_set (id : nat) (f : trackedAdmission -> trackedAdmission) (l : list trackedAdmission) :=
  match l with
  | [] => []
  | e :: l => if decide (te_id e = id) then f e :: l else e :: node_set id f l
  end.

Definition releasedRetiredMemory : Z := 64.

Record releasedRetiredRing := Ring { rr_seqs : list Z; rr_n : Z; rr_next : Z }.

(** [&releasedRetiredRing{}] *)
Definition newRing : releasedRetiredRing := Ring (replicate (Z.to_nat releasedRetiredMemory) 0) 0 0.

Definition ring_add (seq : Z) (r : releasedRetiredRing) : option releasedRetiredRing :=
  seqs ← zset (rr_seqs r) (rr_next r) seq;
  Some (Ring seqs (if decide (rr_n r < releasedRetiredMemory) then rr_n r + 1 else rr_n r)
          ((rr_next r + 1) mod releasedRetiredMemory)).

(** The comparison loop over the first [n] entries. *)
Definition ring_has (seq : Z) (r : releasedRetiredRing) : bool :=
  bool_decide (seq ∈ take (Z.to_nat (rr_n r)) (rr_seqs r)).

(** ** State *)

#[projections(primitive)] Record AckBuffer (B : Type) := MkAckBuffer {
  (** [receiptHead] to [receiptTail] *)
  ab_receipts : list trackedAdmission;
  ab_deliverCursor : option nat;
  ab_retired : gset Z;
  ab_releasedRetired : option releasedRetiredRing;
  ab_isClosed : bool;
  ab_isRunning : bool;
  ab_isAvailable : Event;
  ab_buff : list (option maddr);
  ab_nextIndexFree : Z;
  ab_firstSeqNum : Z;
  ab_nextSeqNum : Z;
  ab_ackEvery : Z;
  ab_nextIndexToDeliver : Z;
  ab_isReadyToDeliver : Event;
  ab_isEmpty : Event;
  ab_currentCapacity : Z;
  ab_accounting : bool;
  ab_maxBytes : Z;
  ab_shared : B;
  ab_group : option gid;
  ab_registered : bool;
  ab_escapeSeq : Z;
  ab_escapeBytes : Z;
  ab_sizes : list Z;
  ab_bytes : Z;
  ab_lastFlaggedSeq : Z;
  ab_bytesSinceFlag : Z;
  ab_wake : option chan;
  (** the objects the buffer shares with its callers, and the next free address *)
  ab_msgs : gmap maddr DataMessage;
  ab_cells : gmap cell ReceiptFrameState;
  ab_chans : gmap chan bool;
  ab_next : nat;
}.

Arguments MkAckBuffer {B}.
Arguments ab_receipts {B}.
Arguments ab_deliverCursor {B}.
Arguments ab_retired {B}.
Arguments ab_releasedRetired {B}.
Arguments ab_isClosed {B}.
Arguments ab_isRunning {B}.
Arguments ab_isAvailable {B}.
Arguments ab_buff {B}.
Arguments ab_nextIndexFree {B}.
Arguments ab_firstSeqNum {B}.
Arguments ab_nextSeqNum {B}.
Arguments ab_ackEvery {B}.
Arguments ab_nextIndexToDeliver {B}.
Arguments ab_isReadyToDeliver {B}.
Arguments ab_isEmpty {B}.
Arguments ab_currentCapacity {B}.
Arguments ab_accounting {B}.
Arguments ab_maxBytes {B}.
Arguments ab_shared {B}.
Arguments ab_group {B}.
Arguments ab_registered {B}.
Arguments ab_escapeSeq {B}.
Arguments ab_escapeBytes {B}.
Arguments ab_sizes {B}.
Arguments ab_bytes {B}.
Arguments ab_lastFlaggedSeq {B}.
Arguments ab_bytesSinceFlag {B}.
Arguments ab_wake {B}.
Arguments ab_msgs {B}.
Arguments ab_cells {B}.
Arguments ab_chans {B}.
Arguments ab_next {B}.

Section setters.
Context {B : Type}.
#[global] Instance AckBuffer_eta : Eta (AckBuffer B) := fun b =>
  MkAckBuffer (ab_receipts b) (ab_deliverCursor b) (ab_retired b) (ab_releasedRetired b) (ab_isClosed b)
    (ab_isRunning b) (ab_isAvailable b) (ab_buff b) (ab_nextIndexFree b) (ab_firstSeqNum b) (ab_nextSeqNum b)
    (ab_ackEvery b) (ab_nextIndexToDeliver b) (ab_isReadyToDeliver b) (ab_isEmpty b) (ab_currentCapacity b)
    (ab_accounting b) (ab_maxBytes b) (ab_shared b) (ab_group b) (ab_registered b) (ab_escapeSeq b)
    (ab_escapeBytes b) (ab_sizes b) (ab_bytes b) (ab_lastFlaggedSeq b) (ab_bytesSinceFlag b) (ab_wake b)
    (ab_msgs b) (ab_cells b) (ab_chans b) (ab_next b).
#[global] Instance set_ab_receipts : Setter (@ab_receipts B) := ltac:(make_setter).
#[global] Instance set_ab_deliverCursor : Setter (@ab_deliverCursor B) := ltac:(make_setter).
#[global] Instance set_ab_retired : Setter (@ab_retired B) := ltac:(make_setter).
#[global] Instance set_ab_releasedRetired : Setter (@ab_releasedRetired B) := ltac:(make_setter).
#[global] Instance set_ab_isClosed : Setter (@ab_isClosed B) := ltac:(make_setter).
#[global] Instance set_ab_isRunning : Setter (@ab_isRunning B) := ltac:(make_setter).
#[global] Instance set_ab_isAvailable : Setter (@ab_isAvailable B) := ltac:(make_setter).
#[global] Instance set_ab_buff : Setter (@ab_buff B) := ltac:(make_setter).
#[global] Instance set_ab_nextIndexFree : Setter (@ab_nextIndexFree B) := ltac:(make_setter).
#[global] Instance set_ab_firstSeqNum : Setter (@ab_firstSeqNum B) := ltac:(make_setter).
#[global] Instance set_ab_nextSeqNum : Setter (@ab_nextSeqNum B) := ltac:(make_setter).
#[global] Instance set_ab_ackEvery : Setter (@ab_ackEvery B) := ltac:(make_setter).
#[global] Instance set_ab_nextIndexToDeliver : Setter (@ab_nextIndexToDeliver B) := ltac:(make_setter).
#[global] Instance set_ab_isReadyToDeliver : Setter (@ab_isReadyToDeliver B) := ltac:(make_setter).
#[global] Instance set_ab_isEmpty : Setter (@ab_isEmpty B) := ltac:(make_setter).
#[global] Instance set_ab_currentCapacity : Setter (@ab_currentCapacity B) := ltac:(make_setter).
#[global] Instance set_ab_shared : Setter (@ab_shared B) := ltac:(make_setter).
#[global] Instance set_ab_registered : Setter (@ab_registered B) := ltac:(make_setter).
#[global] Instance set_ab_escapeSeq : Setter (@ab_escapeSeq B) := ltac:(make_setter).
#[global] Instance set_ab_escapeBytes : Setter (@ab_escapeBytes B) := ltac:(make_setter).
#[global] Instance set_ab_sizes : Setter (@ab_sizes B) := ltac:(make_setter).
#[global] Instance set_ab_bytes : Setter (@ab_bytes B) := ltac:(make_setter).
#[global] Instance set_ab_lastFlaggedSeq : Setter (@ab_lastFlaggedSeq B) := ltac:(make_setter).
#[global] Instance set_ab_bytesSinceFlag : Setter (@ab_bytesSinceFlag B) := ltac:(make_setter).
#[global] Instance set_ab_wake : Setter (@ab_wake B) := ltac:(make_setter).
#[global] Instance set_ab_msgs : Setter (@ab_msgs B) := ltac:(make_setter).
#[global] Instance set_ab_cells : Setter (@ab_cells B) := ltac:(make_setter).
#[global] Instance set_ab_chans : Setter (@ab_chans B) := ltac:(make_setter).
#[global] Instance set_ab_next : Setter (@ab_next B) := ltac:(make_setter).
End setters.

(** ** Errors *)

(** [ErrorContext] is the error of the caller's context. *)
Inductive usp_error := ErrorBufferFull | ErrorClosed | ErrorContext.

Inductive ack_error :=
  | UnexpectedSeq (seq : Z)
  | NotInBuffer (seq : Z)
  | NotDelivered (seq index nextSeq nextIndex : Z).

Record DrainError := MkDrainError { Unacked : Z; FirstSeq : Z; LastSeq : Z; Err : usp_error }.

Record AckBufferOptions (B : Type) := MkAckBufferOptions {
  MaxBytes : Z;
  opt_SharedBudget : B;
  BudgetGroup : string;
}.
Arguments MkAckBufferOptions {B}.
Arguments MaxBytes {B}.
Arguments opt_SharedBudget {B}.
Arguments BudgetGroup {B}.

(** ** Operations *)

Section operations.
Context {B : Type} `{SharedBudget B}.
Implicit Types (b : AckBuffer B).

(** *** Construction and shutdown *)

Definition NewAckBuffer (o : AckBufferOptions B) : option (unit + AckBuffer B) :=
  match sb_register (BudgetGroup o) (opt_SharedBudget o) with
  | inl e => Some (inl e)
  | inr (group, shared) =>
      buff ← makeslice initialCapacity;
      isAvailable ← Set_ NewEvent;
      isEmpty ← Set_ NewEvent;
      Some (inr (MkAckBuffer [] None ∅ None false true isAvailable buff 0 1 1 initialCapacity 0 NewEvent isEmpty
        initialCapacity (bool_decide (MaxBytes o <> 0) || sb_present (opt_SharedBudget o)) (MaxBytes o) shared group
        (bool_decide (group <> None)) 0 0 [] 0 0 0 None ∅ ∅ ∅ 0))
  end.

Definition GetEmptyEvent b : Event := ab_isEmpty b.

Definition signalLocked b : option (AckBuffer B) :=
  match ab_wake b with
  | Some c =>
      closed ← ab_chans b !! c;
      if (closed : bool) then None else Some (b <| ab_chans ::= <[c := true]> |> <| ab_wake := None |>)
  | None => Some b
  end.

(** [b.shared.releaseFor(n, escape, b.group)] *)
Definition releaseShared (n escape : Z) b : option (AckBuffer B) :=
  s ← sb_releaseFor n escape (ab_group b) (ab_shared b);
  Some (b <| ab_shared := s |>).

(** [b.shared.cancel(waiter)] *)
Definition cancelShared (w : option wid) b : option (AckBuffer B) :=
  s ← sb_cancel w (ab_shared b);
  Some (b <| ab_shared := s |>).

Definition releaseAllLocked b : option (AckBuffer B) :=
  if decide (ab_bytes b <> 0) then
    b ← releaseShared (ab_bytes b) (ab_escapeBytes b) b;
    Some (b <| ab_escapeBytes := 0 |> <| ab_bytes := 0 |>)
  else Some b.

Definition Close b : option (AckBuffer B) :=
  let b := b <| ab_isRunning := false |> <| ab_isClosed := true |> in
  b ← releaseAllLocked b;
  b ← (if ab_registered b then
         s ← sb_unregister (ab_group b) (ab_shared b);
         Some (b <| ab_shared := s |> <| ab_registered := false |>)
       else Some b);
  signalLocked b.

(** [if b.wake == nil { b.wake = make(chan struct{}) }] and the sample of it *)
Definition sampleWake b : chan * AckBuffer B :=
  match ab_wake b with
  | Some c => (c, b)
  | None => (ab_next b, b <| ab_chans ::= <[ab_next b := false]> |> <| ab_wake := Some (ab_next b) |> <| ab_next ::= S |>)
  end.

(** The pointed-to message of a slot. *)
Definition message_at b (i : Z) : option DataMessage :=
  slot ← zget (ab_buff b) i;
  a ← slot;
  ab_msgs b !! a.

(** [_, retired := b.retired[b.firstSeqNum+i]] *)
Definition retired_at b (i : Z) : bool := bool_decide (add64 (ab_firstSeqNum b) i ∈ ab_retired b).

Fixpoint firstLive (fuel : nat) b (first last : Z) : Z :=
  match fuel with
  | O => first
  | S fuel => if decide (first < last) then if retired_at b first then firstLive fuel b (first + 1) last else first
              else first
  end.

Fixpoint lastLive (fuel : nat) b (first last : Z) : Z :=
  match fuel with
  | O => last
  | S fuel => if decide (last > first) then if retired_at b last then lastLive fuel b first (last - 1) else last
              else last
  end.

(** Both loops run at most [nextIndexFree] times. *)
Definition liveSeqBoundsLocked b : option (Z * Z) :=
  let fuel := Z.to_nat (ab_nextIndexFree b) in
  let last := sub64 (ab_nextIndexFree b) 1 in
  let '(first, last) :=
    if decide (size (ab_retired b) <> 0%nat)
    then let first := firstLive fuel b 0 last in (first, lastLive fuel b first last)
    else (0, last) in
  m1 ← message_at b first;
  m2 ← message_at b last;
  Some (SeqNum m1, SeqNum m2).

Inductive drain_outcome := DrainDone | DrainFailed (e : DrainError) | DrainWait (wake : chan).

(** The entry of [drain]: admission is sealed. *)
Definition drain_start b : option (AckBuffer B) := signalLocked (b <| ab_isRunning := false |>).

(** One turn of the loop of [drain]; [done] says that the context ended. *)
Definition drain_turn (done : bool) b : option (drain_outcome * AckBuffer B) :=
  if decide (ab_nextIndexFree b = 0) then Some (DrainDone, b)
  else
    let err := if ab_isClosed b then Some ErrorClosed else if done then Some ErrorContext else None in
    match err with
    | Some err =>
        '(first, last) ← liveSeqBoundsLocked b;
        Some (DrainFailed (MkDrainError (int_of (ab_nextIndexFree b) - Z.of_nat (size (ab_retired b))) first last err), b)
    | None => let '(wake, b) := sampleWake b in Some (DrainWait wake, b)
    end.

Definition BufferedBytes b : Z := ab_bytes b.

(** *** Admission *)

(** Whether an unacked message that carries [AckRequested] is held. *)
Definition heldFlagged b : bool :=
  bool_decide (ab_lastFlaggedSeq b <> 0 /\ ab_lastFlaggedSeq b >= ab_firstSeqNum b).

(** The byte limits of [tryAddWithReceiptLocked].  [inl w] is a refusal that leaves the waiter
    [w]; [inr (forced, pressureStep)] admits. *)
Definition admitBytes (size : Z) (waiter : option wid) b : option ((option wid + bool * Z) * AckBuffer B) :=
  let over := bool_decide (ab_maxBytes b <> 0 /\ add64 (ab_bytes b) size > ab_maxBytes b) in
  if over && heldFlagged b then
    b ← cancelShared waiter b;
    Some (inl None, b)
  else
    let pressureStep :=
      if decide (ab_maxBytes b <> 0 /\ mul64 2 (add64 (ab_bytes b) size) >= ab_maxBytes b)
      then ab_maxBytes b / pressureStepDivisor else 0 in
    if sb_present (ab_shared b) then
      '(r, s) ← sb_reserveFor size (negb (heldFlagged b)) (ab_group b) waiter (ab_shared b);
      let b := b <| ab_shared := s |> in
      if r_ok r then
        let b := if r_overshot r && bool_decide (ab_group b <> None)
                 then b <| ab_escapeSeq := ab_nextSeqNum b |> <| ab_escapeBytes := size |> else b in
        let total := sb_Total (ab_shared b) in
        let step := total / pressureStepDivisor in
        let pressureStep :=
          if decide (total <> 0 /\ mul64 2 (r_used r) >= total)
          then if decide (pressureStep = 0 \/ step < pressureStep) then step else pressureStep
          else pressureStep in
        Some (inr (over || r_overshot r, pressureStep), b)
      else Some (inl (r_waiter r), b)
    else Some (inr (over, pressureStep), b).

(** The sequence number and the ACK request. *)
Definition stampMessage (e : maddr) (size : Z) (forced : bool) (pressureStep : Z) b : option (AckBuffer B) :=
  m ← ab_msgs b !! e;
  let m := m <| SeqNum := ab_nextSeqNum b |> in
  let b := b <| ab_nextSeqNum ::= fun n => add64 n 1 |> in
  let m := if bool_decide (SeqNum m mod ab_ackEvery b = 0) || forced ||
              bool_decide (pressureStep <> 0 /\ add64 (ab_bytesSinceFlag b) size >= pressureStep)
           then m <| AckRequested := true |> else m in
  let b := b <| ab_msgs ::= <[e := m]> |> in
  Some (if AckRequested m then b <| ab_lastFlaggedSeq := SeqNum m |> <| ab_bytesSinceFlag := 0 |>
        else if ab_accounting b then b <| ab_bytesSinceFlag ::= fun n => add64 n size |> else b).

(** The receipt, if the caller asked for one. *)
Definition trackMessage (seq : Z) (receipt : option cell) (maxTransmissions : Z) b : AckBuffer B :=
  match receipt with
  | Some cell =>
      let id := ab_next b in
      b <| ab_receipts := ab_receipts b ++ [TrackedAdmission id seq cell maxTransmissions 0] |>
        <| ab_deliverCursor := match ab_deliverCursor b with None => Some id | c => c end |>
        <| ab_cells ::= <[cell := ReceiptRetained]> |> <| ab_next ::= S |>
  | None => b
  end.

(** The slot, the byte charge and the events. *)
Definition storeMessage (e : maddr) (size : Z) b : option (AckBuffer B) :=
  buff ← zset (ab_buff b) (ab_nextIndexFree b) (Some e);
  let b := b <| ab_buff := buff |> <| ab_nextIndexFree ::= fun n => add64 n 1 |> in
  let b := if ab_accounting b
           then b <| ab_sizes := ab_sizes b ++ [size] |> <| ab_bytes := add64 (ab_bytes b) size |> else b in
  let b := if decide (ab_nextIndexFree b >= ab_currentCapacity b)
           then b <| ab_isAvailable ::= Clear |> else b in
  ready ← Set_ (ab_isReadyToDeliver b);
  Some (b <| ab_isReadyToDeliver := ready |> <| ab_isEmpty ::= Clear |>).

Definition tryAddWithReceiptLocked (e : maddr) (size : Z) (waiter : option wid) (receipt : option cell)
    (maxTransmissions : Z) b : option (bool * option wid * AckBuffer B) :=
  if negb (IsSet (ab_isAvailable b)) then
    b ← cancelShared waiter b;
    Some (false, None, b)
  else
    '(adm, b) ← (if ab_accounting b then admitBytes size waiter b else Some (inr (false, 0), b));
    match adm with
    | inl waiter => Some (false, waiter, b)
    | inr (forced, pressureStep) =>
        let seq := ab_nextSeqNum b in
        b ← stampMessage e size forced pressureStep b;
        let b := trackMessage seq receipt maxTransmissions b in
        b ← storeMessage e size b;
        Some (true, None, b)
    end.

Definition tryAddLocked (e : maddr) (size : Z) (waiter : option wid) b : option (bool * option wid * AckBuffer B) :=
  tryAddWithReceiptLocked e size waiter None 0 b.

Definition timeoutErr b : usp_error := if ab_isRunning b then ErrorBufferFull else ErrorClosed.

(** What [addWithReceipt] charges for [e]. *)
Definition addSize (h : jheap) (m : DataMessage) b : Z := if ab_accounting b then estimateMessageSize h m else 0.

(** One turn of the loop of [addWithReceipt]: it returns with an error or
    success, or blocks on the local wake channel and, when it waits on the pool,
    on the channel of its waiter. *)
Inductive add_outcome := AddReturn (err : option usp_error) | AddBlock (localWake : chan).

Definition add_turn (e : maddr) (size : Z) (waiter : option wid) (receipt : option cell) (maxTransmissions : Z) b
    : option (add_outcome * option wid * AckBuffer B) :=
  if negb (ab_isRunning b) then Some (AddReturn (Some ErrorClosed), waiter, b)
  else
    '(ok, waiter, b) ← tryAddWithReceiptLocked e size waiter receipt maxTransmissions b;
    if (ok : bool) then Some (AddReturn None, waiter, b)
    else let '(localWake, b) := sampleWake b in Some (AddBlock localWake, waiter, b).

(** *** Removal *)

(** Detaches the tracked entries of a removed prefix: the remaining entries,
    whether the cursor was removed, and the cells. *)
Fixpoint dropEntries (first index : Z) (acknowledge : bool) (cursor : option nat) (l : list trackedAdmission)
    (cells : gmap cell ReceiptFrameState) : list trackedAdmission * bool * gmap cell ReceiptFrameState :=
  match l with
  | [] => ([], false, cells)
  | e :: l =>
      if decide (sub64 (te_seq e) first <= index) then
        let cells := if acknowledge && bool_decide (cells !! te_state e = Some ReceiptRetained)
                     then <[te_state e := ReceiptAcknowledged]> cells else cells in
        let '(l, removed, cells) := dropEntries first index acknowledge cursor l cells in
        (l, bool_decide (cursor = Some (te_id e)) || removed, cells)
      else (e :: l, false, cells)
  end.

Definition dropReceiptsLocked (first index : Z) (acknowledge : bool) b : AckBuffer B :=
  let '(l, cursorRemoved, cells) :=
    dropEntries first index acknowledge (ab_deliverCursor b) (ab_receipts b) (ab_cells b) in
  let b := b <| ab_receipts := l |> <| ab_cells := cells |> in
  if (cursorRemoved : bool) then b <| ab_deliverCursor := te_id <$> head l |> else b.

Definition ackReceiptsLocked (first index : Z) b : AckBuffer B := dropReceiptsLocked first index true b.

Definition releaseReceiptTracking b : AckBuffer B := b <| ab_receipts := [] |> <| ab_deliverCursor := None |>.

(** The reallocation of [sizes] keeps its contents. *)
Definition shrinkBackingLocked b : option (AckBuffer B) :=
  let target := Z.max (ab_currentCapacity b) (Z.max (ab_nextIndexFree b) initialCapacity) in
  if decide (Z.of_nat (length (ab_buff b)) > target) then
    buffer ← makeslice target;
    src ← zslice (ab_buff b) 0 (ab_nextIndexFree b);
    Some (b <| ab_buff := go_copy buffer src |>)
  else Some b.

(** The byte charges of the removed slots. *)
Definition releasePrefix (indexAcked escapeIndex : Z) b : option (AckBuffer B) :=
  if ab_accounting b then
    removed ← zslice (ab_sizes b) 0 (add64 indexAcked 1);
    rest ← zslice (ab_sizes b) (add64 indexAcked 1) (Z.of_nat (length (ab_sizes b)));
    let freed := foldl add64 0 removed in
    let b := b <| ab_sizes := rest |> in
    let freed := if decide (freed > ab_bytes b) then ab_bytes b else freed in
    let b := b <| ab_bytes := sub64 (ab_bytes b) freed |> in
    if decide (ab_escapeBytes b <> 0 /\ escapeIndex <= indexAcked)
    then releaseShared freed (ab_escapeBytes b) (b <| ab_escapeBytes := 0 |>)
    else releaseShared freed 0 b
  else Some b.

Definition removePrefixLocked (indexAcked : Z) b : option (AckBuffer B) :=
  let oldFirst := ab_firstSeqNum b in
  let escapeIndex := sub64 (ab_escapeSeq b) oldFirst in
  let b := b <| ab_firstSeqNum := add64 (add64 oldFirst indexAcked) 1 |> in
  b ← releasePrefix indexAcked escapeIndex b;
  let oldFree := ab_nextIndexFree b in
  src ← zslice (ab_buff b) (add64 indexAcked 1) oldFree;
  let b := b <| ab_buff := go_copy (ab_buff b) src |>
             <| ab_nextIndexFree := sub64 (sub64 oldFree indexAcked) 1 |> in
  buff ← zclear (ab_buff b) (ab_nextIndexFree b) oldFree;
  let b := b <| ab_buff := buff |> in
  b ← (if decide (ab_nextIndexFree b <= ab_currentCapacity b) then shrinkBackingLocked b else Some b);
  avail ← (if decide (ab_nextIndexFree b < ab_currentCapacity b)
           then Set_ (ab_isAvailable b) else Some (Clear (ab_isAvailable b)));
  b ← signalLocked (b <| ab_isAvailable := avail |>);
  let b := if decide (ab_nextIndexToDeliver b > add64 indexAcked 1)
           then b <| ab_nextIndexToDeliver := sub64 (ab_nextIndexToDeliver b) (add64 indexAcked 1) |>
           else b <| ab_nextIndexToDeliver := 0 |> in
  b ← (if decide (ab_nextIndexToDeliver b >= ab_nextIndexFree b) then
         empty ← Set_ (ab_isEmpty b);
         Some (b <| ab_isReadyToDeliver ::= Clear |> <| ab_isEmpty := empty |>)
       else Some b);
  Some (b <| ab_retired ::= filter (fun seq => ~ sub64 seq oldFirst <= indexAcked) |>).

(** Adds the [n] sequence numbers from [seq] on to the ring. *)
Fixpoint ring_add_from (n : nat) (seq : Z) (r : releasedRetiredRing) : option releasedRetiredRing :=
  match n with
  | O => Some r
  | S n => r ← ring_add seq r; ring_add_from n (add64 seq 1) r
  end.

(** The number of retired slots from index [i] on; at most [nextIndexFree]. *)
Fixpoint retiredRun (fuel : nat) b (i : Z) : Z :=
  match fuel with
  | O => 0
  | S fuel => if decide (i < ab_nextIndexFree b) then if retired_at b i then 1 + retiredRun fuel b (i + 1) else 0
              else 0
  end.

Definition releaseRetiredHeadLocked b : option (AckBuffer B) :=
  if decide (size (ab_retired b) = 0%nat) then Some b
  else
    let n := retiredRun (Z.to_nat (ab_nextIndexFree b)) b 0 in
    if decide (n = 0) then Some b
    else
      let oldFirst := ab_firstSeqNum b in
      ring ← ring_add_from (Z.to_nat n) oldFirst (default newRing (ab_releasedRetired b));
      b ← removePrefixLocked (n - 1) (b <| ab_releasedRetired := Some ring |>);
      Some (dropReceiptsLocked oldFirst (n - 1) false b).

(** The checks of [Ack]. *)
Definition ackCheck (seq : Z) b : option ack_error :=
  let len := Z.of_nat (length (ab_buff b)) in
  let indexAcked := sub64 seq (ab_firstSeqNum b) in
  if decide (seq < ab_firstSeqNum b /\ sub64 len (sub64 maxUint64 (ab_firstSeqNum b)) <= seq)
  then Some (UnexpectedSeq seq)
  else if decide (seq >= ab_nextSeqNum b /\ seq <> maxUint64 /\ ab_nextSeqNum b <> 0)
  then Some (UnexpectedSeq seq)
  else if decide (indexAcked >= len \/ indexAcked >= ab_nextIndexFree b)
  then Some (NotInBuffer seq)
  else if decide (indexAcked >= ab_nextIndexToDeliver b /\
                  ~ (ab_nextIndexToDeliver b = 0 /\ indexAcked = 0))
  then
    let nextSeq :=
      if decide (ab_nextIndexToDeliver b < len)
      then default 0 (SeqNum <$> message_at b (ab_nextIndexToDeliver b)) else 0 in
    Some (NotDelivered seq indexAcked nextSeq (ab_nextIndexToDeliver b))
  else None.

Definition Ack (seq : Z) b : option (option ack_error * AckBuffer B) :=
  if match ab_releasedRetired b with
     | Some r => bool_decide (sub64 seq (ab_firstSeqNum b) >= ab_nextIndexFree b) && ring_has seq r
     | None => false
     end
  then Some (None, b)
  else
    match ackCheck seq b with
    | Some e => Some (Some e, b)
    | None =>
        let indexAcked := sub64 seq (ab_firstSeqNum b) in
        let oldFirst := ab_firstSeqNum b in
        b ← removePrefixLocked indexAcked b;
        b ← releaseRetiredHeadLocked (ackReceiptsLocked oldFirst indexAcked b);
        Some (None, b)
    end.

(** *** Reading *)

(** The loop of [GetUnAcked] from index [i] on. *)
Fixpoint collectLive (fuel : nat) b (i : Z) : option (list (option maddr)) :=
  match fuel with
  | O => Some []
  | S fuel =>
      if decide (i < ab_nextIndexFree b) then
        if retired_at b i then collectLive fuel b (i + 1)
        else slot ← zget (ab_buff b) i; rest ← collectLive fuel b (i + 1); Some (slot :: rest)
      else Some []
  end.

Definition GetUnAcked b : option (list (option maddr)) :=
  if decide (size (ab_retired b) = 0%nat) then
    out ← makeslice (ab_nextIndexFree b);
    src ← zslice (ab_buff b) 0 (ab_nextIndexFree b);
    Some (go_copy out src)
  else
    _ ← makeslice (A := maddr) (sub64 (ab_nextIndexFree b) (Z.of_nat (size (ab_retired b))));
    collectLive (Z.to_nat (ab_nextIndexFree b)) b 0.

(** *** Delivery *)

Definition onlyRetiredAfterLocked (index : Z) b : bool :=
  if decide (size (ab_retired b) = 0%nat) then bool_decide (add64 index 1 = ab_nextIndexFree b)
  else
    let rest := retiredRun (Z.to_nat (ab_nextIndexFree b)) b (index + 1) in
    bool_decide (index + 1 + rest >= ab_nextIndexFree b).

Definition retireLocked (index : Z) (entry : trackedAdmission) b : option (AckBuffer B) :=
  let seq := te_seq entry in
  let b := b <| ab_cells ::= <[te_state entry := ReceiptRetired]> |> in
  buff ← zset (ab_buff b) index (Some (ab_next b));
  let b := b <| ab_buff := buff |> <| ab_msgs ::= <[ab_next b := placeholder seq]> |> <| ab_next ::= S |>
             <| ab_retired ::= union {[seq]} |> in
  b ← (if ab_accounting b && bool_decide (index < Z.of_nat (length (ab_sizes b))) then
         size ← zget (ab_sizes b) index;
         sizes ← zset (ab_sizes b) index 0;
         let size := if decide (size > ab_bytes b) then ab_bytes b else size in
         let b := b <| ab_sizes := sizes |> <| ab_bytes := sub64 (ab_bytes b) size |> in
         if decide (ab_escapeBytes b <> 0 /\ ab_escapeSeq b = seq)
         then releaseShared size (ab_escapeBytes b) (b <| ab_escapeBytes := 0 |>)
         else releaseShared size 0 b
       else Some b);
  let b := if decide (ab_lastFlaggedSeq b = seq) then b <| ab_lastFlaggedSeq := 0 |> else b in
  signalLocked b.

(** The tracked entry the cursor points to when it is that of slot [index]; the
    cursor then moves on. *)
Definition takeCursor (index : Z) b : option (option trackedAdmission * AckBuffer B) :=
  match ab_deliverCursor b with
  | None => Some (None, b)
  | Some c =>
      '(e, next) ← node_at c (ab_receipts b);
      if decide (sub64 (te_seq e) (ab_firstSeqNum b) = index)
      then Some (Some e, b <| ab_deliverCursor := next |>) else Some (None, b)
  end.

Definition noneReady b : option (AckBuffer B) :=
  empty ← Set_ (ab_isEmpty b);
  Some (b <| ab_isReadyToDeliver ::= Clear |> <| ab_isEmpty := empty |>).

(** The hand-over of slot [index]. *)
Definition handOver (index : Z) (entry : option trackedAdmission) b : option (option maddr * AckBuffer B) :=
  let b := match entry with
           | Some e => if decide (te_max e <> 0)
                       then b <| ab_receipts ::= node_set (te_id e) (fun e => e <| te_sends := (te_sends e + 1) mod 2 ^ 32 |>) |> else b
           | None => b
           end in
  n ← zget (ab_buff b) index;
  '(n, b) ←
    (if negb (ab_isRunning b) && onlyRetiredAfterLocked index b then
       a ← n;
       m ← ab_msgs b !! a;
       Some (Some (ab_next b), b <| ab_msgs ::= <[ab_next b := m <| AckRequested := true |>]> |> <| ab_next ::= S |>)
     else Some (n, b));
  let b := b <| ab_nextIndexToDeliver ::= fun n => add64 n 1 |> in
  b ← (if decide (ab_nextIndexToDeliver b >= ab_nextIndexFree b) then noneReady b else Some b);
  Some (n, b).

(** One turn of the delivery loop: [inl] goes on, [inr] returns. *)
Definition deliver_turn b : option (AckBuffer B + option maddr * AckBuffer B) :=
  if decide (ab_nextIndexToDeliver b < ab_nextIndexFree b) then
    let index := ab_nextIndexToDeliver b in
    '(entry, b) ← takeCursor index b;
    if retired_at b index then Some (inl (b <| ab_nextIndexToDeliver ::= fun n => add64 n 1 |>))
    else
      match entry with
      | Some e =>
          if decide (te_max e <> 0 /\ te_sends e >= te_max e) then
            b ← retireLocked index e b;
            let b := b <| ab_nextIndexToDeliver ::= fun n => add64 n 1 |> in
            b ← releaseRetiredHeadLocked b;
            Some (inl b)
          else r ← handOver index entry b; Some (inr r)
      | None => r ← handOver index entry b; Some (inr r)
      end
  else b ← noneReady b; Some (inr (None, b)).

(** [GetNextToDeliver] once [isReadyToDeliver] was set; each turn that goes on
    leaves fewer slots to deliver. *)
Definition GetNextToDeliver b : option (option maddr * AckBuffer B) :=
  if negb (IsSet (ab_isReadyToDeliver b)) then Some (None, b)
  else fuel_loop (S (Z.to_nat (ab_nextIndexFree b - ab_nextIndexToDeliver b))) deliver_turn b.

(** The body of the loop of [ResetDelivery]. *)
Definition retireExhausted (entry : trackedAdmission) b : option (AckBuffer B) :=
  if decide (te_max entry = 0 \/ te_sends entry < te_max entry) then Some b
  else if decide (te_seq entry ∈ ab_retired b) then Some b
  else retireLocked (sub64 (te_seq entry) (ab_firstSeqNum b)) entry b.

Fixpoint retireAll (l : list trackedAdmission) b : option (AckBuffer B) :=
  match l with
  | [] => Some b
  | e :: l => b ← retireExhausted e b; retireAll l b
  end.

Definition ResetDelivery b : option (AckBuffer B) :=
  let b := b <| ab_nextIndexToDeliver := 0 |> <| ab_deliverCursor := te_id <$> head (ab_receipts b) |> in
  b ← retireAll (ab_receipts b) b;
  b ← releaseRetiredHeadLocked b;
  if decide (ab_nextIndexToDeliver b >= ab_nextIndexFree b) then noneReady b
  else
    ready ← Set_ (ab_isReadyToDeliver b);
    Some (b <| ab_isReadyToDeliver := ready |> <| ab_isEmpty ::= Clear |>).

(** *** Window *)

Definition GetCurrentCapacity b : Z := ab_currentCapacity b.

Definition UpdateCapacity (newCapacity : Z) b : option (AckBuffer B) :=
  if decide (newCapacity = ab_currentCapacity b) then Some b
  else
    b ← (if decide (Z.of_nat (length (ab_buff b)) < newCapacity) then
           newBuff ← makeslice newCapacity;
           Some (b <| ab_buff := go_copy newBuff (ab_buff b) |>)
         else Some b);
    b ← shrinkBackingLocked (b <| ab_currentCapacity := newCapacity |>);
    avail ← (if decide (ab_nextIndexFree b < newCapacity)
             then Set_ (ab_isAvailable b) else Some (Clear (ab_isAvailable b)));
    b ← signalLocked (b <| ab_isAvailable := avail |>);
    let every := ackPercentOf newCapacity in
    Some (b <| ab_ackEvery := if decide (every = 0) then 1 else every |>).
End operations.

#[global] Arguments zget : simpl never.
#[global] Arguments zset : simpl never.
#[global] Arguments zslice : simpl never.
#[global] Arguments zclear : simpl never.
#[global] Arguments makeslice : simpl never.
#[global] Arguments go_copy : simpl never.
#[global] Arguments message_at : simpl never.
#[global] Arguments retired_at : simpl never.
#[global] Arguments signalLocked : simpl never.
#[global] Arguments releaseShared : simpl never.
#[global] Arguments cancelShared : simpl never.
#[global] Arguments releaseAllLocked : simpl never.
#[global] Arguments sampleWake : simpl never.
#[global] Arguments heldFlagged : simpl never.
#[global] Arguments admitBytes : simpl never.
#[global] Arguments stampMessage : simpl never.
#[global] Arguments trackMessage : simpl never.
#[global] Arguments storeMessage : simpl never.
#[global] Arguments tryAddWithReceiptLocked : simpl never.
#[global] Arguments dropReceiptsLocked : simpl never.
#[global] Arguments shrinkBackingLocked : simpl never.
#[global] Arguments releasePrefix : simpl never.
#[global] Arguments removePrefixLocked : simpl never.
#[global] Arguments releaseRetiredHeadLocked : simpl never.
#[global] Arguments ackCheck : simpl never.
#[global] Arguments Ack : simpl never.
#[global] Arguments retireLocked : simpl never.
#[global] Arguments takeCursor : simpl never.
#[global] Arguments noneReady : simpl never.
#[global] Arguments handOver : simpl never.
#[global] Arguments deliver_turn : simpl never.
#[global] Arguments GetNextToDeliver : simpl never.
#[global] Arguments retireExhausted : simpl never.
#[global] Arguments ResetDelivery : simpl never.
#[global] Arguments UpdateCapacity : simpl never.
