(* ===== verification/AckInv.v ===== *)
(** * The invariant of the retransmission buffer

    [buf_ok ms b] says that the buffer [b] holds exactly the messages [ms], in
    sequence order: slots, counters, events, byte accounting, receipts, retired
    slots and the wake channel agree with that window. *)

From S2P Require Import Prelude ByteBudget Event Protocol SharedBudget AckBuffer.

(** ** Slices *)

Section slices.
Context {A : Type}.
Implicit Types (l : list A).

Lemma zget_Some l i x : zget l i = Some x <-> 0 <= i /\ l !! Z.to_nat i = Some x.
Proof. unfold zget. case_decide; [tauto|]. split; [done|lia]. Qed.

Lemma zget_lt l i x : zget l i = Some x -> 0 <= i < Z.of_nat (length l).
Proof. intros [? Hl%lookup_lt_Some]%zget_Some. lia. Qed.

Lemma zget_nat l (i : nat) : zget l (Z.of_nat i) = l !! i.
Proof. unfold zget. rewrite decide_True by lia. by rewrite Nat2Z.id. Qed.

Lemma zget_is_Some l i : 0 <= i < Z.of_nat (length l) -> is_Some (zget l i).
Proof. intros ?. unfold zget. rewrite decide_True by lia. apply lookup_lt_is_Some_2. lia. Qed.

Lemma zset_Some l i x : 0 <= i < Z.of_nat (length l) -> zset l i x = Some (<[Z.to_nat i := x]> l).
Proof. intros. unfold zset. by rewrite decide_True. Qed.

Lemma zslice_prefix l n : (n <= length l)%nat -> zslice l 0 (Z.of_nat n) = Some (take n l).
Proof. intros. unfold zslice. rewrite decide_True by lia. by rewrite Z.sub_0_r, Nat2Z.id, drop_0. Qed.

Lemma zslice_range l (i j : nat) : (i <= j <= length l)%nat ->
  zslice l (Z.of_nat i) (Z.of_nat j) = Some (take (j - i) (drop i l)).
Proof.
  intros. unfold zslice. rewrite decide_True by lia. rewrite Nat2Z.id. do 2 f_equal. lia.
Qed.

Lemma go_copy_short (dst src : list A) : (length src <= length dst)%nat -> go_copy dst src = src ++ drop (length src) dst.
Proof. intros. unfold go_copy. by rewrite take_ge. Qed.
End slices.

(** A slice of pointers: the live prefix, then nil. *)
Definition slots (ms : list maddr) (len : nat) : list (option maddr) :=
  (Some <$> ms) ++ replicate (len - length ms) None.

Section slots.
Implicit Types (ms : list maddr) (len : nat).

Lemma slots_length ms len : (length ms <= len)%nat -> length (slots ms len) = len.
Proof. intros. unfold slots. rewrite length_app, length_fmap, length_replicate. lia. Qed.

Lemma slots_get ms len i a : ms !! i = Some a -> zget (slots ms len) (Z.of_nat i) = Some (Some a).
Proof.
  intros Hi. rewrite zget_nat. unfold slots. rewrite lookup_app_l; [by rewrite list_lookup_fmap, Hi|].
  rewrite length_fmap. by eapply lookup_lt_Some.
Qed.

Lemma slots_set ms len i a : (i < length ms)%nat -> <[i := Some a]> (slots ms len) = slots (<[i := a]> ms) len.
Proof. intros. unfold slots. rewrite insert_app_l by (by rewrite length_fmap). by rewrite list_fmap_insert, length_insert. Qed.

Lemma slots_push ms len a :
  (length ms < len)%nat -> <[length ms := Some a]> (slots ms len) = slots (ms ++ [a]) len.
Proof.
  intros. unfold slots. rewrite insert_app_r_alt by (by rewrite length_fmap). rewrite length_fmap, Nat.sub_diag.
  rewrite fmap_app, length_app. simpl. replace (len - length ms)%nat with (S (len - (length ms + 1)))%nat by lia.
  simpl. by rewrite <-app_assoc.
Qed.

(** [copy] to the front and [clear] of the rest. *)
Lemma slots_shift ms len k :
  (k <= length ms <= len)%nat ->
  zslice (slots ms len) (Z.of_nat k) (Z.of_nat (length ms)) = Some (Some <$> drop k ms) /\
  zclear (go_copy (slots ms len) (Some <$> drop k ms)) (Z.of_nat (length ms - k)) (Z.of_nat (length ms)) =
    Some (slots (drop k ms) len).
Proof.
  intros Hk. assert (Hs := slots_length ms len (proj2 Hk)). split.
  - rewrite zslice_range by lia. unfold slots. rewrite drop_app_le by (rewrite length_fmap; lia).
    rewrite take_app_le by (rewrite length_drop, length_fmap; lia).
    rewrite take_ge by (rewrite length_drop, length_fmap; lia). by rewrite <-fmap_drop.
  - rewrite go_copy_short by (rewrite length_fmap, length_drop; lia). rewrite length_fmap, length_drop.
    unfold zclear. rewrite decide_True.
    2:{ rewrite length_app, length_fmap, !length_drop, Hs. lia. }
    f_equal. rewrite !Nat2Z.id. rewrite take_app_length' by (rewrite length_fmap, length_drop; lia).
    rewrite drop_app_ge by (rewrite length_fmap, length_drop; lia). rewrite length_fmap, length_drop, drop_drop.
    replace (length ms - k + (length ms - (length ms - k)))%nat with (length ms) by lia.
    unfold slots at 2. f_equal. rewrite length_drop. unfold slots.
    rewrite drop_app_ge by (by rewrite length_fmap). rewrite length_fmap, Nat.sub_diag, drop_0, <-replicate_add.
    f_equal. lia.
Qed.

Lemma slots_resize ms len len' :
  (length ms <= len)%nat -> (length ms <= len')%nat ->
  zslice (slots ms len) 0 (Z.of_nat (length ms)) = Some (Some <$> ms) /\
  go_copy (replicate len' None) (Some <$> ms) = slots ms len'.
Proof.
  intros. split.
  - rewrite zslice_prefix by (by rewrite slots_length). f_equal. unfold slots.
    by rewrite take_app_length' by (by rewrite length_fmap).
  - rewrite go_copy_short by (by rewrite length_fmap, length_replicate). unfold slots. f_equal.
    by rewrite drop_replicate, length_fmap.
Qed.

Lemma slots_grow ms len len' :
  (length ms <= len <= len')%nat -> go_copy (replicate len' None) (slots ms len) = slots ms len'.
Proof.
  intros. rewrite go_copy_short by (rewrite slots_length, length_replicate; lia).
  rewrite slots_length, drop_replicate by lia. unfold slots. rewrite <-app_assoc, <-replicate_add. do 2 f_equal. lia.
Qed.
End slots.

(** ** Events with a known flag *)

Definition ev_is (v : bool) (e : Event) : Prop := event_ok e /\ ev_v e = v.

Lemma Set_is v e : ev_is v e -> exists e', Set_ e = Some e' /\ ev_is true e'.
Proof. intros [He _]. destruct (Set_spec e He) as (e' & ? & ? & [? _] & _). by exists e'. Qed.

Lemma Clear_is v e : ev_is v e -> ev_is false (Clear e).
Proof. intros [He _]. apply (Clear_ok e He). Qed.

Lemma new_event_ok : event_ok NewEvent.
Proof. apply einit_ok. Qed.

(** Carries a part of the invariant over to a state with the same fields. *)
Ltac frame H := destruct H; constructor; assumption.

(** ** Arithmetic of offsets *)

Lemma sub64_shift s f k : 0 <= k -> k <= sub64 s f -> sub64 s (add64 f k) = sub64 s f - k.
Proof. intros. u64_lia. Qed.

Lemma add64_succ a k : add64 (add64 a k) 1 = add64 a (k + 1).
Proof. u64_lia. Qed.

Lemma sub64_u64 a b : 0 <= sub64 a b < W64.
Proof. u64_lia. Qed.

Lemma foldl_add64_sum l z : 0 <= z -> Forall (Z.le 0) l -> z + sumZ l < W64 -> foldl add64 z l = z + sumZ l.
Proof.
  intros Hz Hl. revert z Hz. induction Hl as [|x l Hx Hl IH]; intros z Hz Hlt; simpl in *; [lia|].
  assert (0 <= sumZ l) by (by apply sumZ_nonneg). rewrite IH; rewrite ?add64_small by lia; lia.
Qed.

Lemma sumZ_lookup l i x : Forall (Z.le 0) l -> l !! i = Some x -> 0 <= x <= sumZ l.
Proof.
  intros Hl Hi. rewrite <-(take_drop_middle l i x Hi), sumZ_app. rewrite <-(take_drop_middle l i x Hi) in Hl.
  apply Forall_app in Hl as [H1 H2]. apply Forall_cons in H2 as [H2 H3].
  apply sumZ_nonneg in H1. apply sumZ_nonneg in H3. simpl. lia.
Qed.

(** ** The parts of the invariant *)

Section invariant.
Context {B : Type} `{SharedBudget B}.
Implicit Types (b : AckBuffer B) (ms : list maddr).

(** The offset of a sequence number in the window. *)
Definition off b (seq : Z) : Z := sub64 seq (ab_firstSeqNum b).

Definition seq_at b (i : Z) : Z := add64 (ab_firstSeqNum b) i.

(** The window: counters, backing array and availability. *)
Record win_ok ms b : Prop := {
  w_first : is_u64 (ab_firstSeqNum b);
  w_free : ab_nextIndexFree b = Z.of_nat (length ms);
  w_next : ab_nextSeqNum b = seq_at b (ab_nextIndexFree b);
  w_deliver : 0 <= ab_nextIndexToDeliver b <= ab_nextIndexFree b;
  w_cap : 0 <= ab_currentCapacity b;
  w_len : Z.max (ab_currentCapacity b) (Z.max (ab_nextIndexFree b) 1) <= Z.of_nat (length (ab_buff b)) <= max_slots;
  w_buff : ab_buff b = slots ms (length (ab_buff b));
  w_every : ab_ackEvery b = Z.max 1 (ab_currentCapacity b / 2);
  w_avail : ev_is (bool_decide (ab_nextIndexFree b < ab_currentCapacity b)) (ab_isAvailable b);
  w_ready : event_ok (ab_isReadyToDeliver b);
  w_empty : event_ok (ab_isEmpty b);
}.

(** The events of delivery when something is left to deliver, and when not. *)
Definition flow_late b : Prop :=
  ab_nextIndexToDeliver b < ab_nextIndexFree b -> ev_v (ab_isReadyToDeliver b) = true /\ ev_v (ab_isEmpty b) = false.
Definition flow_done b : Prop :=
  ab_nextIndexFree b <= ab_nextIndexToDeliver b -> ev_v (ab_isReadyToDeliver b) = false /\ ev_v (ab_isEmpty b) = true.

(** The heap: slots point to distinct messages numbered by their position. *)
Record store_ok ms b : Prop := {
  st_nodup : NoDup ms;
  st_msg i a : ms !! i = Some a -> exists m, ab_msgs b !! a = Some m /\ SeqNum m = seq_at b (Z.of_nat i);
  st_fresh_m a : is_Some (ab_msgs b !! a) -> (a < ab_next b)%nat;
  st_fresh_c c : is_Some (ab_chans b !! c) -> (c < ab_next b)%nat;
  st_wake c : ab_wake b = Some c -> ab_chans b !! c = Some false;
}.

(** The byte accounting of a window that starts at [f]; after [Close] nothing is
    charged any more. *)
Record bytes_at (f : Z) b : Prop := {
  ba_sizes : ab_accounting b = true -> Z.of_nat (length (ab_sizes b)) = ab_nextIndexFree b;
  ba_off : ab_accounting b = false -> ab_sizes b = [] /\ ab_escapeBytes b = 0 /\ sb_present (ab_shared b) = false;
  ba_pos : Forall (Z.le 0) (ab_sizes b);
  ba_sum : ab_bytes b = if ab_isClosed b then 0 else sumZ (ab_sizes b);
  ba_bound : sumZ (ab_sizes b) < W64;
  ba_max : 0 <= ab_maxBytes b;
  ba_esc : ab_escapeBytes b <> 0 -> ab_isClosed b = false /\ ab_group b <> None /\ is_u64 (ab_escapeSeq b) /\
    zget (ab_sizes b) (sub64 (ab_escapeSeq b) f) = Some (ab_escapeBytes b);
}.

(** The ring of released retired numbers: until it is full the next slot is the
    first unused one. *)
Definition ring_ok (r : releasedRetiredRing) : Prop :=
  Z.of_nat (length (rr_seqs r)) = releasedRetiredMemory /\ 0 <= rr_n r <= releasedRetiredMemory /\
  0 <= rr_next r < releasedRetiredMemory /\ (rr_n r < releasedRetiredMemory -> rr_next r = rr_n r).

(** The retired slots, and the ring of those already removed. *)
Record retired_ok b : Prop := {
  re_window seq : seq ∈ ab_retired b -> is_u64 seq /\ off b seq < ab_nextIndexFree b;
  re_size seq : seq ∈ ab_retired b -> ab_accounting b = true -> zget (ab_sizes b) (off b seq) = Some 0;
  re_ring r : ab_releasedRetired b = Some r -> ring_ok r;
}.

(** The tracked admissions, in window order; the cursor is the first one at or
    after the delivery index. *)
Record track_ok b : Prop := {
  tr_window e : e ∈ ab_receipts b -> is_u64 (te_seq e) /\ off b (te_seq e) < ab_nextIndexFree b;
  tr_sorted : StronglySorted (fun e e' => off b (te_seq e) < off b (te_seq e')) (ab_receipts b);
  tr_ids : NoDup (te_id <$> ab_receipts b);
  tr_fresh e : e ∈ ab_receipts b -> (te_id e < ab_next b)%nat;
  tr_cells : NoDup (te_state <$> ab_receipts b);
  tr_cell e : e ∈ ab_receipts b -> ab_cells b !! te_state e =
    Some (if decide (te_seq e ∈ ab_retired b) then ReceiptRetired else ReceiptRetained);
  tr_sends e : e ∈ ab_receipts b -> 0 <= te_sends e <= te_max e /\ te_max e < 2 ^ 32;
  tr_cursor : ab_deliverCursor b =
    te_id <$> head (filter (fun e => ab_nextIndexToDeliver b <= off b (te_seq e)) (ab_receipts b));
}.

(** Registration and life cycle. *)
Record life_ok b : Prop := {
  li_closed : ab_isClosed b = true -> ab_isRunning b = false;
  li_left : ab_isClosed b = true -> ab_registered b = false;
  li_registered : ab_registered b = true -> ab_group b <> None;
  li_group : ab_group b <> None -> ab_isClosed b = false -> ab_registered b = true;
}.

Record buf_ok ms b : Prop := {
  bo_win : win_ok ms b;
  bo_store : store_ok ms b;
  bo_bytes : bytes_at (ab_firstSeqNum b) b;
  bo_retired : retired_ok b;
  bo_track : track_ok b;
  bo_life : life_ok b;
}.

(** Between two method calls the flags are exact and the head is live. *)
Record settled_ok ms b : Prop := {
  so_ok : buf_ok ms b;
  so_late : flow_late b;
  so_done : flow_done b;
  so_head : ab_nextIndexFree b <> 0 -> ab_firstSeqNum b ∉ ab_retired b;
}.

(** The account of the buffer with the shared budget. *)
Definition acct (rq : gmap wid Z) b : account :=
  Account (ab_group b) (ab_registered b) (ab_bytes b) (ab_escapeBytes b) rq.
End invariant.

Section ownership.
Context {B : Type} `{SharedBudgetLaws B}.

(** The budget accounts for this buffer, as client [i] with queued requests
    [rq], and for the other clients [A]. *)
Definition own (i : nat) (rq : gmap wid Z) (A : accounts) (b : AckBuffer B) : Prop :=
  sb_holds (<[i := acct rq b]> A) (ab_shared b).

Lemma own_release i rq A (b : AckBuffer B) n e :
  own i rq A b -> 0 <= n <= ab_bytes b -> 0 <= e <= ab_escapeBytes b -> e <= n ->
  ab_escapeBytes b - e <= ab_bytes b - n ->
  exists s, sb_releaseFor n e (ab_group b) (ab_shared b) = Some s /\ sb_present s = sb_present (ab_shared b) /\
    sb_holds (<[i := Account (ab_group b) (ab_registered b) (ab_bytes b - n) (ab_escapeBytes b - e) rq]> A) s.
Proof.
  intros Ho Hn He Hen Hle.
  destruct (sb_releaseFor_spec (<[i := acct rq b]> A) (ab_shared b) i (acct rq b) n e) as (s & Hs & Hp & Hh);
    [done|by rewrite lookup_insert_eq|done..|]. exists s. rewrite insert_insert_eq in Hh. done.
Qed.
End ownership.
