(* ===== verification/AckRemove.v ===== *)
(** * Removal of a prefix of the retransmission buffer

    [signalLocked], [shrinkBackingLocked], [removePrefixLocked] and the detaching
    of receipts never panic and shift the window by the removed prefix. *)

From S2P Require Import Prelude ByteBudget Event Protocol SharedBudget AckBuffer AckInv.

Section removal.
Context {B : Type} `{SharedBudgetLaws B}.
Implicit Types (b : AckBuffer B) (ms : list maddr).

(** ** The wake channel *)

(** The channels once the sampled one, if any, is closed. *)
Definition woken b : gmap chan bool :=
  match ab_wake b with Some c => <[c := true]> (ab_chans b) | None => ab_chans b end.

Definition signalled b : AckBuffer B := b <| ab_chans := woken b |> <| ab_wake := None |>.

Lemma signal_eq b : (forall c, ab_wake b = Some c -> ab_chans b !! c = Some false) -> signalLocked b = Some (signalled b).
Proof.
  intros Hw. unfold signalLocked, signalled, woken. destruct (ab_wake b) as [c|] eqn:Hc; [|by rewrite <-Hc].
  by rewrite (Hw c eq_refl).
Qed.

Lemma woken_is_Some b c : is_Some (woken b !! c) <-> is_Some (ab_chans b !! c) \/ ab_wake b = Some c.
Proof.
  unfold woken. destruct (ab_wake b) as [c'|]; simpl; [|intuition congruence].
  rewrite lookup_insert_is_Some'. intuition congruence.
Qed.

(** Whoever sampled the channel is woken. *)
Lemma woken_closed b c : ab_wake b = Some c -> woken b !! c = Some true.
Proof. intros Hw. unfold woken. rewrite Hw. apply lookup_insert_eq. Qed.

Lemma woken_fresh ms b c : store_ok ms b -> is_Some (woken b !! c) -> (c < ab_next b)%nat.
Proof.
  intros Hst [Hc|Hc]%woken_is_Some; apply (st_fresh_c _ _ Hst); [done|]. rewrite (st_wake _ _ Hst c Hc). by eexists.
Qed.

Lemma store_signalled ms b : store_ok ms b -> store_ok ms (signalled b).
Proof.
  intros Hst. pose proof Hst as [H1 H2 H3 H4 H5]. split; try assumption; [|done].
  intros c. exact (woken_fresh ms b c Hst).
Qed.

(** ** Byte charges *)

(** The state after the sizes of [k] slots left. *)
Definition discharged (k : nat) (bytes esc : Z) (s : B) b : AckBuffer B :=
  b <| ab_sizes := drop k (ab_sizes b) |> <| ab_bytes := bytes |> <| ab_escapeBytes := esc |> <| ab_shared := s |>.

Lemma releasePrefix_spec f k b i rq A :
  bytes_at f b -> own i rq A b -> 0 < Z.of_nat k <= ab_nextIndexFree b -> ab_nextIndexFree b <= max_slots ->
  exists bytes esc s, releasePrefix (Z.of_nat k - 1) (sub64 (ab_escapeSeq b) f) b = Some (discharged k bytes esc s b) /\
    bytes = (if ab_isClosed b then 0 else sumZ (drop k (ab_sizes b))) /\
    (esc <> 0 -> esc = ab_escapeBytes b /\ Z.of_nat k <= sub64 (ab_escapeSeq b) f) /\
    sb_present s = sb_present (ab_shared b) /\ own i rq A (discharged k bytes esc s b).
Proof.
  intros [H1 H2 H3 H4 H5 H6 H7] Ho Hk Hmax. unfold max_slots in Hmax. unfold releasePrefix.
  destruct (ab_accounting b) eqn:Ha.
  2:{ destruct (H2 eq_refl) as (Hs & He & Hp). exists (ab_bytes b), (ab_escapeBytes b), (ab_shared b).
      assert (Hd : drop k (ab_sizes b) = ab_sizes b) by (by rewrite Hs, drop_nil).
      unfold discharged. rewrite Hd. split; [done|]. split; [done|]. split; [by rewrite He|]. done. }
  specialize (H1 eq_refl). replace (add64 (Z.of_nat k - 1) 1) with (Z.of_nat k) by u64_lia.
  rewrite zslice_prefix by lia. cbn [mbind option_bind]. rewrite zslice_range by lia. cbn [mbind option_bind].
  rewrite (take_ge (drop k _)) by (rewrite length_drop; lia).
  pose proof (sumZ_take_drop k (ab_sizes b)) as Hsum.
  assert (Hp1 : 0 <= sumZ (take k (ab_sizes b))) by (apply sumZ_nonneg, Forall_take; done).
  assert (Hp2 : 0 <= sumZ (drop k (ab_sizes b))) by (apply sumZ_nonneg, Forall_drop; done).
  rewrite foldl_add64_sum by (done || lia || by apply Forall_take). rewrite Z.add_0_l.
  simpl. set (freed := if decide (_ > _) then _ else _).
  assert (Hfreed : freed = if ab_isClosed b then 0 else sumZ (take k (ab_sizes b))).
  { unfold freed. rewrite H4. destruct (ab_isClosed b); case_decide; lia. }
  assert (Hbytes : sub64 (ab_bytes b) freed = if ab_isClosed b then 0 else sumZ (drop k (ab_sizes b))).
  { rewrite Hfreed, H4. destruct (ab_isClosed b); [done|]. rewrite sub64_small by lia. lia. }
  assert (Hle : 0 <= freed <= ab_bytes b) by (rewrite Hfreed, H4; destruct (ab_isClosed b); lia).
  assert (Hfit : ab_bytes b - freed = if ab_isClosed b then 0 else sumZ (drop k (ab_sizes b))).
  { rewrite Hfreed, H4. destruct (ab_isClosed b); lia. }
  destruct (decide (ab_escapeBytes b <> 0 /\ sub64 (ab_escapeSeq b) f <= Z.of_nat k - 1)) as [[He Hi]|Hn].
  - destruct (H7 He) as (Hc & Hg & Hu & Hz). rewrite Hc in *. apply zget_Some in Hz as [Hz0 Hz].
    assert (Hin : 0 <= ab_escapeBytes b <= sumZ (take k (ab_sizes b))).
    { apply (sumZ_lookup _ (Z.to_nat (sub64 (ab_escapeSeq b) f))); [by apply Forall_take|].
      rewrite lookup_take_lt by lia. done. }
    destruct (own_release i rq A b freed (ab_escapeBytes b)) as (s & Hs & Hp & Hh); [done|lia|lia|lia|lia|].
    unfold releaseShared. simpl. rewrite Hs. simpl. exists (sub64 (ab_bytes b) freed), 0, s. split; [done|].
    split; [done|]. split; [done|]. split; [done|]. unfold own, acct, discharged. simpl.
    rewrite Hbytes, <-Hfit, <-(Z.sub_diag (ab_escapeBytes b)). done.
  - assert (He : ab_escapeBytes b <> 0 -> Z.of_nat k <= sub64 (ab_escapeSeq b) f /\ 0 <= ab_escapeBytes b <= ab_bytes b - freed).
    { intros He. assert (Hge : Z.of_nat k <= sub64 (ab_escapeSeq b) f) by (destruct (decide (Z.of_nat k <= sub64 (ab_escapeSeq b) f)); [done|]; destruct Hn; split; [done|lia]).
      split; [done|]. destruct (H7 He) as (Hc & Hg & Hu & Hz). rewrite Hc in *. apply zget_Some in Hz as [Hz0 Hz]. rewrite Hfit.
      apply (sumZ_lookup _ (Z.to_nat (sub64 (ab_escapeSeq b) f) - k)); [by apply Forall_drop|].
      rewrite lookup_drop. rewrite <-Hz. f_equal. lia. }
    assert (0 <= ab_escapeBytes b <= ab_bytes b - freed).
    { destruct (decide (ab_escapeBytes b = 0)) as [->|Hne]; [|by apply He]. lia. }
    destruct (own_release i rq A b freed 0) as (s & Hs & Hp & Hh); [done|lia|lia|lia|lia|].
    unfold releaseShared. simpl. rewrite Hs. simpl. exists (sub64 (ab_bytes b) freed), (ab_escapeBytes b), s. split; [done|].
    split; [done|]. split; [intros ?; split; [done|by apply He]|]. split; [done|]. unfold own, acct, discharged. simpl.
    rewrite Hbytes, <-Hfit. by rewrite Z.sub_0_r in Hh.
Qed.

(** ** The backing array *)

Definition shrunk (b : AckBuffer B) : nat :=
  Nat.min (length (ab_buff b)) (Z.to_nat (Z.max (ab_currentCapacity b) (Z.max (ab_nextIndexFree b) initialCapacity))).

Lemma shrink_eq ms b :
  ab_buff b = slots ms (length (ab_buff b)) -> ab_nextIndexFree b = Z.of_nat (length ms) ->
  (length ms <= length (ab_buff b))%nat -> Z.of_nat (length (ab_buff b)) <= max_slots ->
  shrinkBackingLocked b = Some (b <| ab_buff := slots ms (shrunk b) |>).
Proof.
  intros Hb Hn Hle Hmax. unfold shrinkBackingLocked, shrunk. unfold initialCapacity. set (t := Z.max _ _).
  assert (Ht : Z.of_nat (length ms) <= t) by lia. clearbody t. case_decide as Hgt.
  - destruct (slots_resize ms (length (ab_buff b)) (Z.to_nat t)) as [Hs Hc]; [done|lia|]. rewrite <-Hb in Hs.
    unfold makeslice. rewrite decide_False by lia. cbn [mbind option_bind]. rewrite Hn, Hs. cbn [mbind option_bind].
    rewrite Hc. replace (Nat.min _ _) with (Z.to_nat t) by lia. done.
  - replace (Nat.min _ _) with (length (ab_buff b)) by lia. by rewrite <-Hb.
Qed.

(** ** The removal *)

(** The state after the first [k] slots left. *)
Record residue := Residue {
  rs_bytes : Z;
  rs_escape : Z;
  rs_shared : B;
  rs_len : nat;
  rs_avail : Event;
  rs_ready : Event;
  rs_empty : Event;
}.

Definition shifted (k : nat) ms (r : residue) b : AckBuffer B :=
  b <| ab_firstSeqNum := seq_at b (Z.of_nat k) |> <| ab_sizes := drop k (ab_sizes b) |>
    <| ab_bytes := rs_bytes r |> <| ab_escapeBytes := rs_escape r |> <| ab_shared := rs_shared r |>
    <| ab_buff := slots (drop k ms) (rs_len r) |> <| ab_nextIndexFree := ab_nextIndexFree b - Z.of_nat k |>
    <| ab_isAvailable := rs_avail r |> <| ab_chans := woken b |> <| ab_wake := None |>
    <| ab_nextIndexToDeliver := Z.max 0 (ab_nextIndexToDeliver b - Z.of_nat k) |>
    <| ab_isReadyToDeliver := rs_ready r |> <| ab_isEmpty := rs_empty r |>
    <| ab_retired ::= filter (fun seq => ~ off b seq <= Z.of_nat k - 1) |>.

Record residue_ok (k : nat) ms (r : residue) i rq A b : Prop := {
  ro_bytes : rs_bytes r = if ab_isClosed b then 0 else sumZ (drop k (ab_sizes b));
  ro_escape : rs_escape r <> 0 -> rs_escape r = ab_escapeBytes b /\ Z.of_nat k <= off b (ab_escapeSeq b);
  ro_present : sb_present (rs_shared r) = sb_present (ab_shared b);
  ro_own : own i rq A (shifted k ms r b);
  ro_len : Z.max (ab_currentCapacity b) (Z.max (ab_nextIndexFree b - Z.of_nat k) 1) <= Z.of_nat (rs_len r) <= max_slots;
  (** the former window is reclaimed once the rest fits the current one *)
  ro_shrunk : ab_nextIndexFree b - Z.of_nat k <= ab_currentCapacity b ->
    Z.of_nat (rs_len r) = Z.max (ab_currentCapacity b) 1;
  ro_avail : ev_is (bool_decide (ab_nextIndexFree b - Z.of_nat k < ab_currentCapacity b)) (rs_avail r);
  ro_ready : event_ok (rs_ready r);
  ro_empty : event_ok (rs_empty r);
  ro_late : flow_late b -> flow_late (shifted k ms r b);
  ro_done : flow_done (shifted k ms r b);
}.

(** Opening or closing admission according to the free room. *)
Lemma avail_update v e (P : Prop) `{Decision P} :
  ev_is v e -> exists e', (if decide P then Set_ e else Some (Clear e)) = Some e' /\ ev_is (bool_decide P) e'.
Proof.
  intros He. destruct (decide P) as [HP|HP].
  - rewrite bool_decide_true by done. by eapply Set_is.
  - rewrite bool_decide_false by done. eexists. split; [done|]. by eapply Clear_is.
Qed.

(** The index of the next delivery moves with the window and stops at its start. *)
Lemma deliver_shift (x y : AckBuffer B) (k n : Z) :
  0 <= k -> 0 <= n < 2 ^ 64 -> x <| ab_nextIndexToDeliver := Z.max 0 (n - k) |> = y ->
  (if decide (n > k) then x <| ab_nextIndexToDeliver := sub64 n k |> else x <| ab_nextIndexToDeliver := 0 |>) = y.
Proof.
  intros Hk Hn <-. destruct (decide (n > k)).
  - rewrite sub64_small, (Z.max_r 0) by lia. done.
  - rewrite (Z.max_l 0) by lia. done.
Qed.

Lemma removePrefix_spec ms b k i rq A :
  win_ok ms b -> store_ok ms b -> bytes_at (ab_firstSeqNum b) b -> own i rq A b -> (0 < k <= length ms)%nat ->
  exists r, removePrefixLocked (Z.of_nat k - 1) b = Some (shifted k ms r b) /\ residue_ok k ms r i rq A b.
Proof.
  intros Hw Hst Hby Ho Hk. pose proof (w_free _ _ Hw) as Hfree. pose proof (w_len _ _ Hw) as Hlen.
  pose proof (w_deliver _ _ Hw) as Hntd. unfold removePrefixLocked.
  rewrite add64_succ. replace (Z.of_nat k - 1 + 1) with (Z.of_nat k) by lia.
  set (b1 := b <| ab_firstSeqNum := add64 (ab_firstSeqNum b) (Z.of_nat k) |>).
  destruct (releasePrefix_spec (ab_firstSeqNum b) k b1 i rq A) as (bytes & esc & s & Hr & Hbytes & Hesc & Hpres & Ho1);
    [frame Hby|exact Ho|simpl; lia|simpl; lia|].
  simpl in Hr. rewrite Hr, bind_ret. clear Hr. unfold max_slots in Hlen.
  replace (add64 (Z.of_nat k - 1) 1) with (Z.of_nat k) by u64_lia.
  assert (Hslice := slots_shift ms (length (ab_buff b)) k ltac:(lia)). rewrite <-(w_buff _ _ Hw) in Hslice.
  assert (En : Z.of_nat (length ms - k) = ab_nextIndexFree b - Z.of_nat k) by lia.
  destruct Hslice as [Hsl Hcl]. rewrite En, <-Hfree in *. simpl. rewrite Hsl, bind_ret.
  replace (sub64 (sub64 (ab_nextIndexFree b) (Z.of_nat k - 1)) 1) with (ab_nextIndexFree b - Z.of_nat k) by u64_lia.
  rewrite Hcl, bind_ret. simpl.
  set (b2 := b1 <| ab_sizes := drop k (ab_sizes b) |> <| ab_bytes := bytes |> <| ab_escapeBytes := esc |>
    <| ab_shared := s |> <| ab_nextIndexFree := (ab_nextIndexFree b - Z.of_nat k) |>
    <| ab_buff := slots (drop k ms) (length (ab_buff b)) |>).
  assert (Hlen2 : length (ab_buff b2) = length (ab_buff b)).
  { simpl. rewrite slots_length; [done|]. rewrite length_drop. lia. }
  assert (Hshr : shrinkBackingLocked b2 = Some (b2 <| ab_buff := slots (drop k ms) (shrunk b2) |>)).
  { apply shrink_eq; rewrite ?Hlen2; [done|simpl; rewrite length_drop; lia|rewrite length_drop; lia|unfold max_slots; lia]. }
  set (len := if decide ((ab_nextIndexFree b - Z.of_nat k) <= ab_currentCapacity b) then shrunk b2 else length (ab_buff b)).
  assert (Hbuf : (if decide ((ab_nextIndexFree b - Z.of_nat k) <= ab_currentCapacity b) then shrinkBackingLocked b2 else Some b2) =
    Some (b2 <| ab_buff := slots (drop k ms) len |>)).
  { unfold len. case_decide; [done|reflexivity]. }
  match goal with |- context [shrinkBackingLocked ?x] => change x with b2 end.
  rewrite Hbuf, bind_ret. clear Hbuf Hshr. simpl.
  destruct (avail_update _ (ab_isAvailable b) ((ab_nextIndexFree b - Z.of_nat k) < ab_currentCapacity b) (w_avail _ _ Hw))
    as (av & -> & Hav). rewrite bind_ret, signal_eq by (simpl; apply Hst). rewrite bind_ret. simpl.
  erewrite (deliver_shift _ _ (Z.of_nat k)) by first [reflexivity|lia]. simpl.
  destruct (Set_spec (ab_isEmpty b) (w_empty _ _ Hw)) as (em & Hem & Hem1 & [Hem2 _] & _).
  destruct (Clear_ok (ab_isReadyToDeliver b) (w_ready _ _ Hw)) as [Hrd1 Hrd2].
  set (gone := bool_decide (Z.max 0 (ab_nextIndexToDeliver b - Z.of_nat k) >= ab_nextIndexFree b - Z.of_nat k)).
  exists (Residue bytes esc s len av (if gone then Clear (ab_isReadyToDeliver b) else ab_isReadyToDeliver b)
    (if gone then em else ab_isEmpty b)). split.
  { destruct gone eqn:Hg; [apply bool_decide_eq_true in Hg; rewrite decide_True by exact Hg|
      apply bool_decide_eq_false in Hg; rewrite decide_False by exact Hg]; rewrite ?Hem, !bind_ret; reflexivity. }
  split; simpl.
  - exact Hbytes.
  - exact Hesc.
  - exact Hpres.
  - exact Ho1.
  - unfold len, shrunk, max_slots, initialCapacity. rewrite Hlen2. simpl.
    destruct (decide (ab_nextIndexFree b - Z.of_nat k <= ab_currentCapacity b)); lia.
  - unfold len, shrunk, initialCapacity. rewrite Hlen2. simpl. intros. rewrite decide_True by lia. lia.
  - exact Hav.
  - destruct gone; [done|apply Hw].
  - destruct gone; [done|apply Hw].
  - unfold flow_late, gone. simpl. intros Hl Hlt. rewrite bool_decide_false by lia. apply Hl. lia.
  - unfold flow_done, gone. simpl. intros Hge. by rewrite bool_decide_true by lia.
Qed.

(** *** The invariant of the shifted window *)

Section shifted.
Context (ms : list maddr) (b : AckBuffer B) (k i : nat) (rq : gmap wid Z) (A : accounts) (r : residue).
Context (Hk : (0 < k <= length ms)%nat) (Hr : residue_ok k ms r i rq A b).
Context (Hw : win_ok ms b).

(** Offsets of what is left move by [k]. *)
Lemma shifted_off seq : Z.of_nat k <= off b seq -> off (shifted k ms r b) seq = off b seq - Z.of_nat k.
Proof. intros Hge. unfold off in *. simpl. unfold seq_at. apply sub64_shift; [apply Nat2Z.is_nonneg|exact Hge]. Qed.

Lemma shifted_seq j : seq_at (shifted k ms r b) j = seq_at b (Z.of_nat k + j).
Proof. unfold seq_at. simpl. unfold seq_at. apply add64_assoc. Qed.

Lemma shifted_win : win_ok (drop k ms) (shifted k ms r b).
Proof.
  pose proof (w_deliver _ _ Hw). pose proof (w_free _ _ Hw) as Hf. pose proof (ro_len _ _ _ _ _ _ _ Hr) as Hl.
  assert (Hlen : length (slots (drop k ms) (rs_len r)) = rs_len r).
  { apply slots_length. rewrite length_drop. lia. }
  split.
  - apply add64_range.
  - simpl. rewrite length_drop. lia.
  - simpl ab_nextSeqNum. rewrite shifted_seq, (w_next _ _ Hw). simpl. f_equal. lia.
  - simpl. lia.
  - apply Hw.
  - cbn [shifted with_field]. simpl. rewrite Hlen. lia.
  - simpl. by rewrite Hlen.
  - apply Hw.
  - apply Hr.
  - apply Hr.
  - apply Hr.
Qed.

Lemma shifted_store : store_ok ms b -> store_ok (drop k ms) (shifted k ms r b).
Proof.
  intros Hst. split.
  - apply (sublist_NoDup _ ms); [apply Hst|apply sublist_drop].
  - intros j a Hj. rewrite lookup_drop in Hj. destruct (st_msg _ _ Hst _ a Hj) as (m & Hm & Hseq). exists m.
    split; [done|]. rewrite shifted_seq, Hseq. f_equal. lia.
  - apply Hst.
  - intros c. exact (woken_fresh ms b c Hst).
  - done.
Qed.

Lemma shifted_bytes : bytes_at (ab_firstSeqNum b) b -> bytes_at (seq_at b (Z.of_nat k)) (shifted k ms r b).
Proof.
  intros [H1 H2 H3 H4 H5 H6 H7]. pose proof (w_free _ _ Hw). split; simpl.
  - intros Ha. rewrite length_drop. specialize (H1 Ha). lia.
  - intros Ha. destruct (H2 Ha) as (Hs & He & Hp). rewrite Hs, drop_nil, (ro_present _ _ _ _ _ _ _ Hr). split; [done|].
    split; [|done]. destruct (decide (rs_escape r = 0)); [done|]. destruct (ro_escape _ _ _ _ _ _ _ Hr); congruence.
  - by apply Forall_drop.
  - apply Hr.
  - rewrite (sumZ_take_drop k) in H5. assert (0 <= sumZ (take k (ab_sizes b))) by (by apply sumZ_nonneg, Forall_take). lia.
  - done.
  - intros He. destruct (ro_escape _ _ _ _ _ _ _ Hr He) as [Heq Hge]. rewrite Heq in *.
    destruct (H7 He) as (Hc & Hg & Hu & Hz). split; [done|]. split; [done|]. split; [done|]. unfold seq_at.
    unfold off in Hge. rewrite sub64_shift by lia. apply zget_Some in Hz as [? Hz]. apply zget_Some. split; [lia|].
    rewrite lookup_drop. rewrite <-Hz. f_equal. lia.
Qed.

Lemma shifted_retired : retired_ok b -> retired_ok (shifted k ms r b).
Proof.
  intros [H1 H2 H3]. split; [| |exact H3].
  - intros seq [Hn Hin]%elem_of_filter. destruct (H1 seq Hin). split; [done|]. rewrite shifted_off by lia. simpl. lia.
  - intros seq [Hn Hin]%elem_of_filter Ha. rewrite shifted_off by lia. simpl.
    specialize (H2 seq Hin Ha). apply zget_Some in H2 as [? Hz]. apply zget_Some. split; [lia|].
    rewrite lookup_drop. rewrite <-Hz. f_equal. lia.
Qed.
End shifted.
End removal.
