(* ===== verification/AckReceipts.v ===== *)
(** * Receipts of a removed prefix, and the head of retired slots

    [dropReceiptsLocked] detaches exactly the tracked entries of the removed
    slots and keeps the delivery cursor on the first entry still to deliver;
    [releaseRetiredHeadLocked] removes exactly the run of retired slots at the
    front. *)

From S2P Require Import Prelude ByteBudget Event Protocol SharedBudget AckBuffer AckInv AckRemove.

(** ** Sorted lists of entries *)

Section sorted.
Context {A : Type} (o : A -> Z).
Implicit Types (l : list A) (n : Z).

Abbreviation sorted := (StronglySorted (fun x y => o x < o y)).

(** The entries from offset [n] on. *)
Definition from n l : list A := filter (fun x => n <= o x) l.

Lemma elem_of_from n l x : x ∈ from n l <-> n <= o x /\ x ∈ l.
Proof. unfold from. by rewrite list_elem_of_filter. Qed.

Lemma from_all n l : (forall x, x ∈ l -> n <= o x) -> from n l = l.
Proof.
  induction l as [|x l IH]; intros Hl; [done|]. unfold from in *. rewrite filter_cons_True by (apply Hl; left).
  f_equal. apply IH. intros y Hy. apply Hl. by right.
Qed.

Lemma from_cons_ge n x l : sorted (x :: l) -> n <= o x -> from n (x :: l) = x :: l.
Proof.
  intros [_ Hx]%StronglySorted_inv Hn. apply from_all. rewrite Forall_forall in Hx.
  intros y [->|Hy%Hx]%elem_of_cons; lia.
Qed.

Lemma from_cons_lt n x l : o x < n -> from n (x :: l) = from n l.
Proof. intros. unfold from. by rewrite filter_cons_False by lia. Qed.

Lemma sorted_from n l : sorted l -> sorted (from n l).
Proof.
  induction 1 as [|x l Hs IH Hx]; [constructor|]. destruct (decide (n <= o x)) as [Hn|Hn].
  - rewrite from_cons_ge; [by constructor|by constructor|done].
  - rewrite from_cons_lt by lia. done.
Qed.

Lemma from_from n n' l : from n (from n' l) = from (Z.max n n') l.
Proof.
  unfold from. rewrite list_filter_filter. apply list_filter_iff. intros x. lia.
Qed.

(** The first entry from [n] on is the first from [n'] on when nothing lies between. *)
Lemma head_from n n' l : sorted l -> n <= n' ->
  match head (from n l) with Some x => n' <= o x | None => True end -> head (from n' l) = head (from n l).
Proof.
  intros Hs Hn Hh. rewrite <-(Z.max_l n' n Hn), <-from_from.
  pose proof (sorted_from n l Hs) as Hs'. destruct (from n l) as [|x l'] eqn:E; [done|]. by rewrite from_cons_ge.
Qed.
End sorted.

(** ** Detaching entries *)

(** The cells once the entries [l] were acknowledged. *)
Definition acknowledged (l : list trackedAdmission) (cells : gmap cell ReceiptFrameState) : gmap cell ReceiptFrameState :=
  foldl (fun cells e => if decide (cells !! te_state e = Some ReceiptRetained)
                        then <[te_state e := ReceiptAcknowledged]> cells else cells) cells l.

Lemma acknowledged_lookup l cells c :
  acknowledged l cells !! c =
    if decide (c ∈ te_state <$> l /\ cells !! c = Some ReceiptRetained) then Some ReceiptAcknowledged else cells !! c.
Proof.
  revert cells. induction l as [|e l IH]; intros cells.
  { rewrite decide_False; [done|]. intros [?%not_elem_of_nil _]. done. }
  change (acknowledged (e :: l) cells) with (acknowledged l
    (if decide (cells !! te_state e = Some ReceiptRetained) then <[te_state e := ReceiptAcknowledged]> cells else cells)).
  rewrite IH, fmap_cons. destruct (decide (cells !! te_state e = Some ReceiptRetained)) as [He|He].
  - destruct (decide (c = te_state e)) as [->|Hne].
    + rewrite lookup_insert_eq. rewrite decide_False by (intros [_ ?]; done). rewrite decide_True; [done|].
      split; [by left|done].
    + rewrite !lookup_insert_ne by done. apply decide_ext. rewrite elem_of_cons. tauto.
  - destruct (decide (c = te_state e)) as [->|Hne].
    + rewrite !decide_False by (by intros [_ ?]). done.
    + apply decide_ext. rewrite elem_of_cons. tauto.
Qed.

Lemma dropEntries_spec first k ack cursor l cells :
  StronglySorted (fun e e' => sub64 (te_seq e) first < sub64 (te_seq e') first) l ->
  let o e := sub64 (te_seq e) first in
  let gone := filter (fun e => o e < k) l in
  dropEntries first (k - 1) ack cursor l cells =
    (from o k l, bool_decide (cursor ∈ (fun e => Some (te_id e)) <$> gone),
     if ack then acknowledged gone cells else cells).
Proof.
  intros Hs o. induction Hs as [|e l Hs IH He] in cells |- *; simpl.
  { by destruct ack. }
  destruct (decide (sub64 (te_seq e) first <= k - 1)) as [Hle|Hgt].
  - simpl in IH. rewrite IH. rewrite from_cons_lt by (unfold o; lia). rewrite filter_cons_True by (unfold o; lia). f_equal.
    + f_equal. rewrite fmap_cons. destruct (bool_decide (cursor = Some (te_id e))) eqn:Hc; simpl.
      * apply bool_decide_eq_true in Hc as ->. rewrite bool_decide_true; [done|by left].
      * apply bool_decide_eq_false in Hc. apply bool_decide_ext. rewrite elem_of_cons. tauto.
    + destruct ack; [|done]. unfold acknowledged. cbn [foldl andb]. f_equal.
      destruct (decide (cells !! te_state e = Some ReceiptRetained));
        [by rewrite bool_decide_true|by rewrite bool_decide_false].
  - assert (Hnil : filter (fun e => o e < k) (e :: l) = []).
    { apply filter_none. rewrite Forall_forall in He. intros e' [->|He'%He]%elem_of_cons; unfold o; lia. }
    rewrite Hnil, from_cons_ge; [|by constructor|unfold o; lia]. by destruct ack.
Qed.

Section receipts.
Context {B : Type} `{SharedBudgetLaws B}.
Implicit Types (b : AckBuffer B) (ms : list maddr).

(** The tracked entries of the first [k] slots, and the others. *)
Definition gone_entries (k : Z) b : list trackedAdmission := filter (fun e => off b (te_seq e) < k) (ab_receipts b).
Definition kept_entries (k : Z) b : list trackedAdmission := from (fun e => off b (te_seq e)) k (ab_receipts b).

Definition dropped_cells (ack : bool) (k : Z) b : gmap cell ReceiptFrameState :=
  if ack then acknowledged (gone_entries k b) (ab_cells b) else ab_cells b.

(** The state once the first [k] slots left with their receipts. *)
Definition removed (k : nat) (ack : bool) ms (r : residue) b : AckBuffer B :=
  (shifted k ms r b) <| ab_receipts := kept_entries (Z.of_nat k) b |>
    <| ab_cells := dropped_cells ack (Z.of_nat k) b |>
    <| ab_deliverCursor := te_id <$> head (from (fun e => off b (te_seq e))
         (Z.max (Z.of_nat k) (ab_nextIndexToDeliver b)) (ab_receipts b)) |>.

Lemma drop_receipts_eq ms b k ack r :
  track_ok b -> (0 < k)%nat ->
  dropReceiptsLocked (ab_firstSeqNum b) (Z.of_nat k - 1) ack (shifted k ms r b) = removed k ack ms r b.
Proof.
  intros Ht Hk. unfold dropReceiptsLocked. simpl. rewrite dropEntries_spec by apply Ht.
  set (o := fun e => sub64 (te_seq e) (ab_firstSeqNum b)). set (n := ab_nextIndexToDeliver b).
  assert (Hs : StronglySorted (fun e e' => o e < o e') (ab_receipts b)) by apply Ht.
  assert (Hcur : ab_deliverCursor b = te_id <$> head (from o n (ab_receipts b))) by apply Ht.
  set (gone := filter (fun e => o e < Z.of_nat k) (ab_receipts b)).
  set (cur := te_id <$> head (from o (Z.max (Z.of_nat k) n) (ab_receipts b))).
  assert (Hgoal : (if bool_decide (ab_deliverCursor b ∈ (fun e => Some (te_id e)) <$> gone)
     then te_id <$> head (from o (Z.of_nat k) (ab_receipts b)) else ab_deliverCursor b) = cur).
  { rewrite Hcur. unfold cur. destruct (head (from o n (ab_receipts b))) as [e|] eqn:Hh.
    - assert (He : e ∈ from o n (ab_receipts b)) by (by apply head_Some_elem_of). apply elem_of_from in He as [Hoe He].
      destruct (decide (o e < Z.of_nat k)) as [Hlt|Hge].
      + rewrite bool_decide_true.
        2:{ apply list_elem_of_fmap. exists e. split; [done|]. by apply list_elem_of_filter. }
        rewrite Z.max_l by lia. done.
      + rewrite bool_decide_false.
        2:{ intros (e' & Heq & Hin)%list_elem_of_fmap. apply list_elem_of_filter in Hin as [? Hin]. simpl in Heq. injection Heq as Heq.
            assert (e = e') as ->; [|lia]. by apply (NoDup_fmap_elem te_id (ab_receipts b)); [apply Ht|..]. }
        rewrite (head_from o n (Z.max (Z.of_nat k) n)), Hh; [done|done|lia|]. rewrite Hh. lia.
    - rewrite bool_decide_false.
      2:{ intros (e' & Heq & _)%list_elem_of_fmap. done. }
      rewrite (head_from o n (Z.max (Z.of_nat k) n)), Hh; [done|done|lia|]. by rewrite Hh. }
  transitivity ((shifted k ms r b) <| ab_receipts := from o (Z.of_nat k) (ab_receipts b) |>
    <| ab_cells := if ack then acknowledged gone (ab_cells b) else ab_cells b |> <| ab_deliverCursor := cur |>); [|done].
  rewrite <-Hgoal. by destruct (bool_decide _).
Qed.

Lemma removed_track ms b k ack i rq A r :
  track_ok b -> residue_ok k ms r i rq A b -> (0 < k)%nat -> track_ok (removed k ack ms r b).
Proof.
  intros [H1 H2 H3 H4 H5 H6 H7 H8] Hr Hk.
  assert (Hkept : forall e, e ∈ kept_entries (Z.of_nat k) b -> e ∈ ab_receipts b /\ Z.of_nat k <= off b (te_seq e) /\
    off (removed k ack ms r b) (te_seq e) = off b (te_seq e) - Z.of_nat k).
  { intros e [Hoe He]%elem_of_from. split; [done|]. split; [done|]. exact (shifted_off ms b k r (te_seq e) Hoe). }
  assert (Hsub : forall {X} (f : trackedAdmission -> X), NoDup (f <$> ab_receipts b) ->
    NoDup (f <$> kept_entries (Z.of_nat k) b)).
  { intros X f Hnd. eapply sublist_NoDup; [exact Hnd|]. apply fmap_sublist, sublist_filter. }
  split.
  - intros e (He & Hge & Ho)%Hkept. rewrite Ho. destruct (H1 e He). simpl. split; [done|lia].
  - change (ab_receipts (removed k ack ms r b)) with (kept_entries (Z.of_nat k) b).
    assert (Hs : StronglySorted (fun e e' => off b (te_seq e) < off b (te_seq e')) (kept_entries (Z.of_nat k) b))
      by (by apply sorted_from). revert Hs Hkept. generalize (kept_entries (Z.of_nat k) b). clear. intros l Hs.
    induction Hs as [|e l Hs IH He]; intros Hkept; constructor.
    + apply IH. intros e' He'. apply Hkept. by right.
    + rewrite Forall_forall in *. intros e' He'. destruct (Hkept e) as (_ & _ & ->); [by left|].
      destruct (Hkept e') as (_ & _ & ->); [by right|]. specialize (He e' He'). simpl in He. lia.
  - by apply Hsub.
  - intros e (He & _)%Hkept. by apply H4.
  - by apply Hsub.
  - intros e Hke. destruct (Hkept e Hke) as (He & Hge & _). simpl. unfold dropped_cells.
    rewrite (decide_ext _ (te_seq e ∈ ab_retired b)).
    2:{ rewrite elem_of_filter. split; [tauto|]. intros. split; [lia|done]. }
    rewrite <-(H6 e He). destruct ack; [|done]. rewrite acknowledged_lookup, decide_False; [done|].
    intros [(e' & Heq & [Hlt He']%list_elem_of_filter)%list_elem_of_fmap _].
    assert (e = e') as <-; [by apply (NoDup_fmap_elem te_state (ab_receipts b))|]. lia.
  - intros e (He & _)%Hkept. by apply H7.
  - assert (Hf : filter (fun e => ab_nextIndexToDeliver (removed k ack ms r b) <= off (removed k ack ms r b) (te_seq e))
        (kept_entries (Z.of_nat k) b) = filter (fun e => Z.max (Z.of_nat k) (ab_nextIndexToDeliver b) <= off b (te_seq e))
        (kept_entries (Z.of_nat k) b)).
    { apply list_filter_iff'. intros e (He & Hge & ->)%Hkept. simpl. lia. }
    simpl ab_receipts. rewrite Hf. simpl ab_deliverCursor. do 2 f_equal. symmetry.
    unfold kept_entries. etrans; [apply (from_from (fun e => off b (te_seq e)))|]. f_equal. lia.
Qed.

(** Removing the first [k] slots with their receipts. *)
Lemma remove_spec ms b k ack i rq A :
  buf_ok ms b -> own i rq A b -> (0 < k <= length ms)%nat ->
  exists r, removePrefixLocked (Z.of_nat k - 1) b = Some (shifted k ms r b) /\
    dropReceiptsLocked (ab_firstSeqNum b) (Z.of_nat k - 1) ack (shifted k ms r b) = removed k ack ms r b /\
    residue_ok k ms r i rq A b /\ buf_ok (drop k ms) (removed k ack ms r b) /\ own i rq A (removed k ack ms r b).
Proof.
  intros [Hw Hst Hby Hre Htr Hli] Ho Hk. destruct (removePrefix_spec ms b k i rq A) as (r & Hr & Hok); [done..|].
  exists r. split; [done|]. split; [apply drop_receipts_eq; [done|lia]|]. split; [done|].
  split; [|exact (ro_own _ _ _ _ _ _ _ Hok)]. split.
  - assert (Hw' : win_ok (drop k ms) (shifted k ms r b)) by (by eapply shifted_win). frame Hw'.
  - assert (Hs' : store_ok (drop k ms) (shifted k ms r b)) by (by eapply shifted_store). frame Hs'.
  - assert (Hb' : bytes_at (seq_at b (Z.of_nat k)) (shifted k ms r b)) by (by eapply shifted_bytes). frame Hb'.
  - assert (Hr' : retired_ok (shifted k ms r b)) by (by eapply shifted_retired). frame Hr'.
  - eapply removed_track; [done|done|lia].
  - frame Hli.
Qed.

(** ** The head of retired slots *)

(** The run counts the retired slots from [i] on. *)
Lemma retiredRun_spec fuel b i :
  0 <= i -> ab_nextIndexFree b - i <= Z.of_nat fuel ->
  let n := retiredRun fuel b i in
  0 <= n /\ (n = 0 \/ i + n <= ab_nextIndexFree b) /\ (forall j, i <= j < i + n -> retired_at b j = true) /\
  (i + n < ab_nextIndexFree b -> retired_at b (i + n) = false).
Proof.
  revert i. induction fuel as [|fuel IH]; intros i Hi Hf; simpl.
  { split; [lia|]. split; [by left|]. split; lia. }
  destruct (decide (i < ab_nextIndexFree b)) as [Hlt|Hge].
  2:{ split; [lia|]. split; [by left|]. split; lia. }
  destruct (retired_at b i) eqn:Hr.
  2:{ split; [lia|]. split; [by left|]. split; [lia|]. intros _. by rewrite Z.add_0_r. }
  destruct (IH (i + 1)) as (I1 & I2 & I3 & I4); [lia|lia|]. split; [lia|]. split; [lia|]. split.
  - intros j Hj. destruct (decide (j = i)) as [->|]; [done|]. apply I3. lia.
  - intros Hn. rewrite <-I4 by lia. f_equal. lia.
Qed.

Lemma newRing_ok : ring_ok newRing.
Proof. by vm_compute. Qed.

Lemma ring_add_ok seq r : ring_ok r -> exists r', ring_add seq r = Some r' /\ ring_ok r'.
Proof.
  intros (H1 & H2 & H3 & H4). unfold ring_add. rewrite zset_Some by lia. eexists. split; [done|].
  split; simpl; [by rewrite length_insert|]. unfold releasedRetiredMemory in *.
  split; [case_decide; lia|]. split; [apply Z.mod_pos_bound; lia|].
  case_decide; [|lia]. intros ?. rewrite H4, Z.mod_small by lia. done.
Qed.

Lemma ring_add_from_ok n seq r : ring_ok r -> exists r', ring_add_from n seq r = Some r' /\ ring_ok r'.
Proof.
  revert seq r. induction n as [|n IH]; intros seq r Hr; simpl; [by exists r|].
  destruct (ring_add_ok seq r Hr) as (r1 & -> & Hr1). by apply IH.
Qed.

Lemma buf_ok_ring ms b ring : buf_ok ms b -> ring_ok ring -> buf_ok ms (b <| ab_releasedRetired := Some ring |>).
Proof.
  intros [Hw Hst Hby Hre Htr Hli] Hr. split; [frame Hw|frame Hst|frame Hby| |frame Htr|frame Hli].
  destruct Hre as [H1 H2 _]. split; [done|done|]. by intros r' [= <-].
Qed.

Lemma ring_default_ok b : retired_ok b -> ring_ok (default newRing (ab_releasedRetired b)).
Proof. intros Hre. destruct (ab_releasedRetired b) as [r|] eqn:Hr; simpl; [by apply (re_ring _ Hre)|apply newRing_ok]. Qed.

(** What the removal of the retired head leaves. *)
Inductive head_released ms b i rq A : nat -> AckBuffer B -> Prop :=
  | head_kept : head_released ms b i rq A 0 b
  | head_removed n r ring :
      (0 < n <= length ms)%nat -> (forall j, 0 <= j < Z.of_nat n -> retired_at b j = true) ->
      residue_ok n ms r i rq A (b <| ab_releasedRetired := Some ring |>) ->
      ring_add_from n (ab_firstSeqNum b) (default newRing (ab_releasedRetired b)) = Some ring ->
      head_released ms b i rq A n (removed n false ms r (b <| ab_releasedRetired := Some ring |>)).

Lemma releaseHead_spec ms b i rq A :
  buf_ok ms b -> own i rq A b ->
  exists n b', releaseRetiredHeadLocked b = Some b' /\ head_released ms b i rq A n b' /\
    buf_ok (drop n ms) b' /\ own i rq A b' /\ (ab_nextIndexFree b' <> 0 -> ab_firstSeqNum b' ∉ ab_retired b').
Proof.
  intros Hok Ho. pose proof Hok as [Hw Hst Hby Hre Htr Hli]. unfold releaseRetiredHeadLocked.
  pose proof (w_free _ _ Hw) as Hf. pose proof (w_len _ _ Hw) as Hlen. unfold max_slots in Hlen.
  destruct (decide (size (ab_retired b) = 0%nat)) as [Hz|Hz].
  { exists 0%nat, b. split; [done|]. split; [constructor|]. split; [done|]. split; [done|]. intros _.
    apply size_empty_inv in Hz. set_solver. }
  destruct (retiredRun_spec (Z.to_nat (ab_nextIndexFree b)) b 0) as (R1 & R2 & R3 & R4); [lia|lia|].
  set (n := retiredRun _ b 0) in *. rewrite Z.add_0_l in *.
  assert (Hlive : n < ab_nextIndexFree b -> seq_at b n ∉ ab_retired b).
  { intros Hlt. specialize (R4 Hlt). unfold retired_at in R4. by apply bool_decide_eq_false in R4. }
  destruct (decide (n = 0)) as [Hn|Hn].
  { exists 0%nat, b. split; [done|]. split; [constructor|]. split; [done|]. split; [done|]. intros Hne.
    assert (Hfirst : seq_at b n = ab_firstSeqNum b).
    { rewrite Hn. unfold seq_at, add64. rewrite Z.add_0_r. apply Z.mod_small, Hw. }
    rewrite <-Hfirst. apply Hlive. lia. }
  destruct (ring_add_from_ok (Z.to_nat n) (ab_firstSeqNum b) (default newRing (ab_releasedRetired b))) as (ring & Hring & Hrok);
    [by apply ring_default_ok|]. rewrite Hring, bind_ret.
  set (b1 := b <| ab_releasedRetired := Some ring |>).
  assert (En : n = Z.of_nat (Z.to_nat n)) by lia. rewrite En. set (k := Z.to_nat n) in *.
  destruct (remove_spec ms b1 k false i rq A) as (r & Hr & Hd & Hres & Hok' & Ho');
    [by apply buf_ok_ring|exact Ho|lia|].
  rewrite Hr, bind_ret. exists k, (removed k false ms r b1). split; [f_equal; exact Hd|].
  split; [apply head_removed; [lia|intros; apply R3; lia|done|done]|]. split; [done|]. split; [done|].
  simpl. intros Hne [Hx Hin]%elem_of_filter. change (seq_at b (Z.of_nat k) ∈ ab_retired b) in Hin.
  rewrite <-En in Hin. apply Hlive in Hin; [done|]. lia.
Qed.

(** Flags and unrelated fields across the removal of the head. *)
Lemma head_released_late ms b i rq A n b' : head_released ms b i rq A n b' -> flow_late b -> flow_late b'.
Proof. intros [|n' r ring Hn Hret Hres _] Hl; [done|]. exact (ro_late _ _ _ _ _ _ _ Hres Hl). Qed.

Lemma head_released_done ms b i rq A n b' : head_released ms b i rq A n b' -> (n = 0%nat -> flow_done b) -> flow_done b'.
Proof. intros [|n' r ring Hn Hret Hres _] Hl; [by apply Hl|]. exact (ro_done _ _ _ _ _ _ _ Hres). Qed.
End receipts.
