(* ===== verification/AckRing.v ===== *)
(** * The memory of released retired frames

    [releasedRetiredRing] as the list of the numbers it remembers, in the order
    in which they were released: at most [releasedRetiredMemory], the most recent
    ones. *)

From S2P Require Import Prelude Protocol SharedBudget AckBuffer AckInv AckReceipts.

(** The [n] numbers from [x] on. *)
Definition numbers_from (n : nat) (x : Z) : list Z := (fun j => add64 x (Z.of_nat j)) <$> seq 0 n.

(** The numbers from [x] up to [y], without [y]. *)
Definition numbers (x y : Z) : list Z := numbers_from (Z.to_nat (sub64 y x)) x.

(** The most recent ones of [l]. *)
Definition recent (l : list Z) : list Z := drop (length l - Z.to_nat releasedRetiredMemory) l.

Definition ring_list (r : releasedRetiredRing) : list Z :=
  if decide (rr_n r < releasedRetiredMemory) then take (Z.to_nat (rr_n r)) (rr_seqs r)
  else drop (Z.to_nat (rr_next r)) (rr_seqs r) ++ take (Z.to_nat (rr_next r)) (rr_seqs r).

Lemma recent_short l : (length l <= Z.to_nat releasedRetiredMemory)%nat -> recent l = l.
Proof. intros Hl. unfold recent. by replace (length l - _)%nat with 0%nat by lia. Qed.

Lemma recent_app l l' : recent (recent l ++ l') = recent (l ++ l').
Proof.
  unfold recent. set (k := Z.to_nat releasedRetiredMemory). set (d := (length l - k)%nat).
  assert (Hd : drop d l ++ l' = drop d (l ++ l')) by (rewrite drop_app_le; [done|lia]).
  rewrite Hd, drop_drop. f_equal. rewrite !length_drop, length_app. lia.
Qed.

Lemma numbers_from_S n x : is_u64 x -> numbers_from (S n) x = x :: numbers_from n (add64 x 1).
Proof.
  intros Hx. unfold numbers_from. simpl. f_equal; [unfold is_u64 in Hx; u64_lia|].
  rewrite <-fmap_S_seq, <-list_fmap_compose. apply list_fmap_ext. intros i j _. simpl. unfold add64.
  rewrite Zplus_mod_idemp_l. f_equal. lia.
Qed.

Lemma ring_length r : ring_ok r -> (length (ring_list r) <= Z.to_nat releasedRetiredMemory)%nat.
Proof.
  intros (H1 & H2 & H3 & _). unfold ring_list. case_decide; [rewrite length_take|rewrite length_app, length_drop, length_take]; lia.
Qed.

Lemma ring_has_list seq r : ring_ok r -> ring_has seq r = true <-> seq ∈ ring_list r.
Proof.
  intros (H1 & H2 & H3 & _). unfold ring_has, ring_list. rewrite bool_decide_eq_true. case_decide; [done|].
  rewrite take_ge by lia. rewrite elem_of_app, <-(take_drop (Z.to_nat (rr_next r)) (rr_seqs r)) at 1.
  rewrite elem_of_app. tauto.
Qed.

Lemma ring_add_list x r r' : ring_ok r -> ring_add x r = Some r' -> ring_list r' = recent (ring_list r ++ [x]).
Proof.
  intros Hok. pose proof Hok as (H1 & H2 & H3 & H4). unfold ring_add. rewrite zset_Some by lia. intros [= <-].
  unfold ring_list. simpl. unfold releasedRetiredMemory in *. destruct (decide (rr_n r < 64)) as [Hlt|Hge].
  - rewrite H4 by done. set (n := rr_n r) in *.
    assert (Ht : take (Z.to_nat (n + 1)) (<[Z.to_nat n := x]> (rr_seqs r)) = take (Z.to_nat n) (rr_seqs r) ++ [x]).
    { replace (Z.to_nat (n + 1)) with (S (Z.to_nat n)) by lia.
      rewrite (take_S_r _ _ x) by (apply list_lookup_insert_eq; lia). by rewrite take_insert_ge by lia. }
    rewrite recent_short by (rewrite length_app, length_take; unfold releasedRetiredMemory; simpl; lia).
    case_decide; [done|]. assert (n = 63) as Hn by lia. rewrite <-Ht, Hn. simpl. rewrite app_nil_r, take_ge; [done|].
    rewrite length_insert. lia.
  - rewrite decide_False by lia. assert (Hn : rr_n r = 64) by lia. clear Hge. set (k := Z.to_nat (rr_next r)).
    assert (Hk : (k < length (rr_seqs r))%nat) by lia.
    destruct (lookup_lt_is_Some_2 (rr_seqs r) k Hk) as [y Hy].
    assert (Hr : recent ((drop k (rr_seqs r) ++ take k (rr_seqs r)) ++ [x]) = drop (S k) (rr_seqs r) ++ take k (rr_seqs r) ++ [x]).
    { unfold recent, releasedRetiredMemory. rewrite !length_app, length_drop, length_take. simpl.
      replace (_ - _)%nat with 1%nat by lia. rewrite (drop_S _ y k Hy). simpl. by rewrite drop_0, <-app_assoc. }
    rewrite Hr, insert_take_drop by done. set (s := rr_seqs r) in *.
    assert (Hlen : length (take k s) = k) by (rewrite length_take; lia).
    destruct (decide (rr_next r = 63)) as [Hlast|Hlast].
    + rewrite Hlast. change (Z.to_nat ((63 + 1) mod 64)) with 0%nat.
      rewrite drop_0, take_0, app_nil_r, (drop_ge s (S k)) by lia. done.
    + rewrite Z.mod_small by lia. replace (Z.to_nat (rr_next r + 1)) with (length (take k s) + 1)%nat by lia.
      by rewrite drop_app_add, take_app_add.
Qed.

Lemma ring_add_from_list n x r r' :
  ring_ok r -> is_u64 x -> ring_add_from n x r = Some r' -> ring_list r' = recent (ring_list r ++ numbers_from n x).
Proof.
  revert x r. induction n as [|n IH]; intros x r Hr Hx; simpl.
  { intros [= <-]. rewrite app_nil_r, recent_short; [done|by apply ring_length]. }
  destruct (ring_add_ok x r Hr) as (r1 & H1 & Hr1). rewrite H1. simpl. intros H2.
  rewrite (IH _ _ Hr1 (add64_range _ _) H2), (ring_add_list x r r1 Hr H1), recent_app, <-app_assoc.
  by rewrite numbers_from_S by done.
Qed.
