(* ===== verification/AckRetire.v ===== *)
(** * Retirement of frames that used up their transmissions

    [retireLocked] replaces a slot by a placeholder with the same sequence
    number, marks its receipt and returns its byte charge; [ResetDelivery]
    retires every exhausted frame and starts delivery again at the head. *)

From S2P Require Import Prelude ByteBudget Event Protocol SharedBudget AckBuffer AckInv AckRemove AckReceipts.

Lemma sorted_inj {A} (o : A -> Z) l x y :
  StronglySorted (fun x y => o x < o y) l -> x ∈ l -> y ∈ l -> o x = o y -> x = y.
Proof.
  induction 1 as [|z l Hs IH Hz]; [by intros ?%not_elem_of_nil|]. rewrite Forall_forall in Hz.
  intros [->|Hx]%elem_of_cons [->|Hy]%elem_of_cons Ho; [done| | |by apply IH].
  - specialize (Hz y Hy). simpl in Hz. lia.
  - specialize (Hz x Hx). simpl in Hz. lia.
Qed.

Lemma NoDup_list_insert {A} (l : list A) i x : NoDup l -> x ∉ l -> NoDup (<[i := x]> l).
Proof.
  rewrite !NoDup_alt. intros Hnd Hx j k y.
  assert (Hn : forall j, l !! j <> Some x) by (intros j' Hj; by apply Hx, (list_elem_of_lookup_2 _ j')).
  rewrite !list_lookup_insert_Some. intros [(<- & <- & Hi)|[Hj Hy]] [(<- & Hy' & Hi')|[Hk Hy']]; [done|..].
  - by destruct (Hn k).
  - subst. by destruct (Hn j).
  - by eapply Hnd.
Qed.

Section retire.
Context {B : Type} `{SharedBudgetLaws B}.
Implicit Types (b : AckBuffer B) (ms : list maddr).

Lemma off_inj b s s' : is_u64 s -> is_u64 s' -> off b s = off b s' -> s = s'.
Proof. unfold off. u64_lia. Qed.

Lemma off_u64 b s : 0 <= off b s < W64.
Proof. apply sub64_u64. Qed.

Lemma seq_at_off b s : is_u64 s -> seq_at b (off b s) = s.
Proof. unfold seq_at, off. u64_lia. Qed.

Lemma off_seq_at b j : is_u64 j -> off b (seq_at b j) = j.
Proof. unfold seq_at, off. u64_lia. Qed.

(** A tracked entry is determined by its sequence number. *)
Lemma track_seq b e e' : track_ok b -> e ∈ ab_receipts b -> e' ∈ ab_receipts b -> te_seq e = te_seq e' -> e = e'.
Proof.
  intros Ht He He' Heq. apply (sorted_inj (fun e => off b (te_seq e)) (ab_receipts b)); [apply Ht|done|done|by rewrite Heq].
Qed.

(** ** One slot *)

Definition retired_state (j : nat) ms (e : trackedAdmission) (bytes esc : Z) (s : B) b : AckBuffer B :=
  b <| ab_cells ::= <[te_state e := ReceiptRetired]> |>
    <| ab_buff := slots (<[j := ab_next b]> ms) (length (ab_buff b)) |>
    <| ab_msgs ::= <[ab_next b := placeholder (te_seq e)]> |> <| ab_next ::= S |>
    <| ab_retired ::= union {[te_seq e]} |> <| ab_sizes := <[j := 0]> (ab_sizes b) |>
    <| ab_bytes := bytes |> <| ab_escapeBytes := esc |> <| ab_shared := s |>
    <| ab_lastFlaggedSeq := if decide (ab_lastFlaggedSeq b = te_seq e) then 0 else ab_lastFlaggedSeq b |>
    <| ab_chans := woken b |> <| ab_wake := None |>.

(** What the release of one slot's charge leaves. *)
Record charge_left (j : nat) (seq bytes esc : Z) (s : B) i rq A b : Prop := {
  cl_bytes : bytes = if ab_isClosed b then 0 else sumZ (<[j := 0]> (ab_sizes b));
  cl_escape : esc <> 0 -> esc = ab_escapeBytes b /\ ab_escapeSeq b <> seq;
  cl_present : sb_present s = sb_present (ab_shared b);
  cl_own : sb_holds (<[i := Account (ab_group b) (ab_registered b) bytes esc rq]> A) s;
}.

(** The byte part of [retireLocked], on a buffer that accounts. *)
Lemma retire_charge b j seq size i rq A :
  bytes_at (ab_firstSeqNum b) b -> own i rq A b -> is_u64 seq -> off b seq = Z.of_nat j -> ab_sizes b !! j = Some size ->
  exists n e s, n = (if decide (size > ab_bytes b) then ab_bytes b else size) /\
    e = (if decide (ab_escapeBytes b <> 0 /\ ab_escapeSeq b = seq) then ab_escapeBytes b else 0) /\
    sb_releaseFor n e (ab_group b) (ab_shared b) = Some s /\
    charge_left j seq (sub64 (ab_bytes b) n) (ab_escapeBytes b - e) s i rq A b.
Proof.
  intros [H1 H2 H3 H4 H5 H6 H7] Ho Hu Hoff Hj.
  pose proof (sumZ_lookup _ _ _ H3 Hj) as Hsz. pose proof (sumZ_insert _ _ _ 0 Hj) as Hins.
  set (n := if decide (size > ab_bytes b) then ab_bytes b else size).
  set (e := if decide (ab_escapeBytes b <> 0 /\ ab_escapeSeq b = seq) then ab_escapeBytes b else 0).
  assert (Hn : n = if ab_isClosed b then 0 else size).
  { unfold n. rewrite H4. destruct (ab_isClosed b); case_decide; lia. }
  assert (Hle : 0 <= n <= ab_bytes b) by (rewrite Hn, H4; destruct (ab_isClosed b); lia).
  assert (Hb : ab_bytes b - n = if ab_isClosed b then 0 else sumZ (<[j := 0]> (ab_sizes b))).
  { rewrite Hn, H4, Hins. destruct (ab_isClosed b); lia. }
  assert (Hesc : 0 <= e <= ab_escapeBytes b /\ e <= n /\ 0 <= ab_escapeBytes b - e <= ab_bytes b - n /\
    (ab_escapeBytes b - e <> 0 -> e = 0 /\ ab_escapeSeq b <> seq)).
  { unfold e. destruct (decide (ab_escapeBytes b = 0)) as [Hz|Hz].
    { rewrite Hz. rewrite decide_False by tauto. lia. }
    destruct (H7 Hz) as (Hc & _ & Hu' & Hz'). apply zget_Some in Hz' as [Ho0 Hz'].
    pose proof (sumZ_lookup _ _ _ H3 Hz') as Hez. rewrite Hc in *.
    destruct (decide (ab_escapeBytes b <> 0 /\ ab_escapeSeq b = seq)) as [[_ Heq]|Hne].
    - assert (size = ab_escapeBytes b); [|lia]. unfold off in Hoff. rewrite Heq, Hoff, Nat2Z.id in Hz'. congruence.
    - assert (Hd : ab_escapeSeq b <> seq) by tauto.
      assert (Hij : Z.to_nat (sub64 (ab_escapeSeq b) (ab_firstSeqNum b)) <> j).
      { intros Heq. apply Hd, (off_inj b); [done|done|]. unfold off in *. lia. }
      assert (Hin : <[j := 0]> (ab_sizes b) !! Z.to_nat (sub64 (ab_escapeSeq b) (ab_firstSeqNum b)) = Some (ab_escapeBytes b)).
      { by rewrite list_lookup_insert_ne by done. }
      apply sumZ_lookup in Hin; [|by apply Forall_insert]. lia. }
  destruct Hesc as (He1 & He2 & He3 & He4).
  destruct (own_release i rq A b n e) as (s & Hs & Hp & Hh); [done|lia|lia|lia|lia|].
  exists n, e, s. split; [done|]. split; [done|]. split; [exact Hs|]. assert (Hsub : sub64 (ab_bytes b) n = ab_bytes b - n).
  { apply sub64_small; [lia|lia|]. rewrite H4. destruct (ab_isClosed b); lia. }
  rewrite Hsub. split; [done| |done|done]. intros Hne. destruct (He4 Hne) as [He0 ?]. split; [lia|done].
Qed.

Lemma retire_eq ms b e i rq A :
  win_ok ms b -> store_ok ms b -> bytes_at (ab_firstSeqNum b) b -> own i rq A b ->
  is_u64 (te_seq e) -> off b (te_seq e) < ab_nextIndexFree b ->
  let j := Z.to_nat (off b (te_seq e)) in
  exists bytes esc s, retireLocked (off b (te_seq e)) e b = Some (retired_state j ms e bytes esc s b) /\
    charge_left j (te_seq e) bytes esc s i rq A b.
Proof.
  intros Hw Hst Hby Ho Hu Hlt j. pose proof (off_u64 b (te_seq e)) as Hoff. pose proof (w_free _ _ Hw) as Hf.
  pose proof (w_len _ _ Hw) as Hlen. unfold retireLocked. cbn [with_field set_ab_cells].
  assert (Hset : zset (ab_buff b) (off b (te_seq e)) (Some (ab_next b)) =
    Some (slots (<[j := ab_next b]> ms) (length (ab_buff b)))).
  { rewrite zset_Some by lia. rewrite (w_buff _ _ Hw) at 1. fold j. rewrite slots_set by lia. done. }
  simpl. rewrite Hset, bind_ret. simpl.
  destruct (ab_accounting b) eqn:Ha; simpl.
  - pose proof (ba_sizes _ _ Hby Ha) as Hs. rewrite bool_decide_true by lia.
    destruct (lookup_lt_is_Some_2 (ab_sizes b) j) as [size Hsize]; [lia|].
    assert (Hget : zget (ab_sizes b) (off b (te_seq e)) = Some size) by (apply zget_Some; split; [lia|done]).
    rewrite Hget, bind_ret, zset_Some, bind_ret by lia. fold j. simpl.
    destruct (retire_charge b j (te_seq e) size i rq A) as (n & es & s & Hn & He & Hrel & Hcl); [done|done|done|lia|done|].
    rewrite <-Hn. exists (sub64 (ab_bytes b) n), (ab_escapeBytes b - es), s. split; [|done].
    destruct (decide (ab_escapeBytes b <> 0 /\ ab_escapeSeq b = te_seq e)); subst es; unfold releaseShared; simpl;
      rewrite Hrel, bind_ret; unfold retired_state; simpl; destruct (decide (ab_lastFlaggedSeq b = te_seq e));
      rewrite signal_eq by exact (st_wake _ _ Hst); rewrite ?Z.sub_diag, ?Z.sub_0_r; reflexivity.
  - destruct (ba_off _ _ Hby Ha) as (Hs & He & Hp). pose proof (ba_sum _ _ Hby) as Hsum. rewrite Hs in Hsum. simpl in Hsum.
    assert (Hi : <[j := 0]> (ab_sizes b) = ab_sizes b) by (by rewrite Hs).
    exists (ab_bytes b), (ab_escapeBytes b), (ab_shared b). split.
    + unfold retired_state. simpl. destruct (decide (ab_lastFlaggedSeq b = te_seq e));
        rewrite signal_eq by exact (st_wake _ _ Hst); rewrite Hi; reflexivity.
    + split; [by rewrite Hs|by rewrite He|done|exact Ho].
Qed.

(** The message store after one slot was retired: the slot holds a fresh placeholder of its own sequence. *)
Lemma retired_store ms b e bytes esc s :
  buf_ok ms b -> e ∈ ab_receipts b ->
  let j := Z.to_nat (off b (te_seq e)) in
  store_ok (<[j := ab_next b]> ms) (retired_state j ms e bytes esc s b).
Proof.
  intros [Hw Hst Hby Hre Htr Hli] He j. destruct (tr_window _ Htr e He) as [Hu Hlt].
  pose proof (off_u64 b (te_seq e)) as Hoff. pose proof (w_free _ _ Hw) as Hf.
  assert (Hj : (j < length ms)%nat) by lia.
  destruct Hst as [S1 S2 S3 S4 S5].
  assert (Hfresh : forall a, a ∈ ms -> a <> ab_next b).
  { intros a [k Hk]%list_elem_of_lookup ->. destruct (S2 k _ Hk) as (m & Hm & _).
    specialize (S3 (ab_next b)). rewrite Hm in S3. destruct (Nat.lt_irrefl (ab_next b)). by apply S3. }
  split; simpl.
  - apply NoDup_list_insert; [done|]. by intros ?%Hfresh.
  - intros k a Hk. destruct (decide (k = j)) as [->|Hne].
    + rewrite list_lookup_insert_eq in Hk by done. injection Hk as <-. rewrite lookup_insert_eq. eexists. split; [done|].
      simpl. rewrite <-(seq_at_off b (te_seq e) Hu) at 1. unfold seq_at. simpl. f_equal. lia.
    + rewrite list_lookup_insert_ne in Hk by done. rewrite lookup_insert_ne; [by apply S2|].
      intros Heq. by apply (Hfresh a); [by eapply list_elem_of_lookup_2|].
  - intros a [<-|[_ Ha%S3]]%lookup_insert_is_Some; lia.
  - intros c Hc. assert (c < ab_next b)%nat; [|lia]. by eapply (woken_fresh ms b).
  - done.
Qed.

(** Its byte accounting. *)
Lemma retired_bytes ms b e bytes esc s i rq A :
  buf_ok ms b -> e ∈ ab_receipts b ->
  let j := Z.to_nat (off b (te_seq e)) in
  charge_left j (te_seq e) bytes esc s i rq A b ->
  bytes_at (ab_firstSeqNum b) (retired_state j ms e bytes esc s b).
Proof.
  intros [Hw Hst Hby Hre Htr Hli] He j Hcl. destruct (tr_window _ Htr e He) as [Hu Hlt].
  pose proof (off_u64 b (te_seq e)) as Hoff. pose proof (w_free _ _ Hw) as Hf.
  assert (Hj : (j < length ms)%nat) by lia.
  destruct Hby as [H1 H2 H3 H4 H5 H6 H7]. split; simpl.
  - by rewrite length_insert.
  - intros Ha. destruct (H2 Ha) as (Hs & Hz & Hp). rewrite Hs, (cl_present _ _ _ _ _ _ _ _ _ Hcl). split; [done|]. split; [|done].
    destruct (decide (esc = 0)); [done|]. destruct (cl_escape _ _ _ _ _ _ _ _ _ Hcl); congruence.
  - by apply Forall_insert.
  - apply Hcl.
  - destruct (ab_sizes b !! j) as [z|] eqn:Hz.
    + rewrite (sumZ_insert _ _ _ 0 Hz). pose proof (sumZ_lookup _ _ _ H3 Hz). lia.
    + rewrite list_insert_ge by (by apply lookup_ge_None). done.
  - done.
  - intros Hne. destruct (cl_escape _ _ _ _ _ _ _ _ _ Hcl Hne) as [-> Hd]. destruct (H7 Hne) as (? & ? & Hu' & Hz).
    split; [done|]. split; [done|]. split; [done|]. apply zget_Some in Hz as [? Hz]. apply zget_Some. split; [done|].
    rewrite list_lookup_insert_ne; [done|]. intros Heq. apply Hd, (off_inj b); [done|done|]. unfold off in *. lia.
Qed.

(** Its retired set. *)
Lemma retired_set ms b e bytes esc s :
  buf_ok ms b -> e ∈ ab_receipts b ->
  let j := Z.to_nat (off b (te_seq e)) in
  retired_ok (retired_state j ms e bytes esc s b).
Proof.
  intros [Hw Hst Hby Hre Htr Hli] He j. destruct (tr_window _ Htr e He) as [Hu Hlt].
  pose proof (off_u64 b (te_seq e)) as Hoff. pose proof (w_free _ _ Hw) as Hf.
  assert (Hj : (j < length ms)%nat) by lia.
  destruct Hre as [R1 R2 R3]. split; simpl; [| |done].
  - intros seq [->%elem_of_singleton|Hin]%elem_of_union; [done|by apply R1].
  - intros seq Hin Ha. apply zget_Some. split; [apply off_u64|]. pose proof (ba_sizes _ _ Hby Ha) as Hs.
    destruct (decide (Z.to_nat (off b seq) = j)) as [Hq|Hq].
    + change (off (retired_state j ms e bytes esc s b) seq) with (off b seq). rewrite Hq. apply list_lookup_insert_eq. lia.
    + change (off (retired_state j ms e bytes esc s b) seq) with (off b seq). rewrite list_lookup_insert_ne by done.
      apply elem_of_union in Hin as [->%elem_of_singleton|Hin]; [done|].
      specialize (R2 seq Hin Ha). by apply zget_Some in R2 as [_ ?].
Qed.

(** Its tracked admissions. *)
Lemma retired_track ms b e bytes esc s :
  buf_ok ms b -> e ∈ ab_receipts b ->
  let j := Z.to_nat (off b (te_seq e)) in
  track_ok (retired_state j ms e bytes esc s b).
Proof.
  intros [Hw Hst Hby Hre Htr Hli] He j. destruct (tr_window _ Htr e He) as [Hu Hlt].
  pose proof (off_u64 b (te_seq e)) as Hoff. pose proof (w_free _ _ Hw) as Hf.
  assert (Hj : (j < length ms)%nat) by lia.
  pose proof Htr as [T1 T2 T3 T4 T5 T6 T7 T8]. split; try assumption; simpl.
  - intros e' He'%T4. lia.
  - intros e' He'. destruct (decide (te_seq e' = te_seq e)) as [Heq|Hne].
    + rewrite (track_seq b e' e Htr He' He Heq), lookup_insert_eq. rewrite decide_True by set_solver. done.
    + rewrite lookup_insert_ne.
      2:{ intros Heq. apply Hne. f_equal. symmetry. by apply (NoDup_fmap_elem te_state (ab_receipts b)). }
      etrans; [exact (T6 e' He')|]. f_equal. apply decide_ext. set_solver.
Qed.

(** The invariant after one slot was retired. *)
Lemma retired_state_ok ms b e bytes esc s i rq A :
  buf_ok ms b -> e ∈ ab_receipts b ->
  let j := Z.to_nat (off b (te_seq e)) in
  charge_left j (te_seq e) bytes esc s i rq A b ->
  buf_ok (<[j := ab_next b]> ms) (retired_state j ms e bytes esc s b).
Proof.
  intros Hok He j Hcl. pose proof Hok as [Hw Hst Hby Hre Htr Hli]. pose proof (tr_window _ Htr e He) as [_ Hlt].
  pose proof (off_u64 b (te_seq e)) as Hoff. pose proof (w_free _ _ Hw) as Hf. pose proof (w_len _ _ Hw) as Hlen.
  assert (Hbl : length (slots (<[j := ab_next b]> ms) (length (ab_buff b))) = length (ab_buff b)).
  { apply slots_length. rewrite length_insert. lia. }
  split; [|by apply retired_store|by apply (retired_bytes ms b e bytes esc s i rq A)|by apply retired_set|by apply retired_track|frame Hli].
  destruct Hw. split; try assumption; simpl; rewrite ?length_insert, ?Hbl; done.
Qed.

(** ** Several slots *)

(** [b] with the fields that retirement may change taken from [b']. *)
Definition retire_frame b b' : AckBuffer B :=
  b <| ab_cells := ab_cells b' |> <| ab_buff := ab_buff b' |> <| ab_msgs := ab_msgs b' |> <| ab_next := ab_next b' |>
    <| ab_retired := ab_retired b' |> <| ab_sizes := ab_sizes b' |> <| ab_bytes := ab_bytes b' |>
    <| ab_escapeBytes := ab_escapeBytes b' |> <| ab_shared := ab_shared b' |>
    <| ab_lastFlaggedSeq := ab_lastFlaggedSeq b' |> <| ab_chans := ab_chans b' |> <| ab_wake := ab_wake b' |>.

(** The slots with sequence numbers [X] were retired and nothing else changed. *)
Record retires (X : gset Z) ms b ms' b' : Prop := {
  rt_frame : b' = retire_frame b b';
  rt_length : length ms' = length ms;
  rt_slots i : seq_at b (Z.of_nat i) ∉ X -> ms' !! i = ms !! i;
  rt_retired : ab_retired b' = X ∪ ab_retired b;
  rt_msgs a m : ab_msgs b !! a = Some m -> ab_msgs b' !! a = Some m;
  rt_cells c : ab_cells b' !! c = ab_cells b !! c \/
    (ab_cells b' !! c = Some ReceiptRetired /\
     exists e, e ∈ ab_receipts b /\ te_state e = c /\ te_seq e ∈ X);
  rt_buff : length (ab_buff b') = length (ab_buff b);
  rt_wake c : ab_wake b = Some c -> ab_wake b' = Some c \/ ab_chans b' !! c = Some true;
  rt_closed c : ab_chans b !! c = Some true -> ab_chans b' !! c = Some true;
  rt_present : sb_present (ab_shared b') = sb_present (ab_shared b);
  rt_flagged : ab_lastFlaggedSeq b' = if decide (ab_lastFlaggedSeq b ∈ X) then 0 else ab_lastFlaggedSeq b;
  (** a retirement wakes whoever waits *)
  rt_quiet : (X = ∅ /\ b' = b) \/ (X <> ∅ /\ ab_wake b' = None);
}.

Lemma retires_refl ms b : retires ∅ ms b ms b.
Proof. split; try done; [by rewrite (left_id_L ∅ _)|by left..]. Qed.

Lemma retires_first X ms b ms' b' : retires X ms b ms' b' -> ab_firstSeqNum b' = ab_firstSeqNum b.
Proof. intros Hrt. by rewrite (rt_frame _ _ _ _ _ Hrt). Qed.

Lemma retires_receipts X ms b ms' b' : retires X ms b ms' b' -> ab_receipts b' = ab_receipts b.
Proof. intros Hrt. by rewrite (rt_frame _ _ _ _ _ Hrt). Qed.

Lemma retires_trans X Y ms b ms1 b1 ms2 b2 :
  retires X ms b ms1 b1 -> retires Y ms1 b1 ms2 b2 -> retires (Y ∪ X) ms b ms2 b2.
Proof.
  intros H1 H2. pose proof (retires_first _ _ _ _ _ H1) as Hf. pose proof (retires_receipts _ _ _ _ _ H1) as Hrc.
  destruct H1 as [F1 L1 S1 R1 M1 C1 B1 W1 K1 P1 G1 Q1], H2 as [F2 L2 S2 R2 M2 C2 B2 W2 K2 P2 G2 Q2]. split.
  - rewrite F2 at 1. rewrite F1. reflexivity.
  - congruence.
  - intros i Hn. rewrite S2; [apply S1; set_solver|]. unfold seq_at in *. rewrite Hf. set_solver.
  - rewrite R2, R1. apply assoc_L, _.
  - auto.
  - intros c. rewrite Hrc in C2. destruct (C2 c) as [E2|(E2 & e & He & Hc & Hx)].
    + rewrite E2. destruct (C1 c) as [E1|(E1 & e & He & Hc & Hx)]; [by left|]. right. split; [done|]. exists e. set_solver.
    + right. split; [done|]. exists e. set_solver.
  - congruence.
  - intros c Hc. destruct (W1 c Hc) as [Hw|Hw]; [by apply W2|right; by apply K2].
  - auto.
  - congruence.
  - rewrite G2, G1. repeat case_decide; set_solver.
  - destruct Q2 as [[-> ->]|[? ?]]; [|right; split; [set_solver|done]].
    destruct Q1 as [[-> ->]|[? ?]]; [left; split; [set_solver|done]|right; split; [set_solver|done]].
Qed.

Lemma retired_state_retires ms b e bytes esc s :
  win_ok ms b -> store_ok ms b -> is_u64 (te_seq e) -> off b (te_seq e) < ab_nextIndexFree b -> e ∈ ab_receipts b ->
  sb_present s = sb_present (ab_shared b) ->
  let j := Z.to_nat (off b (te_seq e)) in
  retires {[te_seq e]} ms b (<[j := ab_next b]> ms) (retired_state j ms e bytes esc s b).
Proof.
  intros Hw Hst Hu Hlt He Hp j. pose proof (off_u64 b (te_seq e)). split; try done; simpl.
  - by rewrite length_insert.
  - intros i Hn. rewrite list_lookup_insert_ne; [done|]. intros Heq. apply Hn, elem_of_singleton.
    rewrite <-Heq. unfold j. rewrite Z2Nat.id by lia. by apply seq_at_off.
  - intros a m Ha. rewrite lookup_insert_ne; [done|]. intros <-.
    destruct (Nat.lt_irrefl (ab_next b)). apply (st_fresh_m _ _ Hst). by eexists.
  - intros c. destruct (decide (c = te_state e)) as [->|Hne].
    + right. rewrite lookup_insert_eq. split; [done|]. exists e. set_solver.
    + left. by rewrite lookup_insert_ne.
  - apply slots_length. rewrite length_insert. pose proof (w_free _ _ Hw). pose proof (w_len _ _ Hw). lia.
  - intros c Hc. right. by apply woken_closed.
  - intros c Hc. unfold woken. destruct (ab_wake b) as [c'|] eqn:Hw'; [|done].
    rewrite lookup_insert_ne; [done|]. intros ->. rewrite (st_wake _ _ Hst c Hw') in Hc. done.
  - apply decide_ext. set_solver.
  - right. split; [set_solver|done].
Qed.

(** A frame that used up its transmissions. *)
Definition exhausted (e : trackedAdmission) : bool := bool_decide (te_max e <> 0 /\ te_sends e >= te_max e).

Definition exhausted_seqs (l : list trackedAdmission) : gset Z := list_to_set (te_seq <$> filter (fun e => exhausted e) l).

Lemma retireAll_spec l ms b i rq A :
  buf_ok ms b -> own i rq A b -> (forall e, e ∈ l -> e ∈ ab_receipts b) ->
  exists ms' b', retireAll l b = Some b' /\ buf_ok ms' b' /\ own i rq A b' /\
    retires (exhausted_seqs l ∖ ab_retired b) ms b ms' b'.
Proof.
  revert ms b. induction l as [|e l IH]; intros ms b Hok Ho Hl.
  { exists ms, b. split; [done|]. split; [done|]. split; [done|].
    assert (Hz : exhausted_seqs [] ∖ ab_retired b = ∅) by set_solver. rewrite Hz. apply retires_refl. }
  simpl. unfold retireExhausted.
  assert (Hstep : exists ms1 b1 X, (if decide (te_max e = 0 \/ te_sends e < te_max e) then Some b
      else if decide (te_seq e ∈ ab_retired b) then Some b
      else retireLocked (sub64 (te_seq e) (ab_firstSeqNum b)) e b) = Some b1 /\ buf_ok ms1 b1 /\ own i rq A b1 /\
      retires X ms b ms1 b1 /\ X = (if exhausted e then {[te_seq e]} else ∅) ∖ ab_retired b).
  { assert (Hkeep : forall X, X = ∅ -> exists ms1 b1 X', Some b = Some b1 /\ buf_ok ms1 b1 /\ own i rq A b1 /\
      retires X' ms b ms1 b1 /\ X' = X).
    { intros X ->. exists ms, b, ∅. by split_and!; [| | |apply retires_refl|]. }
    destruct (decide (te_max e = 0 \/ te_sends e < te_max e)) as [Hx|Hx].
    { apply Hkeep. unfold exhausted. rewrite bool_decide_false by lia. set_solver. }
    assert (Hex : exhausted e = true) by (apply bool_decide_eq_true; lia). rewrite Hex.
    destruct (decide (te_seq e ∈ ab_retired b)) as [Hin|Hin]; [apply Hkeep; set_solver|].
    pose proof Hok as [Hw Hst Hby Hre Htr Hli]. assert (He : e ∈ ab_receipts b) by (apply Hl; by left).
    destruct (tr_window _ Htr e He) as [Hu Hlt].
    destruct (retire_eq ms b e i rq A) as (bytes & esc & s & Hr & Hcl); [done..|].
    eexists _, _, {[te_seq e]}. split; [exact Hr|]. split; [by eapply retired_state_ok|].
    split; [exact (cl_own _ _ _ _ _ _ _ _ _ Hcl)|]. split; [apply retired_state_retires; try done; apply Hcl|]. set_solver. }
  destruct Hstep as (ms1 & b1 & X & Hs & Hok1 & Ho1 & Hrt1 & HX). rewrite Hs, bind_ret.
  destruct (IH ms1 b1) as (ms' & b' & -> & Hok' & Ho' & Hrt'); [done|done| |].
  { intros e' He'. rewrite (retires_receipts _ _ _ _ _ Hrt1). apply Hl. by right. }
  exists ms', b'. split; [done|]. split; [done|]. split; [done|].
  assert (Hset : exhausted_seqs (e :: l) ∖ ab_retired b = (exhausted_seqs l ∖ ab_retired b1) ∪ X).
  { rewrite (rt_retired _ _ _ _ _ Hrt1), HX. unfold exhausted_seqs. rewrite filter_cons. destruct (exhausted e).
    - rewrite decide_True by done. rewrite fmap_cons. set_unfold. intros x.
      destruct (decide (x ∈ ab_retired b)), (decide (x = te_seq e)); naive_solver.
    - rewrite decide_False by (by intros ?). set_solver. }
  rewrite Hset. by eapply retires_trans.
Qed.
End retire.
