(* ===== verification/AckDeliver.v ===== *)
(** * Delivery

    [GetNextToDeliver] hands out the first live slot at or after the delivery
    index and moves past it; [ResetDelivery] starts again at the head.  A frame
    still to be delivered has transmissions left, so the pre-send check of the
    delivery loop never fires. *)

From S2P Require Import Prelude ByteBudget Event Protocol SharedBudget AckBuffer AckInv AckRemove AckReceipts AckRetire.

(** ** The tracked entries as linked nodes *)

Lemma node_at_head (o : trackedAdmission -> Z) n l e :
  StronglySorted (fun e e' => o e < o e') l -> NoDup (te_id <$> l) -> head (from o n l) = Some e ->
  node_at (te_id e) l = Some (e, te_id <$> head (from o (o e + 1) l)).
Proof.
  induction 1 as [|x l Hs IH Hx]; intros Hnd Hh; [done|]. rewrite fmap_cons in Hnd. apply NoDup_cons in Hnd as [Hn Hnd].
  simpl. destruct (decide (n <= o x)) as [Hge|Hlt].
  - rewrite from_cons_ge in Hh; [|by constructor|done]. injection Hh as ->. rewrite decide_True by done.
    rewrite from_cons_lt by lia. rewrite from_all; [done|]. rewrite Forall_forall in Hx. intros y Hy%Hx. lia.
  - rewrite from_cons_lt in Hh by lia.
    assert (He : e ∈ l).
    { apply head_Some_elem_of in Hh. by apply elem_of_from in Hh as [_ ?]. }
    rewrite decide_False by (intros Heq; apply Hn, list_elem_of_fmap; by exists e).
    rewrite Forall_forall in Hx. rewrite from_cons_lt by (specialize (Hx e He); simpl in Hx; lia). by apply IH.
Qed.

(** A write to a node is a write to the entry with its address. *)
Lemma node_set_fmap id f l :
  NoDup (te_id <$> l) -> node_set id f l = (fun e => if decide (te_id e = id) then f e else e) <$> l.
Proof.
  induction l as [|e l IH]; intros Hnd; [done|]. rewrite fmap_cons in *. apply NoDup_cons in Hnd as [Hn Hnd]. simpl.
  destruct (decide (te_id e = id)) as [<-|Hne]; [|by rewrite IH]. f_equal. rewrite <-(list_fmap_id l) at 1.
  apply list_fmap_ext. intros i e' He'. simpl. rewrite decide_False; [done|]. intros Heq. apply Hn, list_elem_of_fmap.
  exists e'. split; [done|]. by eapply list_elem_of_lookup_2.
Qed.

Lemma head_filter_fmap (g : trackedAdmission -> trackedAdmission) (P : trackedAdmission -> Prop)
    `{!forall e, Decision (P e)} l :
  (forall e, te_id (g e) = te_id e) -> (forall e, P (g e) <-> P e) ->
  te_id <$> head (filter P (g <$> l)) = te_id <$> head (filter P l).
Proof.
  intros Hid HP. induction l as [|e l IH]; [done|]. rewrite fmap_cons. destruct (decide (P e)) as [He|He].
  - rewrite !filter_cons_True by (done || by apply HP). simpl. by rewrite Hid.
  - rewrite !filter_cons_False by (done || by rewrite HP). done.
Qed.

Section deliver.
Context {B : Type} `{SharedBudgetLaws B}.
Implicit Types (b : AckBuffer B) (ms : list maddr).

(** ** The cursor *)

Lemma takeCursor_spec b :
  track_ok b ->
  exists entry, takeCursor (ab_nextIndexToDeliver b) b = Some (entry, b <| ab_deliverCursor :=
      te_id <$> head (from (fun e => off b (te_seq e)) (ab_nextIndexToDeliver b + 1) (ab_receipts b)) |>) /\
    match entry with
    | Some e => e ∈ ab_receipts b /\ off b (te_seq e) = ab_nextIndexToDeliver b
    | None => forall e, e ∈ ab_receipts b -> off b (te_seq e) <> ab_nextIndexToDeliver b
    end.
Proof.
  intros Ht. set (n := ab_nextIndexToDeliver b). set (o := fun e => off b (te_seq e)).
  assert (Hs : StronglySorted (fun e e' => o e < o e') (ab_receipts b)) by apply Ht.
  assert (Hcur : ab_deliverCursor b = te_id <$> head (from o n (ab_receipts b))) by apply Ht.
  unfold takeCursor. destruct (head (from o n (ab_receipts b))) as [e|] eqn:Hh; rewrite Hcur; simpl.
  - assert (He : n <= o e /\ e ∈ ab_receipts b) by (by apply elem_of_from, head_Some_elem_of). destruct He as [Hoe He].
    rewrite (node_at_head o n (ab_receipts b) e Hs (tr_ids _ Ht) Hh), bind_ret.
    destruct (decide (sub64 (te_seq e) (ab_firstSeqNum b) = n)) as [Heq|Hne].
    + exists (Some e). split; [|done]. change (o e = n) in Heq. by rewrite Heq.
    + exists None. change (o e <> n) in Hne. split.
      * do 2 f_equal. rewrite (head_from o n (n + 1)); [|done|lia|rewrite Hh; lia]. rewrite Hh. by rewrite <-Hcur.
      * intros e' He' Heq. assert (Hin : e' ∈ from o n (ab_receipts b)) by (apply elem_of_from; split; [unfold o; lia|done]).
        assert (Hs' := sorted_from o n _ Hs). destruct (from o n (ab_receipts b)) as [|x l] eqn:Hfr; [done|].
        injection Hh as ->. apply elem_of_cons in Hin as [->|Hin]; [done|].
        apply StronglySorted_inv in Hs' as [_ Hall]. rewrite Forall_forall in Hall. specialize (Hall e' Hin). simpl in Hall.
        fold (o e') in Heq. lia.
  - exists None. split.
    + do 2 f_equal. rewrite (head_from o n (n + 1)); [|done|lia|by rewrite Hh]. rewrite Hh. by rewrite <-Hcur.
    + intros e' He' Heq. assert (Hin : e' ∈ from o n (ab_receipts b)) by (apply elem_of_from; split; [unfold o; lia|done]).
      destruct (from o n (ab_receipts b)); [by apply not_elem_of_nil in Hin|done].
Qed.

(** Moving the delivery index by one together with the cursor. *)
Definition advanced b : AckBuffer B :=
  b <| ab_deliverCursor := te_id <$> head (from (fun e => off b (te_seq e)) (ab_nextIndexToDeliver b + 1) (ab_receipts b)) |>
    <| ab_nextIndexToDeliver := ab_nextIndexToDeliver b + 1 |>.

Lemma advanced_ok ms b :
  buf_ok ms b -> ab_nextIndexToDeliver b < ab_nextIndexFree b -> buf_ok ms (advanced b).
Proof.
  intros [Hw Hst Hby Hre Htr Hli] Hlt. split; [|frame Hst|frame Hby|frame Hre| |frame Hli].
  - destruct Hw. split; try assumption. simpl. lia.
  - destruct Htr. split; try assumption. reflexivity.
Qed.

(** ** Live slots *)

(** The messages of [ms], numbered from [s] on, that are not retired. *)
Fixpoint live_list {X} (ret : gset Z) (s : Z) (ms : list X) : list X :=
  match ms with
  | [] => []
  | a :: ms => if decide (s ∈ ret) then live_list ret (add64 s 1) ms else a :: live_list ret (add64 s 1) ms
  end.

(** The unacknowledged messages, and those still to deliver. *)
Definition live ms b : list maddr := live_list (ab_retired b) (ab_firstSeqNum b) ms.
Definition pending ms b : list maddr :=
  live_list (ab_retired b) (seq_at b (ab_nextIndexToDeliver b)) (drop (Z.to_nat (ab_nextIndexToDeliver b)) ms).

(** A frame still to be delivered has transmissions left. *)
Definition sendable b : Prop :=
  forall e, e ∈ ab_receipts b -> ab_nextIndexToDeliver b <= off b (te_seq e) -> te_seq e ∉ ab_retired b ->
    exhausted e = false.

(** *** The list of live slots *)

Lemma live_list_drop {X} ret s (ms : list X) k :
  (forall j, (j < k)%nat -> (j < length ms)%nat -> add64 s (Z.of_nat j) ∈ ret) -> is_u64 s ->
  live_list ret s ms = live_list ret (add64 s (Z.of_nat k)) (drop k ms).
Proof.
  revert s ms. induction k as [|k IH]; intros s ms Hr Hs.
  { rewrite drop_0. f_equal. u64_lia. }
  destruct ms as [|a ms]; [done|]. simpl. rewrite decide_True.
  - rewrite (IH (add64 s 1) ms).
    + f_equal. rewrite add64_assoc. f_equal. lia.
    + intros j Hj Hl. rewrite add64_assoc. replace (1 + Z.of_nat j) with (Z.of_nat (S j)) by lia. apply Hr; simpl; lia.
    + apply add64_range.
  - replace s with (add64 s (Z.of_nat 0)) by u64_lia. apply Hr; simpl; lia.
Qed.

Lemma pending_cons ms b :
  is_u64 (ab_firstSeqNum b) -> 0 <= ab_nextIndexToDeliver b ->
  forall a, ms !! Z.to_nat (ab_nextIndexToDeliver b) = Some a ->
  pending ms b = (if retired_at b (ab_nextIndexToDeliver b) then [] else [a]) ++ pending ms (advanced b).
Proof.
  intros Hf Hn a Ha. unfold pending. rewrite (drop_S _ _ _ Ha). simpl.
  replace (Z.to_nat (ab_nextIndexToDeliver b + 1)) with (S (Z.to_nat (ab_nextIndexToDeliver b))) by lia.
  assert (Hs : seq_at (advanced b) (ab_nextIndexToDeliver b + 1) = add64 (seq_at b (ab_nextIndexToDeliver b)) 1).
  { unfold seq_at. simpl. by rewrite add64_succ. }
  rewrite Hs. unfold retired_at. fold (seq_at b (ab_nextIndexToDeliver b)).
  destruct (decide (seq_at b (ab_nextIndexToDeliver b) ∈ ab_retired b)).
  - by rewrite bool_decide_true.
  - by rewrite bool_decide_false.
Qed.

Lemma pending_nil ms b : win_ok ms b -> ab_nextIndexToDeliver b = ab_nextIndexFree b -> pending ms b = [].
Proof. intros Hw Hn. unfold pending. rewrite Hn, (w_free _ _ Hw), Nat2Z.id, drop_all. done. Qed.

(** ** One hand-over *)

(** [b] with the fields that delivery may change taken from [b']. *)
Definition deliver_frame b b' : AckBuffer B :=
  b <| ab_nextIndexToDeliver := ab_nextIndexToDeliver b' |> <| ab_deliverCursor := ab_deliverCursor b' |>
    <| ab_receipts := ab_receipts b' |> <| ab_isReadyToDeliver := ab_isReadyToDeliver b' |>
    <| ab_isEmpty := ab_isEmpty b' |> <| ab_msgs := ab_msgs b' |> <| ab_next := ab_next b' |>.

(** The tracked entry of slot [n] counts one more transmission if it is limited. *)
Definition counted b (n : Z) (e : trackedAdmission) : trackedAdmission :=
  if decide (off b (te_seq e) = n /\ te_max e <> 0) then e <| te_sends := te_sends e + 1 |> else e.

(** What [GetNextToDeliver] did: nothing was left, or slot [p] was handed out. *)
Inductive delivered ms b : option maddr -> AckBuffer B -> Prop :=
  | delivered_none b' :
      b' = deliver_frame b b' -> pending ms b = [] -> ab_nextIndexToDeliver b' = ab_nextIndexFree b ->
      ab_receipts b' = ab_receipts b -> ab_msgs b' = ab_msgs b -> delivered ms b None b'
  | delivered_slot p a a' m b' :
      b' = deliver_frame b b' -> pending ms b = a :: pending ms b' -> ms !! p = Some a ->
      ab_nextIndexToDeliver b <= Z.of_nat p -> ab_nextIndexToDeliver b' = Z.of_nat p + 1 ->
      ab_msgs b !! a = Some m -> SeqNum m = seq_at b (Z.of_nat p) ->
      (* the message itself, or on the last frame of a draining buffer a copy that asks for an ACK *)
      (a' = a /\ ab_msgs b' = ab_msgs b /\ (ab_isRunning b = true \/ pending ms b' <> []) \/
       ab_isRunning b = false /\ pending ms b' = [] /\ ab_msgs b !! a' = None /\
       ab_msgs b' = <[a' := m <| AckRequested := true |>]> (ab_msgs b)) ->
      ab_receipts b' = counted b (Z.of_nat p) <$> ab_receipts b -> delivered ms b (Some a') b'.

Lemma live_list_nil {X} ret s (ms : list X) :
  is_u64 s -> live_list ret s ms = [] <-> forall j, (j < length ms)%nat -> add64 s (Z.of_nat j) ∈ ret.
Proof.
  revert s. induction ms as [|a ms IH]; intros s Hs; simpl; [split; [lia|done]|].
  assert (Hs0 : add64 s (Z.of_nat 0) = s) by u64_lia.
  assert (Hn : forall j, add64 (add64 s 1) (Z.of_nat j) = add64 s (Z.of_nat (S j))).
  { intros j. rewrite add64_assoc. f_equal. lia. }
  destruct (decide (s ∈ ret)) as [Hin|Hin].
  - rewrite IH by apply add64_range. split; intros Hall j Hj.
    + destruct j as [|j]; [by rewrite Hs0|]. rewrite <-Hn. apply Hall. lia.
    + rewrite Hn. apply Hall. lia.
  - split; [done|]. intros Hall. destruct Hin. rewrite <-Hs0. apply Hall. lia.
Qed.

Lemma onlyRetiredAfter_spec ms b index :
  win_ok ms b -> 0 <= index < ab_nextIndexFree b -> 
  onlyRetiredAfterLocked index b = bool_decide (live_list (ab_retired b) (seq_at b (index + 1)) (drop (Z.to_nat (index + 1)) ms) = []).
Proof.
  intros Hw Hi. pose proof (w_free _ _ Hw) as Hf. pose proof (w_len _ _ Hw) as Hl. unfold max_slots in Hl.
  assert (Hsh : forall j, add64 (seq_at b (index + 1)) (Z.of_nat j) = seq_at b (index + 1 + Z.of_nat j)).
  { intros j. unfold seq_at. apply add64_assoc. }
  unfold onlyRetiredAfterLocked. destruct (decide (size (ab_retired b) = 0%nat)) as [Hz|Hz].
  - apply size_empty_inv in Hz. apply bool_decide_ext. rewrite live_list_nil by apply add64_range. rewrite length_drop. split.
    + intros Heq j Hj. assert (add64 index 1 = index + 1) by u64_lia. lia.
    + intros Hall. destruct (decide (index + 1 = ab_nextIndexFree b)) as [<-|Hne]; [u64_lia|].
      specialize (Hall 0%nat ltac:(lia)). set_solver.
  - destruct (retiredRun_spec (Z.to_nat (ab_nextIndexFree b)) b (index + 1)) as (R1 & R2 & R3 & R4); [lia|lia|].
    set (n := retiredRun _ b _) in *. apply bool_decide_ext. rewrite live_list_nil by apply add64_range. rewrite length_drop. split.
    + intros Hge j Hj. rewrite Hsh. assert (Hr : retired_at b (index + 1 + Z.of_nat j) = true) by (apply R3; lia).
      unfold retired_at in Hr. by apply bool_decide_eq_true in Hr.
    + intros Hall. destruct (decide (index + 1 + n >= ab_nextIndexFree b)); [done|]. exfalso.
      assert (Hr : retired_at b (index + 1 + n) = false) by (apply R4; lia). unfold retired_at in Hr.
      apply bool_decide_eq_false in Hr. apply Hr. specialize (Hall (Z.to_nat n) ltac:(lia)). rewrite Hsh in Hall.
      by replace (Z.of_nat (Z.to_nat n)) with n in Hall by lia.
Qed.

(** The increment of the counter of the delivered entry. *)
Lemma count_eq b entry n :
  track_ok b -> sendable b -> n = ab_nextIndexToDeliver b -> retired_at b n = false ->
  match entry with
  | Some e => e ∈ ab_receipts b /\ off b (te_seq e) = n
  | None => forall e, e ∈ ab_receipts b -> off b (te_seq e) <> n
  end ->
  (match entry with
   | Some e => if decide (te_max e <> 0)
               then node_set (te_id e) (fun e => e <| te_sends := (te_sends e + 1) mod 2 ^ 32 |>) (ab_receipts b)
               else ab_receipts b
   | None => ab_receipts b
   end) = counted b n <$> ab_receipts b.
Proof.
  intros Ht Hse Hn Hr He. destruct entry as [e|].
  - destruct He as [He Hoe]. destruct (tr_window _ Ht e He) as [Hu _].
    assert (Hlive : te_seq e ∉ ab_retired b).
    { unfold retired_at in Hr. apply bool_decide_eq_false in Hr. intros Hin. apply Hr.
      fold (seq_at b n). by rewrite <-Hoe, seq_at_off. }
    assert (Hex : exhausted e = false) by (apply Hse; [done|lia|done]).
    assert (Heq : forall e', e' ∈ ab_receipts b -> off b (te_seq e') = n -> e' = e).
    { intros e' He' Ho'. apply (sorted_inj (fun e => off b (te_seq e)) (ab_receipts b)); [apply Ht|done|done|congruence]. }
    destruct (tr_sends _ Ht e He) as [Hs1 Hs2].
    destruct (decide (te_max e <> 0)) as [Hm|Hm].
    + rewrite node_set_fmap by apply Ht. apply list_fmap_ext. intros i e' He'%list_elem_of_lookup_2. unfold counted.
      destruct (decide (te_id e' = te_id e)) as [Hid|Hid].
      * assert (e' = e) as -> by (by apply (NoDup_fmap_elem te_id (ab_receipts b)); [apply Ht|..]).
        rewrite decide_True by done. unfold exhausted in Hex. apply bool_decide_eq_false in Hex.
        unfold with_field, set_te_sends. f_equal. apply Z.mod_small. lia.
      * rewrite decide_False; [done|]. intros [Ho' _]. apply Hid. by rewrite (Heq e' He' Ho').
    + rewrite <-(list_fmap_id (ab_receipts b)) at 1. apply list_fmap_ext. intros i e' He'%list_elem_of_lookup_2. unfold counted.
      rewrite decide_False; [done|]. intros [Ho' Hm']. by rewrite (Heq e' He' Ho') in Hm'.
  - rewrite <-(list_fmap_id (ab_receipts b)) at 1. apply list_fmap_ext. intros i e' He'%list_elem_of_lookup_2. unfold counted.
    rewrite decide_False; [done|]. intros [Ho' _]. by apply (He e').
Qed.

Lemma counted_fields b n e :
  te_id (counted b n e) = te_id e /\ te_seq (counted b n e) = te_seq e /\ te_state (counted b n e) = te_state e /\
  te_max (counted b n e) = te_max e.
Proof. unfold counted. by destruct (decide _). Qed.

Lemma counted_track b n :
  track_ok b ->
  (forall e, e ∈ ab_receipts b -> off b (te_seq e) = n -> te_max e <> 0 -> te_sends e < te_max e) ->
  track_ok (b <| ab_receipts := counted b n <$> ab_receipts b |>).
Proof.
  intros [T1 T2 T3 T4 T5 T6 T7 T8] Hs.
  assert (Hin : forall e, e ∈ counted b n <$> ab_receipts b -> exists e0, e = counted b n e0 /\ e0 ∈ ab_receipts b)
    by (intros e (e0 & -> & ?)%list_elem_of_fmap; by exists e0).
  assert (Hmap : forall {X} (f : trackedAdmission -> X), (forall e, f (counted b n e) = f e) ->
    f <$> (counted b n <$> ab_receipts b) = f <$> ab_receipts b).
  { intros X f Hf. rewrite <-list_fmap_compose. apply list_fmap_ext. intros i e _. apply Hf. }
  split; simpl.
  - intros e (e0 & -> & He0)%Hin. destruct (counted_fields b n e0) as (_ & -> & _). by apply T1.
  - clear -T2. induction T2 as [|e l Hs IH He]; [constructor|]. rewrite fmap_cons. constructor; [done|].
    rewrite Forall_forall in *. intros e' (e0 & -> & He0)%list_elem_of_fmap.
    change (off (b <| ab_receipts := _ |>)) with (off b).
    destruct (counted_fields b n e) as (_ & -> & _). destruct (counted_fields b n e0) as (_ & -> & _). by apply He.
  - rewrite Hmap; [done|]. intros e. apply counted_fields.
  - intros e (e0 & -> & He0)%Hin. destruct (counted_fields b n e0) as (-> & _). by apply T4.
  - rewrite Hmap; [done|]. intros e. apply counted_fields.
  - intros e (e0 & -> & He0)%Hin. destruct (counted_fields b n e0) as (_ & -> & -> & _). by apply T6.
  - intros e (e0 & -> & He0)%Hin. specialize (T7 e0 He0). specialize (Hs e0 He0). unfold counted.
    destruct (decide (off b (te_seq e0) = n /\ te_max e0 <> 0)) as [[Ho Hm]|Hn]; [|done]. simpl. specialize (Hs Ho Hm). lia.
  - rewrite T8. symmetry. apply head_filter_fmap.
    + intros e. apply counted_fields.
    + intros e. change (off (b <| ab_receipts := _ |>)) with (off b). by destruct (counted_fields b n e) as (_ & -> & _).
Qed.

(** The end of a hand-over: the flags once nothing is left. *)
Lemma flags_spec ms b :
  win_ok ms b -> flow_late b ->
  exists rd em, (if decide (ab_nextIndexToDeliver b >= ab_nextIndexFree b) then noneReady b else Some b) =
      Some (b <| ab_isReadyToDeliver := rd |> <| ab_isEmpty := em |>) /\
    win_ok ms (b <| ab_isReadyToDeliver := rd |> <| ab_isEmpty := em |>) /\
    flow_late (b <| ab_isReadyToDeliver := rd |> <| ab_isEmpty := em |>) /\
    flow_done (b <| ab_isReadyToDeliver := rd |> <| ab_isEmpty := em |>).
Proof.
  intros Hw Hl. destruct (decide (ab_nextIndexToDeliver b >= ab_nextIndexFree b)) as [Hge|Hlt].
  - unfold noneReady. destruct (Set_spec (ab_isEmpty b) (w_empty _ _ Hw)) as (em & -> & Hem & [Hv _] & _).
    destruct (Clear_ok (ab_isReadyToDeliver b) (w_ready _ _ Hw)) as [Hrd Hrv].
    exists (Clear (ab_isReadyToDeliver b)), em. split; [done|].
    split; [destruct Hw; by split|]. split; [intros Hlt; simpl in Hlt; lia|done].
  - exists (ab_isReadyToDeliver b), (ab_isEmpty b). split; [done|]. split; [frame Hw|]. split; [exact Hl|].
    intros Hge. simpl in Hge. lia.
Qed.

Lemma buf_ok_flags ms b rd em :
  buf_ok ms b -> win_ok ms (b <| ab_isReadyToDeliver := rd |> <| ab_isEmpty := em |>) ->
  buf_ok ms (b <| ab_isReadyToDeliver := rd |> <| ab_isEmpty := em |>).
Proof. intros [Hw Hst Hby Hre Htr Hli] Hw'. split; [done|frame Hst|frame Hby|frame Hre|frame Htr|frame Hli]. Qed.

(** A copy of a message at a fresh address. *)
Lemma buf_ok_alloc ms b m :
  buf_ok ms b -> buf_ok ms (b <| ab_msgs ::= <[ab_next b := m]> |> <| ab_next ::= S |>).
Proof.
  intros [Hw Hst Hby Hre Htr Hli]. split; [frame Hw| |frame Hby|frame Hre| |frame Hli].
  - destruct Hst as [S1 S2 S3 S4 S5]. split; simpl; try done.
    + intros i a Ha. destruct (S2 i a Ha) as (m' & Hm & Hs). exists m'. rewrite lookup_insert_ne; [done|].
      intros <-. destruct (Nat.lt_irrefl (ab_next b)). apply S3. by eexists.
    + intros a [<-|[_ Ha%S3]]%lookup_insert_is_Some; lia.
    + intros c Hc%S4. lia.
  - destruct Htr as [T1 T2 T3 T4 T5 T6 T7 T8]. split; try assumption. intros e He%T4. simpl. lia.
Qed.

Lemma sendable_advanced b n : sendable b -> n = ab_nextIndexToDeliver b ->
  sendable ((advanced b) <| ab_receipts := counted b n <$> ab_receipts b |>).
Proof.
  intros Hs -> e (e0 & -> & He0)%list_elem_of_fmap Hge Hn. simpl in Hge.
  change (off (_ <| ab_receipts := _ |>)) with (off b) in Hge. destruct (counted_fields b (ab_nextIndexToDeliver b) e0) as (_ & Heq & _).
  rewrite Heq in *. unfold counted. rewrite decide_False by lia. apply Hs; [done|lia|done].
Qed.

(** The state once the head was counted and the index moved past it. *)
Lemma counted_advanced_ok ms b :
  buf_ok ms b -> sendable b -> ab_nextIndexToDeliver b < ab_nextIndexFree b -> retired_at b (ab_nextIndexToDeliver b) = false ->
  buf_ok ms ((advanced b) <| ab_receipts := counted b (ab_nextIndexToDeliver b) <$> ab_receipts b |>).
Proof.
  intros Hok Hse Hlt Hret. pose proof (bo_track _ _ Hok) as Htr.
  pose proof (advanced_ok ms b Hok Hlt) as [Hw2 Hst2 Hby2 Hre2 Htr2 Hli2].
  split; [frame Hw2|frame Hst2|frame Hby2|frame Hre2| |frame Hli2].
  apply (counted_track (advanced b) (ab_nextIndexToDeliver b)); [done|].
  intros e He' Hoe Hm'. change (off (advanced b) (te_seq e)) with (off b (te_seq e)) in Hoe.
  assert (Hex : exhausted e = false).
  { apply Hse; [done|lia|]. destruct (tr_window _ Htr e He') as [Hu _]. unfold retired_at in Hret.
    apply bool_decide_eq_false in Hret. rewrite <-(seq_at_off b (te_seq e) Hu). by rewrite Hoe. }
  unfold exhausted in Hex. apply bool_decide_eq_false in Hex. lia.
Qed.

(** The increment of the index does not wrap inside the window. *)
Lemma deliver_incr (x : AckBuffer B) n : 0 <= n < 2 ^ 64 - 1 -> ab_nextIndexToDeliver x = n ->
  x <| ab_nextIndexToDeliver ::= fun n => add64 n 1 |> = x <| ab_nextIndexToDeliver := n + 1 |>.
Proof.
  intros Hn Hx. transitivity (x <| ab_nextIndexToDeliver := add64 (ab_nextIndexToDeliver x) 1 |>); [reflexivity|].
  rewrite Hx. by replace (add64 n 1) with (n + 1) by u64_lia.
Qed.

(** The state after the hand-over was counted. *)
Lemma count_state b entry n :
  track_ok b -> sendable b -> n = ab_nextIndexToDeliver b -> retired_at b n = false ->
  match entry with
  | Some e => e ∈ ab_receipts b /\ off b (te_seq e) = n
  | None => forall e, e ∈ ab_receipts b -> off b (te_seq e) <> n
  end ->
  let b0 := b <| ab_deliverCursor := ab_deliverCursor (advanced b) |> in
  match entry with
  | Some e => if decide (te_max e <> 0)
      then b0 <| ab_receipts ::= node_set (te_id e) (fun e => e <| te_sends := (te_sends e + 1) mod 2 ^ 32 |>) |> else b0
  | None => b0
  end = b0 <| ab_receipts := counted b n <$> ab_receipts b |>.
Proof.
  intros Htr Hse Hn Hret He. simpl. rewrite <-(count_eq b entry n) by done.
  destruct entry as [e|]; [destruct (decide (te_max e <> 0))|]; reflexivity.
Qed.

Lemma handOver_spec ms b entry cur i rq A :
  buf_ok ms b -> own i rq A b -> flow_late b -> sendable b -> ab_nextIndexToDeliver b < ab_nextIndexFree b ->
  retired_at b (ab_nextIndexToDeliver b) = false ->
  match entry with
  | Some e => e ∈ ab_receipts b /\ off b (te_seq e) = ab_nextIndexToDeliver b
  | None => forall e, e ∈ ab_receipts b -> off b (te_seq e) <> ab_nextIndexToDeliver b
  end ->
  cur = ab_deliverCursor (advanced b) ->
  exists r b', handOver (ab_nextIndexToDeliver b) entry (b <| ab_deliverCursor := cur |>) = Some (r, b') /\
    buf_ok ms b' /\ own i rq A b' /\ flow_late b' /\ flow_done b' /\ sendable b' /\ r <> None /\ delivered ms b r b'.
Proof.
  intros Hok Ho Hfl Hse Hlt Hret He ->. pose proof Hok as [Hw Hst Hby Hre Htr Hli]. set (n := ab_nextIndexToDeliver b) in *.
  pose proof (w_deliver _ _ Hw) as Hn. pose proof (w_free _ _ Hw) as Hf. pose proof (w_len _ _ Hw) as Hl. unfold max_slots in Hl.
  destruct (lookup_lt_is_Some_2 ms (Z.to_nat n)) as [a Ha]; [lia|].
  destruct (st_msg _ _ Hst _ a Ha) as (m & Hm & Hseq). rewrite Z2Nat.id in Hseq by lia.
  set (b1 := b <| ab_deliverCursor := ab_deliverCursor (advanced b) |> <| ab_receipts := counted b n <$> ab_receipts b |>).
  set (b2 := (advanced b) <| ab_receipts := counted b n <$> ab_receipts b |>).
  assert (Hok2 : buf_ok ms b2) by (by apply counted_advanced_ok).
  assert (Hse2 : sendable b2) by (by apply sendable_advanced).
  assert (Hfl2 : flow_late b2) by (intros ?; apply Hfl; lia).
  unfold handOver. rewrite (count_state b entry n) by done. fold b1.
  assert (Hget : zget (ab_buff b1) n = Some (Some a)).
  { change (zget (ab_buff b) n = Some (Some a)). rewrite (w_buff _ _ Hw). replace n with (Z.of_nat (Z.to_nat n)) by lia.
    by apply slots_get. }
  rewrite Hget, bind_ret. change (ab_isRunning b1) with (ab_isRunning b).
  assert (Hlast : onlyRetiredAfterLocked n b1 = bool_decide (pending ms b2 = [])).
  { apply (onlyRetiredAfter_spec ms b1 n); [frame Hw|simpl; lia]. }
  rewrite Hlast.
  assert (Hpend : pending ms b = a :: pending ms b2).
  { rewrite (pending_cons ms b (w_first _ _ Hw) (proj1 Hn) a Ha). fold n. by rewrite Hret. }
  destruct (negb (ab_isRunning b) && bool_decide (pending ms b2 = [])) eqn:Hcopy.
  - apply andb_true_iff in Hcopy as [Hrun Hnil]. apply negb_true_iff in Hrun. apply bool_decide_eq_true in Hnil.
    rewrite bind_ret. change (ab_msgs b1) with (ab_msgs b). rewrite Hm, !bind_ret, (deliver_incr _ n) by first [reflexivity|lia]. simpl. fold n.
    set (b3 := b2 <| ab_msgs ::= <[ab_next b2 := m <| AckRequested := true |>]> |> <| ab_next ::= S |>).
    destruct (flags_spec ms b3) as (rd & em & Hfs & Hw' & Hl' & Hd'); [by apply buf_ok_alloc|exact Hfl2|].
    match goal with |- context [noneReady ?x] => change x with b3 end.
    simpl in Hfs. fold n in Hfs. rewrite Hfs, bind_ret.
    eexists _, _. split; [reflexivity|]. split; [apply buf_ok_flags; [by apply buf_ok_alloc|done]|].
    split; [exact Ho|]. split; [done|]. split; [done|]. split; [exact Hse2|]. split; [done|].
    apply (delivered_slot ms b (Z.to_nat n) a (ab_next b) m); simpl; fold n; try done; try lia.
    + rewrite Hseq. f_equal. lia.
    + right. split; [done|]. split; [done|]. split; [|done]. destruct (ab_msgs b !! ab_next b) eqn:E; [|done].
      destruct (Nat.lt_irrefl (ab_next b)). apply (st_fresh_m _ _ Hst). by eexists.
    + by rewrite Z2Nat.id by lia.
  - rewrite !bind_ret, (deliver_incr _ n) by first [reflexivity|lia]. simpl. fold n.
    destruct (flags_spec ms b2) as (rd & em & Hfs & Hw' & Hl' & Hd'); [apply Hok2|exact Hfl2|].
    match goal with |- context [noneReady ?x] => change x with b2 end.
    simpl in Hfs. fold n in Hfs. rewrite Hfs, bind_ret.
    eexists _, _. split; [reflexivity|]. split; [by apply buf_ok_flags|].
    split; [exact Ho|]. split; [done|]. split; [done|]. split; [exact Hse2|]. split; [done|].
    apply (delivered_slot ms b (Z.to_nat n) a a m); simpl; fold n; try done; try lia.
    + rewrite Hseq. f_equal. lia.
    + left. split; [done|]. split; [done|]. apply andb_false_iff in Hcopy as [Hr|Hp].
      * left. by apply negb_false_iff in Hr.
      * right. by apply bool_decide_eq_false in Hp.
    + by rewrite Z2Nat.id by lia.
Qed.

(** ** The delivery loop *)

(** A turn that skipped retired slots only. *)
Record skipped ms b i rq A x : Prop := {
  sk_ok : buf_ok ms x;
  sk_own : own i rq A x;
  sk_late : flow_late x;
  sk_send : sendable x;
  sk_index : ab_nextIndexToDeliver b <= ab_nextIndexToDeliver x;
  sk_eq : x = b <| ab_nextIndexToDeliver := ab_nextIndexToDeliver x |> <| ab_deliverCursor := ab_deliverCursor x |>;
  sk_pending : pending ms x = pending ms b;
}.

Lemma sendable_skip b : sendable b -> sendable (advanced b).
Proof. intros Hs e He Hge Hn. apply Hs; [done| |done]. simpl in Hge. unfold off in *. simpl in Hge. lia. Qed.

(** Delivery from a later index is delivery from the first. *)
Lemma skipped_delivered ms b i rq A x r b' : skipped ms b i rq A x -> delivered ms x r b' -> delivered ms b r b'.
Proof.
  intros [_ _ _ _ Hi Heq Hp] Hd. destruct Hd as [b' Hfr Hnil Hn Hrc Hmsg|p a a' m b' Hfr Hpend Hms Hle Hn Hm Hseq Hcp Hrc].
  - rewrite Heq in *. apply delivered_none; try done; congruence.
  - rewrite Hp in Hpend. rewrite Heq in *. eapply (delivered_slot ms b p a a' m); simpl in *; try done. lia.
Qed.

Lemma deliver_turn_spec ms b i rq A x :
  skipped ms b i rq A x ->
  exists r, deliver_turn x = Some r /\
    match r with
    | inl x' => skipped ms b i rq A x' /\
        0 <= ab_nextIndexFree x' - ab_nextIndexToDeliver x' < ab_nextIndexFree x - ab_nextIndexToDeliver x
    | inr (r, b') => buf_ok ms b' /\ own i rq A b' /\ flow_late b' /\ flow_done b' /\ sendable b' /\ delivered ms b r b'
    end.
Proof.
  intros Hsk. pose proof Hsk as [Hok Ho Hfl Hse Hi Heq Hp]. pose proof Hok as [Hw Hst Hby Hre Htr Hli].
  pose proof (w_deliver _ _ Hw) as Hn. pose proof (w_len _ _ Hw) as Hlen. unfold max_slots in Hlen. unfold deliver_turn.
  destruct (decide (ab_nextIndexToDeliver x < ab_nextIndexFree x)) as [Hlt|Hge].
  2:{ destruct (flags_spec ms x Hw Hfl) as (rd & em & Hfs & Hw' & Hl' & Hd'). rewrite decide_True in Hfs by lia.
      rewrite Hfs, bind_ret. eexists. split; [reflexivity|]. split; [by apply buf_ok_flags|]. split; [exact Ho|]. split; [done|].
      split; [done|]. split; [exact Hse|]. eapply skipped_delivered; [done|].
      apply delivered_none; try done; [|simpl; lia]. apply pending_nil; [done|lia]. }
  destruct (takeCursor_spec x Htr) as (entry & Htc & He). rewrite Htc, bind_ret.
  set (cur := te_id <$> head _) in *.
  change (retired_at (x <| ab_deliverCursor := cur |>)) with (retired_at x).
  destruct (retired_at x (ab_nextIndexToDeliver x)) eqn:Hret.
  - eexists. split; [reflexivity|]. assert (Hadv : (x <| ab_deliverCursor := cur |>) <| ab_nextIndexToDeliver ::= fun n => add64 n 1 |> =
      advanced x).
    { transitivity ((x <| ab_deliverCursor := cur |>) <| ab_nextIndexToDeliver := add64 (ab_nextIndexToDeliver x) 1 |>); [reflexivity|].
      by replace (add64 (ab_nextIndexToDeliver x) 1) with (ab_nextIndexToDeliver x + 1) by u64_lia. }
    rewrite Hadv. split; [|simpl; lia]. split.
    + by apply advanced_ok.
    + exact Ho.
    + intros ?. by apply Hfl.
    + by apply sendable_skip.
    + simpl. lia.
    + rewrite Heq. reflexivity.
    + destruct (lookup_lt_is_Some_2 ms (Z.to_nat (ab_nextIndexToDeliver x))) as [a Ha]; [pose proof (w_free _ _ Hw); lia|].
      rewrite <-Hp, (pending_cons ms x (w_first _ _ Hw) (proj1 Hn) a Ha), Hret. done.
  - destruct (handOver_spec ms x entry cur i rq A) as (r & b' & Hho & ? & ? & ? & ? & ? & _ & Hdel); [done..|].
    assert (Hres : forall y, y = inr (r, b') -> exists r0, Some y = Some r0 /\ match r0 with
      | inl x' => skipped ms b i rq A x' /\
        0 <= ab_nextIndexFree x' - ab_nextIndexToDeliver x' < ab_nextIndexFree x - ab_nextIndexToDeliver x
      | inr (r, b') => buf_ok ms b' /\ own i rq A b' /\ flow_late b' /\ flow_done b' /\ sendable b' /\ delivered ms b r b' end).
    { intros y ->. eexists. split; [reflexivity|]. split_and!; try done. by eapply skipped_delivered. }
    destruct entry as [e|]; [|rewrite Hho, bind_ret; by apply Hres].
    rewrite decide_False; [rewrite Hho, bind_ret; by apply Hres|]. destruct He as [He Hoe].
    assert (Hex : exhausted e = false); [|by apply bool_decide_eq_false in Hex].
    apply Hse; [done|lia|]. destruct (tr_window _ Htr e He) as [Hu _]. unfold retired_at in Hret.
    apply bool_decide_eq_false in Hret. rewrite <-(seq_at_off x (te_seq e) Hu), Hoe. exact Hret.
Qed.

Lemma deliver_spec ms b i rq A :
  settled_ok ms b -> own i rq A b -> sendable b ->
  exists r b', GetNextToDeliver b = Some (r, b') /\ settled_ok ms b' /\ own i rq A b' /\ sendable b' /\ delivered ms b r b'.
Proof.
  intros [Hok Hfl Hfd Hh] Ho Hse. pose proof (w_deliver _ _ (bo_win _ _ Hok)) as Hn. unfold GetNextToDeliver.
  destruct (IsSet (ab_isReadyToDeliver b)) eqn:Hrd; simpl.
  2:{ assert (Hge : ab_nextIndexToDeliver b = ab_nextIndexFree b).
      { destruct (decide (ab_nextIndexToDeliver b < ab_nextIndexFree b)) as [Hlt|]; [|lia].
        destruct (Hfl Hlt) as [Hv _]. unfold IsSet in Hrd. congruence. }
      exists None, b. split; [done|]. split; [done|]. split; [done|]. split; [done|].
      apply delivered_none; try done. apply pending_nil; [apply Hok|done]. }
  assert (Hsk : skipped ms b i rq A b) by (by split).
  destruct (fuel_loop_rule (skipped ms b i rq A) (fun x => ab_nextIndexFree x - ab_nextIndexToDeliver x)
    (fun r => let '(r, b') := r in buf_ok ms b' /\ own i rq A b' /\ flow_late b' /\ flow_done b' /\ sendable b' /\
      delivered ms b r b') deliver_turn (S (Z.to_nat (ab_nextIndexFree b - ab_nextIndexToDeliver b))) b)
    as ([r b'] & Hr & Hok' & Ho' & Hfl' & Hfd' & Hse' & Hdel); [|done|lia|].
  { intros x Hx. destruct (deliver_turn_spec ms b i rq A x Hx) as (r & Hr & Hpost). exists r. split; [done|].
    by destruct r as [x'|[r b']]. }
  exists r, b'. split; [exact Hr|]. split; [|done]. split; [done|done|done|].
  destruct Hdel as [b' Hfr _ _ _ _|p a a' m b' Hfr _ _ _ _ _ _ _ _]; rewrite Hfr; exact Hh.
Qed.

(** ** Starting again *)

Lemma reset_start_ok ms b :
  buf_ok ms b -> buf_ok ms (b <| ab_nextIndexToDeliver := 0 |> <| ab_deliverCursor := te_id <$> head (ab_receipts b) |>).
Proof.
  intros [Hw Hst Hby Hre Htr Hli]. split; [|frame Hst|frame Hby|frame Hre| |frame Hli].
  - pose proof (w_deliver _ _ Hw). destruct Hw. split; try assumption. simpl. lia.
  - destruct Htr as [T1 T2 T3 T4 T5 T6 T7 T8]. split; try assumption. simpl. do 2 f_equal. symmetry.
    apply (from_all (fun e => off b (te_seq e))). intros e _. apply off_u64.
Qed.

(** The live list depends on the retired numbers of the window and on the
    messages in the other slots only. *)
Lemma live_list_ext {X} ret ret' s (ms ms' : list X) :
  length ms' = length ms -> is_u64 s ->
  (forall j, (j < length ms)%nat -> add64 s (Z.of_nat j) ∈ ret' <-> add64 s (Z.of_nat j) ∈ ret) ->
  (forall j, add64 s (Z.of_nat j) ∉ ret -> ms' !! j = ms !! j) ->
  live_list ret' s ms' = live_list ret s ms.
Proof.
  revert s ms'. induction ms as [|a ms IH]; intros s [|a' ms'] Hl Hs Hr Hm; simpl in *; try done.
  assert (Hs0 : add64 s (Z.of_nat 0) = s) by u64_lia.
  assert (Hn : forall j, add64 (add64 s 1) (Z.of_nat j) = add64 s (Z.of_nat (S j))).
  { intros j. rewrite add64_assoc. f_equal. lia. }
  assert (Hrest : live_list ret' (add64 s 1) ms' = live_list ret (add64 s 1) ms).
  { apply IH; [lia|apply add64_range| |].
    - intros j Hj. rewrite Hn. apply Hr. lia.
    - intros j Hj. rewrite Hn in Hj. apply (Hm (S j) Hj). }
  rewrite Hrest. specialize (Hr 0%nat ltac:(lia)). specialize (Hm 0%nat). rewrite Hs0 in *. simpl in Hm.
  destruct (decide (s ∈ ret')), (decide (s ∈ ret)); try tauto. specialize (Hm ltac:(done)). congruence.
Qed.

(** Removing the retired head does not change what is live. *)
Lemma head_released_list {X} ms b i rq A n b' (l : list X) :
  win_ok ms b -> head_released ms b i rq A n b' -> (length l <= length ms)%nat ->
  live_list (ab_retired b') (ab_firstSeqNum b') (drop n l) = live_list (ab_retired b) (ab_firstSeqNum b) l.
Proof.
  intros Hw [|n' r ring Hn Hret Hres _] Hl; [done|]. pose proof (w_free _ _ Hw) as Hf. pose proof (w_len _ _ Hw) as Hlen.
  unfold max_slots in Hlen. rewrite (live_list_drop (ab_retired b) (ab_firstSeqNum b) l n').
  - change (ab_firstSeqNum (removed n' false ms r (b <| ab_releasedRetired := Some ring |>))) with (seq_at b (Z.of_nat n')).
    apply live_list_ext; [done|apply add64_range| |done].
    intros j Hj. rewrite length_drop in Hj. simpl. rewrite elem_of_filter. split; [tauto|]. intros Hin. split; [|done].
    unfold off. simpl. unfold seq_at. rewrite add64_assoc. rewrite sub64_add64 by (split; lia). lia.
  - intros j Hj _. specialize (Hret (Z.of_nat j) ltac:(lia)). unfold retired_at in Hret. by apply bool_decide_eq_true in Hret.
  - apply Hw.
Qed.

Lemma elem_of_exhausted l e : e ∈ l -> exhausted e = true -> te_seq e ∈ exhausted_seqs l.
Proof.
  intros He Hx. unfold exhausted_seqs. apply elem_of_list_to_set, list_elem_of_fmap. exists e. split; [done|].
  apply list_elem_of_filter. by rewrite Hx.
Qed.

(** Whatever is tracked after the head left was tracked before. *)
Lemma head_released_receipts ms b i rq A n b' e :
  head_released ms b i rq A n b' -> e ∈ ab_receipts b' -> e ∈ ab_receipts b /\
    (te_seq e ∈ ab_retired b -> te_seq e ∈ ab_retired b').
Proof.
  intros [|n' r ring Hn Hret Hres _]; [done|]. intros [Hge He]%elem_of_from. split; [done|]. simpl. intros Hin.
  apply elem_of_filter. split; [|done]. unfold off in *. simpl in *. lia.
Qed.

(** The state in which the exhausted frames are retired. *)
Definition reset_start b : AckBuffer B :=
  b <| ab_nextIndexToDeliver := 0 |> <| ab_deliverCursor := te_id <$> head (ab_receipts b) |>.

(** What [ResetDelivery] did: the exhausted frames were retired, then the
    retired head left. *)
Record restarted ms b i rq A ms1 b1 n b' : Prop := {
  rst_retires : retires (exhausted_seqs (ab_receipts b) ∖ ab_retired b) ms (reset_start b) ms1 b1;
  rst_head : exists b2 rd em, head_released ms1 b1 i rq A n b2 /\
    b' = b2 <| ab_isReadyToDeliver := rd |> <| ab_isEmpty := em |>;
  rst_index : ab_nextIndexToDeliver b' = 0;
  rst_retired : ab_retired b1 = exhausted_seqs (ab_receipts b) ∪ ab_retired b;
}.

(** The events at the end of [ResetDelivery]. *)
Lemma reset_flags ms b :
  buf_ok ms b -> (ab_nextIndexFree b <> 0 -> ab_firstSeqNum b ∉ ab_retired b) ->
  exists rd em, (if decide (ab_nextIndexToDeliver b >= ab_nextIndexFree b) then noneReady b
    else ready ← Set_ (ab_isReadyToDeliver b); Some (b <| ab_isReadyToDeliver := ready |> <| ab_isEmpty ::= Clear |>)) =
    Some (b <| ab_isReadyToDeliver := rd |> <| ab_isEmpty := em |>) /\
    settled_ok ms (b <| ab_isReadyToDeliver := rd |> <| ab_isEmpty := em |>).
Proof.
  intros Hok Hh. destruct (decide (ab_nextIndexToDeliver b >= ab_nextIndexFree b)) as [Hge|Hlt].
  - assert (Hfl : flow_late b) by (intros ?; lia).
    destruct (flags_spec ms b (bo_win _ _ Hok) Hfl) as (rd & em & Hfs & Hw' & Hl' & Hd').
    rewrite decide_True in Hfs by done. exists rd, em. split; [exact Hfs|].
    split; [by apply buf_ok_flags|done|done|exact Hh].
  - destruct (Set_spec (ab_isReadyToDeliver b) (w_ready _ _ (bo_win _ _ Hok))) as (rd & -> & Hrd & [Hrv _] & _).
    destruct (Clear_ok (ab_isEmpty b) (w_empty _ _ (bo_win _ _ Hok))) as [Hem Hev].
    rewrite bind_ret. exists rd, (Clear (ab_isEmpty b)). split; [reflexivity|].
    split; [|done|intros Hn; simpl in Hn; lia|exact Hh].
    apply buf_ok_flags; [done|]. destruct (bo_win _ _ Hok). by split.
Qed.

Lemma reset_spec ms b i rq A :
  settled_ok ms b -> own i rq A b ->
  exists ms1 b1 n b', ResetDelivery b = Some b' /\ settled_ok (drop n ms1) b' /\ own i rq A b' /\
    restarted ms b i rq A ms1 b1 n b' /\ buf_ok ms1 b1.
Proof.
  intros [Hok Hfl Hfd Hh] Ho. unfold ResetDelivery. fold (reset_start b).
  assert (Hok0 : buf_ok ms (reset_start b)) by (by apply reset_start_ok).
  destruct (retireAll_spec (ab_receipts b) ms (reset_start b) i rq A) as (ms1 & b1 & Hr1 & Hok1 & Ho1 & Hrt); [done|exact Ho|done|].
  change (ab_receipts (reset_start b)) with (ab_receipts b). rewrite Hr1, bind_ret.
  destruct (releaseHead_spec ms1 b1 i rq A Hok1 Ho1) as (n & b2 & Hr2 & Hhr & Hok2 & Ho2 & Hh2). rewrite Hr2, bind_ret.
  destruct (reset_flags (drop n ms1) b2 Hok2 Hh2) as (rd & em & Hfs & Hs). rewrite Hfs.
  exists ms1, b1, n. eexists. split; [reflexivity|]. split; [done|]. split; [exact Ho2|]. split; [|done].
  assert (Hntd : ab_nextIndexToDeliver b1 = 0) by (by rewrite (rt_frame _ _ _ _ _ Hrt)).
  split; [exact Hrt|by exists b2, rd, em| |].
  - simpl. destruct Hhr; [done|simpl; lia].
  - rewrite (rt_retired _ _ _ _ _ Hrt). simpl. set_unfold. intros x. destruct (decide (x ∈ ab_retired b)); naive_solver.
Qed.

(** Any list over the slots loses the exhausted frames only. *)
Lemma reset_live {X} ms b i rq A ms1 b1 n b' (l l1 : list X) :
  win_ok ms b -> restarted ms b i rq A ms1 b1 n b' -> length l = length ms -> length l1 = length l ->
  (forall j, seq_at b (Z.of_nat j) ∉ exhausted_seqs (ab_receipts b) -> l1 !! j = l !! j) -> buf_ok ms1 b1 ->
  live_list (ab_retired b') (ab_firstSeqNum b') (drop n l1) =
  live_list (exhausted_seqs (ab_receipts b) ∪ ab_retired b) (ab_firstSeqNum b) l.
Proof.
  intros Hw [Hrt (b2 & rd & em & Hhr & ->) _ Hret] Hl Hl1 Hll Hok1.
  etrans; [exact (head_released_list _ _ _ _ _ _ _ l1 (bo_win _ _ Hok1) Hhr ltac:(rewrite (rt_length _ _ _ _ _ Hrt); lia))|].
  rewrite (retires_first _ _ _ _ _ Hrt), Hret. apply live_list_ext; [done|apply Hw|done|].
  intros j Hj. apply Hll. unfold seq_at. set_solver.
Qed.

Lemma restarted_sendable ms b i rq A ms1 b1 n b' : restarted ms b i rq A ms1 b1 n b' -> sendable b'.
Proof.
  intros [Hrt (b2 & rd & em & Hhr & ->) _ Hret] e He _ Hn.
  destruct (head_released_receipts _ _ _ _ _ _ _ e Hhr He) as [He1 Hin1].
  rewrite (retires_receipts _ _ _ _ _ Hrt) in He1. change (e ∈ ab_receipts b) in He1.
  destruct (exhausted e) eqn:Hx; [|done]. destruct Hn. apply Hin1. rewrite Hret.
  pose proof (elem_of_exhausted _ _ He1 Hx). set_solver.
Qed.

Lemma restarted_first ms b i rq A ms1 b1 n b' :
  win_ok ms b -> restarted ms b i rq A ms1 b1 n b' -> (n <= length ms)%nat /\ ab_firstSeqNum b' = seq_at b (Z.of_nat n).
Proof.
  intros Hw [Hrt (b2 & rd & em & Hhr & ->) _ _]. pose proof (retires_first _ _ _ _ _ Hrt) as Hf1.
  change (ab_firstSeqNum (reset_start b)) with (ab_firstSeqNum b) in Hf1.
  destruct Hhr as [|n' r ring Hn _ _ _]; simpl.
  - split; [lia|]. rewrite Hf1. unfold seq_at, add64. rewrite Z.add_0_r. symmetry. apply Z.mod_small, Hw.
  - rewrite (rt_length _ _ _ _ _ Hrt) in Hn. split; [lia|]. unfold seq_at. simpl. by rewrite Hf1.
Qed.

(** The messages themselves are not touched. *)
Lemma restarted_msgs ms b i rq A ms1 b1 n b' a m :
  restarted ms b i rq A ms1 b1 n b' -> ab_msgs b !! a = Some m -> ab_msgs b' !! a = Some m.
Proof.
  intros [Hrt (b2 & rd & em & Hhr & ->) _ _] Ha. apply (rt_msgs _ _ _ _ _ Hrt) in Ha. simpl. by destruct Hhr.
Qed.
End deliver.
