(* ===== verification/AckAdmit.v ===== *)
(** * Admission

    [tryAddWithReceiptLocked] either refuses, with the byte request left queued
    or ended, or appends the message as the last slot with the next sequence
    number. *)

From S2P Require Import Prelude ByteBudget Event Protocol SharedBudget AckBuffer AckInv AckRemove AckReceipts AckRetire AckDeliver.

Section admission.
Context {B : Type} `{SharedBudgetLaws B}.
Implicit Types (b : AckBuffer B) (ms : list maddr).

(** The invariant between two method calls. *)
Record public_ok ms b : Prop := {
  po_settled : settled_ok ms b;
  po_sendable : sendable b;
}.

(** What the strict laws of the budget ask: while escape bytes are charged an
    ACK request is held, so no second escape is made.  The lenient laws ask
    nothing. *)
Definition escape_safe b : Prop := sb_strict = true -> ab_escapeBytes b <> 0 -> heldFlagged b = true.

(** What a caller of the admission may assume about its request. *)
Record request_ok (size : Z) (waiter : option wid) i rq A b : Prop := {
  rq_running : ab_isRunning b = true;
  rq_size : ab_accounting b = true -> messageOverheadBytes <= size;
  rq_waiter w : waiter = Some w -> rq !! w = Some size;
  rq_bytes : ab_bytes b + size < W64;
  rq_room : total_held (<[i := acct rq b]> A) + requested (<[i := acct rq b]> A) + size < W64;
}.

(** ** Byte limits *)

Lemma own_cancel i rq A b w :
  own i rq A b -> (forall w', w = Some w' -> is_Some (rq !! w')) ->
  exists s, cancelShared w b = Some (b <| ab_shared := s |>) /\ sb_present s = sb_present (ab_shared b) /\
    own i (ended w rq) A (b <| ab_shared := s |>).
Proof.
  intros Ho Hw. unfold cancelShared.
  destruct (sb_cancel_spec (<[i := acct rq b]> A) (ab_shared b) i (acct rq b) w) as (s & -> & Hp & Hh);
    [done|by rewrite lookup_insert_eq|done|]. exists s. rewrite insert_insert_eq in Hh. done.
Qed.

(** Why an attempt that leaves the waiter [w'] is refused: the window is full, or
    an ACK request is held and the byte limit of the client is exceeded or the
    request waits for the budget. *)
Definition refusal (size : Z) (w' : option wid) b : Prop :=
  ab_nextIndexFree b >= ab_currentCapacity b \/
  (ab_accounting b = true /\ heldFlagged b = true /\
   match w' with
   | None => ab_maxBytes b <> 0 /\ ab_bytes b + size > ab_maxBytes b
   | Some _ => sb_present (ab_shared b) = true
   end).

(** A refusal: the message does not fit and an ACK request is held; the request
    ended or stays queued. *)
Definition refused (size : Z) (waiter w' : option wid) i rq A b b' : Prop :=
  exists s rq', b' = b <| ab_shared := s |> /\ sb_present s = sb_present (ab_shared b) /\ own i rq' A b' /\
    ((w' = None /\ rq' = ended waiter rq) \/
     exists w, w' = Some w /\ ((waiter = None /\ rq !! w = None) \/ waiter = Some w) /\ rq' = <[w := size]> rq).

(** Whether the byte limit of the client is exceeded. *)
Definition over_limit (size : Z) b : bool := bool_decide (ab_maxBytes b <> 0 /\ ab_bytes b + size > ab_maxBytes b).

(** The bytes after which an ACK is asked for: an eighth of the limit of which at
    least half is in use, that of the client or, given as limit and load, of the
    budget; the smaller one where both apply, 0 where none does. *)
Definition flag_step (size : Z) (budget : option (Z * Z)) b : Z :=
  let client := if decide (ab_maxBytes b <> 0 /\ mul64 2 (ab_bytes b + size) >= ab_maxBytes b)
                then ab_maxBytes b / pressureStepDivisor else 0 in
  match budget with
  | Some (total, used) =>
      if decide (total <> 0 /\ mul64 2 used >= total)
      then if decide (client = 0) then total / pressureStepDivisor else Z.min client (total / pressureStepDivisor)
      else client
  | None => client
  end.

(** What the budget answered and what follows from it: the forced flag, the step
    and the escape. *)
Definition admission_answer (size : Z) (waiter : option wid) (forced : bool) (step esq esc : Z) (s : B) b : Prop :=
  if sb_present (ab_shared b) then
    exists r, sb_reserveFor size (negb (heldFlagged b)) (ab_group b) waiter (ab_shared b) = Some (r, s) /\ r_ok r = true /\
      forced = over_limit size b || r_overshot r /\ step = flag_step size (Some (sb_Total s, r_used r)) b /\
      (esq, esc) = if r_overshot r && bool_decide (ab_group b <> None)
                   then (ab_nextSeqNum b, size) else (ab_escapeSeq b, ab_escapeBytes b)
  else s = ab_shared b /\ forced = over_limit size b /\ step = flag_step size None b /\
    (esq, esc) = (ab_escapeSeq b, ab_escapeBytes b).

(** The state with the bytes admitted. *)
Definition charged (size esq esc : Z) (s : B) b : AckBuffer B :=
  b <| ab_shared := s |> <| ab_escapeSeq := esq |> <| ab_escapeBytes := esc |>.

Record admitted_bytes (size : Z) (waiter : option wid) (forced : bool) (step esq esc : Z) (s : B) i rq A b : Prop := {
  am_present : sb_present s = sb_present (ab_shared b);
  am_holds : sb_holds (<[i := Account (ab_group b) (ab_registered b) (ab_bytes b + size) esc (ended waiter rq)]> A) s;
  am_answer : admission_answer size waiter forced step esq esc s b;
  (** a new escape belongs to the message, which is then flagged *)
  am_escape : (esq = ab_escapeSeq b /\ esc = ab_escapeBytes b) \/
    (esq = ab_nextSeqNum b /\ esc = size /\ ab_group b <> None /\ forced = true);
  (** over the cap of the client only with the flag *)
  am_forced : ab_maxBytes b <> 0 -> ab_bytes b + size > ab_maxBytes b -> forced = true /\ heldFlagged b = false;
}.

(** The answer of the budget, with the step as [admitBytes] computes it. *)
Lemma answer_present size waiter r s esq esc b :
  sb_present (ab_shared b) = true -> r_ok r = true ->
  sb_reserveFor size (negb (heldFlagged b)) (ab_group b) waiter (ab_shared b) = Some (r, s) ->
  (esq, esc) = (if r_overshot r && bool_decide (ab_group b <> None)
                then (ab_nextSeqNum b, size) else (ab_escapeSeq b, ab_escapeBytes b)) ->
  let p := if decide (ab_maxBytes b <> 0 /\ mul64 2 (ab_bytes b + size) >= ab_maxBytes b)
           then ab_maxBytes b / pressureStepDivisor else 0 in
  let step := sb_Total s / pressureStepDivisor in
  admission_answer size waiter (over_limit size b || r_overshot r)
    (if decide (sb_Total s <> 0 /\ mul64 2 (r_used r) >= sb_Total s)
     then if decide (p = 0 \/ step < p) then step else p else p) esq esc s b.
Proof.
  intros Hp Hok Hr He p step. unfold admission_answer. rewrite Hp. exists r. split_and!; try done.
  unfold flag_step. fold p step. repeat case_decide; lia.
Qed.

Lemma admitBytes_spec f size waiter i rq A b :
  bytes_at f b -> life_ok b -> own i rq A b -> escape_safe b -> request_ok size waiter i rq A b -> ab_accounting b = true ->
  exists r b', admitBytes size waiter b = Some (r, b') /\
    match r with
    | inl w' => refusal size w' b /\ refused size waiter w' i rq A b b'
    | inr (forced, step) => exists esq esc s, b' = charged size esq esc s b /\
        admitted_bytes size waiter forced step esq esc s i rq A b
    end.
Proof.
  intros Hby Hli Ho Hesc [Hrun Hsz Hwt Hbb Hroom] Ha. specialize (Hsz Ha).
  assert (H0sz : 0 <= size) by (unfold messageOverheadBytes in Hsz; lia).
  assert (Hcl : ab_isClosed b = false).
  { destruct (ab_isClosed b) eqn:E; [|done]. rewrite (li_closed _ Hli E) in Hrun. done. }
  assert (Hbytes : 0 <= ab_bytes b).
  { rewrite (ba_sum _ _ Hby), Hcl. apply sumZ_nonneg, Hby. }
  unfold admitBytes. rewrite add64_small by lia.
  fold (over_limit size b). set (over := over_limit size b).
  destruct (over && heldFlagged b) eqn:Hov.
  { apply andb_true_iff in Hov as [Hcap%bool_decide_eq_true Hheld].
    destruct (own_cancel i rq A b waiter Ho) as (s & Hc & Hp & Ho').
    { intros w ?. rewrite (Hwt w) by done. by eexists. }
    rewrite Hc, bind_ret. eexists _, _. split; [reflexivity|]. split; [by right|]. exists s, (ended waiter rq).
    split; [done|]. split; [done|]. split; [exact Ho'|]. by left. }
  assert (Hfor : ab_maxBytes b <> 0 -> ab_bytes b + size > ab_maxBytes b -> over = true /\ heldFlagged b = false).
  { intros ? ?. assert (over = true) as Ho1 by (by apply bool_decide_eq_true). rewrite Ho1 in Hov. done. }
  destruct (sb_present (ab_shared b)) eqn:Hpres.
  - destruct (sb_reserveFor_spec (<[i := acct rq b]> A) (ab_shared b) i (acct rq b) size (negb (heldFlagged b)) waiter)
      as (r & s & Hr & Hp & Hos & Hok & _ & Hpost); [done|by rewrite lookup_insert_eq|done| |done|done|done| |].
    { intros Hg. by apply (li_group _ Hli). }
    { intros Hs Hf%negb_true_iff. simpl. destruct (decide (ab_escapeBytes b = 0)); [done|].
      by rewrite (Hesc Hs) in Hf. }
    simpl in Hr. rewrite Hr, bind_ret. destruct (r_ok r) eqn:Hrok.
    + destruct Hpost as [Hh _]. rewrite insert_insert_eq in Hh. unfold admitted in Hh. simpl in Hh.
      destruct (r_overshot r && bool_decide (ab_group b <> None)) eqn:Hoc; simpl; rewrite Hoc.
      * apply andb_true_iff in Hoc as [Hov' Hgr]. apply bool_decide_eq_true in Hgr.
        assert (Hf : heldFlagged b = false) by (specialize (Hos Hov'); by apply negb_true_iff in Hos).
        eexists _, _. split; [reflexivity|]. exists (ab_nextSeqNum b), size, s. split; [reflexivity|].
        split; [congruence|done|by apply (answer_present _ _ r); [..|rewrite Hov', bool_decide_true]|..].
        -- right. split_and!; try done. rewrite Hov'. apply orb_true_r.
        -- intros ? ?. destruct (Hfor ltac:(done) ltac:(done)) as [-> ?]. done.
      * eexists _, _. split; [reflexivity|]. exists (ab_escapeSeq b), (ab_escapeBytes b), s. split; [reflexivity|].
        split; [congruence|done|by apply (answer_present _ _ r); [..|rewrite Hoc]|by left|].
        intros ? ?. destruct (Hfor ltac:(done) ltac:(done)) as [-> ?]. done.
    + destruct Hpost as (w' & Hw' & Hor & Hh). eexists _, _. split; [reflexivity|].
      assert (Hheld : heldFlagged b = true).
      { destruct (heldFlagged b); [done|]. specialize (Hok eq_refl). done. }
      rewrite Hw'. split; [by right|]. exists s, (<[w' := size]> rq). split; [done|]. rewrite insert_insert_eq in Hh.
      split; [congruence|]. split; [exact Hh|]. right. by exists w'.
  - eexists _, _. split; [reflexivity|]. exists (ab_escapeSeq b), (ab_escapeBytes b), (ab_shared b). split; [reflexivity|].
    split; [done| | |by left|done]; [|unfold admission_answer; rewrite Hpres; by split_and!].
    assert (Hg : ab_group b = None).
    { by apply (sb_no_group (<[i := acct rq b]> A) (ab_shared b) i (acct rq b)); [|rewrite lookup_insert_eq|]. }
    rewrite <-(insert_insert_eq A i _ (acct rq b)). by apply sb_absent.
Qed.

(** ** The new slot *)

(** The values the new slot brings. *)
Record slot := Slot {
  sl_escapeSeq : Z;
  sl_escapeBytes : Z;
  sl_shared : B;
  sl_msg : DataMessage;
  sl_lastFlagged : Z;
  sl_sinceFlag : Z;
  sl_avail : Event;
  sl_ready : Event;
}.

Definition added ms (e : maddr) (size : Z) (receipt : option cell) (maxT : Z) (x : slot) b : AckBuffer B :=
  (trackMessage (ab_nextSeqNum b) receipt maxT b)
    <| ab_shared := sl_shared x |> <| ab_escapeSeq := sl_escapeSeq x |> <| ab_escapeBytes := sl_escapeBytes x |>
    <| ab_nextSeqNum := add64 (ab_nextSeqNum b) 1 |> <| ab_msgs := <[e := sl_msg x]> (ab_msgs b) |>
    <| ab_lastFlaggedSeq := sl_lastFlagged x |> <| ab_bytesSinceFlag := sl_sinceFlag x |>
    <| ab_buff := slots (ms ++ [e]) (length (ab_buff b)) |> <| ab_nextIndexFree := ab_nextIndexFree b + 1 |>
    <| ab_sizes := if ab_accounting b then ab_sizes b ++ [size] else ab_sizes b |>
    <| ab_bytes := if ab_accounting b then ab_bytes b + size else ab_bytes b |>
    <| ab_isAvailable := sl_avail x |> <| ab_isReadyToDeliver := sl_ready x |>
    <| ab_isEmpty := Clear (ab_isEmpty b) |>.

(** The message as it is stored: numbered, and flagged when asked for. *)
Definition stamped (m : DataMessage) (forced : bool) (step size : Z) b : DataMessage :=
  let m := m <| SeqNum := ab_nextSeqNum b |> in
  if bool_decide (ab_nextSeqNum b mod ab_ackEvery b = 0) || forced ||
     bool_decide (step <> 0 /\ add64 (ab_bytesSinceFlag b) size >= step)
  then m <| AckRequested := true |> else m.

Lemma stamped_seq m forced step size b : SeqNum (stamped m forced step size b) = ab_nextSeqNum b.
Proof. unfold stamped. by destruct (_ || _ || _). Qed.

Lemma stamped_forced m step size b : AckRequested (stamped m true step size b) = true.
Proof. unfold stamped. by rewrite orb_true_r. Qed.

(** Only the number and the flag of the caller's message change. *)
Lemma stamped_payload m forced step size b :
  stamped m forced step size b = m <| SeqNum := ab_nextSeqNum b |> <| AckRequested := AckRequested (stamped m forced step size b) |>.
Proof. unfold stamped. by destruct (_ || _ || _). Qed.

Record slot_ok (x : slot) (size : Z) (waiter : option wid) (forced : bool) (step : Z) i rq A b : Prop := {
  so_admitted : ab_accounting b = true /\ admitted_bytes size waiter forced step (sl_escapeSeq x) (sl_escapeBytes x) (sl_shared x) i rq A b \/
    (ab_accounting b = false /\ sl_escapeSeq x = ab_escapeSeq b /\ sl_escapeBytes x = ab_escapeBytes b /\
     sl_shared x = ab_shared b /\ forced = false /\ step = 0);
  so_lastFlagged : sl_lastFlagged x = if AckRequested (sl_msg x) then ab_nextSeqNum b else ab_lastFlaggedSeq b;
  so_avail : ev_is (bool_decide (ab_nextIndexFree b + 1 < ab_currentCapacity b)) (sl_avail x);
  so_ready : event_ok (sl_ready x) /\ ev_v (sl_ready x) = true;
}.

(** The tail of an admission: from the stamp to the events. *)
Lemma store_spec ms b e m size forced step receipt maxT esq esc s :
  win_ok ms b -> bytes_at (ab_firstSeqNum b) b -> ab_nextIndexFree b < ab_currentCapacity b ->
  ab_msgs b !! e = Some m -> 0 <= size -> ab_bytes b + size < W64 ->
  exists since avail ready,
    (b1 ← stampMessage e size forced step (charged size esq esc s b);
     storeMessage e size (trackMessage (ab_nextSeqNum b) receipt maxT b1)) =
    Some (added ms e size receipt maxT (Slot esq esc s (stamped m forced step size b)
      (if AckRequested (stamped m forced step size b) then ab_nextSeqNum b else ab_lastFlaggedSeq b) since avail ready) b) /\
    ev_is (bool_decide (ab_nextIndexFree b + 1 < ab_currentCapacity b)) avail /\ event_ok ready /\ ev_v ready = true.
Proof.
  intros Hw Hby Hlt Hm Hsz Hbb. pose proof (w_free _ _ Hw) as Hf. pose proof (w_len _ _ Hw) as Hlen. unfold max_slots in Hlen.
  destruct (Set_spec (ab_isReadyToDeliver b) (w_ready _ _ Hw)) as (rd & Hrd & Hrok & [Hrv _] & _).
  assert (Hbytes : 0 <= ab_bytes b).
  { rewrite (ba_sum _ _ Hby). destruct (ab_isClosed b); [lia|]. apply sumZ_nonneg, Hby. }
  set (m' := stamped m forced step size b).
  set (since := if AckRequested m' then 0 else if ab_accounting b then add64 (ab_bytesSinceFlag b) size else ab_bytesSinceFlag b).
  set (avail := if decide (ab_nextIndexFree b + 1 >= ab_currentCapacity b) then Clear (ab_isAvailable b) else ab_isAvailable b).
  exists since, avail, rd. split.
  2:{ split; [|done]. unfold avail. pose proof (w_avail _ _ Hw) as Hav. rewrite bool_decide_true in Hav by lia.
      destruct (decide (ab_nextIndexFree b + 1 >= ab_currentCapacity b)).
      - rewrite bool_decide_false by lia. by eapply Clear_is.
      - by rewrite bool_decide_true by lia. }
  unfold stampMessage. simpl. rewrite Hm, !bind_ret.
  assert (Hset : zset (ab_buff b) (ab_nextIndexFree b) (Some e) = Some (slots (ms ++ [e]) (length (ab_buff b)))).
  { rewrite zset_Some by lia. rewrite (w_buff _ _ Hw) at 1. rewrite Hf, Nat2Z.id, slots_push by lia. done. }
  assert (Hst : forall (b1 : AckBuffer B), ab_nextIndexFree b1 = ab_nextIndexFree b -> ab_buff b1 = ab_buff b ->
    ab_accounting b1 = ab_accounting b -> ab_bytes b1 = ab_bytes b -> ab_currentCapacity b1 = ab_currentCapacity b ->
    ab_isAvailable b1 = ab_isAvailable b -> ab_isReadyToDeliver b1 = ab_isReadyToDeliver b ->
    storeMessage e size b1 = Some (b1 <| ab_buff := slots (ms ++ [e]) (length (ab_buff b)) |>
      <| ab_nextIndexFree := ab_nextIndexFree b + 1 |>
      <| ab_sizes := if ab_accounting b then ab_sizes b1 ++ [size] else ab_sizes b1 |>
      <| ab_bytes := if ab_accounting b then ab_bytes b + size else ab_bytes b |>
      <| ab_isAvailable := avail |> <| ab_isReadyToDeliver := rd |> <| ab_isEmpty := Clear (ab_isEmpty b1) |>)).
  { intros b1 E1 E2 E3 E4 E5 E6 E7. unfold storeMessage. rewrite E1, E2, Hset, bind_ret.
    assert (Hstep : b1 <| ab_buff := slots (ms ++ [e]) (length (ab_buff b)) |> <| ab_nextIndexFree ::= fun n => add64 n 1 |> =
      b1 <| ab_buff := slots (ms ++ [e]) (length (ab_buff b)) |> <| ab_nextIndexFree := ab_nextIndexFree b + 1 |>).
    { transitivity (b1 <| ab_buff := slots (ms ++ [e]) (length (ab_buff b)) |> <| ab_nextIndexFree := add64 (ab_nextIndexFree b1) 1 |>);
        [reflexivity|]. rewrite E1. by replace (add64 (ab_nextIndexFree b) 1) with (ab_nextIndexFree b + 1) by u64_lia. }
    rewrite Hstep. unfold avail. simpl. rewrite E3, E4. destruct (ab_accounting b); simpl; rewrite E5;
      (destruct (decide (ab_nextIndexFree b + 1 >= ab_currentCapacity b)); simpl; rewrite E7, Hrd, bind_ret);
      rewrite ?add64_small, <-?E6, <-?E4 by lia; reflexivity. }
  match goal with |- context [if AckRequested ?x then _ else _] => change x with m' end.
  assert (Hseq : SeqNum m' = ab_nextSeqNum b) by apply stamped_seq. rewrite Hseq.
  rewrite Hst; [|destruct (AckRequested m'), receipt, (ab_accounting b) eqn:Ea; simpl; congruence..].
  unfold since, added. destruct (AckRequested m'), receipt; try destruct (ab_accounting b); reflexivity.
Qed.

Section added.
Context (ms : list maddr) (b : AckBuffer B) (Hpo : public_ok ms b) (e : maddr) (m : DataMessage) (size : Z).
Context (receipt : option cell) (maxT : Z) (x : slot) (waiter : option wid) (forced : bool) (step : Z).
Context (i : nat) (rq : gmap wid Z) (A : accounts).
Context (Hlt : ab_nextIndexFree b < ab_currentCapacity b) (He : ab_msgs b !! e = Some m) (Hne : e ∉ ms).
Context (Hseq : SeqNum (sl_msg x) = ab_nextSeqNum b) (Hx : slot_ok x size waiter forced step i rq A b).
Context (Hrq : request_ok size waiter i rq A b) (Hsz : 0 <= size) (Hmax : 0 <= maxT < 2 ^ 32).
Context (Hcell : forall c, receipt = Some c -> c ∉ te_state <$> ab_receipts b).

Let b' := added ms e size receipt maxT x b.
Let Hok : buf_ok ms b := so_ok _ _ (po_settled _ _ Hpo).
Let n := ab_nextIndexFree b.

Lemma added_small : 0 <= n /\ n + 1 <= max_slots /\ n = Z.of_nat (length ms).
Proof. pose proof (w_free _ _ (bo_win _ _ Hok)). pose proof (w_len _ _ (bo_win _ _ Hok)). unfold n. lia. Qed.

Lemma added_first : ab_firstSeqNum b' = ab_firstSeqNum b.
Proof. unfold b', added. by destruct receipt. Qed.

Lemma added_off s : off b' s = off b s.
Proof. unfold off. by rewrite added_first. Qed.

Lemma added_seq j : seq_at b' j = seq_at b j.
Proof. unfold seq_at. by rewrite added_first. Qed.

(** The number of the new slot. *)
Lemma new_off : is_u64 (ab_nextSeqNum b) /\ off b (ab_nextSeqNum b) = n.
Proof.
  pose proof added_small as Hn. unfold max_slots in Hn. rewrite (w_next _ _ (bo_win _ _ Hok)). split; [apply add64_range|].
  apply off_seq_at. split; lia.
Qed.

Lemma new_not_retired : ab_nextSeqNum b ∉ ab_retired b.
Proof. intros Hin. destruct (re_window _ (bo_retired _ _ Hok) _ Hin) as [_ Hw]. rewrite (proj2 new_off) in Hw. unfold n in Hw. lia. Qed.

Lemma added_win : win_ok (ms ++ [e]) b'.
Proof.
  pose proof added_small as (Hn0 & Hn1 & Hn2). pose proof (bo_win _ _ Hok) as Hw. pose proof (w_len _ _ Hw).
  pose proof (w_deliver _ _ Hw). unfold n in *.
  assert (Hl : length (slots (ms ++ [e]) (length (ab_buff b))) = length (ab_buff b)).
  { apply slots_length. rewrite length_app. simpl. lia. }
  destruct (Clear_ok (ab_isEmpty b) (w_empty _ _ Hw)) as [Hce _].
  assert (Hfields : ab_nextIndexFree b' = n + 1 /\ ab_buff b' = slots (ms ++ [e]) (length (ab_buff b)) /\
    ab_nextSeqNum b' = add64 (ab_nextSeqNum b) 1 /\ ab_nextIndexToDeliver b' = ab_nextIndexToDeliver b /\
    ab_currentCapacity b' = ab_currentCapacity b /\ ab_ackEvery b' = ab_ackEvery b /\ ab_isAvailable b' = sl_avail x /\
    ab_isReadyToDeliver b' = sl_ready x /\ ab_isEmpty b' = Clear (ab_isEmpty b)).
  { unfold b', added. by destruct receipt. }
  destruct Hfields as (F1 & F2 & F3 & F4 & F5 & F6 & F7 & F8 & F9). split.
  - rewrite added_first. apply Hw.
  - rewrite F1, length_app. simpl. unfold n. lia.
  - rewrite F3, F1, added_seq, (w_next _ _ Hw). unfold seq_at. apply add64_succ.
  - rewrite F4, F1. unfold n. lia.
  - rewrite F5. apply Hw.
  - rewrite F5, F1, F2, Hl. unfold n. lia.
  - by rewrite F2, Hl.
  - rewrite F6, F5. apply Hw.
  - rewrite F1, F5, F7. apply Hx.
  - rewrite F8. apply Hx.
  - by rewrite F9.
Qed.

Lemma added_next : (ab_next b <= ab_next b')%nat.
Proof. unfold b', added. destruct receipt; [apply Nat.le_succ_diag_r|apply Nat.le_refl]. Qed.

Lemma added_store : store_ok (ms ++ [e]) b'.
Proof.
  pose proof (bo_store _ _ Hok) as Hst. pose proof added_next.
  assert (Hfields : ab_msgs b' = <[e := sl_msg x]> (ab_msgs b) /\ ab_chans b' = ab_chans b /\ ab_wake b' = ab_wake b).
  { unfold b', added. by destruct receipt. }
  destruct Hfields as (F1 & F2 & F3). split.
  - apply NoDup_app. split; [apply Hst|]. split; [|apply NoDup_singleton]. by intros a Ha ->%list_elem_of_singleton.
  - intros j a Hj. rewrite F1, added_seq. apply lookup_app_Some in Hj as [Hj|[Hge Hj]].
    + destruct (st_msg _ _ Hst j a Hj) as (m0 & Hm0 & Hs0). exists m0. rewrite lookup_insert_ne; [done|].
      intros <-. apply Hne. by eapply list_elem_of_lookup_2.
    + apply list_lookup_singleton_Some in Hj as [Hj <-]. exists (sl_msg x). rewrite lookup_insert_eq. split; [done|].
      rewrite Hseq, (w_next _ _ (bo_win _ _ Hok)). f_equal. pose proof added_small as (_ & _ & Hn). unfold n in Hn. lia.
  - intros a. rewrite F1. intros [<-|[_ Ha]]%lookup_insert_is_Some.
    + assert (e < ab_next b)%nat; [|lia]. apply (st_fresh_m _ _ Hst). by eexists.
    + apply (st_fresh_m _ _ Hst) in Ha. lia.
  - intros c. rewrite F2. intros Hc%(st_fresh_c _ _ Hst). lia.
  - intros c. rewrite F2, F3. apply Hst.
Qed.

Lemma added_closed : ab_isClosed b = false.
Proof.
  destruct (ab_isClosed b) eqn:E; [|done]. pose proof (li_closed _ (bo_life _ _ Hok) E). pose proof (rq_running _ _ _ _ _ _ Hrq). congruence.
Qed.

Lemma added_bytes : bytes_at (ab_firstSeqNum b') b'.
Proof.
  rewrite added_first. pose proof (bo_bytes _ _ Hok) as Hby. pose proof added_closed as Hcl. pose proof added_small as Hn.
  pose proof (rq_bytes _ _ _ _ _ _ Hrq) as Hbb.
  assert (Hfields : ab_accounting b' = ab_accounting b /\ ab_shared b' = sl_shared x /\ ab_isClosed b' = ab_isClosed b /\
    ab_sizes b' = (if ab_accounting b then ab_sizes b ++ [size] else ab_sizes b) /\ ab_nextIndexFree b' = n + 1 /\
    ab_bytes b' = (if ab_accounting b then ab_bytes b + size else ab_bytes b) /\ ab_maxBytes b' = ab_maxBytes b /\
    ab_escapeSeq b' = sl_escapeSeq x /\ ab_escapeBytes b' = sl_escapeBytes x /\ ab_group b' = ab_group b).
  { unfold b', added. by destruct receipt. }
  destruct Hfields as (F1 & F2 & F3 & F4 & F5 & F6 & F7 & F8 & F9 & F10).
  pose proof (ba_sum _ _ Hby) as Hsum. rewrite Hcl in Hsum.
  split; rewrite ?F1, ?F2, ?F3, ?F4, ?F5, ?F6, ?F7, ?F8, ?F9, ?F10.
  - intros Ha. rewrite Ha, length_app. simpl. pose proof (ba_sizes _ _ Hby Ha). unfold n. lia.
  - intros Ha. rewrite Ha. destruct (ba_off _ _ Hby Ha) as (Hs & Hz & Hp). split; [done|].
    by destruct (so_admitted _ _ _ _ _ _ _ _ _ Hx) as [[? _]|(_ & _ & -> & -> & _)]; [congruence|].
  - destruct (ab_accounting b); [|apply Hby]. apply Forall_app. split; [apply Hby|by constructor].
  - rewrite Hcl, Hsum. destruct (ab_accounting b); [rewrite sumZ_app; simpl; lia|done].
  - destruct (ab_accounting b); [rewrite sumZ_app; simpl; lia|apply Hby].
  - apply Hby.
  - intros Hz. split; [done|].
    destruct (so_admitted _ _ _ _ _ _ _ _ _ Hx) as [[Ha [_ _ _ [[-> Heq]|(-> & Heq & Hg & _)] _]]|(Ha & _ & Heq & _)].
    + rewrite Heq in *. destruct (ba_esc _ _ Hby Hz) as (_ & Hg & Hu & Hget). split; [done|]. split; [done|].
      rewrite Ha. apply zget_Some in Hget as [? Hget]. apply zget_Some. split; [done|]. by apply lookup_app_l_Some.
    + split; [done|]. destruct new_off as [Hu Hoff]. split; [done|]. rewrite Ha, Heq. pose proof (ba_sizes _ _ Hby Ha) as Hs.
      apply zget_Some. unfold off in Hoff. rewrite Hoff. unfold n in *. split; [lia|]. rewrite <-Hs, Nat2Z.id. by apply list_lookup_middle.
    + destruct (ba_off _ _ Hby Ha) as (_ & Hzero & _). congruence.
Qed.

Lemma added_retired : retired_ok b'.
Proof.
  pose proof (bo_retired _ _ Hok) as [R1 R2 R3]. pose proof added_small.
  assert (Hfields : ab_accounting b' = ab_accounting b /\ ab_retired b' = ab_retired b /\ ab_nextIndexFree b' = n + 1 /\
    ab_releasedRetired b' = ab_releasedRetired b /\
    ab_sizes b' = (if ab_accounting b then ab_sizes b ++ [size] else ab_sizes b)).
  { unfold b', added. by destruct receipt. }
  destruct Hfields as (F1 & F2 & F3 & F4 & F5).
  split; intros *; rewrite ?F1, ?F2, ?F3, ?F4, ?F5, ?added_off; [| |apply R3].
  - intros Hin. destruct (R1 _ Hin). unfold n in *. split; [done|lia].
  - intros Hin Ha. specialize (R2 _ Hin Ha). rewrite Ha. apply zget_Some in R2 as [? Hg]. apply zget_Some.
    split; [done|]. by apply lookup_app_l_Some.
Qed.

(** The tracked entries and cells, with the new one if a receipt was asked for. *)
Definition new_entry (c : cell) : trackedAdmission := TrackedAdmission (ab_next b) (ab_nextSeqNum b) c maxT 0.

Definition new_entries : list trackedAdmission := match receipt with Some c => [new_entry c] | None => [] end.

Lemma elem_of_new e0 : e0 ∈ new_entries -> exists c, receipt = Some c /\ e0 = new_entry c.
Proof.
  unfold new_entries. destruct receipt as [c|]; [intros ->%list_elem_of_singleton; by exists c|by intros ?%not_elem_of_nil].
Qed.

Lemma new_sorted {X} (R : trackedAdmission -> trackedAdmission -> Prop) (f : trackedAdmission -> X) :
  StronglySorted R new_entries /\ NoDup (f <$> new_entries).
Proof.
  unfold new_entries. destruct receipt as [c|]; simpl; (split; [by repeat constructor|]); [apply NoDup_singleton|apply NoDup_nil_2].
Qed.

Lemma added_receipts : ab_receipts b' = ab_receipts b ++ new_entries.
Proof. unfold b', added, new_entries. destruct receipt; [done|]. simpl. by rewrite app_nil_r. Qed.

Lemma added_cursor : ab_deliverCursor b' =
  te_id <$> head (filter (fun e => ab_nextIndexToDeliver b <= off b (te_seq e)) (ab_receipts b')).
Proof.
  pose proof (tr_cursor _ (bo_track _ _ Hok)) as Hc. pose proof (w_deliver _ _ (bo_win _ _ Hok)).
  rewrite added_receipts, filter_app. unfold new_entries. destruct receipt as [c|].
  - rewrite filter_cons_True by (simpl; rewrite (proj2 new_off); unfold n; lia).
    change (ab_deliverCursor b') with (match ab_deliverCursor b with None => Some (ab_next b) | c => c end).
    rewrite Hc. by destruct (filter _ (ab_receipts b)).
  - rewrite filter_nil, app_nil_r. exact Hc.
Qed.

Lemma added_track : track_ok b'.
Proof.
  pose proof (bo_track _ _ Hok) as [T1 T2 T3 T4 T5 T6 T7 T8]. pose proof added_small as Hn. destruct new_off as [Hu Hoff].
  assert (Hfields : ab_retired b' = ab_retired b /\ ab_nextIndexFree b' = n + 1 /\
    ab_nextIndexToDeliver b' = ab_nextIndexToDeliver b /\
    ab_cells b' = match receipt with Some c => <[c := ReceiptRetained]> (ab_cells b) | None => ab_cells b end /\
    ab_next b' = match receipt with Some c => S (ab_next b) | None => ab_next b end).
  { unfold b', added. by destruct receipt. }
  destruct Hfields as (F1 & F2 & F3 & F4 & F5).
  assert (Hin : forall e, e ∈ ab_receipts b' -> e ∈ ab_receipts b \/ exists c, receipt = Some c /\ e = new_entry c).
  { intros e0. rewrite added_receipts. intros [?|?%elem_of_new]%elem_of_app; [by left|by right]. }
  split.
  - intros e0 He0. rewrite F2, added_off. destruct (Hin e0 He0) as [Ho|(c & _ & ->)].
    + destruct (T1 e0 Ho). unfold n. split; [done|lia].
    + simpl. rewrite Hoff. split; [done|lia].
  - rewrite added_receipts. apply StronglySorted_app_2; [| |by apply (new_sorted _ te_id)].
    + intros e0 e1 He0 (c & _ & ->)%elem_of_new. rewrite !added_off. simpl. rewrite Hoff. unfold n. by apply T1.
    + revert T2. generalize (ab_receipts b). intros l. induction l as [|e0 l IH]; intros Hs; [constructor|].
      apply StronglySorted_inv in Hs as [Hs Hf]. constructor; [by apply IH|]. rewrite Forall_forall in *. intros e1 He1.
      rewrite !added_off. by apply Hf.
  - rewrite added_receipts, fmap_app. apply NoDup_app. split; [done|]. split; [|by apply (new_sorted (fun _ _ => True))].
    intros id (e0 & -> & He0)%list_elem_of_fmap (e1 & Hid & (c & _ & ->)%elem_of_new)%list_elem_of_fmap.
    specialize (T4 e0 He0). simpl in Hid. lia.
  - intros e0 He0. rewrite F5. destruct (Hin e0 He0) as [Ho|(c & -> & ->)]; [|simpl; lia].
    specialize (T4 e0 Ho). destruct receipt; lia.
  - rewrite added_receipts, fmap_app. apply NoDup_app. split; [done|]. split; [|by apply (new_sorted (fun _ _ => True))].
    intros c0 Hc0 (e1 & Hid & (c & Hr & ->)%elem_of_new)%list_elem_of_fmap. simpl in Hid. subst c0. by apply (Hcell c).
  - intros e0 He0. rewrite F4, F1. destruct (Hin e0 He0) as [Ho|(c & Hr & ->)].
    + rewrite <-(T6 e0 Ho). clear -Hcell Ho. destruct receipt as [c|]; [|done]. rewrite lookup_insert_ne; [done|]. intros ->.
      apply (Hcell (te_state e0)); [done|]. by apply list_elem_of_fmap_2.
    + rewrite Hr. simpl. rewrite lookup_insert_eq, decide_False by apply new_not_retired. done.
  - intros e0 He0. destruct (Hin e0 He0) as [Ho|(c & _ & ->)]; [by apply T7|]. simpl. lia.
  - rewrite F3, added_cursor. do 2 f_equal. apply list_filter_iff'. intros e0 _. by rewrite added_off.
Qed.

Lemma added_public : public_ok (ms ++ [e]) b'.
Proof.
  pose proof added_small as Hn. pose proof (w_deliver _ _ (bo_win _ _ Hok)).
  assert (Hfields : ab_retired b' = ab_retired b /\ ab_nextIndexFree b' = n + 1 /\
    ab_nextIndexToDeliver b' = ab_nextIndexToDeliver b /\ ab_isReadyToDeliver b' = sl_ready x /\
    ab_isEmpty b' = Clear (ab_isEmpty b) /\ ab_isClosed b' = ab_isClosed b /\ ab_isRunning b' = ab_isRunning b /\
    ab_registered b' = ab_registered b /\ ab_group b' = ab_group b).
  { unfold b', added. by destruct receipt. }
  destruct Hfields as (F1 & F2 & F3 & F4 & F5 & F6 & F7 & F8 & F9). split; [split|].
  - split; [apply added_win|apply added_store|apply added_bytes|apply added_retired|apply added_track|].
    destruct (bo_life _ _ Hok). split; rewrite ?F6, ?F7, ?F8, ?F9; done.
  - intros _. rewrite F4, F5. split; [apply Hx|]. apply Clear_ok, (bo_win _ _ Hok).
  - intros Hge. rewrite F2, F3 in Hge. unfold n in Hge. lia.
  - intros _. rewrite F1, added_first. intros Hin. destruct (decide (n = 0)) as [Hz|Hz].
    + destruct (re_window _ (bo_retired _ _ Hok) _ Hin) as [_ Hw]. pose proof (off_u64 b (ab_firstSeqNum b)). unfold n in Hz. lia.
    + by apply (so_head _ _ (po_settled _ _ Hpo) Hz).
  - intros e0. rewrite added_receipts, F1, F3, added_off. intros [Ho|Hnew]%elem_of_app.
    + by apply (po_sendable _ _ Hpo).
    + intros _ _. apply elem_of_new in Hnew as (c & _ & ->). unfold exhausted. simpl. apply bool_decide_eq_false. lia.
Qed.

Lemma added_own : ab_accounting b = true -> own i (ended waiter rq) A b'.
Proof.
  intros Ha. destruct (so_admitted _ _ _ _ _ _ _ _ _ Hx) as [[_ [_ Hh _ _ _]]|[? _]]; [|congruence].
  assert (Hfields : acct (ended waiter rq) b' =
    Account (ab_group b) (ab_registered b) (ab_bytes b + size) (sl_escapeBytes x) (ended waiter rq) /\ ab_shared b' = sl_shared x).
  { unfold b', added. destruct receipt; unfold acct; simpl; by rewrite Ha. }
  unfold own. by destruct Hfields as [-> ->].
Qed.
End added.

(** ** The whole admission *)

(** The request once the attempt ended: dropped, or queued under [w']. *)
Definition request_left (size : Z) (waiter w' : option wid) (rq rq' : gmap wid Z) : Prop :=
  (w' = None /\ rq' = ended waiter rq) \/
  exists w, w' = Some w /\ ((waiter = None /\ rq !! w = None) \/ waiter = Some w) /\ rq' = <[w := size]> rq.

(** What the caller brings: a message that is not in the buffer already, a fresh
    receipt cell and a 32-bit limit. *)
Record caller_ok (e : maddr) (m : DataMessage) (receipt : option cell) (maxT : Z) ms b : Prop := {
  ca_msg : ab_msgs b !! e = Some m;
  ca_new : e ∉ ms;
  ca_cell c : receipt = Some c -> c ∉ te_state <$> ab_receipts b;
  ca_max : 0 <= maxT < 2 ^ 32;
}.

Inductive add_post ms (e : maddr) (m : DataMessage) (size : Z) (waiter : option wid) (receipt : option cell) (maxT : Z)
    i rq A b : bool -> option wid -> AckBuffer B -> Prop :=
  | add_refused w' rq' s :
      refusal size w' b -> sb_present s = sb_present (ab_shared b) ->
      request_left size waiter w' rq rq' -> own i rq' A (b <| ab_shared := s |>) ->
      add_post ms e m size waiter receipt maxT i rq A b false w' (b <| ab_shared := s |>)
  | add_done x forced step :
      ab_nextIndexFree b < ab_currentCapacity b -> slot_ok x size waiter forced step i rq A b ->
      sl_msg x = stamped m forced step size b ->
      public_ok (ms ++ [e]) (added ms e size receipt maxT x b) ->
      own i (ended waiter rq) A (added ms e size receipt maxT x b) ->
      add_post ms e m size waiter receipt maxT i rq A b true None (added ms e size receipt maxT x b).

(** Without a budget the account of a client is whatever it is. *)
Lemma own_absent i rq rq' A b b' :
  own i rq A b -> sb_present (ab_shared b) = false -> ab_shared b' = ab_shared b -> ab_group b' = ab_group b -> own i rq' A b'.
Proof.
  intros Ho Hp Es Eg. unfold own. rewrite Es, <-(insert_insert_eq A i _ (acct rq b)). apply sb_absent; [done|done|].
  simpl. rewrite Eg. by apply (sb_no_group (<[i := acct rq b]> A) (ab_shared b) i (acct rq b)); [|rewrite lookup_insert_eq|].
Qed.

Lemma tryAdd_spec ms b e m size waiter receipt maxT i rq A :
  public_ok ms b -> own i rq A b -> escape_safe b -> request_ok size waiter i rq A b -> 0 <= size ->
  caller_ok e m receipt maxT ms b ->
  exists ok w' b', tryAddWithReceiptLocked e size waiter receipt maxT b = Some (ok, w', b') /\
    add_post ms e m size waiter receipt maxT i rq A b ok w' b'.
Proof.
  intros Hpo Ho Hesc Hrq Hsz [Hm Hne Hcell Hmax]. pose proof (so_ok _ _ (po_settled _ _ Hpo)) as [Hw Hst Hby Hre Htr Hli].
  unfold tryAddWithReceiptLocked. pose proof (w_avail _ _ Hw) as [_ Hav]. unfold IsSet. rewrite Hav.
  case_bool_decide as Hlt; simpl.
  2:{ destruct (own_cancel i rq A b waiter Ho) as (s & Hc & Hp & Ho').
      { intros w ?. rewrite (rq_waiter _ _ _ _ _ _ Hrq w) by done. by eexists. }
      rewrite Hc, bind_ret. eexists _, _, _. split; [reflexivity|].
      apply (add_refused ms e m size waiter receipt maxT i rq A b None (ended waiter rq)); [left; lia|done|by left|done]. }
  assert (Hfin : forall forced step esq esc s, (ab_accounting b = true /\ admitted_bytes size waiter forced step esq esc s i rq A b \/
      ab_accounting b = false /\ esq = ab_escapeSeq b /\ esc = ab_escapeBytes b /\ s = ab_shared b /\ forced = false /\ step = 0) ->
      exists ok w' b', (b1 ← stampMessage e size forced step (charged size esq esc s b);
        b2 ← storeMessage e size (trackMessage (ab_nextSeqNum b) receipt maxT b1); Some (true, None, b2)) = Some (ok, w', b') /\
        add_post ms e m size waiter receipt maxT i rq A b ok w' b').
  { intros forced step esq esc s Had.
    destruct (store_spec ms b e m size forced step receipt maxT esq esc s) as (since & avail & ready & Hs & Hav' & Hr1 & Hr2);
      [done|done|done|done|done|apply Hrq|].
    set (x := Slot esq esc s (stamped m forced step size b) _ since avail ready) in *.
    assert (Hx : slot_ok x size waiter forced step i rq A b) by (by split).
    destruct (stampMessage e size forced step (charged size esq esc s b)) as [b1|]; [|done].
    cbn [mbind option_bind] in Hs |- *. rewrite Hs. cbn [mbind option_bind]. eexists _, _, _. split; [reflexivity|].
    assert (Hpub : public_ok (ms ++ [e]) (added ms e size receipt maxT x b)).
    { apply (added_public ms b Hpo e m size receipt maxT x waiter forced step i rq A); try done. by apply stamped_seq. }
    apply (add_done ms e m size waiter receipt maxT i rq A b x forced step); [done|done|done|done|].
    destruct (ab_accounting b) eqn:Hac; [by apply (added_own ms b e size receipt maxT x waiter forced step i rq A Hx)|].
    destruct (ba_off _ _ Hby Hac) as (_ & _ & Hp). eapply own_absent; [exact Ho|done| |].
    - destruct (so_admitted _ _ _ _ _ _ _ _ _ Hx) as [[? _]|(_ & _ & _ & Hsh & _)]; [congruence|].
      unfold added. destruct receipt; exact Hsh.
    - unfold added. by destruct receipt. }
  destruct (ab_accounting b) eqn:Ha.
  - destruct (admitBytes_spec (ab_firstSeqNum b) size waiter i rq A b) as (r & b1 & -> & Hpost); [done..|]. rewrite bind_ret.
    destruct r as [w'|[forced step]].
    + destruct Hpost as (Hheld & s & rq' & -> & Hp & Ho' & Hleft). eexists _, _, _. split; [reflexivity|].
      by apply (add_refused ms e m size waiter receipt maxT i rq A b w' rq').
    + destruct Hpost as (esq & esc & s & -> & Had). by apply (Hfin forced step esq esc s); left.
  - rewrite bind_ret. change b with (charged size (ab_escapeSeq b) (ab_escapeBytes b) (ab_shared b) b) at 2.
    by apply Hfin; right.
Qed.

(** While the reason lasts and the waiter is not woken, every further attempt is
    refused too. *)
Lemma tryAdd_refused ms b e m size waiter receipt maxT i rq A :
  public_ok ms b -> own i rq A b -> escape_safe b -> request_ok size waiter i rq A b -> 0 <= size ->
  caller_ok e m receipt maxT ms b -> refusal size waiter b ->
  (forall w, waiter = Some w -> sb_woken w (ab_shared b) = false) ->
  exists w' b', tryAddWithReceiptLocked e size waiter receipt maxT b = Some (false, w', b').
Proof.
  intros Hpo Ho Hesc Hrq Hsz Hca Hwhy Hwk. destruct (tryAdd_spec ms b e m size waiter receipt maxT i rq A) as (r & w' & b' & Ht & Hpost); [done..|].
  destruct r; [|by exists w', b']. exfalso. pose proof (so_ok _ _ (po_settled _ _ Hpo)) as [Hw _ _ _ _ Hli].
  inversion Hpost as [|x forced step Hlt Hx Hmsg _ _]; subst. destruct Hwhy as [?|(Ha & Hheld & Hwhy)]; [lia|].
  revert Ht. unfold tryAddWithReceiptLocked. pose proof (w_avail _ _ Hw) as [_ Hav]. unfold IsSet.
  rewrite Hav, bool_decide_true, Ha by done. simpl. unfold admitBytes. rewrite Hheld, andb_true_r.
  destruct (decide (ab_maxBytes b <> 0 /\ add64 (ab_bytes b) size > ab_maxBytes b)) as [Hov|Hov].
  { rewrite bool_decide_true by done. simpl. unfold cancelShared. by destruct (sb_cancel _ _). }
  rewrite bool_decide_false by done. simpl. destruct waiter as [w|].
  - rewrite Hwhy.
    destruct (sb_reserveFor_spec (<[i := acct rq b]> A) (ab_shared b) i (acct rq b) size false (Some w))
      as (r & s & Hr & _ & _ & _ & Hno & _); [done|by rewrite lookup_insert_eq|done| |by apply Hrq|apply Hrq|apply Hrq|done|].
    { intros Hg. apply (li_group _ Hli); [done|]. destruct (ab_isClosed b) eqn:E; [|done].
      pose proof (rq_running _ _ _ _ _ _ Hrq). by rewrite (li_closed _ Hli E) in *. }
    simpl in Hr. rewrite Hr. simpl. by rewrite (Hno w eq_refl eq_refl (Hwk w eq_refl)).
  - destruct Hov. split; [apply Hwhy|]. pose proof (rq_bytes _ _ _ _ _ _ Hrq).
    assert (0 <= ab_bytes b); [|rewrite add64_small by lia; apply Hwhy].
    pose proof (bo_bytes _ _ (so_ok _ _ (po_settled _ _ Hpo))) as Hby. rewrite (ba_sum _ _ Hby).
    destruct (ab_isClosed b); [done|]. apply sumZ_nonneg, Hby.
Qed.
End admission.
