(* ===== verification/AckMethods.v ===== *)
(** * The remaining methods: acknowledgement, capacity, shutdown and reading

    [Ack], [UpdateCapacity], [Close], [drain], [GetUnAcked] and [NewAckBuffer] on
    buffers that satisfy the invariant: no panic, the invariant again, and what
    each returns. *)

From S2P Require Import Prelude ByteBudget Event Protocol SharedBudget AckBuffer AckInv AckRemove AckReceipts AckRetire AckDeliver AckAdmit.

(** ** Conversion to floating point *)

(** Below 2^53 the conversion is exact. *)
Lemma float64_exact n : 0 <= n < 2 ^ 53 -> float64_of n = n.
Proof.
  intros Hn. unfold float64_of. assert (He : Z.max 0 (Z.log2 n - 52) = 0).
  { destruct (decide (n = 0)) as [->|Hz]; [done|]. assert (Z.log2 n < 53) by (apply Z.log2_lt_pow2; lia). lia. }
  rewrite He. by rewrite Z.shiftr_0_r, !Z.shiftl_0_r.
Qed.

Section methods.
Context {B : Type} `{SharedBudgetLaws B}.
Implicit Types (b : AckBuffer B) (ms : list maddr).

(** ** Acknowledgement *)

Lemma sendable_removed ms b k ack r :
  sendable b -> sendable (removed k ack ms r b).
Proof.
  intros Hs e [Hge He]%elem_of_from Hle Hn. apply Hs; [done| |].
  - simpl in Hle. change (off (removed k ack ms r b) (te_seq e)) with (off (shifted k ms r b) (te_seq e)) in Hle.
    rewrite shifted_off in Hle by done. lia.
  - intros Hin. apply Hn. simpl. apply elem_of_filter. split; [lia|done].
Qed.

Lemma sendable_head ms b i rq A n b' : head_released ms b i rq A n b' -> sendable b -> sendable b'.
Proof. intros [|n' r ring _ _ _ _] Hs; [done|]. apply sendable_removed. exact Hs. Qed.

(** What an accepted acknowledgement removes: the acknowledged prefix with its
    receipts confirmed, then the retired head it uncovers. *)
Inductive ack_post ms (seq : Z) i rq A b : option ack_error -> AckBuffer B -> Prop :=
  | ack_late ring : ab_releasedRetired b = Some ring -> ring_has seq ring = true -> off b seq >= ab_nextIndexFree b ->
      ack_post ms seq i rq A b None b
  | ack_rejected e : ackCheck seq b = Some e ->
      (forall ring, ab_releasedRetired b = Some ring -> ring_has seq ring = true -> off b seq < ab_nextIndexFree b) ->
      ack_post ms seq i rq A b (Some e) b
  | ack_removed r n b' :
      let k := S (Z.to_nat (off b seq)) in
      ackCheck seq b = None -> off b seq < ab_nextIndexFree b -> residue_ok k ms r i rq A b ->
      buf_ok (drop k ms) (removed k true ms r b) ->
      head_released (drop k ms) (removed k true ms r b) i rq A n b' ->
      public_ok (drop (k + n) ms) b' -> own i rq A b' -> ack_post ms seq i rq A b None b'.

Lemma ackCheck_window seq b : ackCheck seq b = None -> off b seq < ab_nextIndexFree b.
Proof.
  unfold ackCheck. fold (off b seq). intros Hc.
  destruct (decide (seq < _ /\ _)); [done|]. destruct (decide (seq >= _ /\ _)); [done|].
  destruct (decide (off b seq >= _ \/ _)) as [|Hn]; [done|]. lia.
Qed.

Lemma Ack_spec ms b seq i rq A :
  public_ok ms b -> own i rq A b ->
  exists r b', Ack seq b = Some (r, b') /\ ack_post ms seq i rq A b r b'.
Proof.
  intros [[Hok Hfl Hfd Hh] Hse] Ho. unfold Ack. fold (off b seq).
  destruct (match ab_releasedRetired b with Some r => _ | None => false end) eqn:Hlate.
  { destruct (ab_releasedRetired b) as [ring|] eqn:Hr; [|done]. apply andb_true_iff in Hlate as [Hge Hhas].
    apply bool_decide_eq_true in Hge. eexists _, _. split; [reflexivity|]. by eapply ack_late. }
  destruct (ackCheck seq b) as [err|] eqn:Hc.
  { eexists _, _. split; [reflexivity|]. apply ack_rejected; [done|]. intros ring Hr Hhas. rewrite Hr, Hhas, andb_true_r in Hlate.
    apply bool_decide_eq_false in Hlate. lia. }
  pose proof (ackCheck_window seq b Hc) as Hlt. pose proof (off_u64 b seq) as Hoff.
  pose proof (w_free _ _ (bo_win _ _ Hok)) as Hf.
  set (k := S (Z.to_nat (off b seq))).
  destruct (remove_spec ms b k true i rq A) as (r & Hr & Hd & Hres & Hok1 & Ho1); [done|done|lia|].
  replace (off b seq) with (Z.of_nat k - 1) by lia. rewrite Hr, bind_ret. unfold ackReceiptsLocked. rewrite Hd.
  destruct (releaseHead_spec (drop k ms) (removed k true ms r b) i rq A Hok1 Ho1) as (n & b' & Hr' & Hhr & Hok2 & Ho2 & Hh2).
  rewrite Hr', bind_ret. eexists _, _. split; [reflexivity|].
  rewrite drop_drop in Hok2. apply (ack_removed ms seq i rq A b r n b'); try done.
  split; [split; [done| | |done]|].
  - apply (head_released_late _ _ _ _ _ _ _ Hhr). exact (ro_late _ _ _ _ _ _ _ Hres Hfl).
  - apply (head_released_done _ _ _ _ _ _ _ Hhr). intros _. exact (ro_done _ _ _ _ _ _ _ Hres).
  - apply (sendable_head _ _ _ _ _ _ _ Hhr). by apply sendable_removed.
Qed.

Lemma head_present ms b i rq A n b' : head_released ms b i rq A n b' -> sb_present (ab_shared b') = sb_present (ab_shared b).
Proof. intros [|n' r ring _ _ Hres _]; [done|]. exact (ro_present _ _ _ _ _ _ _ Hres). Qed.

Lemma ack_present ms seq i rq A b r b' : ack_post ms seq i rq A b r b' -> sb_present (ab_shared b') = sb_present (ab_shared b).
Proof.
  intros [| |r' n b'' k _ _ Hres _ Hhr _ _]; [done..|]. etrans; [exact (head_present _ _ _ _ _ _ _ Hhr)|].
  exact (ro_present _ _ _ _ _ _ _ Hres).
Qed.

Lemma restarted_present ms b i rq A ms1 b1 n b' :
  restarted ms b i rq A ms1 b1 n b' -> sb_present (ab_shared b') = sb_present (ab_shared b).
Proof.
  intros [Hrt (b2 & rd & em & Hhr & ->) _ _]. etrans; [exact (head_present _ _ _ _ _ _ _ Hhr)|].
  exact (rt_present _ _ _ _ _ Hrt).
Qed.

(** ** Capacity *)

(** Replacing the wake channel and the availability keeps the rest. *)
Lemma public_frame ms b (b' : AckBuffer B) :
  public_ok ms b -> win_ok ms b' -> store_ok ms b' ->
  bytes_at (ab_firstSeqNum b') b' -> retired_ok b' -> track_ok b' -> life_ok b' ->
  ab_firstSeqNum b' = ab_firstSeqNum b -> ab_nextIndexFree b' = ab_nextIndexFree b ->
  ab_nextIndexToDeliver b' = ab_nextIndexToDeliver b -> ab_retired b' = ab_retired b ->
  ab_isReadyToDeliver b' = ab_isReadyToDeliver b -> ab_isEmpty b' = ab_isEmpty b ->
  ab_receipts b' = ab_receipts b -> public_ok ms b'.
Proof.
  intros [[Hok Hfl Hfd Hh] Hse] Hw Hst Hby Hre Htr Hli E1 E2 E3 E4 E5 E6 E7. split; [split; [done|..]|].
  - unfold flow_late. by rewrite E2, E3, E5, E6.
  - unfold flow_done. by rewrite E2, E3, E5, E6.
  - by rewrite E1, E2, E4.
  - unfold sendable, off. by rewrite E1, E3, E4, E7.
Qed.

(** The buffer with another window. *)
Definition resized ms (cap : Z) (len : nat) (av : Event) b : AckBuffer B :=
  (signalled b) <| ab_buff := slots ms len |> <| ab_currentCapacity := cap |> <| ab_isAvailable := av |>
    <| ab_ackEvery := Z.max 1 (cap / 2) |>.

Lemma UpdateCapacity_spec ms b cap :
  public_ok ms b -> 0 <= cap <= max_slots -> cap <> ab_currentCapacity b ->
  exists len av, UpdateCapacity cap b = Some (resized ms cap len av b) /\
    Z.of_nat len = Z.max cap (Z.max (ab_nextIndexFree b) 1) /\
    ev_is (bool_decide (ab_nextIndexFree b < cap)) av /\ public_ok ms (resized ms cap len av b).
Proof.
  intros Hpo Hcap Hne. pose proof (so_ok _ _ (po_settled _ _ Hpo)) as [Hw Hst Hby Hre Htr Hli].
  pose proof (w_free _ _ Hw) as Hf. pose proof (w_len _ _ Hw) as Hlen. unfold UpdateCapacity. rewrite decide_False by done.
  set (len0 := Nat.max (length (ab_buff b)) (Z.to_nat cap)).
  assert (Hgrow : (if decide (Z.of_nat (length (ab_buff b)) < cap) then
      newBuff ← makeslice cap; Some (b <| ab_buff := go_copy newBuff (ab_buff b) |>) else Some b) =
      Some (b <| ab_buff := slots ms len0 |>)).
  { unfold len0. destruct (decide (Z.of_nat (length (ab_buff b)) < cap)).
    - unfold makeslice. rewrite decide_False by lia. cbn [mbind option_bind]. rewrite Nat.max_r by lia.
      assert (Hg := slots_grow ms (length (ab_buff b)) (Z.to_nat cap) ltac:(lia)). rewrite <-(w_buff _ _ Hw) in Hg. by rewrite Hg.
    - rewrite Nat.max_l by lia. by rewrite <-(w_buff _ _ Hw). }
  rewrite Hgrow, bind_ret. set (b1 := b <| ab_buff := slots ms len0 |> <| ab_currentCapacity := cap |>).
  assert (Hl1 : length (ab_buff b1) = len0) by (simpl; apply slots_length; lia).
  rewrite (shrink_eq ms b1), bind_ret; [|by rewrite Hl1|exact Hf|rewrite Hl1; lia|rewrite Hl1; lia].
  set (len := shrunk b1). simpl.
  destruct (avail_update _ (ab_isAvailable b) (ab_nextIndexFree b < cap) (w_avail _ _ Hw)) as (av & -> & Hav). rewrite bind_ret.
  rewrite signal_eq by exact (st_wake _ _ Hst). rewrite bind_ret.
  assert (Hev : (if decide (ackPercentOf cap = 0) then 1 else ackPercentOf cap) = Z.max 1 (cap / 2)).
  { unfold ackPercentOf, max_slots in *. rewrite float64_exact by lia. assert (0 <= cap / 2) by (apply Z.div_pos; lia).
    destruct (decide (cap / 2 = 0)); lia. }
  rewrite Hev. exists len, av. split; [reflexivity|].
  assert (Hlen' : Z.of_nat len = Z.max cap (Z.max (ab_nextIndexFree b) 1)).
  { unfold len, shrunk, initialCapacity. rewrite Hl1. simpl. lia. }
  split; [done|]. split; [done|].
  assert (Hsl : length (slots ms len) = len) by (apply slots_length; lia).
  pose proof (store_signalled ms b Hst) as Hst'.
  apply (public_frame ms b); try done; [|frame Hst'|frame Hby|frame Hre|frame Htr|frame Hli].
  destruct Hw. split; try assumption; simpl; rewrite ?Hsl; try done; lia.
Qed.

(** A window beyond what an allocation can hold is a run-time panic. *)
Lemma UpdateCapacity_panic ms b cap : win_ok ms b -> cap > max_slots -> UpdateCapacity cap b = None.
Proof.
  intros Hw Hcap. pose proof (w_len _ _ Hw). unfold UpdateCapacity. rewrite decide_False by lia.
  destruct (decide (Z.of_nat (length (ab_buff b)) < cap)) as [_|]; [|lia]. unfold makeslice.
  by destruct (decide (cap > max_slots)).
Qed.

(** ** Shutdown *)

Definition closed_buffer (s : B) b : AckBuffer B :=
  (signalled b) <| ab_isRunning := false |> <| ab_isClosed := true |> <| ab_shared := s |> <| ab_escapeBytes := 0 |>
    <| ab_bytes := 0 |> <| ab_registered := false |>.

Lemma closed_unregistered s b : ab_registered b = false ->
  Some (signalled (b <| ab_isRunning := false |> <| ab_isClosed := true |> <| ab_shared := s |> <| ab_escapeBytes := 0 |>
    <| ab_bytes := 0 |>)) = Some (closed_buffer s b).
Proof. intros Hr. unfold closed_buffer. simpl. rewrite <-Hr. reflexivity. Qed.

Lemma Close_spec ms b i rq A :
  public_ok ms b -> own i rq A b ->
  exists s, Close b = Some (closed_buffer s b) /\ sb_present s = sb_present (ab_shared b) /\
    public_ok ms (closed_buffer s b) /\ own i rq A (closed_buffer s b).
Proof.
  intros Hpo Ho. pose proof (so_ok _ _ (po_settled _ _ Hpo)) as [Hw Hst Hby Hre Htr Hli].
  assert (Hbytes : 0 <= ab_bytes b).
  { rewrite (ba_sum _ _ Hby). destruct (ab_isClosed b); [lia|]. apply sumZ_nonneg, Hby. }
  assert (Hesc : 0 <= ab_escapeBytes b <= ab_bytes b).
  { destruct (decide (ab_escapeBytes b = 0)) as [->|Hz]; [lia|]. destruct (ba_esc _ _ Hby Hz) as (Hc & _ & _ & Hg).
    rewrite (ba_sum _ _ Hby), Hc. apply zget_Some in Hg as [_ Hg]. by eapply sumZ_lookup; [apply Hby|]. }
  unfold Close. set (b0 := b <| ab_isRunning := false |> <| ab_isClosed := true |>).
  assert (Hrel : exists s, releaseAllLocked b0 = Some (b0 <| ab_shared := s |> <| ab_escapeBytes := 0 |> <| ab_bytes := 0 |>) /\
    sb_present s = sb_present (ab_shared b) /\
    sb_holds (<[i := Account (ab_group b) (ab_registered b) 0 0 rq]> A) s).
  { unfold releaseAllLocked. simpl. destruct (decide (ab_bytes b <> 0)) as [Hz|Hz].
    - destruct (own_release i rq A b (ab_bytes b) (ab_escapeBytes b)) as (s & Hs & Hp & Hh); [done|lia|lia|lia|lia|].
      unfold releaseShared. simpl. rewrite Hs, !bind_ret. exists s. rewrite !Z.sub_diag in Hh. done.
    - assert (Ez : ab_bytes b = 0) by lia. assert (Ee : ab_escapeBytes b = 0) by lia. exists (ab_shared b).
      split; [|split; [done|unfold own, acct in Ho; by rewrite Ez, Ee in Ho]].
      transitivity (Some (b0 <| ab_shared := ab_shared b |> <| ab_escapeBytes := ab_escapeBytes b |> <| ab_bytes := ab_bytes b |>));
        [reflexivity|by rewrite Ez, Ee]. }
  destruct Hrel as (s1 & -> & Hp1 & Hh1). rewrite bind_ret. simpl.
  assert (Hfin : forall s, sb_present s = sb_present (ab_shared b) ->
    sb_holds (<[i := Account (ab_group b) false 0 0 rq]> A) s -> public_ok ms (closed_buffer s b) /\ own i rq A (closed_buffer s b)).
  { intros s Hp Hh. split; [|exact Hh]. pose proof (store_signalled ms b Hst) as Hst'.
    apply (public_frame ms b); try done; [frame Hw|frame Hst'| |frame Hre|frame Htr].
    destruct Hby as [Y1 Y2 Y3 Y4 Y5 Y6 Y7]. split; simpl; try done. intros Ha. destruct (Y2 Ha) as (? & ? & ?).
    split; [done|]. split; [done|]. congruence. }
  destruct (ab_registered b) eqn:Hreg.
  - destruct (sb_unregister_spec (<[i := Account (ab_group b) true 0 0 rq]> A) s1 i (Account (ab_group b) true 0 0 rq))
      as (s & Hs & Hp & Hh); [done|by rewrite lookup_insert_eq|done|by apply (li_registered _ Hli)|].
    simpl in Hs. rewrite Hs, !bind_ret, signal_eq by exact (st_wake _ _ Hst). rewrite insert_insert_eq in Hh.
    exists s. split; [reflexivity|]. split; [congruence|]. apply Hfin; [congruence|exact Hh].
  - rewrite bind_ret, signal_eq by exact (st_wake _ _ Hst). exists s1. split; [|split; [done|by apply Hfin]].
    apply closed_unregistered. exact Hreg.
Qed.

(** Sealing admission. *)
Lemma drain_start_spec ms b :
  public_ok ms b -> drain_start b = Some (signalled (b <| ab_isRunning := false |>)) /\
    public_ok ms (signalled (b <| ab_isRunning := false |>)).
Proof.
  intros Hpo. pose proof (so_ok _ _ (po_settled _ _ Hpo)) as [Hw Hst Hby Hre Htr Hli].
  split; [apply signal_eq; exact (st_wake _ _ Hst)|]. pose proof (store_signalled ms b Hst) as Hst'.
  apply (public_frame ms b); try done; [frame Hw|frame Hst'|frame Hby|frame Hre|frame Htr|]. destruct Hli. by split.
Qed.

(** Sampling the wake channel. *)
Lemma sampleWake_spec ms b :
  public_ok ms b -> exists c b', sampleWake b = (c, b') /\ public_ok ms b' /\ ab_wake b' = Some c /\
    ab_chans b' !! c = Some false /\ ab_shared b' = ab_shared b /\ ab_msgs b' = ab_msgs b /\
    (forall i rq A, own i rq A b -> own i rq A b').
Proof.
  intros Hpo. pose proof (so_ok _ _ (po_settled _ _ Hpo)) as [Hw Hst Hby Hre Htr Hli].
  unfold sampleWake. destruct (ab_wake b) as [c|] eqn:Hc.
  { exists c, b. split; [done|]. split; [done|]. split; [done|]. split; [by apply (st_wake _ _ Hst)|done]. }
  eexists _, _. split; [reflexivity|]. split; [|split; [done|split; [simpl; apply lookup_insert_eq|done]]].
  apply (public_frame ms b); try done; [frame Hw| |frame Hby|frame Hre| |frame Hli].
  - destruct Hst as [S1 S2 S3 S4 S5]. split; simpl; try done.
    + intros a Ha%S3. lia.
    + intros c [<-|[_ Hs%S4]]%lookup_insert_is_Some; lia.
    + intros c [= <-]. apply lookup_insert_eq.
  - destruct Htr as [T1 T2 T3 T4 T5 T6 T7 T8]. split; try assumption. intros e He%T4. simpl. lia.
Qed.

Lemma releaseTracking_ok ms b : public_ok ms b -> public_ok ms (releaseReceiptTracking b).
Proof.
  intros [[[Hw Hst Hby Hre Htr Hli] Hfl Hfd Hh] Hse]. split; [split; [split| | |]|].
  - frame Hw.
  - frame Hst.
  - frame Hby.
  - frame Hre.
  - split; simpl; try (by intros e ?%not_elem_of_nil); try done; [constructor|apply NoDup_nil_2..].
  - frame Hli.
  - exact Hfl.
  - exact Hfd.
  - exact Hh.
  - intros e ?%not_elem_of_nil. done.
Qed.

(** ** Reading *)

Lemma live_list_empty {X} s (ms : list X) : live_list ∅ s ms = ms.
Proof. revert s. induction ms as [|a ms IH]; intros s; simpl; [done|]. rewrite decide_False by set_solver. by rewrite IH. Qed.

Lemma seq_at_0 b : is_u64 (ab_firstSeqNum b) -> seq_at b 0 = ab_firstSeqNum b.
Proof. intros Hu. unfold seq_at, is_u64 in *. u64_lia. Qed.

(** Every retired number of the window takes one slot out of the live list. *)
Lemma live_list_length {X} (ret : gset Z) s (ms : list X) :
  is_u64 s -> Z.of_nat (length ms) < W64 -> (forall x, x ∈ ret -> exists j, (j < length ms)%nat /\ x = add64 s (Z.of_nat j)) ->
  (length (live_list ret s ms) + size ret)%nat = length ms.
Proof.
  revert ret s. induction ms as [|a ms IH]; intros ret s Hs Hl Hr; simpl in *.
  { assert (Hret : ret = ∅) by (apply set_eq; intros x; split; [intros (j & ? & _)%Hr; lia|set_solver]).
    by rewrite Hret, size_empty. }
  assert (Hn : forall j, add64 (add64 s 1) (Z.of_nat j) = add64 s (Z.of_nat (S j))).
  { intros j. rewrite add64_assoc. f_equal. lia. }
  assert (Hdel : length (live_list ret (add64 s 1) ms) = length (live_list (ret ∖ {[s]}) (add64 s 1) ms)).
  { f_equal. apply live_list_ext; [done|apply add64_range| |done]. intros j Hj. rewrite Hn.
    assert (add64 s (Z.of_nat (S j)) <> s) by (unfold is_u64 in Hs; u64_lia). set_solver. }
  assert (IH' : (length (live_list (ret ∖ {[s]}) (add64 s 1) ms) + size (ret ∖ {[s]}))%nat = length ms).
  { apply IH; [apply add64_range|lia|]. intros x [Hx Hne]%elem_of_difference. destruct (Hr x Hx) as ([|j] & Hj & ->).
    - destruct Hne. apply elem_of_singleton. unfold is_u64 in Hs. u64_lia.
    - exists j. split; [lia|]. by rewrite Hn. }
  destruct (decide (s ∈ ret)) as [Hin|Hin]; simpl; rewrite Hdel.
  - rewrite size_difference, size_singleton in IH' by set_solver.
    assert (size ret <> 0%nat) by (intros Hz%size_empty_inv; set_solver). lia.
  - replace (ret ∖ {[s]}) with ret in * by set_solver. lia.
Qed.

Lemma retired_size ms b :
  win_ok ms b -> retired_ok b -> (length (live ms b) + size (ab_retired b))%nat = length ms.
Proof.
  intros Hw Hre. pose proof (w_free _ _ Hw). pose proof (w_len _ _ Hw) as Hlen. unfold max_slots in Hlen.
  apply live_list_length; [apply Hw|lia|]. intros x [Hu Hoff]%(re_window _ Hre). exists (Z.to_nat (off b x)).
  pose proof (off_u64 b x). split; [lia|]. rewrite Z2Nat.id by lia. symmetry. by apply seq_at_off.
Qed.

Lemma collectLive_spec ms b fuel i :
  win_ok ms b -> (Z.to_nat (ab_nextIndexFree b) <= fuel + i)%nat ->
  collectLive fuel b (Z.of_nat i) = Some (Some <$> live_list (ab_retired b) (seq_at b (Z.of_nat i)) (drop i ms)).
Proof.
  intros Hw. pose proof (w_free _ _ Hw) as Hf. revert i. induction fuel as [|fuel IH]; intros i Hfuel; simpl.
  { by rewrite drop_ge by lia. }
  destruct (decide (Z.of_nat i < ab_nextIndexFree b)) as [Hlt|Hge]; [|by rewrite drop_ge by lia].
  destruct (lookup_lt_is_Some_2 ms i) as [a Ha]; [lia|]. rewrite (drop_S _ _ _ Ha). simpl.
  replace (Z.of_nat i + 1) with (Z.of_nat (S i)) by lia. rewrite IH by lia.
  assert (Hs : seq_at b (Z.of_nat (S i)) = add64 (seq_at b (Z.of_nat i)) 1).
  { unfold seq_at. rewrite add64_succ. f_equal. lia. }
  rewrite Hs. unfold retired_at. fold (seq_at b (Z.of_nat i)).
  destruct (decide (seq_at b (Z.of_nat i) ∈ ab_retired b)) as [Hin|Hin].
  - by rewrite bool_decide_true.
  - rewrite bool_decide_false by done. rewrite (w_buff _ _ Hw), (slots_get ms _ i a Ha). done.
Qed.

(** [GetUnAcked] returns exactly the live messages. *)
Lemma GetUnAcked_spec ms b : win_ok ms b -> retired_ok b -> GetUnAcked b = Some (Some <$> live ms b).
Proof.
  intros Hw Hre. pose proof (w_free _ _ Hw) as Hf. pose proof (w_len _ _ Hw) as Hlen. pose proof (retired_size ms b Hw Hre) as Hsz.
  assert (Hmake : forall n, 0 <= n <= max_slots -> makeslice (A := maddr) n = Some (replicate (Z.to_nat n) None)).
  { intros n Hn. unfold makeslice. by rewrite decide_False by lia. }
  unfold GetUnAcked. destruct (decide (size (ab_retired b) = 0%nat)) as [Hz|Hz].
  - apply size_empty_inv in Hz. unfold live. rewrite leibniz_equiv_iff in Hz. rewrite Hz, live_list_empty.
    rewrite Hmake, bind_ret by lia. rewrite Hf, Nat2Z.id, (w_buff _ _ Hw).
    destruct (slots_resize ms (length (ab_buff b)) (length ms)) as [-> Hc]; [lia|lia|]. rewrite bind_ret, Hc.
    unfold slots. rewrite Nat.sub_diag. simpl. by rewrite app_nil_r.
  - unfold max_slots in *. rewrite sub64_small by lia. rewrite Hmake, bind_ret by (unfold max_slots; lia).
    rewrite (collectLive_spec ms b _ 0); [|done|lia]. unfold live.
    change (Z.of_nat 0) with 0. by rewrite (seq_at_0 b (w_first _ _ Hw)).
Qed.

Lemma live_list_app {X} ret s (l1 l2 : list X) :
  is_u64 s -> live_list ret s (l1 ++ l2) = live_list ret s l1 ++ live_list ret (add64 s (Z.of_nat (length l1))) l2.
Proof.
  revert s. induction l1 as [|a l1 IH]; intros s Hs; simpl.
  - f_equal. unfold is_u64 in Hs. u64_lia.
  - rewrite IH by apply add64_range. rewrite add64_assoc. replace (1 + Z.of_nat (length l1)) with (Z.of_nat (S (length l1))) by lia.
    by destruct (decide (s ∈ ret)).
Qed.

(** The last live slot. *)
Lemma live_last ms b j a :
  win_ok ms b -> ms !! j = Some a -> retired_at b (Z.of_nat j) = false ->
  (forall k, Z.of_nat j < k < ab_nextIndexFree b -> retired_at b k = true) -> last (live ms b) = Some a.
Proof.
  intros Hw Hj Hlive Hrest. pose proof (w_free _ _ Hw) as Hf. unfold live.
  assert (Hlt : (j < length ms)%nat) by (by eapply lookup_lt_Some).
  rewrite <-(take_drop_middle ms j a Hj), live_list_app by apply Hw. rewrite length_take_le by lia. simpl.
  unfold retired_at in Hlive. apply bool_decide_eq_false in Hlive. rewrite decide_False by done.
  assert (Hnil : live_list (ab_retired b) (add64 (add64 (ab_firstSeqNum b) (Z.of_nat j)) 1) (drop (S j) ms) = []).
  { apply live_list_nil; [apply add64_range|]. intros k Hk. rewrite length_drop in Hk. rewrite !add64_assoc.
    specialize (Hrest (Z.of_nat j + (1 + Z.of_nat k)) ltac:(lia)). by apply bool_decide_eq_true in Hrest. }
  by rewrite Hnil, last_app.
Qed.

Lemma lastLive_spec fuel b l :
  0 <= l -> (Z.to_nat l <= fuel)%nat -> retired_at b 0 = false ->
  let j := lastLive fuel b 0 l in
  0 <= j <= l /\ retired_at b j = false /\ (forall k, j < k <= l -> retired_at b k = true).
Proof.
  revert l. induction fuel as [|fuel IH]; intros l Hl Hfuel Hz0.
  { assert (l = 0) as -> by lia. simpl. split; [lia|]. split; [done|]. intros; lia. }
  simpl. destruct (decide (l > 0)); [|assert (l = 0) as -> by lia; split; [lia|]; split; [done|]; intros; lia].
  destruct (retired_at b l) eqn:Hr; [|split; [lia|]; split; [done|]; intros; lia].
  destruct (IH (l - 1) ltac:(lia) ltac:(lia) Hz0) as (Hj & Hlive & Hrest). split; [lia|]. split; [done|].
  intros k Hk. destruct (decide (k = l)) as [->|]; [done|]. apply Hrest. lia.
Qed.

Lemma message_at_slot ms b j a :
  win_ok ms b -> ms !! j = Some a -> message_at b (Z.of_nat j) = ab_msgs b !! a.
Proof. intros Hw Ha. unfold message_at. by rewrite (w_buff _ _ Hw), (slots_get ms _ j a Ha). Qed.

(** The bounds are the numbers of the first and the last live message. *)
Lemma liveSeqBounds_spec ms' b :
  settled_ok ms' b -> ab_nextIndexFree b <> 0 ->
  exists a1 a2 m1 m2, head (live ms' b) = Some a1 /\ last (live ms' b) = Some a2 /\
    ab_msgs b !! a1 = Some m1 /\ ab_msgs b !! a2 = Some m2 /\ liveSeqBoundsLocked b = Some (SeqNum m1, SeqNum m2).
Proof.
  intros [[Hw Hst Hby Hre Htr Hli] _ _ Hh] Hne. pose proof (w_free _ _ Hw) as Hf. pose proof (w_len _ _ Hw) as Hlen.
  unfold max_slots in Hlen. specialize (Hh Hne).
  assert (Hz0 : retired_at b 0 = false).
  { unfold retired_at. apply bool_decide_eq_false. fold (seq_at b 0). by rewrite (seq_at_0 b (w_first _ _ Hw)). }
  destruct (lookup_lt_is_Some_2 ms' 0) as [a1 Ha1]; [lia|].
  set (l := ab_nextIndexFree b - 1). assert (Hl : sub64 (ab_nextIndexFree b) 1 = l) by (unfold l; u64_lia).
  assert (Hj : exists j, 0 <= j <= l /\ retired_at b j = false /\ (forall k, j < k <= l -> retired_at b k = true) /\
    liveSeqBoundsLocked b = (m1 ← message_at b 0; m2 ← message_at b j; Some (SeqNum m1, SeqNum m2))).
  { unfold liveSeqBoundsLocked. rewrite Hl. destruct (decide (size (ab_retired b) <> 0%nat)) as [Hz|Hz].
    - assert (Hfst : firstLive (Z.to_nat (ab_nextIndexFree b)) b 0 l = 0).
      { destruct (Z.to_nat (ab_nextIndexFree b)); [done|]. simpl. rewrite Hz0. by destruct (decide _). }
      rewrite Hfst. destruct (lastLive_spec (Z.to_nat (ab_nextIndexFree b)) b l) as (? & ? & ?); [unfold l; lia..|done|].
      exists (lastLive (Z.to_nat (ab_nextIndexFree b)) b 0 l). done.
    - exists l. split_and!; [unfold l; lia|lia| |intros; lia|done]. assert (Hem : size (ab_retired b) = 0%nat) by lia.
      apply size_empty_inv, leibniz_equiv in Hem. unfold retired_at. rewrite Hem. by apply bool_decide_eq_false. }
  destruct Hj as (j & Hjr & Hjl & Hjrest & ->).
  destruct (lookup_lt_is_Some_2 ms' (Z.to_nat j)) as [a2 Ha2]; [unfold l in Hjr; lia|].
  destruct (st_msg _ _ Hst 0%nat a1 Ha1) as (m1 & Hm1 & _). destruct (st_msg _ _ Hst _ a2 Ha2) as (m2 & Hm2 & _).
  exists a1, a2, m1, m2. split_and!; [| |done|done|].
  - unfold live. destruct ms' as [|a ms']; [done|]. injection Ha1 as ->. simpl. by rewrite decide_False.
  - apply (live_last ms' b (Z.to_nat j) a2 Hw Ha2); rewrite Z2Nat.id by lia; [done|]. intros k Hk. apply Hjrest. unfold l. lia.
  - rewrite (message_at_slot ms' b 0 a1 Hw Ha1 : message_at b 0 = _), Hm1, bind_ret.
    rewrite <-(Z2Nat.id j) by lia. by rewrite (message_at_slot ms' b _ a2 Hw Ha2), Hm2.
Qed.

(** What a turn of [drain] reports. *)
Inductive drain_post ms b (done : bool) : drain_outcome -> AckBuffer B -> Prop :=
  | drain_done : ms = [] -> drain_post ms b done DrainDone b
  | drain_failed e a1 a2 m1 m2 :
      head (live ms b) = Some a1 -> last (live ms b) = Some a2 -> ab_msgs b !! a1 = Some m1 -> ab_msgs b !! a2 = Some m2 ->
      Unacked e = Z.of_nat (length (live ms b)) -> FirstSeq e = SeqNum m1 -> LastSeq e = SeqNum m2 ->
      Err e = (if ab_isClosed b then ErrorClosed else ErrorContext) -> ab_isClosed b || done = true ->
      drain_post ms b done (DrainFailed e) b
  | drain_wait wake b' :
      ms <> [] -> ab_isClosed b || done = false -> sampleWake b = (wake, b') -> drain_post ms b done (DrainWait wake) b'.

Lemma drain_turn_spec ms b done :
  settled_ok ms b -> exists r b', drain_turn done b = Some (r, b') /\ drain_post ms b done r b'.
Proof.
  intros Hs. pose proof (so_ok _ _ Hs) as [Hw Hst Hby Hre Htr Hli]. pose proof (w_free _ _ Hw) as Hf.
  pose proof (w_len _ _ Hw) as Hlen. unfold max_slots in Hlen. unfold drain_turn.
  destruct (decide (ab_nextIndexFree b = 0)) as [Hz|Hz].
  { eexists _, _. split; [reflexivity|]. apply drain_done. destruct ms; [done|simpl in Hf; lia]. }
  assert (Hne : ms <> []) by (intros ->; simpl in Hf; lia).
  destruct (liveSeqBounds_spec ms b Hs Hz) as (a1 & a2 & m1 & m2 & Ha1 & Ha2 & Hm1 & Hm2 & Hb).
  pose proof (retired_size ms b Hw Hre) as Hsz.
  assert (Hun : int_of (ab_nextIndexFree b) - Z.of_nat (size (ab_retired b)) = Z.of_nat (length (live ms b))).
  { unfold int_of. destruct (decide (ab_nextIndexFree b < 2 ^ 63)); lia. }
  destruct (ab_isClosed b) eqn:Hc; [|destruct done].
  - rewrite Hb, bind_ret. eexists _, _. split; [reflexivity|]. eapply drain_failed; try done; by rewrite Hc.
  - rewrite Hb, bind_ret. eexists _, _. split; [reflexivity|]. eapply drain_failed; try done; by rewrite Hc.
  - destruct (sampleWake b) as [wake b'] eqn:Hwake. eexists _, _. split; [reflexivity|]. by apply drain_wait; rewrite ?Hc.
Qed.

(** ** Construction *)

Lemma NewAckBuffer_spec o A i :
  sb_holds A (opt_SharedBudget o) -> A !! i = None -> sb_joinable (BudgetGroup o) (opt_SharedBudget o) ->
  Z.of_nat (size A) < 2 ^ 62 -> is_u64 (MaxBytes o) ->
  exists b, NewAckBuffer o = Some (inr b) /\ public_ok [] b /\ own i ∅ A b /\
    ab_maxBytes b = MaxBytes o /\ ab_isRunning b = true /\ ab_isClosed b = false /\ ab_nextSeqNum b = 1 /\
    ab_currentCapacity b = 1 /\ sb_present (ab_shared b) = sb_present (opt_SharedBudget o).
Proof.
  intros HA Hi Hj Hsz Hmax. destruct (sb_register_spec A (opt_SharedBudget o) i (BudgetGroup o)) as (g & s & Hr & Hp & Hh); [done..|].
  destruct (Set_spec NewEvent new_event_ok) as (ev & Hev & Hok & [Hv _] & _).
  unfold NewAckBuffer. rewrite Hr. unfold makeslice. rewrite decide_False by (unfold max_slots, initialCapacity; lia).
  rewrite bind_ret, Hev, !bind_ret. eexists. split; [reflexivity|].
  split; [|split; [exact Hh|done]]. split; [split; [split|..]|].
  - split; simpl; try done; unfold max_slots; try lia. apply new_event_ok.
  - split; simpl; try (by intros * [? ?%lookup_empty_Some]); try done. apply NoDup_nil_2.
  - split; simpl; try done; [|apply Hmax]. intros [_ Hb]%orb_false_iff. split; [done|]. split; [done|congruence].
  - split; simpl; set_solver.
  - split; simpl; try (by intros e ?%not_elem_of_nil); try done; [constructor|apply NoDup_nil_2..].
  - split; simpl; [done|done|by intros ?%bool_decide_eq_true|by intros ? _; apply bool_decide_eq_true].
  - intros Hlt. simpl in Hlt. lia.
  - intros _. done.
  - done.
  - intros e ?%not_elem_of_nil. done.
Qed.

(** A new buffer is empty. *)
Lemma new_fields (o : AckBufferOptions B) b : NewAckBuffer o = Some (inr b) ->
  ab_firstSeqNum b = 1 /\ ab_nextIndexFree b = 0 /\ ab_lastFlaggedSeq b = 0 /\ ab_receipts b = [] /\ ab_escapeBytes b = 0.
Proof.
  unfold NewAckBuffer. destruct (sb_register _ _) as [|[g s]]; [done|].
  repeat match goal with |- (?x ≫= _) = _ -> _ => destruct x; [|done]; cbn [mbind option_bind] end. by intros [= <-].
Qed.
End methods.
