(* ===== verification/AckFleet.v ===== *)
(** * Clients that share one budget

    A fleet is a shared budget with its clients.  A client is a buffer and the
    byte requests its blocked calls have queued.  The callers of the buffer issue
    the operations [op]; [run_op] runs one critical section of the corresponding
    method.  The invariant [fleet_ok] ties every buffer to its window and the
    budget to the sum of what the buffers charge. *)

From S2P Require Import Prelude ByteBudget Event Protocol SharedBudget AckBuffer AckInv AckRemove AckReceipts AckRetire AckDeliver AckAdmit AckMethods.

(** What a caller may do with a buffer. *)
Inductive op :=
  (** a new message of the caller *)
  | OpAlloc (m : DataMessage)
  (** one turn of [addWithReceipt], and the deferred [cancel] *)
  | OpAdd (e : maddr) (size : Z) (waiter : option wid) (receipt : option cell) (maxTransmissions : Z)
  | OpCancel (w : wid)
  | OpAck (seq : Z)
  | OpDeliver
  | OpReset
  | OpFlow (capacity : Z)
  (** the entry of [drain] and one turn of its loop *)
  | OpSeal
  | OpDrain (done : bool)
  | OpClose
  | OpForget.

Inductive answer :=
  | Silent
  | Allocated (a : maddr)
  | AddTurn (r : add_outcome)
  | Acked (r : option ack_error)
  | Delivered (a : option maddr)
  | Drained (r : drain_outcome).

(** The queued requests of a client once a turn of [addWithReceipt] left [w']. *)
Definition left_calls (size : Z) (waiter w' : option wid) (calls : gmap wid Z) : gmap wid Z :=
  match w' with Some w => <[w := size]> calls | None => ended waiter calls end.

Section fleet.
Context {B : Type} `{SharedBudgetLaws B}.
Implicit Types (b : AckBuffer B).

(** The messages in the window. *)
Definition held b : list maddr := omap id (take (Z.to_nat (ab_nextIndexFree b)) (ab_buff b)).

(** The invariant of a buffer between two method calls. *)
Definition ok b : Prop := public_ok (held b) b.

Definition run_op (o : op) (calls : gmap wid Z) b : option (answer * gmap wid Z * AckBuffer B) :=
  match o with
  | OpAlloc m => Some (Allocated (ab_next b), calls, b <| ab_msgs ::= <[ab_next b := m]> |> <| ab_next ::= S |>)
  | OpAdd e size waiter receipt maxT =>
      '(r, w', b) ← add_turn e size waiter receipt maxT b;
      Some (AddTurn r, left_calls size waiter w' calls, b)
  | OpCancel w => b ← cancelShared (Some w) b; Some (Silent, delete w calls, b)
  | OpAck seq => '(r, b) ← Ack seq b; Some (Acked r, calls, b)
  | OpDeliver => '(r, b) ← GetNextToDeliver b; Some (Delivered r, calls, b)
  | OpReset => b ← ResetDelivery b; Some (Silent, calls, b)
  | OpFlow cap => b ← UpdateCapacity cap b; Some (Silent, calls, b)
  | OpSeal => b ← drain_start b; Some (Silent, calls, b)
  | OpDrain done => '(r, b) ← drain_turn done b; Some (Drained r, calls, b)
  | OpClose => b ← Close b; Some (Silent, calls, b)
  | OpForget => Some (Silent, calls, releaseReceiptTracking b)
  end.

(** What the callers guarantee: a waiter is passed on to the next turn only; the
    message is not in the buffer already and its size is that of a message; the
    receipt cell is new; byte counts stay below 2^64; the window can be
    allocated. *)
Definition op_guard (o : op) (calls : gmap wid Z) (A : accounts) b : bool :=
  match o with
  | OpAdd e size waiter receipt maxT =>
      match waiter with Some w => bool_decide (calls !! w = Some size) | None => true end &&
      match receipt with Some c => bool_decide (ab_cells b !! c = None) | None => true end &&
      bool_decide ((ab_accounting b = false \/ messageOverheadBytes <= size) /\ 0 <= size /\ ab_bytes b + size < W64 /\
        total_held A + requested A + size < W64 /\
        is_Some (ab_msgs b !! e) /\ (e ∉ held b) /\ 0 <= maxT < 2 ^ 32)
  | OpCancel w => bool_decide (is_Some (calls !! w))
  | OpAck seq => bool_decide (is_u64 seq)
  | OpFlow cap => bool_decide (0 <= cap <= max_slots)
  | _ => true
  end.

(** ** One buffer *)

Lemma held_win ms b : win_ok ms b -> held b = ms.
Proof.
  intros Hw. unfold held. rewrite (w_buff _ _ Hw), (w_free _ _ Hw), Nat2Z.id. unfold slots.
  rewrite take_app_length' by (by rewrite length_fmap). induction ms as [|a ms IH]; [done|]. simpl. f_equal.
  clear. induction ms as [|a ms IH]; [done|]. simpl. by f_equal.
Qed.

Lemma public_ok_held ms b : public_ok ms b -> ok b.
Proof. intros Hpo. unfold ok. by rewrite (held_win ms b (bo_win _ _ (so_ok _ _ (po_settled _ _ Hpo)))). Qed.

(** The shared budget is only read for its presence. *)
Lemma public_shared ms b s : public_ok ms b -> sb_present s = sb_present (ab_shared b) -> public_ok ms (b <| ab_shared := s |>).
Proof.
  intros [[[Hw Hst Hby Hre Htr Hli] Hfl Hfd Hh] Hse] Hp. split; [split; [split|exact Hfl|exact Hfd|exact Hh]|exact Hse].
  - frame Hw.
  - frame Hst.
  - destruct Hby as [Y1 Y2 Y3 Y4 Y5 Y6 Y7]. split; try assumption. simpl. rewrite Hp. exact Y2.
  - frame Hre.
  - frame Htr.
  - frame Hli.
Qed.

Lemma ok_shared b s : ok b -> sb_present s = sb_present (ab_shared b) -> ok (b <| ab_shared := s |>).
Proof. intros Hok Hp. unfold ok. exact (public_shared (held b) b s Hok Hp). Qed.

Lemma left_calls_spec size waiter w' calls rq' :
  request_left size waiter w' calls rq' -> left_calls size waiter w' calls = rq'.
Proof. by intros [[-> ->]|(w & -> & _ & ->)]. Qed.

(** The guard of an admission. *)
Lemma guard_waiter e size waiter receipt maxT calls A b w :
  op_guard (OpAdd e size waiter receipt maxT) calls A b = true -> waiter = Some w -> calls !! w = Some size.
Proof. intros Hg ->. simpl in Hg. rewrite !andb_true_iff in Hg. destruct Hg as [[Hw _] _]. by apply bool_decide_eq_true in Hw. Qed.

Lemma guard_cell e size waiter receipt maxT calls A b :
  op_guard (OpAdd e size waiter receipt maxT) calls A b = true -> forall c, receipt = Some c -> ab_cells b !! c = None.
Proof. intros Hg c ->. simpl in Hg. rewrite !andb_true_iff in Hg. destruct Hg as [[_ Hc] _]. by apply bool_decide_eq_true in Hc. Qed.

Lemma guard_add e size waiter receipt maxT i calls A b :
  ok b -> op_guard (OpAdd e size waiter receipt maxT) calls (<[i := acct calls b]> A) b = true -> ab_isRunning b = true ->
  exists m, request_ok size waiter i calls A b /\ 0 <= size /\ caller_ok e m receipt maxT (held b) b.
Proof.
  intros Hok Hg Hrun. pose proof Hg as Hg'. simpl in Hg. rewrite !andb_true_iff in Hg. destruct Hg as [[_ Hcell] Hn%bool_decide_eq_true].
  destruct Hn as (Hsz & Hpos & Hbb & Hroom & [m Hm] & Hnew & Hmax). exists m. split; [|split; [done|]].
  - split; try done.
    + intros Ha. destruct Hsz; [congruence|done].
    + intros w. exact (guard_waiter _ _ _ _ _ _ _ _ w Hg').
  - split; try done. intros c -> (e0 & -> & He0)%list_elem_of_fmap. apply bool_decide_eq_true in Hcell.
    rewrite (tr_cell _ (bo_track _ _ (so_ok _ _ (po_settled _ _ Hok))) e0 He0) in Hcell. done.
Qed.

(** Allocation by the caller. *)
Lemma alloc_good m b : ok b -> ok (b <| ab_msgs ::= <[ab_next b := m]> |> <| ab_next ::= S |>).
Proof.
  intros [[Hok Hfl Hfd Hh] Hse]. apply (public_ok_held (held b)). split; [split; [|exact Hfl|exact Hfd|exact Hh]|exact Hse].
  by apply buf_ok_alloc.
Qed.

(** What each operation does to the buffer. *)
Inductive op_post i calls A b : op -> answer -> AckBuffer B -> Prop :=
  | post_alloc m :
      op_post i calls A b (OpAlloc m) (Allocated (ab_next b)) (b <| ab_msgs ::= <[ab_next b := m]> |> <| ab_next ::= S |>)
  | post_closed e size waiter receipt maxT :
      ab_isRunning b = false ->
      op_post i calls A b (OpAdd e size waiter receipt maxT) (AddTurn (AddReturn (Some ErrorClosed))) b
  | post_blocked e size waiter receipt maxT s c b' :
      ab_isRunning b = true -> public_ok (held b) (b <| ab_shared := s |>) -> sampleWake (b <| ab_shared := s |>) = (c, b') ->
      op_post i calls A b (OpAdd e size waiter receipt maxT) (AddTurn (AddBlock c)) b'
  | post_added e size waiter receipt maxT x :
      ab_isRunning b = true -> (forall c, receipt = Some c -> ab_cells b !! c = None) ->
      public_ok (held b ++ [e]) (added (held b) e size receipt maxT x b) ->
      op_post i calls A b (OpAdd e size waiter receipt maxT) (AddTurn (AddReturn None)) (added (held b) e size receipt maxT x b)
  | post_cancel w s : op_post i calls A b (OpCancel w) Silent (b <| ab_shared := s |>)
  | post_ack seq r b' : is_u64 seq -> ack_post (held b) seq i calls A b r b' -> op_post i calls A b (OpAck seq) (Acked r) b'
  | post_deliver r b' :
      settled_ok (held b) b' -> delivered (held b) b r b' -> op_post i calls A b OpDeliver (Delivered r) b'
  | post_reset ms1 b1 n b' :
      settled_ok (drop n ms1) b' -> restarted (held b) b i calls A ms1 b1 n b' -> buf_ok ms1 b1 ->
      op_post i calls A b OpReset Silent b'
  | post_flow_same : op_post i calls A b (OpFlow (ab_currentCapacity b)) Silent b
  | post_flow cap len av :
      cap <> ab_currentCapacity b -> public_ok (held b) (resized (held b) cap len av b) ->
      op_post i calls A b (OpFlow cap) Silent (resized (held b) cap len av b)
  | post_seal : public_ok (held b) (signalled (b <| ab_isRunning := false |>)) ->
      op_post i calls A b OpSeal Silent (signalled (b <| ab_isRunning := false |>))
  | post_drain done r b' : drain_post (held b) b done r b' -> op_post i calls A b (OpDrain done) (Drained r) b'
  | post_close s : public_ok (held b) (closed_buffer s b) -> op_post i calls A b OpClose Silent (closed_buffer s b)
  | post_forget : op_post i calls A b OpForget Silent (releaseReceiptTracking b).

(** The step of one buffer under the lock. *)
Definition run_good i calls A b (o : op) : Prop :=
  exists a calls' b', run_op o calls b = Some (a, calls', b') /\ op_post i calls A b o a b' /\ ok b' /\ own i calls' A b' /\
    sb_present (ab_shared b') = sb_present (ab_shared b).

(** What one turn of [addWithReceipt] did. *)
Inductive turn_post (e : maddr) (size : Z) (waiter : option wid) (receipt : option cell) (maxT : Z) i calls A b
    : add_outcome -> option wid -> AckBuffer B -> Prop :=
  | turn_closed :
      ab_isRunning b = false -> turn_post e size waiter receipt maxT i calls A b (AddReturn (Some ErrorClosed)) waiter b
  | turn_blocked w' s c b' :
      ab_isRunning b = true -> refusal size w' b -> sb_present s = sb_present (ab_shared b) ->
      request_left size waiter w' calls (left_calls size waiter w' calls) ->
      sampleWake (b <| ab_shared := s |>) = (c, b') ->
      turn_post e size waiter receipt maxT i calls A b (AddBlock c) w' b'
  | turn_added m x forced step :
      ab_isRunning b = true -> ab_msgs b !! e = Some m -> (e ∉ held b) -> slot_ok x size waiter forced step i calls A b ->
      sl_msg x = stamped m forced step size b -> public_ok (held b ++ [e]) (added (held b) e size receipt maxT x b) ->
      turn_post e size waiter receipt maxT i calls A b (AddReturn None) None (added (held b) e size receipt maxT x b).

Lemma add_turn_safe e size waiter receipt maxT i calls A b :
  ok b -> escape_safe b -> own i calls A b -> (forall w, waiter = Some w -> calls !! w = Some size) ->
  (ab_isRunning b = true -> op_guard (OpAdd e size waiter receipt maxT) calls (<[i := acct calls b]> A) b = true) ->
  exists r w' b', add_turn e size waiter receipt maxT b = Some (r, w', b') /\
    turn_post e size waiter receipt maxT i calls A b r w' b' /\ ok b' /\ own i (left_calls size waiter w' calls) A b' /\
    sb_present (ab_shared b') = sb_present (ab_shared b).
Proof.
  intros Hok Hesc Ho Hwt Hg. unfold add_turn. destruct (ab_isRunning b) eqn:Hrun; simpl.
  2:{ eexists _, _, _. split; [reflexivity|]. split; [by apply turn_closed|]. split; [done|]. split; [|done].
      destruct waiter as [w|]; [|exact Ho]. simpl. by rewrite insert_id by exact (Hwt w eq_refl). }
  destruct (guard_add e size waiter receipt maxT i calls A b Hok (Hg eq_refl) Hrun) as (m & Hrq & Hsz & Hca).
  destruct (tryAdd_spec (held b) b e m size waiter receipt maxT i calls A) as (k & w' & b' & Ht & Hpost); [done..|].
  rewrite Ht, bind_ret. destruct Hpost as [w' rq' s Hwhy Hp Hleft Ho'|x forced step Hlt Hx Hmsg Hpub Ho'].
  - assert (Hok' : public_ok (held b) (b <| ab_shared := s |>)) by (by apply public_shared).
    destruct (sampleWake_spec _ _ Hok') as (c & b2 & Hs & Hok2 & _ & _ & Hsh & _ & Hown). rewrite Hs. simpl.
    pose proof (left_calls_spec _ _ _ _ _ Hleft) as Heq. rewrite <-Heq in Hleft, Ho'.
    eexists _, _, _. split; [reflexivity|]. split; [by eapply turn_blocked|]. split; [by eapply public_ok_held|].
    split; [by apply Hown|]. by rewrite Hsh.
  - eexists _, _, _. split; [reflexivity|].
    split; [apply (turn_added _ _ _ _ _ _ _ _ _ m x forced step); [done|apply Hca|apply Hca|done..]|].
    split; [by eapply public_ok_held|]. split; [exact Ho'|].
    assert (Hsh : ab_shared (added (held b) e size receipt maxT x b) = sl_shared x) by (unfold added; by destruct receipt).
    rewrite Hsh. destruct (so_admitted _ _ _ _ _ _ _ _ _ Hx) as [[_ Had]|(_ & _ & _ & -> & _)]; [|done].
    exact (am_present _ _ _ _ _ _ _ _ _ _ _ Had).
Qed.

Lemma run_add_safe e size waiter receipt maxT i calls A b :
  ok b -> escape_safe b -> own i calls A b -> op_guard (OpAdd e size waiter receipt maxT) calls (<[i := acct calls b]> A) b = true ->
  run_good i calls A b (OpAdd e size waiter receipt maxT).
Proof.
  intros Hok Hesc Ho Hg. destruct (add_turn_safe e size waiter receipt maxT i calls A b) as (r & w' & b' & Ht & Hpost & Hok' & Ho' & Hp);
    [done|done|done|intros w; exact (guard_waiter _ _ _ _ _ _ _ _ w Hg)|done|].
  unfold run_good, run_op. rewrite Ht, bind_ret. eexists _, _, _. split; [reflexivity|]. split; [|done].
  destruct Hpost as [Hrun|w' s c b' Hrun _ Hp' _ Hs|m x forced step Hrun Hm Hne Hx Hmsg Hpub].
  - by apply post_closed.
  - eapply post_blocked; [done| |done]. by apply public_shared.
  - apply post_added; [done|exact (guard_cell _ _ _ _ _ _ _ _ Hg)|done].
Qed.

Lemma run_op_safe o i calls A b :
  ok b -> escape_safe b -> own i calls A b -> op_guard o calls (<[i := acct calls b]> A) b = true -> run_good i calls A b o.
Proof.
  intros Hok Hesc Ho Hg. destruct o; [|by apply run_add_safe|..]; unfold run_good, run_op.
  - eexists _, _, _. split; [reflexivity|]. split; [apply post_alloc|]. split; [by apply alloc_good|]. split; [exact Ho|done].
  - simpl in Hg. apply bool_decide_eq_true in Hg. destruct (own_cancel i calls A b (Some w) Ho) as (s & -> & Hp & Ho').
    { by intros w' [= <-]. }
    rewrite bind_ret. eexists _, _, _. split; [reflexivity|]. split; [apply post_cancel|]. split; [by apply ok_shared|].
    split; [exact Ho'|done].
  - simpl in Hg. apply bool_decide_eq_true in Hg.
    destruct (Ack_spec (held b) b seq i calls A Hok Ho) as (r & b' & -> & Hpost). rewrite bind_ret.
    eexists _, _, _. split; [reflexivity|]. split; [by apply post_ack|]. pose proof (ack_present _ _ _ _ _ _ _ _ Hpost) as Hp.
    destruct Hpost as [| |r' n b' k _ _ _ _ _ Hpub Ho']; [done..|]. split; [by eapply public_ok_held|done].
  - destruct (deliver_spec (held b) b i calls A (po_settled _ _ Hok) Ho (po_sendable _ _ Hok)) as (r & b' & -> & Hs & Ho' & Hse & Hd).
    rewrite bind_ret. eexists _, _, _. split; [reflexivity|]. split; [by apply post_deliver|].
    split; [by apply (public_ok_held (held b))|]. split; [done|].
    by destruct Hd as [b' Hfr _ _ _ _|p a a' m b' Hfr _ _ _ _ _ _ _ _]; rewrite Hfr.
  - destruct (reset_spec (held b) b i calls A (po_settled _ _ Hok) Ho) as (ms1 & b1 & n & b' & -> & Hs & Ho' & Hrst & Hok1).
    rewrite bind_ret. eexists _, _, _. split; [reflexivity|]. split; [by eapply post_reset|].
    split; [|split; [done|by eapply restarted_present]].
    apply (public_ok_held (drop n ms1)). split; [done|by eapply restarted_sendable].
  - simpl in Hg. apply bool_decide_eq_true in Hg. destruct (decide (capacity = ab_currentCapacity b)) as [->|Hne].
    + unfold UpdateCapacity. rewrite decide_True by done. rewrite bind_ret. eexists _, _, _. split; [reflexivity|].
      split; [apply post_flow_same|]. by split.
    + destruct (UpdateCapacity_spec (held b) b capacity Hok Hg Hne) as (len & av & -> & _ & _ & Hpub). rewrite bind_ret.
      eexists _, _, _. split; [reflexivity|]. split; [by apply post_flow|]. split; [by eapply public_ok_held|]. split; [exact Ho|done].
  - destruct (drain_start_spec (held b) b Hok) as [-> Hpub]. rewrite bind_ret.
    eexists _, _, _. split; [reflexivity|]. split; [by apply post_seal|]. split; [by eapply public_ok_held|]. split; [exact Ho|done].
  - destruct (drain_turn_spec (held b) b done (po_settled _ _ Hok)) as (r & b' & -> & Hd). rewrite bind_ret.
    eexists _, _, _. split; [reflexivity|]. split; [by apply post_drain|]. destruct Hd as [| |wake b' _ _ Hw]; [done..|].
    destruct (sampleWake_spec _ _ Hok) as (c & b2 & Hs & Hok2 & _ & _ & Hsh & _ & Hown).
    rewrite Hw in Hs. injection Hs as <- <-. split; [by eapply public_ok_held|]. split; [by apply Hown|]. by rewrite Hsh.
  - destruct (Close_spec (held b) b i calls A Hok Ho) as (s & -> & Hp & Hpub & Ho'). rewrite bind_ret.
    eexists _, _, _. split; [reflexivity|]. split; [by apply post_close|]. split; [by eapply public_ok_held|]. by split.
  - eexists _, _, _. split; [reflexivity|]. split; [apply post_forget|]. split; [by eapply public_ok_held, releaseTracking_ok|].
    split; [exact Ho|done].
Qed.

(** ** The fleet *)

Record client := Client { cl_buf : AckBuffer B; cl_calls : gmap wid Z }.
Record fleet := Fleet { fl_budget : B; fl_clients : gmap nat client }.

(** The budget is one object: a client sees its current state. *)
Definition view (F : fleet) (c : client) : AckBuffer B := (cl_buf c) <| ab_shared := fl_budget F |>.

Definition client_account (c : client) : account := acct (cl_calls c) (cl_buf c).
Definition fleet_accounts (F : fleet) : accounts := client_account <$> fl_clients F.

(** A client joins the budget. *)
Definition fleet_join (i : nat) (maxBytes : Z) (key : string) (F : fleet) : option (unit + fleet) :=
  r ← NewAckBuffer (MkAckBufferOptions maxBytes (fl_budget F) key);
  match r with
  | inl e => Some (inl e)
  | inr b => Some (inr (Fleet (ab_shared b) (<[i := Client b ∅]> (fl_clients F))))
  end.

(** Client [i] performs [o]. *)
Definition fleet_op (i : nat) (o : op) (F : fleet) : option (answer * fleet) :=
  c ← fl_clients F !! i;
  '(r, calls, b) ← run_op o (cl_calls c) (view F c);
  Some (r, Fleet (ab_shared b) (<[i := Client b calls]> (fl_clients F))).

Definition fleet_guard (i : nat) (o : op) (F : fleet) : bool :=
  match fl_clients F !! i with
  | Some c => op_guard o (cl_calls c) (fleet_accounts F) (view F c)
  | None => false
  end.

Record fleet_ok (F : fleet) : Prop := {
  fo_budget : sb_holds (fleet_accounts F) (fl_budget F);
  fo_client i c : fl_clients F !! i = Some c -> ok (view F c);
}.

Lemma fleet_own F i c :
  fleet_ok F -> fl_clients F !! i = Some c -> own i (cl_calls c) (fleet_accounts F) (view F c).
Proof.
  intros HF Hc. unfold own. change (acct (cl_calls c) (view F c)) with (client_account c).
  rewrite insert_id; [exact (fo_budget _ HF)|]. unfold fleet_accounts. by rewrite lookup_fmap, Hc.
Qed.

Lemma fleet_accounts_id F i c : fl_clients F !! i = Some c -> <[i := acct (cl_calls c) (view F c)]> (fleet_accounts F) = fleet_accounts F.
Proof.
  intros Hc. change (acct (cl_calls c) (view F c)) with (client_account c). apply insert_id.
  unfold fleet_accounts. by rewrite lookup_fmap, Hc.
Qed.

(** One client moves: the others see the same kind of budget. *)
Lemma fleet_update F i b calls :
  fleet_ok F -> ok b -> own i calls (fleet_accounts F) b -> sb_present (ab_shared b) = sb_present (fl_budget F) ->
  fleet_ok (Fleet (ab_shared b) (<[i := Client b calls]> (fl_clients F))).
Proof.
  intros HF Hok Ho Hp. split; simpl.
  - unfold fleet_accounts. simpl. rewrite fmap_insert. exact Ho.
  - intros j c. destruct (decide (j = i)) as [->|Hne].
    + rewrite lookup_insert_eq. intros [= <-]. exact Hok.
    + rewrite lookup_insert_ne by done. intros Hc. apply (fo_client _ HF) in Hc.
      exact (ok_shared (view F c) (ab_shared b) Hc Hp).
Qed.

Lemma fleet_op_safe i o F :
  fleet_ok F -> (forall c, fl_clients F !! i = Some c -> escape_safe (view F c)) -> fleet_guard i o F = true -> exists r F', fleet_op i o F = Some (r, F') /\ fleet_ok F'.
Proof.
  intros HF Hesc Hg. unfold fleet_guard in Hg. unfold fleet_op. destruct (fl_clients F !! i) as [c|] eqn:Hc; [|done].
  pose proof (fleet_own F i c HF Hc) as Ho. rewrite bind_ret.
  destruct (run_op_safe o i (cl_calls c) (fleet_accounts F) (view F c)) as (r & calls & b & Hr & _ & Hok & Ho' & Hp).
  - by eapply fo_client.
  - by apply Hesc.
  - done.
  - change (acct (cl_calls c) (view F c)) with (client_account c). rewrite insert_id; [done|].
    unfold fleet_accounts. by rewrite lookup_fmap, Hc.
  - rewrite Hr, bind_ret. eexists _, _. split; [reflexivity|]. by apply fleet_update.
Qed.

Lemma fleet_join_ok i maxBytes key F :
  fleet_ok F -> fl_clients F !! i = None -> sb_joinable key (fl_budget F) ->
  Z.of_nat (size (fl_clients F)) < 2 ^ 62 -> is_u64 maxBytes ->
  exists F', fleet_join i maxBytes key F = Some (inr F') /\ fleet_ok F'.
Proof.
  intros HF Hi Hj Hsz Hmax. unfold fleet_join.
  destruct (NewAckBuffer_spec (MkAckBufferOptions maxBytes (fl_budget F) key) (fleet_accounts F) i)
    as (b & -> & Hok & Ho & _ & _ & _ & _ & _ & Hp); simpl; [by apply HF| |done| |done|].
  - unfold fleet_accounts. by rewrite lookup_fmap, Hi.
  - unfold fleet_accounts. by rewrite map_size_fmap.
  - eexists. split; [reflexivity|]. apply fleet_update; [done|by eapply public_ok_held|done|done].
Qed.

(** ** Reachable fleets *)

Inductive fleet_reachable (s0 : B) : fleet -> Prop :=
  | reach_start : fleet_reachable s0 (Fleet s0 ∅)
  | reach_join F F' i maxBytes key :
      fleet_reachable s0 F -> fl_clients F !! i = None -> sb_joinable key (fl_budget F) ->
      Z.of_nat (size (fl_clients F)) < 2 ^ 62 -> is_u64 maxBytes ->
      fleet_join i maxBytes key F = Some (inr F') -> fleet_reachable s0 F'
  | reach_op F F' i o r :
      fleet_reachable s0 F -> fleet_guard i o F = true -> fleet_op i o F = Some (r, F') -> fleet_reachable s0 F'.

(** A run of guarded operations, as far as the guards allow. *)
Fixpoint fleet_run (l : list (nat * op)) (F : fleet) : option fleet :=
  match l with
  | [] => Some F
  | (i, o) :: l => if fleet_guard i o F then '(_, F) ← fleet_op i o F; fleet_run l F else None
  end.

Lemma fleet_run_reachable s0 l F F' : fleet_reachable s0 F -> fleet_run l F = Some F' -> fleet_reachable s0 F'.
Proof.
  revert F. induction l as [|[i o] l IH]; intros F Hr Hrun; simpl in Hrun; [by injection Hrun as <-|].
  destruct (fleet_guard i o F) eqn:Hg; [|done]. destruct (fleet_op i o F) as [[r F1]|] eqn:Hop; [|done].
  simpl in Hrun. eapply IH; [|exact Hrun]. by eapply reach_op.
Qed.
End fleet.

Arguments client B : clear implicits.
Arguments fleet B : clear implicits.

(** ** With the laws that ask nothing *)

(** Callers need not know anything about escapes. *)
Class LenientLaws (B : Type) `{SharedBudgetLaws B} : Prop := lenient : sb_strict = false.

#[export] Instance lenient_pointer : LenientLaws (option ByteBudget).
Proof. done. Qed.

Section lenient.
Context {B : Type} `{HB : LenientLaws B}.
Implicit Types (b : AckBuffer B).

Lemma lenient_safe b : escape_safe b.
Proof. intros Hs. rewrite lenient in Hs. done. Qed.

Lemma add_turn_spec e size waiter receipt maxT i calls A b :
  ok b -> own i calls A b -> (forall w, waiter = Some w -> calls !! w = Some size) ->
  (ab_isRunning b = true -> op_guard (OpAdd e size waiter receipt maxT) calls (<[i := acct calls b]> A) b = true) ->
  exists r w' b', add_turn e size waiter receipt maxT b = Some (r, w', b') /\
    turn_post e size waiter receipt maxT i calls A b r w' b' /\ ok b' /\ own i (left_calls size waiter w' calls) A b' /\
    sb_present (ab_shared b') = sb_present (ab_shared b).
Proof. intros Hok. apply add_turn_safe; [done|apply lenient_safe]. Qed.

Lemma run_op_good o i calls A b :
  ok b -> own i calls A b -> op_guard o calls (<[i := acct calls b]> A) b = true -> run_good i calls A b o.
Proof. intros Hok. apply run_op_safe; [done|apply lenient_safe]. Qed.

(** What a run that returned did. *)
Lemma run_op_post o i calls A b r calls' b' :
  ok b -> own i calls A b -> op_guard o calls (<[i := acct calls b]> A) b = true ->
  run_op o calls b = Some (r, calls', b') -> op_post i calls A b o r b'.
Proof.
  intros Hok Ho Hg Hrun. destruct (run_op_good o i calls A b Hok Ho Hg) as (r1 & c1 & b1 & Hr & Hpost & _). congruence.
Qed.

Lemma fleet_op_ok i o (F : fleet B) :
  fleet_ok F -> fleet_guard i o F = true -> exists r F', fleet_op i o F = Some (r, F') /\ fleet_ok F'.
Proof. intros HF. apply fleet_op_safe; [done|intros c _; apply lenient_safe]. Qed.

Lemma fleet_reachable_ok (s0 : B) F : sb_holds ∅ s0 -> fleet_reachable s0 F -> fleet_ok F.
Proof.
  intros Hs. induction 1 as [|F F' i maxBytes key _ IH Hi Hj Hsz Hmax Hjoin|F F' i o r _ IH Hg Hop].
  - split; simpl; [|intros i c; by rewrite lookup_empty]. unfold fleet_accounts. simpl. by rewrite fmap_empty.
  - destruct (fleet_join_ok i maxBytes key F) as (F'' & HF & Hok); [done..|]. congruence.
  - destruct (fleet_op_ok i o F IH Hg) as (r' & F'' & HF & Hok). congruence.
Qed.
End lenient.
