(* ===== verification/AckWindow.v ===== *)
(** * The buffer as a sliding window

    The abstract machine behind [AckBuffer]: two queues of numbered frames, those
    handed out and those still to hand out, and how many transmissions the frames
    with a limit have left.  A frame enters the second queue, moves to the first
    when it is handed out, which uses up one of its transmissions, and leaves with
    the acknowledgement of its number or of a later one.  A reset moves all frames
    back except those without transmissions left, which are given up.  Numbers of
    frames given up ahead of every other frame are remembered for a while, so that
    their late acknowledgement is no error.  The buffer implements this machine:
    [abs] maps every reachable buffer to a window and every operation to a step of
    it with the same answer.  Capacity and byte limits are not part of the window,
    so that it does not tell when an admission has to wait. *)

From S2P Require Import Prelude ByteBudget Event Protocol SharedBudget AckBuffer AckInv AckRemove AckReceipts AckRetire AckDeliver AckAdmit AckMethods AckFleet AckRing.

(** ** The abstract machine *)

Abbreviation frame := (Z * maddr)%type.

Record window := Window {
  (** handed out and not acknowledged, oldest first *)
  wn_sent : list frame;
  (** to hand out, oldest first *)
  wn_todo : list frame;
  (** the number the next hand-over starts to look from *)
  wn_mark : Z;
  wn_next : Z;
  wn_open : bool;
  (** the frames with a limit and the transmissions they have left *)
  wn_left : list (Z * Z);
  (** the remembered numbers of released frames *)
  wn_late : list Z;
}.

Definition wn_frames (w : window) : list frame := wn_sent w ++ wn_todo w.

(** The number of the oldest frame, or the next one to give. *)
Definition base_of (l : list frame) (next : Z) : Z := from_option fst next (head l).
Definition base (w : window) : Z := base_of (wn_frames w) (wn_next w).

(** [n] is numbered after [seq]; numbers wrap around. *)
Definition after (seq n : Z) : Prop := 0 < sub64 n seq < 2 ^ 63.
#[export] Instance after_dec seq n : Decision (after seq n).
Proof. unfold after. apply _. Defined.

(** The further of two numbers, counted from [first]. *)
Definition further (first x y : Z) : Z := if decide (sub64 x first < sub64 y first) then y else x.

(** [seq] lies within the window. *)
Definition within (w : window) (seq : Z) : Prop := sub64 seq (base w) < sub64 (wn_next w) (base w).

(** What may be acknowledged: a number passed by a hand-over, or the oldest frame
    as long as no hand-over passed any. *)
Definition acceptable (w : window) (seq : Z) : Prop :=
  sub64 seq (base w) < sub64 (wn_mark w) (base w) \/
  (wn_mark w = base w /\ seq = base w /\ wn_frames w <> []).

(** The window spans the wrap-around of the numbers. *)
Definition wraps (w : window) : Prop := wn_next w < base w.

(** Everything up to [seq] leaves; given up frames in between are remembered. *)
Definition acked_window (seq : Z) (w : window) : window :=
  let sent := filter (fun f => after seq f.1) (wn_sent w) in
  let todo := filter (fun f => after seq f.1) (wn_todo w) in
  let first := base_of (sent ++ todo) (wn_next w) in
  Window sent todo (further (base w) (wn_mark w) first) (wn_next w) (wn_open w)
    (filter (fun p => after seq p.1) (wn_left w)) (recent (wn_late w ++ numbers (add64 seq 1) first)).

(** Frames without transmissions left are given up, the others queued again. *)
Definition reset_window (w : window) : window :=
  let todo := filter (fun f => (f.1, 0) ∉ wn_left w) (wn_frames w) in
  let first := base_of todo (wn_next w) in
  Window [] todo first (wn_next w) (wn_open w) (filter (fun p => p.2 <> 0) (wn_left w))
    (recent (wn_late w ++ numbers (base w) first)).

(** A limited frame [n] is transmitted once more. *)
Definition spend (n : Z) (l : list (Z * Z)) : list (Z * Z) :=
  (fun p => if decide (p.1 = n) then (p.1, p.2 - 1) else p) <$> l.

(** The limit of a new frame; only admissions with a receipt carry one. *)
Definition limit_of (n : Z) (receipt : option cell) (maxT : Z) : list (Z * Z) :=
  if decide (receipt <> None /\ maxT <> 0) then [(n, maxT)] else [].

Definition sealed (w : window) : window :=
  Window (wn_sent w) (wn_todo w) (wn_mark w) (wn_next w) false (wn_left w) (wn_late w).

Inductive window_step (w : window) : op -> answer -> window -> Prop :=
  | ws_added e size waiter receipt maxT :
      wn_open w = true ->
      window_step w (OpAdd e size waiter receipt maxT) (AddTurn (AddReturn None))
        (Window (wn_sent w) (wn_todo w ++ [(wn_next w, e)]) (wn_mark w) (add64 (wn_next w) 1) true
           (wn_left w ++ limit_of (wn_next w) receipt maxT) (wn_late w))
  | ws_refused e size waiter receipt maxT :
      wn_open w = false -> window_step w (OpAdd e size waiter receipt maxT) (AddTurn (AddReturn (Some ErrorClosed))) w
  | ws_blocked e size waiter receipt maxT c :
      wn_open w = true -> window_step w (OpAdd e size waiter receipt maxT) (AddTurn (AddBlock c)) w
  | ws_delivered f todo a :
      wn_todo w = f :: todo ->
      (** a limited frame has a transmission left *)
      (forall k, (f.1, k) ∈ wn_left w -> 0 < k) ->
      (** only the last frame of a draining buffer is sent as a copy *)
      (a = f.2 <-> wn_open w = true \/ todo <> []) ->
      window_step w OpDeliver (Delivered (Some a))
        (Window (wn_sent w ++ [f]) todo (add64 f.1 1) (wn_next w) (wn_open w) (spend f.1 (wn_left w)) (wn_late w))
  | ws_idle : wn_todo w = [] -> window_step w OpDeliver (Delivered None)
      (Window (wn_sent w) [] (wn_next w) (wn_next w) (wn_open w) (wn_left w) (wn_late w))
  | ws_acked seq :
      acceptable w seq ->
      (** what was not handed out stays, unless it is the oldest frame *)
      (Forall (fun f => after seq f.1) (wn_todo w) \/ wn_sent w = [] /\ fst <$> head (wn_todo w) = Some seq) ->
      window_step w (OpAck seq) (Acked None) (acked_window seq w)
  | ws_late seq :
      ~ within w seq -> seq ∈ wn_late w -> window_step w (OpAck seq) (Acked None) w
  | ws_rejected seq e :
      within w seq \/ seq ∉ wn_late w -> ~ acceptable w seq \/ wraps w -> window_step w (OpAck seq) (Acked (Some e)) w
  | ws_reset : window_step w OpReset Silent (reset_window w)
  | ws_seal : window_step w OpSeal Silent (sealed w)
  | ws_close : window_step w OpClose Silent (sealed w)
  | ws_drained : wn_frames w = [] -> forall done, window_step w (OpDrain done) (Drained DrainDone) w
  | ws_drain_failed done e f1 f2 :
      head (wn_frames w) = Some f1 -> last (wn_frames w) = Some f2 -> FirstSeq e = f1.1 -> LastSeq e = f2.1 ->
      Unacked e = Z.of_nat (length (wn_frames w)) -> window_step w (OpDrain done) (Drained (DrainFailed e)) w
  | ws_drain_wait c : wn_frames w <> [] -> window_step w (OpDrain false) (Drained (DrainWait c)) w
  | ws_alloc m a : window_step w (OpAlloc m) (Allocated a) w
  | ws_flow cap : window_step w (OpFlow cap) Silent w
  | ws_cancel wt : window_step w (OpCancel wt) Silent w
  (** the limits are forgotten with the receipts *)
  | ws_forget : window_step w OpForget Silent
      (Window (wn_sent w) (wn_todo w) (wn_mark w) (wn_next w) (wn_open w) [] (wn_late w)).

Section window.
Context {B : Type} `{HB : LenientLaws B}.
Implicit Types (b : AckBuffer B).

(** ** The abstraction *)

Definition numbered b : list frame := imap (fun j a => (seq_at b (Z.of_nat j), a)) (held b).

Definition live_frames b (l : list frame) : list frame := filter (fun f => f.1 ∉ ab_retired b) l.

Definition sent b : list frame := live_frames b (take (Z.to_nat (ab_nextIndexToDeliver b)) (numbered b)).
Definition todo b : list frame := live_frames b (drop (Z.to_nat (ab_nextIndexToDeliver b)) (numbered b)).

(** The tracked admissions with a limit that are not retired. *)
Definition limits b : list (Z * Z) :=
  (fun e => (te_seq e, te_max e - te_sends e)) <$> filter (fun e => te_max e <> 0 /\ te_seq e ∉ ab_retired b) (ab_receipts b).

Definition late b : list Z := from_option ring_list [] (ab_releasedRetired b).

Definition mark b : Z := seq_at b (ab_nextIndexToDeliver b).

Definition abs b : window :=
  Window (sent b) (todo b) (mark b) (ab_nextSeqNum b) (ab_isRunning b) (limits b) (late b).

Lemma sent_todo b : sent b ++ todo b = live_frames b (numbered b).
Proof. unfold sent, todo, live_frames. by rewrite <-filter_app, take_drop. Qed.

(** ** Filters of related lists *)

Lemma filter_pointwise {X} (P Q : X -> Prop) `{!forall x, Decision (P x), !forall x, Decision (Q x)} (l1 l2 : list X) :
  length l1 = length l2 ->
  (forall j x y, l1 !! j = Some x -> l2 !! j = Some y -> (P x <-> Q y) /\ (P x -> x = y)) -> filter P l1 = filter Q l2.
Proof.
  revert l2. induction l1 as [|x l1 IH]; intros [|y l2] Hl Hp; try done.
  destruct (Hp 0%nat x y eq_refl eq_refl) as [HPQ Heq].
  assert (Hrest : filter P l1 = filter Q l2) by (apply IH; [simpl in Hl; lia|intros j; apply (Hp (S j))]).
  destruct (decide (P x)) as [HP|HP].
  - rewrite !filter_cons_True by (done || by apply HPQ). by rewrite Hrest, Heq.
  - rewrite !filter_cons_False by (done || by rewrite <-HPQ). done.
Qed.

Lemma filter_map {X Y} (f : X -> Y) (P : Y -> Prop) `{!forall y, Decision (P y)} (l : list X) :
  filter P (f <$> l) = f <$> filter (fun x => P (f x)) l.
Proof.
  induction l as [|x l IH]; [done|]. rewrite fmap_cons. destruct (decide (P (f x))).
  - rewrite !filter_cons_True by done. by rewrite fmap_cons, IH.
  - by rewrite !filter_cons_False by done.
Qed.

Lemma take_drop_swap {X} (l : list X) n k : take (n - k) (drop k l) = drop k (take n l).
Proof.
  destruct (decide (k <= n)%nat) as [Hle|Hgt].
  - rewrite take_drop_commute. do 2 f_equal. lia.
  - replace (n - k)%nat with 0%nat by lia. rewrite take_0, drop_ge; [done|]. rewrite length_take. lia.
Qed.

Lemma numbered_lookup b j f :
  numbered b !! j = Some f <-> exists a, held b !! j = Some a /\ f = (seq_at b (Z.of_nat j), a).
Proof.
  unfold numbered. rewrite list_lookup_imap. destruct (held b !! j) as [a|]; simpl; [|split; [done|by intros (a & ? & _)]].
  split; [intros [= <-]; by exists a|by intros (a' & [= <-] & ->)].
Qed.

Lemma numbered_length b : length (numbered b) = length (held b).
Proof. apply length_imap. Qed.

(** ** Sliding the window *)

(** The first [k] slots left and some of the rest may have been retired. *)
Record slid (k : nat) b b' : Prop := {
  sd_le : (k <= length (held b))%nat;
  sd_first : ab_firstSeqNum b' = seq_at b (Z.of_nat k);
  sd_length : length (held b') = (length (held b) - k)%nat;
  sd_slot j : seq_at b (Z.of_nat (k + j)) ∉ ab_retired b' -> held b' !! j = held b !! (k + j)%nat;
}.

Lemma slid_seq k b b' j : slid k b b' -> seq_at b' (Z.of_nat j) = seq_at b (Z.of_nat (k + j)).
Proof. intros Hs. unfold seq_at. rewrite (sd_first _ _ _ Hs). unfold seq_at. rewrite add64_assoc. f_equal. lia. Qed.

Lemma slid_take k b b' m :
  slid k b b' -> live_frames b' (take m (numbered b')) = filter (fun f => f.1 ∉ ab_retired b') (take m (drop k (numbered b))).
Proof.
  intros Hs. apply filter_pointwise.
  - rewrite !length_take, length_drop, !numbered_length, (sd_length _ _ _ Hs). done.
  - intros j x y Hx Hy. apply lookup_take_Some in Hx as [Hx Hlt]. apply lookup_take_Some in Hy as [Hy _].
    rewrite lookup_drop in Hy. apply numbered_lookup in Hx as (a & Ha & ->). apply numbered_lookup in Hy as (a' & Ha' & ->).
    simpl. rewrite (slid_seq k b b' j Hs). split; [done|]. intros Hn. f_equal.
    rewrite (sd_slot _ _ _ Hs j Hn) in Ha. congruence.
Qed.

(** The frames that satisfy [P] are those left. *)
Definition sifts (P : frame -> Prop) (k : nat) b b' : Prop :=
  forall j f, numbered b !! j = Some f ->
    ((j < k)%nat -> ~ (P f /\ f.1 ∉ ab_retired b)) /\
    ((k <= j)%nat -> (P f /\ f.1 ∉ ab_retired b) <-> f.1 ∉ ab_retired b').

Lemma slid_prefix (P : frame -> Prop) `{!forall f, Decision (P f)} k b b' m :
  slid k b b' -> sifts P k b b' ->
  live_frames b' (take (m - k) (numbered b')) = filter P (live_frames b (take m (numbered b))).
Proof.
  intros Hs HP. rewrite (slid_take k b b' _ Hs), take_drop_swap. unfold live_frames. rewrite list_filter_filter.
  rewrite <-(take_drop k (take m (numbered b))) at 2. rewrite filter_app.
  assert (Hnil : filter (fun f => P f /\ f.1 ∉ ab_retired b) (take k (take m (numbered b))) = []).
  { apply filter_none. intros f Hf. apply list_elem_of_lookup in Hf as [j Hj].
    apply lookup_take_Some in Hj as [Hj Hlt]. apply lookup_take_Some in Hj as [Hj _]. by apply (HP j f Hj). }
  rewrite Hnil. simpl. apply list_filter_iff'. intros f Hf. apply list_elem_of_lookup in Hf as [j Hj].
  rewrite lookup_drop in Hj. apply lookup_take_Some in Hj as [Hj _]. symmetry. apply (HP _ f Hj). lia.
Qed.

Lemma slid_abs (P : frame -> Prop) `{!forall f, Decision (P f)} k b b' :
  slid k b b' -> sifts P k b b' -> Z.to_nat (ab_nextIndexToDeliver b') = (Z.to_nat (ab_nextIndexToDeliver b) - k)%nat ->
  sent b' = filter P (sent b) /\ todo b' = filter P (todo b).
Proof.
  intros Hs HP Hn. assert (Hsent : sent b' = filter P (sent b)).
  { unfold sent. rewrite Hn. by apply slid_prefix. }
  split; [done|]. apply (app_inv_head (sent b')). rewrite sent_todo, Hsent, <-filter_app, sent_todo.
  assert (Hall := slid_prefix P k b b' (length (numbered b)) Hs HP).
  rewrite (take_ge (numbered b)) in Hall by lia. rewrite take_ge in Hall; [done|].
  rewrite !numbered_length, (sd_length _ _ _ Hs). done.
Qed.

(** ** The bounds of the window *)

Lemma frames_abs b : wn_frames (abs b) = live_frames b (numbered b).
Proof. apply sent_todo. Qed.

(** The head is live, so the oldest frame is the first slot. *)
Lemma base_live ms b :
  win_ok ms b -> (ab_nextIndexFree b <> 0 -> ab_firstSeqNum b ∉ ab_retired b) ->
  base_of (live_frames b (numbered b)) (ab_nextSeqNum b) = ab_firstSeqNum b /\
  (live_frames b (numbered b) = [] <-> ab_nextIndexFree b = 0).
Proof.
  intros Hw Hh. unfold numbered. rewrite (held_win _ _ Hw). pose proof (w_free _ _ Hw) as Hf. destruct ms as [|a ms].
  - simpl in *. unfold base_of. simpl. rewrite (w_next _ _ Hw), Hf. split; [apply seq_at_0, Hw|done].
  - simpl in Hf. rewrite imap_cons. change (Z.of_nat 0) with 0. rewrite (seq_at_0 b (w_first _ _ Hw)).
    unfold live_frames. rewrite filter_cons_True by (apply Hh; lia). split; [done|]. split; [done|lia].
Qed.

Lemma base_abs b : ok b -> base (abs b) = ab_firstSeqNum b.
Proof.
  intros Hok. unfold base. rewrite frames_abs.
  apply (base_live (held b)); [apply (so_ok _ _ (po_settled _ _ Hok))|apply (so_head _ _ (po_settled _ _ Hok))].
Qed.

Lemma frames_nil b : ok b -> wn_frames (abs b) = [] <-> ab_nextIndexFree b = 0.
Proof.
  intros Hok. rewrite frames_abs.
  apply (base_live (held b)); [apply (so_ok _ _ (po_settled _ _ Hok))|apply (so_head _ _ (po_settled _ _ Hok))].
Qed.

Lemma window_size ms b : win_ok ms b -> 0 <= ab_nextIndexFree b <= max_slots.
Proof. intros Hw. pose proof (w_free _ _ Hw). pose proof (w_len _ _ Hw). lia. Qed.

Lemma off_next ms b : win_ok ms b -> off b (ab_nextSeqNum b) = ab_nextIndexFree b.
Proof.
  intros Hw. pose proof (window_size _ _ Hw). unfold max_slots in *. rewrite (w_next _ _ Hw). apply off_seq_at. split; lia.
Qed.

Lemma off_mark ms b : win_ok ms b -> off b (mark b) = ab_nextIndexToDeliver b.
Proof.
  intros Hw. pose proof (window_size _ _ Hw). pose proof (w_deliver _ _ Hw). unfold max_slots in *. apply off_seq_at. split; lia.
Qed.

Lemma within_abs b seq : ok b -> within (abs b) seq <-> off b seq < ab_nextIndexFree b.
Proof.
  intros Hok. unfold within. rewrite base_abs by done. simpl. fold (off b (ab_nextSeqNum b)).
  by rewrite (off_next (held b) b (bo_win _ _ (so_ok _ _ (po_settled _ _ Hok)))).
Qed.

Lemma acceptable_abs b seq : ok b -> is_u64 seq ->
  acceptable (abs b) seq <->
    off b seq < ab_nextIndexToDeliver b \/ (ab_nextIndexToDeliver b = 0 /\ off b seq = 0 /\ ab_nextIndexFree b <> 0).
Proof.
  intros Hok Hu. pose proof (bo_win _ _ (so_ok _ _ (po_settled _ _ Hok))) as Hw. unfold acceptable.
  rewrite base_abs, frames_nil by done. change (wn_mark (abs b)) with (mark b).
  change (sub64 (mark b) (ab_firstSeqNum b)) with (off b (mark b)). rewrite (off_mark _ _ Hw).
  assert (Hz : forall x, is_u64 x -> x = ab_firstSeqNum b <-> off b x = 0).
  { intros x Hx. pose proof (w_first _ _ Hw) as Hf. unfold off, is_u64 in *. split; [intros ->; u64_lia|u64_lia]. }
  rewrite (Hz seq Hu), (Hz (mark b)), (off_mark _ _ Hw); [tauto|apply add64_range].
Qed.

Lemma wraps_abs b : ok b -> wraps (abs b) <-> W64 <= ab_firstSeqNum b + ab_nextIndexFree b.
Proof.
  intros Hok. pose proof (bo_win _ _ (so_ok _ _ (po_settled _ _ Hok))) as Hw. unfold wraps. rewrite base_abs by done. simpl.
  pose proof (window_size _ _ Hw). pose proof (w_first _ _ Hw) as Hf. rewrite (w_next _ _ Hw). unfold seq_at, max_slots, is_u64 in *. u64_lia.
Qed.

(** The checks of [Ack], where the numbers do not wrap around. *)
Lemma ackCheck_accepts b seq : ok b -> is_u64 seq -> ~ wraps (abs b) -> acceptable (abs b) seq -> ackCheck seq b = None.
Proof.
  intros Hok Hu Hw Ha. rewrite wraps_abs in Hw by done. rewrite acceptable_abs in Ha by done.
  pose proof (bo_win _ _ (so_ok _ _ (po_settled _ _ Hok))) as Hwin. pose proof (window_size _ _ Hwin).
  pose proof (w_first _ _ Hwin) as Hf. pose proof (w_deliver _ _ Hwin). pose proof (w_len _ _ Hwin).
  assert (Hoff : off b seq < ab_nextIndexFree b) by lia.
  assert (Hseq : seq = ab_firstSeqNum b + off b seq) by (unfold off, is_u64 in *; u64_lia).
  assert (Hnext : ab_nextSeqNum b = ab_firstSeqNum b + ab_nextIndexFree b).
  { rewrite (w_next _ _ Hwin). unfold seq_at, is_u64 in *. u64_lia. }
  pose proof (off_u64 b seq). unfold ackCheck. fold (off b seq).
  rewrite decide_False by lia. rewrite decide_False by lia. rewrite decide_False by lia. by rewrite decide_False by lia.
Qed.

(** ** The limits and the memory *)

(** Entries of the first [k] slots went, the others keep their count. *)
Lemma slid_limits (P : Z -> Prop) `{!forall n, Decision (P n)} ms k b b' :
  win_ok ms b -> track_ok b -> ab_receipts b' = filter (fun e => Z.of_nat k <= off b (te_seq e)) (ab_receipts b) ->
  sifts (fun f => P f.1) k b b' -> limits b' = filter (fun p => P p.1) (limits b).
Proof.
  intros Hw Ht Hr HP. unfold limits. rewrite Hr, filter_map, !list_filter_filter.
  f_equal. apply list_filter_iff'. intros e He. simpl. destruct (tr_window _ Ht e He) as [Hu Hoff].
  pose proof (w_free _ _ Hw) as Hf. pose proof (off_u64 b (te_seq e)).
  destruct (lookup_lt_is_Some_2 (held b) (Z.to_nat (off b (te_seq e)))) as [a Ha]; [rewrite (held_win _ _ Hw); lia|].
  destruct (HP (Z.to_nat (off b (te_seq e))) (te_seq e, a)) as [HP1 HP2].
  { apply numbered_lookup. exists a. split; [done|]. rewrite Z2Nat.id by lia. by rewrite seq_at_off. }
  simpl in *. destruct (decide (Z.of_nat k <= off b (te_seq e))).
  - specialize (HP2 ltac:(lia)). tauto.
  - specialize (HP1 ltac:(lia)). tauto.
Qed.

Lemma late_short b : retired_ok b -> (length (late b) <= Z.to_nat releasedRetiredMemory)%nat.
Proof.
  intros Hre. unfold late. destruct (ab_releasedRetired b) as [r|] eqn:Hr; simpl; [|lia]. by apply ring_length, (re_ring _ Hre).
Qed.

Lemma late_default b : late b = ring_list (default newRing (ab_releasedRetired b)).
Proof. unfold late. by destruct (ab_releasedRetired b). Qed.

Lemma numbers_seq_at b n : 0 <= Z.of_nat n < W64 -> numbers (ab_firstSeqNum b) (seq_at b (Z.of_nat n)) = numbers_from n (ab_firstSeqNum b).
Proof.
  intros Hn. unfold numbers. f_equal. change (sub64 _ _) with (off b (seq_at b (Z.of_nat n))). rewrite off_seq_at by (split; lia). lia.
Qed.

(** The retired head goes to the memory. *)
Lemma head_late ms b i rq A n b' :
  buf_ok ms b -> head_released ms b i rq A n b' ->
  late b' = recent (late b ++ numbers (ab_firstSeqNum b) (ab_firstSeqNum b')) /\
  ab_receipts b' = filter (fun e => Z.of_nat n <= off b (te_seq e)) (ab_receipts b).
Proof.
  intros [Hw _ _ Hre Htr _] Hhr. destruct Hhr as [|n r ring Hn Hret Hres Hring].
  - split.
    + unfold numbers, sub64. rewrite Z.sub_diag. simpl. rewrite app_nil_r, recent_short; [done|by apply late_short].
    + symmetry. apply from_all. intros e _. apply off_u64.
  - split; [|done]. pose proof (window_size _ _ Hw). pose proof (w_free _ _ Hw). unfold max_slots in *.
    change (ab_firstSeqNum (removed n false ms r _)) with (seq_at b (Z.of_nat n)). rewrite numbers_seq_at by lia.
    change (late (removed n false ms r _)) with (ring_list ring). rewrite late_default.
    apply ring_add_from_list; [by apply ring_default_ok|apply Hw|done].
Qed.

(** ** Acknowledgement *)

Lemma head_slid ms b i rq A n b' :
  win_ok ms b -> held b' = drop n ms -> head_released ms b i rq A n b' -> slid n b b' /\
    ab_nextIndexToDeliver b' = Z.max 0 (ab_nextIndexToDeliver b - Z.of_nat n) /\
    ab_nextSeqNum b' = ab_nextSeqNum b /\ ab_isRunning b' = ab_isRunning b /\
    (forall j, (j < length ms)%nat -> (j < n)%nat /\ seq_at b (Z.of_nat j) ∈ ab_retired b \/
       (n <= j)%nat /\ (seq_at b (Z.of_nat j) ∈ ab_retired b' <-> seq_at b (Z.of_nat j) ∈ ab_retired b)).
Proof.
  intros Hw Hh' Hhr. pose proof (held_win _ _ Hw) as Hh. pose proof (w_free _ _ Hw) as Hf.
  pose proof (w_len _ _ Hw) as Hlen. unfold max_slots in Hlen. pose proof (w_deliver _ _ Hw) as Hd.
  destruct Hhr as [|n r ring Hn Hret Hres Hring].
  - split; [|split_and!; [lia|done|done|intros j _; right; split; [lia|done]]]. split; rewrite ?Hh, ?Hh', ?drop_0; try done; [lia| |lia].
    change (Z.of_nat 0) with 0. symmetry. apply seq_at_0, Hw.
  - split; [|split_and!; [done..|]].
    + split; rewrite ?Hh, ?Hh'; [lia|done|by rewrite length_drop|intros j _; by rewrite lookup_drop].
    + intros j Hj. destruct (decide (j < n)%nat) as [Hlt|Hge].
      * left. split; [done|]. specialize (Hret (Z.of_nat j) ltac:(lia)). by apply bool_decide_eq_true in Hret.
      * right. split; [lia|]. simpl. rewrite elem_of_filter. split; [tauto|]. intros Hin. split; [|done].
        change (off (b <| ab_releasedRetired := Some ring |>) (seq_at b (Z.of_nat j))) with (off b (seq_at b (Z.of_nat j))).
        rewrite off_seq_at by (split; lia). lia.
Qed.

(** Before the number [seq] at offset [k - 1] and after it. *)
Lemma after_off b seq k j :
  is_u64 seq -> off b seq = k - 1 -> 0 <= j <= max_slots -> 0 < k <= max_slots -> after seq (seq_at b j) <-> k <= j.
Proof. intros Hs Hk Hj Hk'. unfold after, off, seq_at, max_slots, is_u64 in *. u64_lia. Qed.

Lemma ack_slid ms seq i rq A b r n b' :
  let k := S (Z.to_nat (off b seq)) in
  public_ok ms b -> is_u64 seq -> off b seq < ab_nextIndexFree b -> residue_ok k ms r i rq A b ->
  buf_ok (drop k ms) (removed k true ms r b) -> head_released (drop k ms) (removed k true ms r b) i rq A n b' ->
  public_ok (drop (k + n) ms) b' ->
  slid (k + n) b b' /\ sifts (fun f => after seq f.1) (k + n) b b' /\
    Z.to_nat (ab_nextIndexToDeliver b') = (Z.to_nat (ab_nextIndexToDeliver b) - (k + n))%nat /\
    ab_nextSeqNum b' = ab_nextSeqNum b /\ ab_isRunning b' = ab_isRunning b.
Proof.
  intros k Hpo Hu Hlt Hres Hok1 Hhr Hpo'. pose proof (off_u64 b seq) as Hoff.
  pose proof (bo_win _ _ (so_ok _ _ (po_settled _ _ Hpo))) as Hw. pose proof (bo_win _ _ Hok1) as Hw1.
  pose proof (bo_win _ _ (so_ok _ _ (po_settled _ _ Hpo'))) as Hw'. pose proof (w_free _ _ Hw) as Hf.
  pose proof (w_len _ _ Hw) as Hlen. pose proof (held_win _ _ Hw) as Hh. pose proof (held_win _ _ Hw') as Hh'.
  pose proof (held_win _ _ Hw1) as Hh1. set (b1 := removed k true ms r b) in *.
  assert (Hsq : forall j, seq_at b1 (Z.of_nat j) = seq_at b (Z.of_nat (k + j))).
  { intros j. unfold seq_at. simpl. unfold seq_at. rewrite add64_assoc. f_equal. lia. }
  rewrite <-drop_drop in Hh'.
  destruct (head_slid (drop k ms) b1 i rq A n b' Hw1 Hh' Hhr) as (Hs & Hn & Hnext & Hrun & Hret).
  pose proof (sd_le _ _ _ Hs) as Hle. rewrite Hh1, length_drop in Hle. rewrite length_drop in Hret.
  split; [|split; [|split; [|by split]]].
  - split; [rewrite Hh; lia| |rewrite Hh, Hh', !length_drop; lia|intros j _; rewrite Hh, Hh', !lookup_drop; f_equal; lia].
    rewrite (sd_first _ _ _ Hs). apply Hsq.
  - intros j f Hj. apply numbered_lookup in Hj as (a & Ha & ->). simpl. rewrite Hh in Ha. apply lookup_lt_Some in Ha.
    assert (Hafter : after seq (seq_at b (Z.of_nat j)) <-> Z.of_nat k <= Z.of_nat j) by (apply after_off; [done|lia..]).
    rewrite Hafter. destruct (decide (j < k)%nat) as [Hjk|Hjk]; [split; [intros _ [? _]; lia|lia]|].
    assert (Hret1 : seq_at b (Z.of_nat j) ∈ ab_retired b1 <-> seq_at b (Z.of_nat j) ∈ ab_retired b).
    { simpl. rewrite elem_of_filter, off_seq_at by (unfold max_slots in Hlen; split; lia). split; [tauto|]. intros. split; [lia|done]. }
    specialize (Hret (j - k)%nat ltac:(lia)). rewrite Hsq in Hret. replace (k + (j - k))%nat with j in Hret by lia.
    destruct Hret as [[Hj Hin]|[Hj Hiff]].
    + split; [intros _ [_ Hni]; tauto|lia].
    + split; [lia|]. intros _. rewrite Hiff, Hret1. split; [tauto|]. intros. split; [lia|done].
  - rewrite Hn. simpl. pose proof (w_deliver _ _ Hw). lia.
Qed.

(** What the checks of [Ack] let through was handed out, or is the head. *)
Lemma ackCheck_delivered seq b :
  ackCheck seq b = None -> off b seq < ab_nextIndexToDeliver b \/ ab_nextIndexToDeliver b = 0 /\ off b seq = 0.
Proof.
  unfold ackCheck. fold (off b seq). intros Hc.
  destruct (decide (seq < _ /\ _)); [done|]. destruct (decide (seq >= _ /\ _)); [done|].
  destruct (decide (off b seq >= _ \/ _)); [done|]. destruct (decide (off b seq >= _ /\ _)) as [|Hn]; [done|].
  destruct (decide (off b seq < ab_nextIndexToDeliver b)); [by left|]. right.
  destruct (decide (ab_nextIndexToDeliver b = 0)), (decide (off b seq = 0)); try done; destruct Hn; split; tauto || lia.
Qed.

(** What [Ack] does to the receipts and to the memory. *)
Lemma ack_tail ms seq i rq A b r n b' :
  let k := S (Z.to_nat (off b seq)) in
  is_u64 seq -> win_ok ms b -> buf_ok (drop k ms) (removed k true ms r b) ->
  head_released (drop k ms) (removed k true ms r b) i rq A n b' ->
  ab_receipts b' = filter (fun e => Z.of_nat (k + n) <= off b (te_seq e)) (ab_receipts b) /\
  late b' = recent (late b ++ numbers (add64 seq 1) (ab_firstSeqNum b')).
Proof.
  intros k Hu Hw Hok1 Hhr. destruct (head_late _ _ _ _ _ _ _ Hok1 Hhr) as [Hl Hr]. pose proof (off_u64 b seq) as Hoff.
  assert (Hfirst : ab_firstSeqNum (removed k true ms r b) = add64 seq 1).
  { change (ab_firstSeqNum (removed k true ms r b)) with (seq_at b (Z.of_nat k)).
    transitivity (add64 (seq_at b (off b seq)) 1); [|by rewrite seq_at_off]. unfold seq_at. rewrite add64_assoc. f_equal. unfold k. lia. }
  rewrite Hfirst in Hl. split; [|exact Hl]. rewrite Hr. change (ab_receipts (removed k true ms r b)) with (kept_entries (Z.of_nat k) b).
  unfold kept_entries, from. rewrite list_filter_filter. apply list_filter_iff'. intros e He. simpl.
  change (off (removed k true ms r b) (te_seq e)) with (off (shifted k ms r b) (te_seq e)).
  destruct (decide (Z.of_nat k <= off b (te_seq e))) as [Hge|Hlt]; [rewrite shifted_off by done; lia|lia].
Qed.

(** The next hand-over starts from the same slot, or from the new first one. *)
Lemma slid_mark ms k b b' :
  win_ok ms b -> slid k b b' -> 0 <= ab_nextIndexToDeliver b' ->
  Z.to_nat (ab_nextIndexToDeliver b') = (Z.to_nat (ab_nextIndexToDeliver b) - k)%nat ->
  mark b' = further (ab_firstSeqNum b) (mark b) (ab_firstSeqNum b').
Proof.
  intros Hw Hs Hp Hn. pose proof (w_deliver _ _ Hw). pose proof (window_size _ _ Hw). pose proof (sd_le _ _ _ Hs) as Hle.
  rewrite (held_win _ _ Hw) in Hle. pose proof (w_free _ _ Hw). unfold max_slots in *.
  unfold further. rewrite (sd_first _ _ _ Hs).
  change (sub64 (mark b) (ab_firstSeqNum b)) with (off b (mark b)). rewrite (off_mark _ _ Hw).
  change (sub64 (seq_at b (Z.of_nat k)) (ab_firstSeqNum b)) with (off b (seq_at b (Z.of_nat k))). rewrite off_seq_at by (split; lia).
  unfold mark. rewrite <-(Z2Nat.id (ab_nextIndexToDeliver b')) by done. rewrite Hn, (slid_seq k b b' _ Hs).
  case_decide; f_equal; lia.
Qed.

(** What was not handed out stays, unless it is the oldest frame. *)
Lemma ack_stays b seq :
  ok b -> is_u64 seq -> ackCheck seq b = None ->
  Forall (fun f => after seq f.1) (todo b) \/ sent b = [] /\ fst <$> head (todo b) = Some seq.
Proof.
  intros Hpo Hu Hc. pose proof (bo_win _ _ (so_ok _ _ (po_settled _ _ Hpo))) as Hw.
  pose proof (w_free _ _ Hw) as Hf. pose proof (w_len _ _ Hw) as Hlen. pose proof (ackCheck_window seq b Hc) as Hlt.
  pose proof (off_u64 b seq) as Hoff. destruct (ackCheck_delivered seq b Hc) as [Hd|[Hd Hz]].
  - left. apply Forall_forall. intros f Hfd. unfold todo, live_frames in Hfd. apply list_elem_of_filter in Hfd as [_ Hfd].
    apply list_elem_of_lookup in Hfd as [j Hj]. rewrite lookup_drop in Hj. apply numbered_lookup in Hj as (a & Ha & ->).
    simpl. apply lookup_lt_Some in Ha. apply (after_off b seq (off b seq + 1)); [done|lia..].
  - right. pose proof (base_abs b Hpo) as Hb. unfold base, base_of in Hb. pose proof (frames_nil b Hpo) as Hnil.
    assert (Hsent : sent b = []) by (unfold sent, live_frames; rewrite Hd; by rewrite take_0).
    unfold wn_frames in *. simpl in *. rewrite Hsent in *. split; [done|]. simpl in *.
    destruct (todo b) as [|f t]; [destruct Hnil as [Hnil _]; specialize (Hnil eq_refl); lia|].
    simpl in *. f_equal. rewrite Hb. apply (off_inj b); [apply Hw|done|]. rewrite Hz. unfold off, sub64. by rewrite Z.sub_diag.
Qed.

Lemma ack_refines ms seq i rq A b r b' :
  public_ok ms b -> is_u64 seq -> ack_post ms seq i rq A b r b' -> window_step (abs b) (OpAck seq) (Acked r) (abs b').
Proof.
  intros Hpo Hu Hpost. pose proof (public_ok_held _ _ Hpo) as Hok. pose proof (so_ok _ _ (po_settled _ _ Hpo)) as Hbo.
  pose proof (bo_win _ _ Hbo) as Hw.
  destruct Hpost as [ring Hr Hhas Hge|e Hc Hlate|r n b' k Hc Hlt Hres Hok1 Hhr Hpub Ho].
  - apply ws_late; [rewrite within_abs by done; lia|]. simpl. unfold late. rewrite Hr. simpl.
    by apply ring_has_list; [apply (re_ring _ (bo_retired _ _ Hbo))|].
  - apply ws_rejected.
    + rewrite within_abs by done. simpl. unfold late. destruct (ab_releasedRetired b) as [ring|] eqn:Hr; simpl; [|right; by apply not_elem_of_nil].
      destruct (decide (seq ∈ ring_list ring)) as [Hin|]; [left|by right]. apply (Hlate ring); [done|].
      by apply ring_has_list; [apply (re_ring _ (bo_retired _ _ Hbo))|].
    + destruct (decide (W64 <= ab_firstSeqNum b + ab_nextIndexFree b)) as [Hwr|Hwr]; [right; by apply wraps_abs|left].
      intros Ha. rewrite (ackCheck_accepts b seq) in Hc; [done|done|done| |done]. by rewrite wraps_abs.
  - destruct (ack_slid ms seq i rq A b r n b') as (Hs & HP & Hn & Hnext & Hrun); [done..|].
    destruct (ack_tail ms seq i rq A b r n b') as [Hrc Hlate]; [done..|].
    destruct (slid_abs _ _ _ _ Hs HP Hn) as [Hsent Htodo]. pose proof (public_ok_held _ _ Hpub) as Hok'.
    pose proof (base_abs b' Hok') as Hb'. unfold base, wn_frames in Hb'. simpl in Hb'. rewrite Hsent, Htodo, Hnext in Hb'.
    assert (Habs : abs b' = acked_window seq (abs b)).
    { unfold abs at 1, acked_window. rewrite base_abs by done. simpl. rewrite Hsent, Htodo, Hnext, Hrun, Hb', Hlate.
      f_equal.
      - eapply slid_mark; [done|done| |done]. apply (bo_win _ _ (so_ok _ _ (po_settled _ _ Hpub))).
      - eapply (slid_limits (fun n => after seq n)); [done|apply Hbo|done|done]. }
    rewrite Habs. apply ws_acked; [|by apply ack_stays]. apply acceptable_abs; [done|done|].
    destruct (ackCheck_delivered seq b Hc) as [?|[? ?]]; [by left|right]. pose proof (off_u64 b seq). lia.
Qed.

(** ** The messages of the frames *)

Lemma live_list_frames (ret : gset Z) s ms :
  is_u64 s -> snd <$> filter (fun f : frame => f.1 ∉ ret) (imap (fun j a => (add64 s (Z.of_nat j), a)) ms) = live_list ret s ms.
Proof.
  revert s. induction ms as [|a ms IH]; intros s Hs; [done|]. rewrite imap_cons.
  assert (Hz : add64 s (Z.of_nat 0) = s) by (unfold is_u64 in Hs; u64_lia). rewrite Hz.
  assert (Hshift : imap ((fun j a => (add64 s (Z.of_nat j), a)) ∘ S) ms = imap (fun j a => (add64 (add64 s 1) (Z.of_nat j), a)) ms).
  { apply imap_ext. intros j x _. simpl. rewrite add64_assoc. do 2 f_equal. lia. }
  rewrite Hshift. simpl. destruct (decide (s ∈ ret)) as [Hin|Hin].
  - rewrite filter_cons_False by (simpl; tauto). apply IH, add64_range.
  - rewrite filter_cons_True by done. simpl. f_equal. apply IH, add64_range.
Qed.

Lemma numbered_drop b k : drop k (numbered b) = imap (fun j a => (add64 (seq_at b (Z.of_nat k)) (Z.of_nat j), a)) (drop k (held b)).
Proof.
  apply list_eq. intros j. rewrite lookup_drop, list_lookup_imap, lookup_drop. unfold numbered. rewrite list_lookup_imap.
  destruct (held b !! (k + j)%nat); [|done]. simpl. unfold seq_at. rewrite add64_assoc. do 3 f_equal. lia.
Qed.

Lemma todo_pending ms b : win_ok ms b -> snd <$> todo b = pending ms b.
Proof.
  intros Hw. unfold todo, live_frames, pending. rewrite numbered_drop, (held_win _ _ Hw).
  pose proof (w_deliver _ _ Hw). rewrite live_list_frames by apply add64_range. by rewrite Z2Nat.id by lia.
Qed.

Lemma frames_live ms b : win_ok ms b -> snd <$> (sent b ++ todo b) = live ms b.
Proof.
  intros Hw. rewrite sent_todo. unfold live_frames, live. assert (Hd := numbered_drop b 0). rewrite !drop_0 in Hd.
  rewrite Hd, (held_win _ _ Hw). change (Z.of_nat 0) with 0. rewrite (seq_at_0 b (w_first _ _ Hw)). apply live_list_frames, Hw.
Qed.

(** The number of a frame is that of its message. *)
Lemma frame_number ms b f :
  win_ok ms b -> store_ok ms b -> f ∈ numbered b -> exists m, ab_msgs b !! f.2 = Some m /\ f.1 = SeqNum m.
Proof.
  intros Hw Hst Hf. apply list_elem_of_lookup in Hf as [j Hj]. apply numbered_lookup in Hj as (a & Ha & ->).
  rewrite (held_win _ _ Hw) in Ha. destruct (st_msg _ _ Hst j a Ha) as (m & Hm & Hs). by exists m.
Qed.

Lemma fmap_snd_inj (g : maddr -> Z) (l1 l2 : list frame) :
  (forall f, f ∈ l1 -> f.1 = g f.2) -> (forall f, f ∈ l2 -> f.1 = g f.2) -> snd <$> l1 = snd <$> l2 -> l1 = l2.
Proof.
  revert l2. induction l1 as [|[s a] l1 IH]; intros [|[s' a'] l2] H1 H2 Heq; try done. injection Heq as -> Heq.
  assert (E1 := H1 (s, a') ltac:(by left)). assert (E2 := H2 (s', a') ltac:(by left)). simpl in *. f_equal; [congruence|].
  apply IH; [|intros f ?; apply H2; by right|done]. intros f ?. apply H1. by right.
Qed.

Lemma numbered_same b b' :
  held b' = held b -> ab_firstSeqNum b' = ab_firstSeqNum b -> numbered b' = numbered b.
Proof. intros Hh Hf. unfold numbered, seq_at. by rewrite Hh, Hf. Qed.

(** ** Delivery *)

(** A hand-over of slot [p] counts for its entry only. *)
Lemma spend_limits ms b b' p :
  win_ok ms b -> track_ok b -> (p < length ms)%nat -> ab_retired b' = ab_retired b ->
  ab_receipts b' = counted b (Z.of_nat p) <$> ab_receipts b -> limits b' = spend (seq_at b (Z.of_nat p)) (limits b).
Proof.
  intros Hw Ht Hp Hret Hr. pose proof (w_free _ _ Hw). pose proof (window_size _ _ Hw). unfold max_slots in *.
  assert (Hc : forall e, te_seq (counted b (Z.of_nat p) e) = te_seq e /\ te_max (counted b (Z.of_nat p) e) = te_max e).
  { intros e. unfold counted. by case_decide. }
  unfold limits, spend. rewrite Hr, Hret, filter_map, <-!list_fmap_compose.
  rewrite (list_filter_iff' _ (fun e => te_max e <> 0 /\ te_seq e ∉ ab_retired b)).
  2:{ intros e _. by destruct (Hc e) as [-> ->]. }
  apply list_fmap_ext. intros j e Hj. apply list_elem_of_lookup_2, list_elem_of_filter in Hj as [[Hmax _] He].
  destruct (tr_window _ Ht e He) as [Hu _]. simpl. unfold counted.
  destruct (decide (off b (te_seq e) = Z.of_nat p /\ te_max e <> 0)) as [[Hoff _]|Hne]; simpl.
  - rewrite decide_True by (by rewrite <-Hoff, seq_at_off). f_equal. lia.
  - rewrite decide_False; [done|]. intros Heq. apply Hne. split; [|done]. rewrite Heq. apply off_seq_at. split; lia.
Qed.

(** A frame still to hand out has a transmission left. *)
Lemma limits_left ms b p k :
  public_ok ms b -> ab_nextIndexToDeliver b <= Z.of_nat p < Z.of_nat (length ms) -> (seq_at b (Z.of_nat p), k) ∈ limits b -> 0 < k.
Proof.
  intros Hpo Hp Hin. pose proof (bo_win _ _ (so_ok _ _ (po_settled _ _ Hpo))) as Hw. pose proof (w_free _ _ Hw).
  pose proof (window_size _ _ Hw). unfold max_slots in *.
  apply list_elem_of_fmap in Hin as (e & [= Hseq ->] & [[Hmax Hni] He]%list_elem_of_filter).
  assert (Hx : exhausted e = false).
  { apply (po_sendable _ _ Hpo); [done| |done]. rewrite <-Hseq, off_seq_at by (split; lia). lia. }
  unfold exhausted in Hx. apply bool_decide_eq_false in Hx. lia.
Qed.

Lemma deliver_refines b r b' :
  public_ok (held b) b -> win_ok (held b) b' -> delivered (held b) b r b' -> window_step (abs b) OpDeliver (Delivered r) (abs b').
Proof.
  intros Hpo Hw' Hd. pose proof (so_ok _ _ (po_settled _ _ Hpo)) as [Hw Hst _ _ Htr _].
  assert (Hfr : b' = deliver_frame b b') by (by destruct Hd).
  assert (Hnum : numbered b' = numbered b).
  { apply numbered_same; [exact (held_win _ _ Hw')|by rewrite Hfr]. }
  assert (Hall : sent b ++ todo b = sent b' ++ todo b').
  { rewrite !sent_todo, Hnum. unfold live_frames. by rewrite Hfr. }
  assert (Hrest : ab_nextSeqNum b' = ab_nextSeqNum b /\ ab_isRunning b' = ab_isRunning b /\ late b' = late b /\
    (forall j, seq_at b' j = seq_at b j) /\ ab_retired b' = ab_retired b) by (by rewrite Hfr).
  assert (Hin : forall x f, x = b \/ x = b' -> f ∈ todo x -> f ∈ numbered b).
  { intros x f Hx Hf. unfold todo, live_frames in Hf. apply list_elem_of_filter in Hf as [_ Hf].
    apply list_elem_of_lookup in Hf as [j Hj]. rewrite lookup_drop in Hj. apply list_elem_of_lookup_2 in Hj.
    destruct Hx as [->| ->]; congruence. }
  unfold abs. destruct Hrest as (-> & -> & -> & Hseq & Hret). unfold mark at 2. rewrite Hseq.
  destruct Hd as [b' _ Hp Hn Hrc _|p a a' m b' _ Hp Hpa Hge Hn Hm Hsq Ha' Hrc]; rewrite Hn.
  - assert (Ht : todo b = []) by (rewrite <-(todo_pending _ _ Hw) in Hp; by apply fmap_nil_inv in Hp).
    assert (Ht' : todo b' = []).
    { assert (Hp' : pending (held b) b' = []) by (apply pending_nil; [done|]; rewrite Hn, Hfr; done).
      rewrite <-(todo_pending _ _ Hw') in Hp'. by apply fmap_nil_inv in Hp'. }
    assert (Hl : limits b' = limits b) by (unfold limits; by rewrite Hrc, Hret).
    rewrite Ht, Ht', !app_nil_r in Hall. rewrite <-Hall, Ht, Ht', Hl, <-(w_next _ _ Hw).
    by apply (ws_idle (Window (sent b) [] (mark b) (ab_nextSeqNum b) (ab_isRunning b) (limits b) (late b))).
  - set (g := fun a => default 0 (SeqNum <$> ab_msgs b !! a)).
    assert (Hg : forall f, f ∈ numbered b -> f.1 = g f.2).
    { intros f (m0 & Hm0 & ->)%(frame_number _ _ _ Hw Hst). unfold g. by rewrite Hm0. }
    rewrite <-(todo_pending _ _ Hw), <-(todo_pending _ _ Hw') in Hp.
    destruct (todo b) as [|[s a0] t] eqn:Ht; [done|]. injection Hp as -> Hp.
    assert (Heq : t = todo b').
    { apply (fmap_snd_inj g); [| |done].
      - intros f Hf. apply Hg, (Hin b); [by left|]. rewrite Ht. by right.
      - intros f Hf. apply Hg, (Hin b'); [by right|done]. }
    subst t. assert (Hsent : sent b' = sent b ++ [(s, a)]).
    { apply (app_inv_tail (todo b')). rewrite <-Hall, <-app_assoc. done. }
    assert (Hs : s = seq_at b (Z.of_nat p)).
    { etrans; [apply (Hg (s, a)), (Hin b); [by left|rewrite Ht; by left]|]. unfold g. simpl. by rewrite Hm. }
    pose proof (lookup_lt_Some _ _ _ Hpa) as Hlt.
    rewrite Hsent, (spend_limits _ _ _ p Hw Htr Hlt Hret Hrc), <-Hs.
    assert (Hmk : seq_at b (Z.of_nat p + 1) = add64 s 1) by (rewrite Hs; unfold seq_at; by rewrite add64_assoc). rewrite Hmk.
    apply (ws_delivered (Window (sent b) ((s, a) :: todo b') _ _ _ _ _) (s, a) (todo b')); simpl; [done| |].
    + intros k Hk. rewrite Hs in Hk. eapply (limits_left (held b) b p); [done|lia|done].
    + assert (Hnil : pending (held b) b' = [] <-> todo b' = []).
      { rewrite <-(todo_pending _ _ Hw'). split; [apply fmap_nil_inv|by intros ->]. }
      destruct Ha' as [(-> & _ & Hor)|(Hr & Hp' & Hfresh & _)]; [rewrite <-Hnil; tauto|].
      rewrite <-Hnil, Hr. split; [congruence|]. intros [?|?]; [done|tauto].
Qed.

(** ** Starting again *)

Lemma reset_slid b i rq A ms1 b1 n b' :
  public_ok (held b) b -> buf_ok ms1 b1 -> settled_ok (drop n ms1) b' -> restarted (held b) b i rq A ms1 b1 n b' ->
  slid n b b' /\ sifts (fun f => f.1 ∉ exhausted_seqs (ab_receipts b)) n b b' /\
    ab_nextSeqNum b' = ab_nextSeqNum b /\ ab_isRunning b' = ab_isRunning b /\
    ab_receipts b' = filter (fun e => Z.of_nat n <= off b (te_seq e)) (ab_receipts b) /\
    late b' = recent (late b ++ numbers (ab_firstSeqNum b) (ab_firstSeqNum b')).
Proof.
  intros Hpo Hok1 Hs' Hrst. pose proof (bo_win _ _ (so_ok _ _ (po_settled _ _ Hpo))) as Hw.
  pose proof (bo_win _ _ (so_ok _ _ Hs')) as Hw'. pose proof (held_win _ _ Hw') as Hh'.
  destruct (restarted_first _ _ _ _ _ _ _ _ _ Hw Hrst) as [Hle Hfirst].
  destruct Hrst as [Hrt (b2 & rd & em & Hhr & ->) Hn Hret].
  destruct (head_late ms1 b1 i rq A n b2 Hok1 Hhr) as [Hlate Hrec].
  destruct (head_slid ms1 b1 i rq A n b2 (bo_win _ _ Hok1) Hh' Hhr) as (_ & _ & Hnext & Hrun & Hiff).
  assert (Hseq : forall j, seq_at b1 j = seq_at b j) by (intros j; unfold seq_at; by rewrite (retires_first _ _ _ _ _ Hrt)).
  set (X := exhausted_seqs (ab_receipts b)) in *. set (b' := b2 <| ab_isReadyToDeliver := rd |> <| ab_isEmpty := em |>) in *.
  assert (Hl1 : length ms1 = length (held b)) by apply (rt_length _ _ _ _ _ Hrt). rewrite Hl1 in Hiff.
  assert (Hin : forall j, (j < length (held b))%nat -> (n <= j)%nat ->
    seq_at b (Z.of_nat j) ∈ ab_retired b' <-> seq_at b (Z.of_nat j) ∈ X \/ seq_at b (Z.of_nat j) ∈ ab_retired b).
  { intros j Hj Hnj. destruct (Hiff j Hj) as [[? _]|[_ Hi]]; [lia|]. rewrite Hseq, Hret in Hi. change (ab_retired b') with (ab_retired b2).
    rewrite Hi. set_solver. }
  assert (Hb1 : ab_nextSeqNum b1 = ab_nextSeqNum b /\ ab_isRunning b1 = ab_isRunning b /\ ab_firstSeqNum b1 = ab_firstSeqNum b /\
    ab_receipts b1 = ab_receipts b /\ late b1 = late b) by (by rewrite (rt_frame _ _ _ _ _ Hrt)).
  destruct Hb1 as (<- & <- & Hf1 & Hr1 & Hl1'). rewrite Hf1, Hl1' in Hlate. rewrite Hr1 in Hrec. unfold off in Hrec. rewrite Hf1 in Hrec.
  split; [|split; [|by split_and!]].
  - split; [done|done|by rewrite Hh', length_drop, Hl1|]. intros j Hni. rewrite Hh', lookup_drop.
    destruct (decide (n + j < length (held b))%nat) as [Hlt|Hge]; [|by rewrite !lookup_ge_None_2 by lia].
    apply (rt_slots _ _ _ _ _ Hrt). rewrite Hin in Hni by lia. change (seq_at (reset_start b)) with (seq_at b). set_solver.
  - intros j f Hj. apply numbered_lookup in Hj as (a & Ha & ->). apply lookup_lt_Some in Ha. simpl. split.
    + intros Hlt [Hx Hr]. destruct (Hiff j Ha) as [[_ Hi]|[? _]]; [|lia]. rewrite Hseq, Hret in Hi. set_solver.
    + intros Hge. specialize (Hin j Ha Hge). simpl in Hin. rewrite Hin. tauto.
Qed.

(** The numbers given up are those without transmissions left. *)
Lemma exhausted_limits b n :
  track_ok b -> n ∉ ab_retired b -> n ∈ exhausted_seqs (ab_receipts b) <-> (n, 0) ∈ limits b.
Proof.
  intros Ht Hn. unfold exhausted_seqs, limits. rewrite elem_of_list_to_set, !list_elem_of_fmap. split.
  - intros (e & -> & [Hx He]%list_elem_of_filter). exists e. destruct (tr_sends _ Ht e He).
    unfold exhausted in Hx. apply bool_decide_unpack in Hx as [? ?]. split; [f_equal; lia|].
    apply list_elem_of_filter. by split_and!.
  - intros (e & [= -> ?] & [[? _] He]%list_elem_of_filter). exists e. split; [done|]. apply list_elem_of_filter.
    split; [|done]. unfold exhausted. apply bool_decide_pack. split; [done|lia].
Qed.

(** A limited frame has one entry. *)
Lemma limits_unique b n k k' : track_ok b -> (n, k) ∈ limits b -> (n, k') ∈ limits b -> k = k'.
Proof.
  intros Ht (e & [= -> ->] & [_ He]%list_elem_of_filter)%list_elem_of_fmap (e' & [= Heq ->] & [_ He']%list_elem_of_filter)%list_elem_of_fmap.
  enough (e = e') as -> by done. pose proof (tr_sorted _ Ht) as Hs. revert He He'. generalize (ab_receipts b) Hs. clear -Heq. intros l Hs.
  induction Hs as [|x l Hs IH Hx]; [by intros ?%not_elem_of_nil|]. rewrite Forall_forall in Hx.
  intros [->|He]%elem_of_cons [->|He']%elem_of_cons; [done|..|by auto].
  - specialize (Hx _ He'). rewrite Heq in Hx. lia.
  - specialize (Hx _ He). rewrite Heq in Hx. lia.
Qed.

Lemma reset_refines b i rq A ms1 b1 n b' :
  public_ok (held b) b -> buf_ok ms1 b1 -> settled_ok (drop n ms1) b' -> restarted (held b) b i rq A ms1 b1 n b' ->
  window_step (abs b) OpReset Silent (abs b').
Proof.
  intros Hpo Hok1 Hs' Hrst. destruct (reset_slid b i rq A ms1 b1 n b') as (Hs & HP & Hnext & Hrun & Hrc & Hlate); [done..|].
  pose proof (so_ok _ _ (po_settled _ _ Hpo)) as [Hw _ _ _ Htr _].
  assert (Hall := slid_prefix _ n b b' (length (numbered b)) Hs HP).
  rewrite (take_ge (numbered b)) in Hall by lia. rewrite take_ge in Hall.
  2:{ rewrite !numbered_length, (sd_length _ _ _ Hs). done. }
  assert (Hsent : sent b' = []) by (unfold sent; rewrite (rst_index _ _ _ _ _ _ _ _ _ Hrst); simpl; by rewrite take_0).
  assert (Htodo : todo b' = filter (fun f => (f.1, 0) ∉ limits b) (sent b ++ todo b)).
  { pose proof (sent_todo b') as Ht. rewrite Hsent in Ht. simpl in Ht. rewrite Ht, Hall, sent_todo. apply list_filter_iff'.
    intros f [Hni _]%list_elem_of_filter. by rewrite (exhausted_limits b f.1 Htr Hni). }
  assert (Hb' : base_of (todo b') (ab_nextSeqNum b) = ab_firstSeqNum b').
  { pose proof (sent_todo b') as Ht. rewrite Hsent in Ht. simpl in Ht. rewrite Ht, <-Hnext.
    apply (base_live (drop n ms1)); [apply (so_ok _ _ Hs')|apply (so_head _ _ Hs')]. }
  assert (Hlim : limits b' = filter (fun p => p.2 <> 0) (limits b)).
  { rewrite (slid_limits (fun x => x ∉ exhausted_seqs (ab_receipts b)) (held b) n b b' Hw Htr Hrc HP). apply list_filter_iff'.
    intros [x k] Hin. simpl. assert (Hni : x ∉ ab_retired b).
    { by apply list_elem_of_fmap in Hin as (e & [= -> _] & [[_ ?] _]%list_elem_of_filter). }
    rewrite (exhausted_limits b x Htr Hni). split; [intros Hz ->; done|]. intros Hk Hz. by rewrite (limits_unique b x k 0 Htr Hin Hz) in Hk. }
  assert (Habs : abs b' = reset_window (abs b)); [|rewrite Habs; apply ws_reset].
  unfold abs at 1, reset_window. rewrite base_abs by done. unfold wn_frames. simpl. rewrite Hsent, <-Htodo, Hb', Hnext, Hrun, Hlim, Hlate.
  f_equal. unfold mark. rewrite (rst_index _ _ _ _ _ _ _ _ _ Hrst). apply seq_at_0, (bo_win _ _ (so_ok _ _ Hs')).
Qed.

(** ** The other operations *)

Lemma abs_same b b' :
  held b' = held b -> ab_firstSeqNum b' = ab_firstSeqNum b -> ab_retired b' = ab_retired b ->
  ab_nextIndexToDeliver b' = ab_nextIndexToDeliver b -> ab_nextSeqNum b' = ab_nextSeqNum b ->
  ab_receipts b' = ab_receipts b -> ab_releasedRetired b' = ab_releasedRetired b ->
  abs b' = Window (sent b) (todo b) (mark b) (ab_nextSeqNum b) (ab_isRunning b') (limits b) (late b).
Proof.
  intros Hh Hf Hr Hn Hs Hrc Hrr. unfold abs, sent, todo, live_frames, mark, seq_at, limits, late.
  by rewrite (numbered_same b b' Hh Hf), Hf, Hr, Hn, Hs, Hrc, Hrr.
Qed.

Lemma public_held ms b : public_ok ms b -> held b = ms.
Proof. intros Hpo. exact (held_win _ _ (bo_win _ _ (so_ok _ _ (po_settled _ _ Hpo)))). Qed.

Lemma sampleWake_abs b c b' : sampleWake b = (c, b') -> abs b' = abs b.
Proof. unfold sampleWake. destruct (ab_wake b); by intros [= <- <-]. Qed.

Lemma added_abs b e size receipt maxT x :
  ok b -> public_ok (held b ++ [e]) (added (held b) e size receipt maxT x b) -> ab_isRunning b = true ->
  abs (added (held b) e size receipt maxT x b) =
    Window (sent b) (todo b ++ [(ab_nextSeqNum b, e)]) (mark b) (add64 (ab_nextSeqNum b) 1) true
      (limits b ++ limit_of (ab_nextSeqNum b) receipt maxT) (late b).
Proof.
  intros Hok Hpub Hrun. set (b' := added (held b) e size receipt maxT x b) in *. pose proof (public_held _ _ Hpub) as Hh'.
  assert (Hfields : ab_firstSeqNum b' = ab_firstSeqNum b /\ ab_retired b' = ab_retired b /\
    ab_nextIndexToDeliver b' = ab_nextIndexToDeliver b /\ ab_nextSeqNum b' = add64 (ab_nextSeqNum b) 1 /\ ab_isRunning b' = ab_isRunning b /\
    ab_releasedRetired b' = ab_releasedRetired b /\
    ab_receipts b' = ab_receipts b ++ match receipt with
      | Some c => [TrackedAdmission (ab_next b) (ab_nextSeqNum b) c maxT 0] | None => [] end).
  { unfold b', added. destruct receipt; split_and!; try done. simpl. by rewrite app_nil_r. }
  destruct Hfields as (F1 & F2 & F3 & F4 & F5 & F6 & F7). pose proof (bo_win _ _ (so_ok _ _ (po_settled _ _ Hok))) as Hw.
  pose proof (bo_retired _ _ (so_ok _ _ (po_settled _ _ Hok))) as Hre. pose proof (w_len _ _ Hw) as Hlen. unfold max_slots in Hlen.
  pose proof (w_free _ _ Hw) as Hf. pose proof (w_deliver _ _ Hw) as Hd.
  assert (Hnum : numbered b' = numbered b ++ [(ab_nextSeqNum b, e)]).
  { unfold numbered. rewrite Hh', imap_app. simpl. unfold seq_at. rewrite F1. do 3 f_equal.
    rewrite (w_next _ _ Hw), Hf. unfold seq_at. f_equal. lia. }
  assert (Hnew : ab_nextSeqNum b ∉ ab_retired b).
  { intros [_ Hoff]%(re_window _ Hre). rewrite (w_next _ _ Hw), off_seq_at in Hoff by (split; lia). lia. }
  assert (Hsent : sent b' = sent b).
  { unfold sent, live_frames. rewrite Hnum, F2, F3. by rewrite take_app_le by (rewrite numbered_length; lia). }
  assert (Htodo : todo b' = todo b ++ [(ab_nextSeqNum b, e)]).
  { unfold todo, live_frames. rewrite Hnum, F2, F3. rewrite drop_app_le by (rewrite numbered_length; lia).
    rewrite filter_app. f_equal. by rewrite filter_cons_True. }
  assert (Hlim : limits b' = limits b ++ limit_of (ab_nextSeqNum b) receipt maxT).
  { unfold limits. rewrite F2, F7, filter_app, fmap_app. f_equal. unfold limit_of. destruct receipt as [c|]; [|by rewrite decide_False by tauto].
    destruct (decide (maxT = 0)) as [->|Hm].
    - rewrite decide_False by tauto. rewrite filter_cons_False by (simpl; tauto). done.
    - rewrite decide_True by done. rewrite filter_cons_True by done. simpl. by rewrite Z.sub_0_r. }
  unfold abs, mark, seq_at, late. by rewrite Hsent, Htodo, Hlim, F1, F3, F4, F5, F6, Hrun.
Qed.

Lemma drain_refines b done r b' :
  ok b -> drain_post (held b) b done r b' -> window_step (abs b) (OpDrain done) (Drained r) (abs b').
Proof.
  intros Hok Hd. pose proof (so_ok _ _ (po_settled _ _ Hok)) as [Hw Hst _ _ _ _]. pose proof (frames_live _ _ Hw) as Hl.
  change (sent b ++ todo b) with (wn_frames (abs b)) in Hl. pose proof (frames_nil b Hok) as Hnil. rewrite (w_free _ _ Hw) in Hnil.
  assert (Hnum : forall f m, f ∈ wn_frames (abs b) -> ab_msgs b !! f.2 = Some m -> f.1 = SeqNum m).
  { intros f m Hf Hm. rewrite frames_abs in Hf. apply list_elem_of_filter in Hf as [_ Hf].
    destruct (frame_number _ _ _ Hw Hst Hf) as (m' & ? & ->). congruence. }
  destruct Hd as [Hz|e a1 a2 m1 m2 Hh Hla Hm1 Hm2 Hn Hf1 Hf2 _ _|wake b1 Hne Hor Hwk].
  - apply ws_drained. apply Hnil. by rewrite Hz.
  - rewrite <-Hl, fmap_last in Hla. rewrite <-Hl, length_fmap in Hn. rewrite <-Hl in Hh.
    destruct (wn_frames (abs b)) as [|f1 fs] eqn:E1; [done|]. rewrite <-E1 in *. destruct (last (wn_frames (abs b))) as [f2|] eqn:E2; [|done].
    assert (Hhd : head (wn_frames (abs b)) = Some f1) by (by rewrite E1). rewrite E1 in Hh.
    injection Hh as <-. injection Hla as <-. apply (ws_drain_failed _ _ _ f1 f2); [done|done|..|done].
    + rewrite Hf1. symmetry. apply Hnum; [|done]. by apply head_Some_elem_of.
    + rewrite Hf2. symmetry. apply Hnum; [|done]. by apply last_Some_elem_of.
  - rewrite (sampleWake_abs _ _ _ Hwk). apply orb_false_iff in Hor as [_ ->]. apply ws_drain_wait. rewrite Hnil.
    destruct (held b); [done|simpl; lia].
Qed.

Lemma post_refines i calls A b o r b' : ok b -> op_post i calls A b o r b' -> window_step (abs b) o r (abs b').
Proof.
  intros Hok Hpost. destruct Hpost as [m|e size waiter receipt maxT Hr|e size waiter receipt maxT s c b' Hr _ Hs|
    e size waiter receipt maxT x Hr _ Hpub|w s|seq r b' Hu Ha|r b' Hs Hd|ms1 b1 n b' Hs Hrst Hok1| |cap len av Hne Hpub|Hpub|
    done r b' Hd|s Hpub|].
  - apply ws_alloc.
  - by apply ws_refused.
  - rewrite (sampleWake_abs _ _ _ Hs). by apply ws_blocked.
  - rewrite (added_abs b e size receipt maxT x) by done. by apply (ws_added (abs b)).
  - apply ws_cancel.
  - by eapply ack_refines.
  - apply deliver_refines; [done|by apply Hs|done].
  - by eapply reset_refines.
  - apply ws_flow.
  - rewrite (abs_same b _ (public_held _ _ Hpub)) by done. apply ws_flow.
  - rewrite (abs_same b _ (public_held _ _ Hpub)) by done. apply ws_seal.
  - by apply drain_refines.
  - rewrite (abs_same b _ (public_held _ _ Hpub)) by done. apply ws_close.
  - apply ws_forget.
Qed.
End window.
