(* ===== verification/AckFlags.v ===== *)
(** * The ACK request a blocked client waits for

    The buffer remembers the number of the last message it flagged.  While that
    number is in the window, a live frame with this number asks for an
    acknowledgement ([flags_ok]).  The operations that do not close the wake
    channel leave a refused caller no better off ([calm]). *)

From S2P Require Import Prelude ByteBudget Event Protocol SharedBudget AckBuffer AckInv AckRemove AckReceipts AckRetire AckDeliver AckAdmit AckMethods AckFleet AckWindow.

Section flags.
Context {B : Type} `{HB : LenientLaws B}.
Implicit Types (b : AckBuffer B).

(** The numbers have not reached 2^64. *)
Definition numbers_ok b : Prop := 1 <= ab_firstSeqNum b /\ ab_firstSeqNum b + ab_nextIndexFree b < W64.

Definition number_guard (o : op) b : bool :=
  match o with OpAdd _ _ _ _ _ => bool_decide (ab_firstSeqNum b + ab_nextIndexFree b + 1 < W64) | _ => true end.

(** A live frame carries the last flag. *)
Definition request_held b : Prop :=
  exists j a m, held b !! j = Some a /\ seq_at b (Z.of_nat j) = ab_lastFlaggedSeq b /\ (ab_lastFlaggedSeq b ∉ ab_retired b) /\
    ab_msgs b !! a = Some m /\ AckRequested m = true.

Record flags_ok b : Prop := {
  fk_numbers : numbers_ok b;
  fk_held : heldFlagged b = true -> request_held b;
}.

Lemma heldFlagged_true b : heldFlagged b = true <-> ab_lastFlaggedSeq b <> 0 /\ ab_firstSeqNum b <= ab_lastFlaggedSeq b.
Proof. unfold heldFlagged. rewrite bool_decide_eq_true. split; intros [? ?]; (split; [done|lia]). Qed.

Lemma ok_free b : ok b -> ab_nextIndexFree b = Z.of_nat (length (held b)).
Proof. intros Hok. apply (w_free _ _ (bo_win _ _ (so_ok _ _ (po_settled _ _ Hok)))). Qed.

Lemma numbers_seq b j : numbers_ok b -> 0 <= j <= ab_nextIndexFree b -> seq_at b j = ab_firstSeqNum b + j.
Proof. intros [? ?] ?. unfold seq_at. apply add64_small; lia. Qed.

(** ** A window that slides *)

Lemma slid_numbers k b b' : ok b -> ok b' -> numbers_ok b -> slid k b b' ->
  numbers_ok b' /\ ab_firstSeqNum b' = ab_firstSeqNum b + Z.of_nat k.
Proof.
  intros Hok Hok' Hn Hs. pose proof (ok_free b Hok) as Hf. pose proof (ok_free b' Hok') as Hf'.
  pose proof (sd_le _ _ _ Hs). rewrite (sd_length _ _ _ Hs) in Hf'.
  assert (Hfirst : ab_firstSeqNum b' = ab_firstSeqNum b + Z.of_nat k).
  { rewrite (sd_first _ _ _ Hs). apply numbers_seq; [done|lia]. }
  split; [|done]. destruct Hn. split; lia.
Qed.

(** The flagged frame moves with the window or leaves with its head. *)
Lemma slid_flags k b b' :
  ok b -> ok b' -> slid k b b' -> flags_ok b ->
  (ab_lastFlaggedSeq b' = 0 \/ ab_lastFlaggedSeq b' = ab_lastFlaggedSeq b /\
    (ab_lastFlaggedSeq b ∉ ab_retired b -> ab_lastFlaggedSeq b ∉ ab_retired b')) ->
  (forall a m, a ∈ held b -> ab_msgs b !! a = Some m -> ab_msgs b' !! a = Some m) -> flags_ok b'.
Proof.
  intros Hok Hok' Hs [Hn Hh] HL Hm. destruct (slid_numbers k b b' Hok Hok' Hn Hs) as [Hn' Hfirst].
  split; [done|]. intros [Hz Hge]%heldFlagged_true. destruct HL as [?|[HL Hret]]; [done|]. rewrite HL in *.
  destruct Hh as (j & a & m & Ha & Hj & Hr & Hma & Hack). { apply heldFlagged_true. split; [done|lia]. }
  pose proof (lookup_lt_Some _ _ _ Ha). pose proof (ok_free b Hok) as Hf.
  assert (Hkj : (k <= j)%nat). { rewrite (numbers_seq b _ Hn) in Hj by lia. lia. }
  exists (j - k)%nat, a, m. rewrite HL. specialize (Hret Hr). split_and!; [| |done| |done].
  - rewrite (sd_slot _ _ _ Hs); [by replace (k + (j - k))%nat with j by lia|].
    replace (k + (j - k))%nat with j by lia. by rewrite Hj.
  - rewrite (slid_seq k b b' _ Hs). by replace (k + (j - k))%nat with j by lia.
  - apply Hm; [by eapply list_elem_of_lookup_2|done].
Qed.

Lemma same_slid b b' : ok b -> held b' = held b -> ab_firstSeqNum b' = ab_firstSeqNum b -> slid 0 b b'.
Proof.
  intros Hok Hh Hf. split; rewrite ?Hh; [lia| |lia|done]. rewrite Hf. symmetry. apply seq_at_0.
  apply (so_ok _ _ (po_settled _ _ Hok)).
Qed.

(** Operations that keep the window, its numbers and its messages. *)
Lemma same_flags b b' :
  ok b -> ok b' -> held b' = held b -> ab_firstSeqNum b' = ab_firstSeqNum b -> ab_lastFlaggedSeq b' = ab_lastFlaggedSeq b ->
  ab_retired b' = ab_retired b -> (forall a m, a ∈ held b -> ab_msgs b !! a = Some m -> ab_msgs b' !! a = Some m) ->
  flags_ok b -> flags_ok b'.
Proof.
  intros Hok Hok' Hh Hf HL Hr Hm Hfl. apply (slid_flags 0 b b'); try done; [by apply same_slid|]. right. by rewrite Hr.
Qed.

Lemma head_fields ms b i rq A n b' :
  head_released ms b i rq A n b' -> ab_lastFlaggedSeq b' = ab_lastFlaggedSeq b /\ ab_msgs b' = ab_msgs b /\ ab_retired b' ⊆ ab_retired b.
Proof. intros [|n' r ring _ _ _ _]; [done|]. split_and!; [done|done|]. simpl. intros x [_ ?]%elem_of_filter. done. Qed.

Lemma ack_flags seq i calls A b r b' :
  ok b -> ok b' -> is_u64 seq -> ack_post (held b) seq i calls A b r b' -> flags_ok b -> flags_ok b'.
Proof.
  intros Hok Hok' Hu Hpost Hfl. revert Hok'. destruct Hpost as [ring|e|r' n b1 k Hc Hlt Hres Hok1 Hhr Hpub _]; intros Hok'; [done..|].
  destruct (ack_slid (held b) seq i calls A b r' n b1) as (Hs & _); [done..|].
  destruct (head_fields _ _ _ _ _ _ _ Hhr) as (HL & Hm & Hr). apply (slid_flags _ b b1 Hok Hok' Hs Hfl).
  - right. split; [done|]. intros Hn Hin. apply Hn. apply Hr in Hin. simpl in Hin. by apply elem_of_filter in Hin as [_ ?].
  - intros a m _ Ha. rewrite Hm. exact Ha.
Qed.

Lemma reset_flags_ok i calls A b ms1 b1 n b' :
  ok b -> ok b' -> settled_ok (drop n ms1) b' -> restarted (held b) b i calls A ms1 b1 n b' -> buf_ok ms1 b1 -> flags_ok b -> flags_ok b'.
Proof.
  intros Hok Hok' Hs' Hrst Hok1 Hfl. destruct (reset_slid b i calls A ms1 b1 n b') as (Hs & _); [done..|].
  destruct Hrst as [Hrt (b2 & rd & em & Hhr & ->) _ Hret]. destruct (head_fields _ _ _ _ _ _ _ Hhr) as (HL & Hm & Hr).
  pose proof (rt_flagged _ _ _ _ _ Hrt) as Hf. change (ab_lastFlaggedSeq (reset_start b)) with (ab_lastFlaggedSeq b) in Hf.
  apply (slid_flags n b _ Hok Hok' Hs Hfl); simpl.
  - rewrite HL, Hf. case_decide as Hin; [by left|right]. split; [done|]. intros Hn Hin'. apply Hr in Hin'. rewrite Hret in Hin'. set_solver.
  - intros a m _ Ha. rewrite Hm. by apply (rt_msgs _ _ _ _ _ Hrt).
Qed.

(** A flagged message becomes the last flagged frame. *)
Lemma added_flags e size waiter receipt maxT i calls A b m x forced step :
  ok b -> numbers_ok b -> ab_firstSeqNum b + ab_nextIndexFree b + 1 < W64 -> ab_msgs b !! e = Some m -> (e ∉ held b) ->
  slot_ok x size waiter forced step i calls A b -> public_ok (held b ++ [e]) (added (held b) e size receipt maxT x b) ->
  flags_ok b -> flags_ok (added (held b) e size receipt maxT x b).
Proof.
  intros Hok Hn Hroom Hm Hne Hx Hpub Hfl. set (b' := added (held b) e size receipt maxT x b) in *.
  pose proof (public_held _ _ Hpub) as Hh'. pose proof (ok_free b Hok) as Hf.
  pose proof (bo_win _ _ (so_ok _ _ (po_settled _ _ Hok))) as Hw.
  assert (Hfields : ab_firstSeqNum b' = ab_firstSeqNum b /\ ab_retired b' = ab_retired b /\
    ab_nextIndexFree b' = ab_nextIndexFree b + 1 /\ ab_msgs b' = <[e := sl_msg x]> (ab_msgs b) /\ ab_lastFlaggedSeq b' = sl_lastFlagged x).
  { unfold b', added. by destruct receipt. }
  destruct Hfields as (F1 & F2 & F3 & F4 & F5). split; [split; rewrite ?F1, ?F3; destruct Hn; lia|].
  intros [Hz Hge]%heldFlagged_true. unfold request_held. rewrite Hh', F2, F4.
  assert (Hseq : forall j, seq_at b' j = seq_at b j) by (intros j; unfold seq_at; by rewrite F1).
  pose proof (so_lastFlagged _ _ _ _ _ _ _ _ _ Hx) as HL. destruct (AckRequested (sl_msg x)) eqn:Hack.
  - exists (length (held b)), e, (sl_msg x). rewrite F5, HL, Hseq, <-Hf, <-(w_next _ _ Hw).
    split_and!; [by apply list_lookup_middle|done| |by rewrite lookup_insert_eq|done].
    intros [_ Hoff]%(re_window _ (bo_retired _ _ (so_ok _ _ (po_settled _ _ Hok)))).
    rewrite (w_next _ _ Hw), off_seq_at in Hoff by (destruct Hn; split; lia). lia.
  - rewrite F1, F5, HL in *. destruct (fk_held _ Hfl) as (j & a & m' & Ha & Hj & Hr & Hma & Hack'); [by apply heldFlagged_true|].
    exists j, a, m'. rewrite Hseq. split_and!; [by apply lookup_app_l_Some|done|done| |done].
    rewrite lookup_insert_ne; [done|]. intros <-. apply Hne. by eapply list_elem_of_lookup_2.
Qed.

Lemma sampleWake_fields b c b' : sampleWake b = (c, b') ->
  b' = b <| ab_chans := ab_chans b' |> <| ab_wake := ab_wake b' |> <| ab_next := ab_next b' |>.
Proof. unfold sampleWake. destruct (ab_wake b); by intros [= <- <-]. Qed.

Lemma deliver_msgs b r b' a m : delivered (held b) b r b' -> ab_msgs b !! a = Some m -> ab_msgs b' !! a = Some m.
Proof.
  intros [b1 _ _ _ _ ->|p a0 a' m0 b1 _ _ _ _ _ _ _ Ha' _] Hm; [done|]. destruct Ha' as [(_ & -> & _)|(_ & _ & Hn & ->)]; [done|].
  rewrite lookup_insert_ne; [done|congruence].
Qed.

(** One turn of an admission. *)
Lemma turn_flags e size waiter receipt maxT i calls A b r w' b' :
  ok b -> ok b' -> ab_firstSeqNum b + ab_nextIndexFree b + 1 < W64 \/ ab_isRunning b = false ->
  turn_post e size waiter receipt maxT i calls A b r w' b' -> flags_ok b -> flags_ok b'.
Proof.
  intros Hok Hok' Hroom Hpost Hfl. revert Hok'.
  destruct Hpost as [Hrun|w1 s c b1 Hrun _ _ _ Hs|m x forced step Hrun Hm Hne Hx Hmsg Hpub]; intros Hok'; [done|..].
  - pose proof (sampleWake_fields _ _ _ Hs) as Hb. by apply (same_flags b); try done; rewrite Hb.
  - destruct Hroom as [?|?]; [|congruence]. by eapply added_flags; try done; apply Hfl.
Qed.

Lemma op_flags o i calls A b r calls' b' :
  ok b -> own i calls A b -> op_guard o calls (<[i := acct calls b]> A) b = true -> number_guard o b = true ->
  run_op o calls b = Some (r, calls', b') -> flags_ok b -> flags_ok b'.
Proof.
  intros Hok Ho Hg Hng Hrun Hfl. destruct (run_op_good o i calls A b Hok Ho Hg) as (r1 & c1 & b1 & Hr & Hpost & Hok' & _).
  rewrite Hrun in Hr. injection Hr as <- <- <-. destruct o as [m|e size waiter receipt maxT|w|seq| | |cap| |done| |].
  2:{ destruct (add_turn_spec e size waiter receipt maxT i calls A b) as (r1 & w' & b1 & Ht & Htp & _);
        [done|done|intros w; exact (guard_waiter _ _ _ _ _ _ _ _ w Hg)|done|].
      cbn [run_op] in Hrun. rewrite Ht, bind_ret in Hrun. injection Hrun as <- <- <-.
      apply (turn_flags e size waiter receipt maxT i calls A b r1 w'); [done|done| |done|done]. left. by apply bool_decide_eq_true in Hng. }
  all: inversion Hpost; subst.
  - apply (same_flags b); try done. intros a m' _ Ha. simpl. rewrite lookup_insert_ne; [done|]. intros <-.
    destruct (Nat.lt_irrefl (ab_next b)). apply (st_fresh_m _ _ (bo_store _ _ (so_ok _ _ (po_settled _ _ Hok)))). by eexists.
  - by apply (same_flags b).
  - by eapply (ack_flags _ i calls A b).
  - match goal with Hd : delivered _ _ _ _ |- _ =>
      assert (Hfr : b' = deliver_frame b b') by (by destruct Hd); pose proof (fun a m => deliver_msgs b _ b' a m Hd) as Hms end.
    apply (same_flags b); try done; try (by rewrite Hfr); by auto.
  - by eapply (reset_flags_ok i calls A b).
  - done.
  - apply (same_flags b); try done. by eapply public_held.
  - by apply (same_flags b).
  - match goal with Hd : drain_post _ _ _ _ _ |- _ => destruct Hd as [| |wake b' _ _ Hw]; [done..|] end.
    pose proof (sampleWake_fields _ _ _ Hw) as Hb. by apply (same_flags b); try done; rewrite Hb.
  - by apply (same_flags b).
  - by apply (same_flags b).
Qed.

(** ** Wake-ups *)

Lemma woken_kept b c : ab_chans b !! c = Some true -> woken b !! c = Some true.
Proof.
  intros Hc. unfold woken. destruct (ab_wake b) as [c'|]; [|done]. destruct (decide (c = c')) as [->|Hne].
  - apply lookup_insert_eq.
  - by rewrite lookup_insert_ne.
Qed.

Lemma head_chans ms b i rq A n b' c : head_released ms b i rq A n b' -> ab_chans b !! c = Some true -> ab_chans b' !! c = Some true.
Proof. intros [|n' r ring _ _ _ _] Hc; [done|]. exact (woken_kept b c Hc). Qed.

Lemma head_wake ms b i rq A n b' c :
  head_released ms b i rq A n b' -> ab_wake b = Some c -> ab_wake b' = Some c \/ ab_chans b' !! c = Some true.
Proof. intros [|n' r ring _ _ _ _] Hc; [by left|]. right. exact (woken_closed b c Hc). Qed.

Lemma sampleWake_kept b c c' b' : ab_wake b = Some c -> sampleWake b = (c', b') -> ab_wake b' = Some c.
Proof. intros Hc. unfold sampleWake. rewrite Hc. by intros [= _ <-]. Qed.

(** What a caller refused in [b] finds in [b']: no more room than before. *)
Record calm b b' : Prop := {
  cm_running : ab_isRunning b' = ab_isRunning b;
  cm_capacity : ab_currentCapacity b' = ab_currentCapacity b;
  cm_free : ab_nextIndexFree b <= ab_nextIndexFree b';
  cm_accounting : ab_accounting b' = ab_accounting b;
  cm_max : ab_maxBytes b' = ab_maxBytes b;
  cm_bytes : ab_bytes b <= ab_bytes b';
  cm_present : sb_present (ab_shared b') = sb_present (ab_shared b);
  cm_held : heldFlagged b = true -> heldFlagged b' = true;
}.

Lemma refusal_calm size w b b' : calm b b' -> refusal size w b -> refusal size w b'.
Proof.
  intros [? Hc Hf Ha Hm Hb Hp Hh] [?|(? & ? & Hw)]; [left; lia|right]. rewrite Ha. split_and!; [done|by apply Hh|].
  destruct w; [congruence|]. rewrite Hm. split; [apply Hw|lia].
Qed.

Lemma calm_frame b b' :
  ab_isRunning b' = ab_isRunning b -> ab_currentCapacity b' = ab_currentCapacity b -> ab_nextIndexFree b' = ab_nextIndexFree b ->
  ab_accounting b' = ab_accounting b -> ab_maxBytes b' = ab_maxBytes b -> ab_bytes b' = ab_bytes b ->
  sb_present (ab_shared b') = sb_present (ab_shared b) ->
  ab_lastFlaggedSeq b' = ab_lastFlaggedSeq b -> ab_firstSeqNum b' = ab_firstSeqNum b -> calm b b'.
Proof. intros ??????? HL HF. split; try done; [lia|lia|]. by rewrite !heldFlagged_true, HL, HF. Qed.

Lemma added_calm e size waiter receipt maxT i calls A b x forced step :
  ok b -> numbers_ok b -> 0 <= size -> slot_ok x size waiter forced step i calls A b ->
  calm b (added (held b) e size receipt maxT x b).
Proof.
  intros Hok Hn Hsz Hx. set (b' := added (held b) e size receipt maxT x b).
  assert (Hfields : (ab_isRunning b' = ab_isRunning b /\ ab_currentCapacity b' = ab_currentCapacity b) /\
    ab_nextIndexFree b' = ab_nextIndexFree b + 1 /\ ab_accounting b' = ab_accounting b /\ ab_maxBytes b' = ab_maxBytes b /\
    ab_bytes b' = (if ab_accounting b then ab_bytes b + size else ab_bytes b) /\ ab_shared b' = sl_shared x /\
    ab_lastFlaggedSeq b' = sl_lastFlagged x /\ ab_firstSeqNum b' = ab_firstSeqNum b).
  { unfold b', added. by destruct receipt. }
  destruct Hfields as ([? ?] & F1 & ? & ? & F2 & F3 & F4 & F5). split; try done; [lia|rewrite F2; destruct (ab_accounting b); lia| |].
  - rewrite F3. destruct (so_admitted _ _ _ _ _ _ _ _ _ Hx) as [[_ Had]|(_ & _ & _ & -> & _)]; [|done]. apply Had.
  - rewrite !heldFlagged_true, F4, F5, (so_lastFlagged _ _ _ _ _ _ _ _ _ Hx). intros [? ?].
    destruct (AckRequested (sl_msg x)); [|done].
    rewrite (w_next _ _ (bo_win _ _ (so_ok _ _ (po_settled _ _ Hok)))), numbers_seq; [|done|rewrite (ok_free b Hok); lia].
    pose proof (ok_free b Hok). destruct Hn. lia.
Qed.

Lemma sampleWake_calm b s c b' :
  sb_present s = sb_present (ab_shared b) -> sampleWake (b <| ab_shared := s |>) = (c, b') -> calm b b'.
Proof. intros Hp Hs. apply sampleWake_fields in Hs. by apply calm_frame; rewrite Hs. Qed.

(** The sampled channel is closed, or stays and nothing got better. *)
Definition still (c : chan) b b' : Prop := ab_chans b' !! c = Some true \/ (ab_wake b' = Some c /\ calm b b').

Lemma ack_still seq i calls A b r b' c :
  ack_post (held b) seq i calls A b r b' -> ab_wake b = Some c -> still c b b'.
Proof.
  intros [ring|e|r' n b1 k _ _ _ _ Hhr _ _] Hc; [right; split; [done|by apply calm_frame]..|].
  left. apply (head_chans _ _ _ _ _ _ _ c Hhr). by apply woken_closed.
Qed.

Lemma reset_still i calls A b ms1 b1 n b' c :
  restarted (held b) b i calls A ms1 b1 n b' -> ab_wake b = Some c -> still c b b'.
Proof.
  intros [Hrt (b2 & rd & em & Hhr & ->) _ _] Hc. unfold still. simpl.
  destruct (rt_quiet _ _ _ _ _ Hrt) as [[_ ->]|[_ Hnone]].
  - destruct Hhr as [|n r ring _ _ _ _]; [right; split; [done|by apply calm_frame]|]. left. by apply woken_closed.
  - left. apply (head_chans _ _ _ _ _ _ _ c Hhr). destruct (rt_wake _ _ _ _ _ Hrt c Hc); [congruence|done].
Qed.

Lemma turn_still e size waiter receipt maxT i calls A b r w' b' c :
  ok b -> numbers_ok b -> (ab_isRunning b = true -> 0 <= size) -> turn_post e size waiter receipt maxT i calls A b r w' b' ->
  ab_wake b = Some c -> still c b b'.
Proof.
  intros Hok Hn Hsz Htp Hc. right.
  destruct Htp as [|w1 s c1 b1 _ _ Hps _ Hs|m x forced step Hrun _ _ Hx _ _]; [split; [done|by apply calm_frame]|..].
  - split; [eapply (sampleWake_kept (b <| ab_shared := s |>)); [exact Hc|exact Hs]|by eapply sampleWake_calm].
  - split; [unfold added; by destruct receipt|]. eapply added_calm; try done. by apply Hsz.
Qed.

Lemma op_still o i calls A b r calls' b' c :
  ok b -> own i calls A b -> op_guard o calls (<[i := acct calls b]> A) b = true -> numbers_ok b ->
  run_op o calls b = Some (r, calls', b') -> ab_wake b = Some c -> still c b b'.
Proof.
  intros Hok Ho Hg Hn Hrun Hc. destruct (run_op_good o i calls A b Hok Ho Hg) as (r1 & c1 & b1 & Hr & Hpost & Hok' & _ & Hp).
  rewrite Hrun in Hr. injection Hr as <- <- <-. destruct o as [m|e size waiter receipt maxT|w|seq| | |cap| |done| |].
  2:{ destruct (add_turn_spec e size waiter receipt maxT i calls A b) as (r1 & w' & b1 & Ht & Htp & _);
        [done|done|intros w; exact (guard_waiter _ _ _ _ _ _ _ _ w Hg)|done|].
      cbn [run_op] in Hrun. rewrite Ht, bind_ret in Hrun. injection Hrun as <- <- <-.
      eapply turn_still; [done|done| |done|done]. intros Hr. by destruct (guard_add _ _ _ _ _ _ _ _ _ Hok Hg Hr) as (_ & _ & ? & _). }
  all: inversion Hpost; subst; try (left; by apply woken_closed).
  - right. split; [done|by apply calm_frame].
  - right. split; [done|by apply calm_frame].
  - by eapply ack_still.
  - right. match goal with Hd : delivered _ _ _ _ |- _ => assert (Hfr : b' = deliver_frame b b') by (by destruct Hd) end.
    split; [by rewrite Hfr|apply calm_frame; by rewrite Hfr].
  - by eapply reset_still.
  - right. split; [done|by apply calm_frame].
  - right. match goal with Hd : drain_post _ _ _ _ _ |- _ => destruct Hd as [| |wake b' _ _ Hw] end;
      [split; [done|by apply calm_frame]..|]. split; [by eapply sampleWake_kept|].
    apply (sampleWake_calm b (ab_shared b) wake); [done|exact Hw].
  - right. split; [done|by apply calm_frame].
Qed.

(** A closed channel stays closed. *)
Lemma sampleWake_closed b c b' c0 :
  store_ok (held b) b -> sampleWake b = (c, b') -> ab_chans b !! c0 = Some true -> ab_chans b' !! c0 = Some true.
Proof.
  intros Hst. unfold sampleWake. destruct (ab_wake b); intros [= <- <-] Hc; [done|]. simpl. rewrite lookup_insert_ne; [done|].
  intros <-. destruct (Nat.lt_irrefl (ab_next b)). apply (st_fresh_c _ _ Hst). by eexists.
Qed.

Lemma turn_closed_chan e size waiter receipt maxT i calls A b r w' b' c :
  ok b -> turn_post e size waiter receipt maxT i calls A b r w' b' -> ab_chans b !! c = Some true -> ab_chans b' !! c = Some true.
Proof.
  intros Hok [|w1 s c1 b1 _ _ _ _ Hs|m x forced step _ _ _ _ _ _] Hc; [done| |unfold added; by destruct receipt].
  eapply (sampleWake_closed (b <| ab_shared := s |>)); [|exact Hs|exact Hc].
  pose proof (bo_store _ _ (so_ok _ _ (po_settled _ _ Hok))) as Hst. frame Hst.
Qed.

Lemma op_closed o i calls A b r calls' b' c :
  ok b -> own i calls A b -> op_guard o calls (<[i := acct calls b]> A) b = true ->
  run_op o calls b = Some (r, calls', b') -> ab_chans b !! c = Some true -> ab_chans b' !! c = Some true.
Proof.
  intros Hok Ho Hg Hrun Hc. pose proof (woken_kept b c Hc) as Hwk. pose proof (bo_store _ _ (so_ok _ _ (po_settled _ _ Hok))) as Hst.
  destruct (run_op_post o i calls A b r calls' b' Hok Ho Hg Hrun) as [m|?????|????? s c' b' _ Hpub Hs|????? x _ _ _|w s|
    seq r b' Hu Ha|r b' Hs Hd|ms1 b1 n b' Hs Hrst Hok1| |cap len av Hne Hpub|Hpub|done r b' Hd|s Hpub|]; first [exact Hc|exact Hwk|idtac].
  - eapply (sampleWake_closed (b <| ab_shared := s |>)); [|exact Hs|exact Hc]. frame Hst.
  - unfold added. by destruct receipt.
  - destruct Ha as [| |r' n b' k _ _ _ _ Hhr _ _]; [done..|]. by eapply head_chans.
  - by destruct Hd as [b' Hfr|p a a' m b' Hfr]; rewrite Hfr.
  - destruct Hrst as [Hrt (b2 & rd & em & Hhr & ->) _ _]. simpl. eapply head_chans; [done|]. by apply (rt_closed _ _ _ _ _ Hrt).
  - destruct Hd as [| |wake b' _ _ Hw]; [done..|]. by eapply sampleWake_closed.
Qed.
End flags.
