(* ===== verification/AckExample.v ===== *)
(** * A fleet for the examples

    Two clients of one fair budget after a short history, with the facts that
    make it an instance of the properties. *)

From S2P Require Import Prelude ByteBudget BudgetSpec Event Protocol SharedBudget AckBuffer AckInv AckFleet.

(** The first one holds three frames: two are
    handed out, the second is limited to one transmission; it has an ACK request
    pending and a call waits for it.  The second client holds one frame. *)

Definition a_message : DataMessage := MkDataMessage 0 false "line" None "" [] [] "" 1 "" "" "" "".

Definition a_budget : ByteBudget :=
  default (NewByteBudget 0) (NewFairByteBudget 8192 (MkFairByteBudgetOptions 1024 512)).

Definition joined (i : nat) (key : string) (F : fleet (option ByteBudget)) : fleet (option ByteBudget) :=
  match fleet_join i 0 key F with Some (inr F) => F | _ => F end.

Definition a_start : fleet (option ByteBudget) := joined 1 "tenant-b" (joined 0 "tenant-a" (Fleet (Some a_budget) ∅)).

Definition a_history : list (nat * op) :=
  [(0, OpFlow 10); (1, OpFlow 10); (0, OpAlloc a_message); (0, OpAlloc a_message); (0, OpAlloc a_message);
   (1, OpAlloc a_message); (0, OpAdd 0 600 None None 0); (0, OpAdd 1 600 None (Some 7) 1); (1, OpAdd 0 700 None (Some 3) 0);
   (0, OpAdd 2 600 None (Some 8) 0); (0, OpDeliver); (0, OpDeliver); (0, OpAlloc a_message); (0, OpDrain false)]%nat.

Definition a_fleet : fleet (option ByteBudget) := default a_start (fleet_run a_history a_start).

Definition no_client : client (option ByteBudget) :=
  Client (MkAckBuffer [] None ∅ None false true NewEvent [] 0 1 1 1 0 NewEvent NewEvent 1 false 0 None None false 0 0 [] 0 0 0
    None ∅ ∅ ∅ 0) ∅.

Definition a_client : client (option ByteBudget) := default no_client (fl_clients a_fleet !! 0%nat).
Definition a_buffer : AckBuffer (option ByteBudget) := view a_fleet a_client.

Lemma a_budget_strict : pointer_holds true ∅ (Some a_budget).
Proof.
  apply (fair_empty true 8192 (MkFairByteBudgetOptions 1024 512)); [by vm_compute..|]. vm_compute. reflexivity.
Qed.

Lemma a_budget_empty : sb_holds ∅ (Some a_budget).
Proof. exact (pointer_lenient _ _ a_budget_strict). Qed.

Lemma a_start_reachable : fleet_reachable (Some a_budget) a_start.
Proof.
  eapply (reach_join _ _ _ 1%nat 0 "tenant-b"); [eapply (reach_join _ _ _ 0%nat 0 "tenant-a"); [apply reach_start|..]|..];
    try (vm_compute; reflexivity); try (by intros _); by vm_compute.
Qed.

Lemma a_fleet_reachable : fleet_reachable (Some a_budget) a_fleet.
Proof.
  apply (fleet_run_reachable _ a_history a_start); [apply a_start_reachable|].
  assert (Hs : is_Some (fleet_run a_history a_start)) by (vm_compute; by eexists).
  unfold a_fleet. destruct Hs as [F HF]. by rewrite HF.
Qed.

Lemma a_fleet_ok : fleet_ok a_fleet.
Proof. exact (fleet_reachable_ok _ _ a_budget_empty a_fleet_reachable). Qed.

Lemma a_client_joined : fl_clients a_fleet !! 0%nat = Some a_client.
Proof.
  assert (Hs : is_Some (fl_clients a_fleet !! 0%nat)) by (vm_compute; by eexists).
  unfold a_client. destruct Hs as [c Hc]. by rewrite Hc.
Qed.

Lemma a_buffer_ok : ok a_buffer.
Proof. exact (fo_client _ a_fleet_ok _ _ a_client_joined). Qed.

Lemma a_buffer_own : own 0 (cl_calls a_client) (fleet_accounts a_fleet) a_buffer.
Proof. exact (fleet_own _ _ _ a_fleet_ok a_client_joined). Qed.

Lemma a_buffer_ring seq r : ab_releasedRetired a_buffer = Some r -> ring_has seq r = false.
Proof.
  assert (Hn : ab_releasedRetired a_buffer = None) by (vm_compute; reflexivity). rewrite Hn. discriminate.
Qed.

Lemma a_buffer_numbers : ab_firstSeqNum a_buffer + ab_nextIndexFree a_buffer < W64.
Proof. vm_compute. reflexivity. Qed.

Lemma u64_2 : is_u64 2.
Proof. by vm_compute. Qed.

Lemma u64_3 : is_u64 3.
Proof. by vm_compute. Qed.

(** The guarded operations on the buffer return. *)
Lemma a_buffer_run o :
  op_guard o (cl_calls a_client) (<[0%nat := acct (cl_calls a_client) a_buffer]> (fleet_accounts a_fleet)) a_buffer = true ->
  exists r calls' b', run_op o (cl_calls a_client) a_buffer = Some (r, calls', b').
Proof.
  intros Hg. destruct (run_op_good o 0 (cl_calls a_client) (fleet_accounts a_fleet) a_buffer a_buffer_ok a_buffer_own Hg)
    as (r & calls' & b' & Hr & _). exists r, calls', b'. exact Hr.
Qed.

(** The same fleet while the first client drains, with its second frame handed
    out. *)
Definition a_draining_fleet : fleet (option ByteBudget) := default a_start (fleet_run (a_history ++ [(0%nat, OpSeal)]) a_start).
Definition a_draining_client : client (option ByteBudget) := default no_client (fl_clients a_draining_fleet !! 0%nat).
Definition a_draining : AckBuffer (option ByteBudget) := view a_draining_fleet a_draining_client.

Lemma a_draining_ok :
  ok a_draining /\ own 0 (cl_calls a_draining_client) (fleet_accounts a_draining_fleet) a_draining.
Proof.
  assert (Hs : is_Some (fleet_run (a_history ++ [(0%nat, OpSeal)]) a_start)) by (vm_compute; by eexists).
  assert (Hok : fleet_ok a_draining_fleet).
  { apply (fleet_reachable_ok _ _ a_budget_empty), (fleet_run_reachable _ (a_history ++ [(0%nat, OpSeal)]) a_start); [apply a_start_reachable|].
    unfold a_draining_fleet. destruct Hs as [F HF]. by rewrite HF. }
  assert (Hc : fl_clients a_draining_fleet !! 0%nat = Some a_draining_client).
  { assert (Hs' : is_Some (fl_clients a_draining_fleet !! 0%nat)) by (vm_compute; by eexists).
    unfold a_draining_client. destruct Hs' as [c Hc]. by rewrite Hc. }
  split; [exact (fo_client _ Hok _ _ Hc)|exact (fleet_own _ _ _ Hok Hc)].
Qed.

#[global] Opaque a_fleet a_draining_fleet.
