(* ===== verification/AckEscape.v ===== *)
(** * One escape at a time

    A message over the limits of a grouped budget is admitted as an escape and
    flagged.  The code means that a second escape is made only once the first is
    acknowledged.  Without transmission limits it guarantees this: the last flag
    is never older than the escape, so while the escape is held an ACK request is
    held.  The strict laws of the budget then apply to the fleet, and its escape
    bytes are exact. *)

From S2P Require Import Prelude ByteBudget BudgetSpec Event Protocol SharedBudget AckBuffer AckInv AckRemove AckReceipts AckRetire AckDeliver AckAdmit AckMethods AckFleet AckWindow AckFlags AckExample.

Section escape.
Context {B : Type} `{HB : LenientLaws B}.
Implicit Types (b : AckBuffer B) (F : fleet B).

(** A buffer that never tracked a limit. *)
Record plain b : Prop := {
  pl_flags : flags_ok b;
  pl_unlimited e : e ∈ ab_receipts b -> te_max e = 0;
  pl_escape : ab_escapeBytes b <> 0 -> ab_escapeSeq b <= ab_lastFlaggedSeq b;
}.

(** The escape is a message of the window. *)
Lemma escape_seq b : ok b -> numbers_ok b -> ab_escapeBytes b <> 0 ->
  ab_firstSeqNum b <= ab_escapeSeq b < ab_firstSeqNum b + ab_nextIndexFree b.
Proof.
  intros Hok Hn Hz. pose proof (bo_bytes _ _ (so_ok _ _ (po_settled _ _ Hok))) as Hby.
  destruct (ba_esc _ _ Hby Hz) as (_ & _ & Hu & Hget). apply zget_lt in Hget.
  assert (Hlen : Z.of_nat (length (ab_sizes b)) = ab_nextIndexFree b).
  { apply (ba_sizes _ _ Hby). destruct (ab_accounting b) eqn:Ha; [done|]. by destruct (ba_off _ _ Hby Ha) as (_ & ? & _). }
  rewrite <-(seq_at_off b (ab_escapeSeq b) Hu). rewrite numbers_seq; [unfold off; lia|done|unfold off; lia].
Qed.

Lemma plain_escape_held b : ok b -> plain b -> ab_escapeBytes b <> 0 -> heldFlagged b = true.
Proof.
  intros Hok [[Hn _] _ He] Hz. specialize (He Hz). pose proof (escape_seq b Hok Hn Hz). apply heldFlagged_true. destruct Hn. split; lia.
Qed.

(** ** The operations of callers that set no limits *)

(** Besides the guarantees of [op_guard]: no message is limited, and the sequence
    numbers do not reach 2^64. *)
Definition plain_op_guard (o : op) (calls : gmap wid Z) (A : accounts) b : bool :=
  op_guard o calls A b && number_guard o b && match o with OpAdd _ _ _ _ maxT => bool_decide (maxT = 0) | _ => true end.

Lemma plain_guard_op o calls A b : plain_op_guard o calls A b = true ->
  op_guard o calls A b = true /\ number_guard o b = true /\ match o with OpAdd _ _ _ _ maxT => maxT = 0 | _ => True end.
Proof.
  intros [[? ?]%andb_true_iff Hm]%andb_true_iff. split_and!; [done|done|]. destruct o; try done. by apply bool_decide_eq_true in Hm.
Qed.

(** ** The operations *)

(** The part of the invariant that removal keeps. *)
Definition tame b : Prop :=
  (forall e, e ∈ ab_receipts b -> te_max e = 0) /\ (ab_escapeBytes b <> 0 -> ab_escapeSeq b <= ab_lastFlaggedSeq b).

Lemma removed_tame k ack ms r i rq A b : residue_ok k ms r i rq A b -> tame b -> tame (removed k ack ms r b).
Proof.
  intros Hres [Hu He]. split; simpl.
  - intros e He'. apply list_elem_of_filter in He' as [_ ?]. by apply Hu.
  - intros Hz. destruct (ro_escape _ _ _ _ _ _ _ Hres Hz) as [Heq _]. apply He. congruence.
Qed.

Lemma head_tame ms b i rq A n b' : head_released ms b i rq A n b' -> tame b -> tame b'.
Proof. intros [|n' r ring _ _ Hres _] Ht; [done|]. eapply removed_tame; [exact Hres|]. exact Ht. Qed.

Lemma ack_tame seq i calls A b r b' : ack_post (held b) seq i calls A b r b' -> tame b -> tame b'.
Proof.
  intros [ring|e|r' n b1 k _ _ Hres _ Hhr _ _] Ht; [done..|]. eapply head_tame; [exact Hhr|]. by eapply removed_tame.
Qed.

(** Without limits a reset retires nothing. *)
Lemma reset_tame i calls A b ms1 b1 n b' : restarted (held b) b i calls A ms1 b1 n b' -> tame b -> tame b'.
Proof.
  intros [Hrt (b2 & rd & em & Hhr & ->) _ _] Ht. apply (head_tame _ _ _ _ _ _ _ Hhr).
  assert (HX : exhausted_seqs (ab_receipts b) ∖ ab_retired b = ∅).
  { assert (Hnil : exhausted_seqs (ab_receipts b) = ∅); [|set_solver]. unfold exhausted_seqs. rewrite filter_none; [done|].
    intros e He Hx%Is_true_true. apply bool_decide_eq_true in Hx as [Hx _]. by destruct Hx; apply Ht. }
  rewrite HX in Hrt. destruct (rt_quiet _ _ _ _ _ Hrt) as [[_ ->]|[? _]]; [exact Ht|done].
Qed.

Lemma added_tame e size waiter receipt i calls A b m x forced step :
  ok b -> slot_ok x size waiter forced step i calls A b -> sl_msg x = stamped m forced step size b -> plain b ->
  tame (added (held b) e size receipt 0 x b).
Proof.
  intros Hok Hx Hmsg [[Hn _] Hu He]. set (b' := added (held b) e size receipt 0 x b).
  assert (Hfields : ab_escapeBytes b' = sl_escapeBytes x /\ ab_escapeSeq b' = sl_escapeSeq x /\ ab_lastFlaggedSeq b' = sl_lastFlagged x).
  { unfold b', added. by destruct receipt. }
  destruct Hfields as (F1 & F2 & F3). split.
  - intros e0. unfold b', added. destruct receipt as [c|]; simpl; [|by apply Hu].
    intros [?|Hnew]%elem_of_app; [by apply Hu|]. by apply list_elem_of_singleton in Hnew as ->.
  - rewrite F1, F2, F3, (so_lastFlagged _ _ _ _ _ _ _ _ _ Hx).
    assert (Hseq : ab_nextSeqNum b = ab_firstSeqNum b + ab_nextIndexFree b).
    { rewrite (w_next _ _ (bo_win _ _ (so_ok _ _ (po_settled _ _ Hok)))). apply numbers_seq; [done|]. rewrite (ok_free b Hok). lia. }
    assert (Hold : ab_escapeBytes b <> 0 -> ab_escapeSeq b <= ab_nextSeqNum b) by (intros Hz; pose proof (escape_seq b Hok Hn Hz); lia).
    intros Hz. destruct (so_admitted _ _ _ _ _ _ _ _ _ Hx) as [[_ Had]|(_ & -> & He' & _)].
    + destruct (am_escape _ _ _ _ _ _ _ _ _ _ _ Had) as [[-> He']|(-> & _ & _ & ->)].
      * rewrite He' in Hz. destruct (AckRequested _); auto.
      * rewrite Hmsg, stamped_forced. lia.
    + rewrite He' in Hz. destruct (AckRequested _); auto.
Qed.

Lemma same_tame b b' :
  ab_receipts b' = ab_receipts b -> ab_escapeBytes b' = ab_escapeBytes b -> ab_escapeSeq b' = ab_escapeSeq b ->
  ab_lastFlaggedSeq b' = ab_lastFlaggedSeq b -> tame b -> tame b'.
Proof. unfold tame. by intros -> -> -> ->. Qed.

Lemma sampleWake_tame b c b' : sampleWake b = (c, b') -> tame b -> tame b'.
Proof. intros Hs. pose proof (sampleWake_fields _ _ _ Hs) as Hb. by apply same_tame; rewrite Hb. Qed.

Lemma deliver_tame b r b' : delivered (held b) b r b' -> tame b -> tame b'.
Proof.
  intros Hd [Hu He]. assert (Hfr : b' = deliver_frame b b') by (by destruct Hd). split; [|by rewrite Hfr].
  destruct Hd as [b1 _ _ _ -> _|p a a' m b1 _ _ _ _ _ _ _ _ ->]; [done|]. intros e (e0 & -> & He0)%list_elem_of_fmap.
  unfold counted. case_decide; simpl; by apply Hu.
Qed.

Lemma op_plain o i calls A b r calls' b' :
  ok b -> own i calls A b -> op_guard o calls (<[i := acct calls b]> A) b = true -> number_guard o b = true ->
  match o with OpAdd _ _ _ _ maxT => maxT = 0 | _ => True end ->
  run_op o calls b = Some (r, calls', b') -> plain b -> plain b'.
Proof.
  intros Hok Ho Hg Hng Hmax Hrun Hpl.
  assert (Hfl : flags_ok b') by (eapply op_flags; [exact Hok|exact Ho|exact Hg|exact Hng|exact Hrun|apply Hpl]).
  assert (Ht : tame b) by (destruct Hpl; by split).
  cut (tame b'); [intros [? ?]; by split|]. clear Hfl.
  destruct (run_op_good o i calls A b Hok Ho Hg) as (r1 & c1 & b1 & Hr & Hpost & _).
  rewrite Hrun in Hr. injection Hr as <- <- <-. destruct o as [m|e size waiter receipt maxT|w|seq| | |cap| |dn| |].
  2:{ destruct (add_turn_spec e size waiter receipt maxT i calls A b) as (r1 & w' & b1 & Hturn & Htp & _);
        [done|done|intros w; exact (guard_waiter _ _ _ _ _ _ _ _ w Hg)|done|].
      cbn [run_op] in Hrun. rewrite Hturn, bind_ret in Hrun. injection Hrun as <- <- <-. subst maxT.
      destruct Htp as [_|w1 s x b1 _ _ _ _ Hs|m x forced step _ _ _ Hx Hmsg _]; [done| |by eapply added_tame].
      eapply sampleWake_tame; [exact Hs|exact Ht]. }
  all: inversion Hpost; subst; try exact Ht.
  - by eapply ack_tame.
  - by eapply deliver_tame.
  - by eapply reset_tame.
  - match goal with Hd : drain_post _ _ _ _ _ |- _ => destruct Hd as [| |wake b' _ _ Hw]; [done..|] end. by eapply sampleWake_tame.
  - destruct Ht as [Hu _]. by split.
  - destruct Ht as [_ He]. split; [|exact He]. intros e He0. by apply elem_of_nil in He0.
Qed.

(** ** Fleets without limits *)

Definition plain_fleet_guard (i : nat) (o : op) F : bool :=
  match fl_clients F !! i with
  | Some c => plain_op_guard o (cl_calls c) (fleet_accounts F) (view F c)
  | None => false
  end.

Inductive plain_reachable (s0 : B) : fleet B -> Prop :=
  | plain_start : plain_reachable s0 (Fleet s0 ∅)
  | plain_join F F' i maxBytes key :
      plain_reachable s0 F -> fl_clients F !! i = None -> sb_joinable key (fl_budget F) ->
      Z.of_nat (size (fl_clients F)) < 2 ^ 62 -> is_u64 maxBytes ->
      fleet_join i maxBytes key F = Some (inr F') -> plain_reachable s0 F'
  | plain_op F F' i o r :
      plain_reachable s0 F -> plain_fleet_guard i o F = true -> fleet_op i o F = Some (r, F') -> plain_reachable s0 F'.

Lemma plain_budget b s : ok b -> sb_present s = sb_present (ab_shared b) -> plain b -> plain (b <| ab_shared := s |>).
Proof. intros Hok Hp [Hf Hu He]. split; [|done|done]. apply (same_flags b); try done. by apply ok_shared. Qed.

Lemma plain_fleet s0 F : sb_holds ∅ s0 -> plain_reachable s0 F ->
  fleet_reachable s0 F /\ forall i c, fl_clients F !! i = Some c -> plain (view F c).
Proof.
  intros Hs. induction 1 as [|F F' i maxBytes key _ [IHr IHp] Hi Hj Hsz Hmax Hjoin|F F' i o r _ [IHr IHp] Hg Hop].
  - split; [constructor|done].
  - split; [by eapply reach_join|]. pose proof (fleet_reachable_ok s0 F Hs IHr) as HF. unfold fleet_join in Hjoin.
    destruct (NewAckBuffer_spec (MkAckBufferOptions maxBytes (fl_budget F) key) (fleet_accounts F) i)
      as (b & Hb & _ & _ & _ & _ & _ & _ & _ & Hp); simpl; [apply HF| |done| |done|].
    { unfold fleet_accounts. by rewrite lookup_fmap, Hi. }
    { unfold fleet_accounts. by rewrite map_size_fmap. }
    rewrite Hb in Hjoin. simpl in Hjoin. injection Hjoin as <-. destruct (new_fields _ b Hb) as (N1 & N2 & N3 & N4 & N5).
    intros j d. simpl. intros [[<- <-]|[Hne Hd]]%lookup_insert_Some.
    + split; simpl; [|by rewrite N4; intros e ?%elem_of_nil|done].
      split; [split; simpl; rewrite ?N1, ?N2; done|]. intros [Hz _]%heldFlagged_true. done.
    + apply (plain_budget (view F d)); [exact (fo_client _ HF _ _ Hd)|exact Hp|exact (IHp _ _ Hd)].
  - pose proof (fleet_reachable_ok s0 F Hs IHr) as HF. unfold plain_fleet_guard in Hg.
    destruct (fl_clients F !! i) as [c|] eqn:Hc; [|done]. pose proof (fo_client _ HF i c Hc) as Hok.
    destruct (plain_guard_op _ _ _ _ Hg) as (Hg1 & Hn & Hmax).
    split; [eapply reach_op; [done| |done]; unfold fleet_guard; by rewrite Hc|].
    unfold fleet_op in Hop. rewrite Hc, bind_ret in Hop.
    destruct (run_op o (cl_calls c) (view F c)) as [[[r' rq] b]|] eqn:Hrun; [|done]. simpl in Hop. injection Hop as <- <-.
    pose proof (fleet_own _ i c HF Hc) as Ho.
    rewrite <-(fleet_accounts_id F i c Hc) in Hg1. destruct (run_op_good o i (cl_calls c) _ _ Hok Ho Hg1) as (r1 & rq1 & b1 & Hr & _ & _ & _ & Hp).
    rewrite Hrun in Hr. injection Hr as <- <- <-. intros j d. simpl. intros [[<- <-]|[Hne Hd]]%lookup_insert_Some.
    + eapply op_plain; [exact Hok|exact Ho|exact Hg1|exact Hn|exact Hmax|exact Hrun|exact (IHp i c Hc)].
    + apply (plain_budget (view F d)); [exact (fo_client _ HF _ _ Hd)|exact Hp|exact (IHp _ _ Hd)].
Qed.

End escape.

(** Fleets without limits satisfy the strict laws. *)
Lemma plain_strict s0 F :
  pointer_holds true ∅ s0 -> plain_reachable s0 F -> @fleet_ok (option ByteBudget) budgetPointer strict_laws F.
Proof.
  intros Hs HF. pose proof (pointer_lenient ∅ s0 Hs) as Hs'.
  induction HF as [|F F' i maxBytes key HF IH Hi Hj Hsz Hmax Hjoin|F F' i o r HF IH Hg Hop].
  - split; simpl; [|intros i c; by rewrite lookup_empty]. unfold fleet_accounts. simpl. by rewrite fmap_empty.
  - destruct (fleet_join_ok (H0 := strict_laws) i maxBytes key F) as (F'' & HF' & Hok); [done..|]. congruence.
  - destruct (plain_fleet (H0 := lenient_laws) s0 F Hs' HF) as [_ Hp].
    destruct (fleet_op_safe (H0 := strict_laws) i o F) as (r' & F'' & HF' & Hok); [done|..|congruence].
    + intros c Hc _. apply plain_escape_held; [by apply (fo_client _ IH i)|by apply (Hp i)].
    + unfold plain_fleet_guard in Hg. unfold fleet_guard. destruct (fl_clients F !! i); [|done]. by apply plain_guard_op in Hg as [? _].
Qed.

(** ** Example: one message larger than the whole budget *)

Fixpoint plain_run (l : list (nat * op)) (F : fleet (option ByteBudget)) : option (fleet (option ByteBudget)) :=
  match l with
  | [] => Some F
  | (i, o) :: l => if plain_fleet_guard i o F then '(_, F) ← fleet_op i o F; plain_run l F else None
  end.

Lemma plain_run_reachable s0 l F F' : plain_reachable s0 F -> plain_run l F = Some F' -> plain_reachable s0 F'.
Proof.
  revert F. induction l as [|[i o] l IH]; intros F Hr Hrun; simpl in Hrun; [by injection Hrun as <-|].
  destruct (plain_fleet_guard i o F) eqn:Hg; [|done]. destruct (fleet_op i o F) as [[r F1]|] eqn:Hop; [|done].
  simpl in Hrun. eapply IH; [|exact Hrun]. by eapply plain_op.
Qed.

Definition e_fleet : fleet (option ByteBudget) :=
  default a_start (plain_run [(0, OpFlow 10); (0, OpAlloc a_message); (0, OpAdd 0 9000 None None 0)]%nat a_start).

Lemma e_fleet_plain : plain_reachable (Some a_budget) e_fleet.
Proof.
  assert (Hstart : plain_reachable (Some a_budget) a_start).
  { eapply (plain_join _ _ _ 1%nat 0 "tenant-b"); [eapply (plain_join _ _ _ 0%nat 0 "tenant-a"); [apply plain_start|..]|..];
      try (vm_compute; reflexivity); try (by intros _); by vm_compute. }
  unfold e_fleet. destruct (plain_run _ a_start) as [F|] eqn:HF; [|done]. by eapply plain_run_reachable.
Qed.

