(* ===== verification/AckSpec.v ===== *)
(** * The properties of the retransmission buffer and of its clients

    The invariant of a fleet of clients, the refinement of the sliding window,
    the conservation of bytes between the buffers and the budget, and
    retransmission after a reset. *)

From S2P Require Import Prelude GoHeap ByteBudget BudgetIndex BudgetInv BudgetOps BudgetSchedule BudgetMethods BudgetReserve BudgetSpec Event Protocol SharedBudget AckBuffer AckInv AckRemove AckReceipts AckRetire AckDeliver AckAdmit AckMethods AckFleet AckWindow AckFlags AckExample AckEscape.

(** ** The sums of a fair budget and of its clients *)

(** A weight that vanishes on clients of forgotten groups may be summed by group
    or by client. *)
Lemma group_sum A L bb (z : account -> Z) :
  fair_tie A L bb -> (forall i a g, A !! i = Some a -> a_group a = Some g -> bb_groupOf bb !! g = None -> z a = 0) ->
  msum (fun g _ => msum (fun _ a => in_group g (z a) a) A) (bb_groupOf bb) = msum (fun _ a => z a) A.
Proof.
  intros T Hz. rewrite msum_exchange. apply msum_ext. intros i a Hi. destruct (ft_acc _ _ _ T i a Hi) as (_ & g & Hg & _).
  rewrite (msum_ext _ (fun g' _ => if decide (g' = g) then z a else 0)).
  2:{ intros g' gr _. unfold in_group. rewrite Hg. by repeat case_decide; congruence. }
  destruct (bb_groupOf bb !! g) as [gr|] eqn:Hgr.
  - rewrite <-(insert_delete_id _ g gr Hgr), msum_insert_new by apply lookup_delete_eq. rewrite decide_True by done. rewrite msum_zero; [lia|].
    intros g' gr' [Hne _]%lookup_delete_Some. by rewrite decide_False by congruence.
  - rewrite (Hz i a g Hi Hg Hgr). apply msum_zero. intros g' gr' _. by case_decide.
Qed.

(** The bytes of the clients, their escape bytes and the counters of the budget. *)
Lemma fair_totals st A bb :
  fair_holds st A bb ->
  total_held A <= bb_used bb <= total_held A + requested A /\ bb_used bb < W64 /\
  (st = true -> bb_escape bb = msum (fun _ a => a_escape a) A /\
    (bb_total bb <> 0 -> bb_used bb - bb_escape bb <= bb_total bb)).
Proof.
  intros (L & Hst & T). pose proof (ft_ok _ _ _ T) as Hok. pose proof (bo_acct _ _ Hok) as Hac.
  assert (Hdom : forall i a g, A !! i = Some a -> a_group a = Some g -> bb_groupOf bb !! g = None -> a_held a = 0 /\ a_escape a = 0).
  { intros i a g Hi Hg Hn. destruct (tie_bounds A L bb T i a Hi g Hg) as (Hh & _). pose proof (ft_acc _ _ _ T i a Hi) as [He _].
    destruct (decide (l_held L g = 0)); [lia|]. destruct (ac_dom _ _ Hac g) as [? ?]; [by right|congruence]. }
  assert (Hth : theld bb L = total_held A).
  { unfold theld. rewrite (msum_ext _ (fun g _ => msum (fun _ a => in_group g (a_held a) a) A)) by (intros; apply T).
    apply (group_sum A L bb a_held T). intros i a g Hi Hg Hn. by apply (Hdom i a g). }
  pose proof (tcredit_bounds _ _ Hac). pose proof (tie_tasked _ _ _ T). pose proof (used_bounds _ _ Hac).
  destruct (ac_sums _ _ Hac) as [_ _ _ Hsp _ Hcap]. split; [lia|]. split; [lia|]. intros ->. split; [|by auto].
  rewrite (proj1 (escape_exact _ _ Hac Hst)).
  etrans; [|apply (group_sum A L bb (fun a => a_escape a) T); intros i a g Hi Hg Hn; by apply (Hdom i a g)].
  apply msum_ext. intros g gr Hg. rewrite (proj1 (group_escape_held _ _ Hac Hst g gr Hg)). by apply T.
Qed.

(** ** Every reachable fleet *)

Section reachable.
Context {B : Type} `{HB : LenientLaws B}.

(** C2. In every fleet that its clients can reach from an unused budget, all
    buffers satisfy their invariant, the budget accounts for exactly the bytes the
    buffers charge and the requests their calls queued, and every operation its
    caller may issue returns: no index out of range, no nil dereference, no double
    close of a channel.  The callers guarantee only what [op_guard] lists; frames
    with transmission limits are included, and nothing is said of the escape bytes
    on record. *)
Theorem fleet_invariant (s0 : B) F :
  sb_holds ∅ s0 -> fleet_reachable s0 F ->
  sb_holds (fleet_accounts F) (fl_budget F) /\ (forall i c, fl_clients F !! i = Some c -> ok (view F c)) /\
  forall i o, fleet_guard i o F = true -> exists r F', fleet_op i o F = Some (r, F') /\ fleet_ok F'.
Proof.
  intros Hs HF%fleet_reachable_ok; [|done]. split; [apply HF|]. split; [apply HF|]. intros i o. by apply fleet_op_ok.
Qed.

(** C1. Every operation of a client is a step of the sliding window its buffer
    stands for, with the same answer: a frame is queued with the next number and
    handed out in order while it has transmissions left; an acknowledgement takes
    out everything up to its number, is accepted exactly for numbers a hand-over
    has passed, for the oldest frame as long as none has, and without effect for
    remembered numbers of released frames (other answers are possible only while
    the window spans the wrap-around of the numbers); a reset gives up exactly
    the frames without transmissions left and queues all others again in order;
    the windows of the other clients do not move. *)
Theorem window_refinement (s0 : B) F i o r F' :
  sb_holds ∅ s0 -> fleet_reachable s0 F -> fleet_guard i o F = true -> fleet_op i o F = Some (r, F') ->
  exists c c', fl_clients F !! i = Some c /\ fl_clients F' !! i = Some c' /\
    window_step (abs (view F c)) o r (abs (view F' c')) /\
    forall j d, j <> i -> fl_clients F !! j = Some d -> fl_clients F' !! j = Some d /\ abs (view F' d) = abs (view F d).
Proof.
  intros Hs HF%fleet_reachable_ok Hg Hop; [|done]. unfold fleet_guard in Hg. unfold fleet_op in Hop.
  destruct (fl_clients F !! i) as [c|] eqn:Hc; [|done]. rewrite bind_ret in Hop.
  destruct (run_op o (cl_calls c) (view F c)) as [[[r' calls'] b']|] eqn:Hrun; [|done]. simpl in Hop. injection Hop as <- <-.
  exists c, (Client b' calls'). split; [done|]. split; [simpl; apply lookup_insert_eq|]. split.
  - eapply (post_refines i (cl_calls c) (fleet_accounts F)); [by eapply fo_client|].
    eapply run_op_post; [by eapply fo_client|by apply fleet_own| |exact Hrun].
    change (acct (cl_calls c) (view F c)) with (client_account c). rewrite insert_id; [done|].
    unfold fleet_accounts. by rewrite lookup_fmap, Hc.
  - intros j d Hj Hd. simpl. rewrite lookup_insert_ne by done. done.
Qed.
End reachable.

Lemma fleet_invariant_witness :
  ok a_buffer /\ exists r F', fleet_op 0 (OpAck 2) a_fleet = Some (r, F') /\ fleet_ok F'.
Proof.
  destruct (fleet_invariant (Some a_budget) a_fleet a_budget_empty a_fleet_reachable) as (_ & Hok & Hop).
  split; [exact (Hok 0%nat a_client a_client_joined)|]. apply Hop. vm_compute. reflexivity.
Defined.

Lemma window_refinement_witness :
  exists r F', fleet_op 0 (OpAck 2) a_fleet = Some (r, F') /\
    exists c c', fl_clients a_fleet !! 0%nat = Some c /\ fl_clients F' !! 0%nat = Some c' /\
    window_step (abs (view a_fleet c)) (OpAck 2) r (abs (view F' c')) /\
    forall j d, j <> 0%nat -> fl_clients a_fleet !! j = Some d -> fl_clients F' !! j = Some d /\ abs (view F' d) = abs (view a_fleet d).
Proof.
  destruct (fleet_op_ok 0 (OpAck 2) a_fleet a_fleet_ok) as (r & F' & Hop & _); [vm_compute; reflexivity|].
  exists r, F'. split; [exact Hop|].
  apply (window_refinement (Some a_budget)); [exact a_budget_empty|exact a_fleet_reachable|vm_compute; reflexivity|exact Hop].
Defined.

(** The sums of any fleet that satisfies the invariant. *)
Lemma fleet_sums st F bb :
  @fleet_ok (option ByteBudget) budgetPointer (budgetPointer_laws st) F -> fl_budget F = Some bb ->
  let bytes := msum (fun _ c => ab_bytes (cl_buf c)) (fl_clients F) in
  let escape := msum (fun _ c => ab_escapeBytes (cl_buf c)) (fl_clients F) in
  let queued := msum (fun _ c => msum (fun _ n => n) (cl_calls c)) (fl_clients F) in
  bytes <= bb_used bb < W64 /\ bb_used bb <= bytes + queued /\
  (st = true -> bb_fair bb = true -> bb_escape bb = escape /\ (bb_total bb <> 0 -> bb_used bb - bb_escape bb <= bb_total bb)) /\
  ((forall i c, fl_clients F !! i = Some c -> ab_isClosed (cl_buf c) = true) -> bytes = 0 /\ escape = 0) /\
  ((forall i c, fl_clients F !! i = Some c -> cl_calls c = ∅) -> queued = 0).
Proof.
  intros HF Hbb bytes escape queued. pose proof (fo_budget _ HF) as Hh. rewrite Hbb in Hh.
  assert (Hheld : total_held (fleet_accounts F) = bytes) by (unfold total_held, fleet_accounts; by rewrite msum_fmap).
  assert (Hreq : requested (fleet_accounts F) = queued) by (unfold requested, fleet_accounts; by rewrite msum_fmap).
  assert (Hq : (bytes <= bb_used bb < W64 /\ bb_used bb <= bytes + queued) /\
    (st = true -> bb_fair bb = true -> bb_escape bb = escape /\ (bb_total bb <> 0 -> bb_used bb - bb_escape bb <= bb_total bb))).
  { simpl in Hh. destruct (bb_fair bb) eqn:Hf.
    - destruct (fair_totals _ _ _ Hh) as ([H1 H2] & H3 & H4). rewrite Hheld, Hreq in *. split; [lia|].
      intros Hst _. destruct (H4 Hst) as [He Hc]. split; [|done]. rewrite He. unfold fleet_accounts. by rewrite msum_fmap.
    - destruct Hh as [Hl Hu Ha Hr]. rewrite Hheld in Hu. destruct Hl as (_ & _ & Hw & _).
      assert (0 <= queued); [|unfold is_u64 in Hw; split; [lia|done]]. apply msum_nonneg. intros i c Hc.
      apply msum_nonneg. intros w n Hn. eapply (Hr i (client_account c)); [|exact Hn]. unfold fleet_accounts. by rewrite lookup_fmap, Hc. }
  destruct Hq as [[Hq1 Hq2] Hq3]. split; [done|]. split; [done|]. split; [done|]. split.
  - intros Hcl. assert (Hby : forall i c, fl_clients F !! i = Some c -> ab_bytes (cl_buf c) = 0 /\ ab_escapeBytes (cl_buf c) = 0).
    { intros i c Hc. pose proof (bo_bytes _ _ (so_ok _ _ (po_settled _ _ (fo_client _ HF i c Hc)))) as Hb. specialize (Hcl i c Hc). split.
      - pose proof (ba_sum _ _ Hb) as Hs. simpl in Hs. by rewrite Hcl in Hs.
      - destruct (decide (ab_escapeBytes (cl_buf c) = 0)); [done|]. destruct (ba_esc _ _ Hb) as [Hn _]; [done|]. simpl in Hn. congruence. }
    split; apply msum_zero; intros i c Hc; by apply (Hby i).
  - intros Hno. apply msum_zero. intros i c Hc. rewrite (Hno i c Hc). by rewrite msum_empty.
Qed.

(** C3. Among clients of one budget the bytes of all buffers are what the budget
    counts as used, up to the requests that wait: exactly, when none waits, and 0
    once every client is closed.  In fleets whose messages have no transmission
    limit, a budget with groups moreover counts exactly the escape bytes of the
    buffers, the others stay within its total, and once every client is closed
    its count of escape bytes is 0 too. *)
Theorem fleet_conservation s0 F bb :
  pointer_holds true ∅ s0 -> fleet_reachable s0 F -> fl_budget F = Some bb ->
  let bytes := msum (fun _ c => ab_bytes (cl_buf c)) (fl_clients F) in
  let escape := msum (fun _ c => ab_escapeBytes (cl_buf c)) (fl_clients F) in
  let queued := msum (fun _ c => msum (fun _ n => n) (cl_calls c)) (fl_clients F) in
  let closed := forall i c, fl_clients F !! i = Some c -> ab_isClosed (cl_buf c) = true in
  let quiet := forall i c, fl_clients F !! i = Some c -> cl_calls c = ∅ in
  bytes <= bb_used bb <= bytes + queued /\ bb_used bb < W64 /\ (quiet -> bb_used bb = bytes) /\ (quiet -> closed -> bb_used bb = 0) /\
  (plain_reachable s0 F -> bb_fair bb = true ->
    bb_escape bb = escape /\ (bb_total bb <> 0 -> bb_used bb - bb_escape bb <= bb_total bb) /\ (closed -> bb_escape bb = 0)).
Proof.
  intros Hs HF Hbb bytes escape queued closed quiet.
  assert (Hok := fleet_reachable_ok s0 F (pointer_lenient ∅ s0 Hs) HF).
  destruct (fleet_sums false F bb Hok Hbb) as (H1 & H2 & _ & H4 & H5). fold bytes escape queued closed quiet in H1, H2, H4, H5.
  split; [lia|]. split; [lia|]. split; [intros Hq; specialize (H5 Hq); lia|].
  split; [intros Hq Hc; specialize (H5 Hq); specialize (H4 Hc); lia|]. intros Hp Hf.
  destruct (fleet_sums true F bb (plain_strict s0 F Hs Hp) Hbb) as (_ & _ & H3 & _). destruct (H3 eq_refl Hf) as [He Hcap].
  fold escape in He. split; [done|]. split; [done|]. intros Hc. rewrite He. by apply H4.
Qed.

Lemma fleet_conservation_witness :
  exists bb, fl_budget e_fleet = Some bb /\ bb_used bb = 9000 /\ bb_escape bb = 9000 /\ 9000 <= bb_used bb < W64.
Proof.
  assert (Hb : exists bb, fl_budget e_fleet = Some bb /\ bb_used bb = 9000 /\ bb_fair bb = true)
    by (vm_compute; eexists; split_and!; reflexivity).
  destruct Hb as (bb & Hb & Hu & Hf). exists bb.
  assert (Hr : fleet_reachable (Some a_budget) e_fleet) by (apply (plain_fleet _ _ a_budget_empty e_fleet_plain)).
  destruct (fleet_conservation (Some a_budget) e_fleet bb a_budget_strict Hr Hb) as (_ & H2 & _ & _ & H5).
  split; [exact Hb|]. split; [exact Hu|]. split; [|rewrite Hu in *; lia]. destruct (H5 e_fleet_plain Hf) as [He _]. rewrite He.
  vm_compute. reflexivity.
Defined.

(** ** Delivery *)

Section delivery.
Context {B : Type} `{HB : LenientLaws B}.
Implicit Types (b : AckBuffer B).

(** [n] successive hand-overs. *)
Fixpoint deliver_n (n : nat) b : option (list maddr * AckBuffer B) :=
  match n with
  | O => Some ([], b)
  | S n => '(r, b) ← GetNextToDeliver b; a ← r; '(l, b) ← deliver_n n b; Some (a :: l, b)
  end.

Lemma deliver_step ms b i rq A :
  public_ok ms b -> own i rq A b ->
  exists r b', GetNextToDeliver b = Some (r, b') /\ public_ok ms b' /\ own i rq A b' /\ delivered ms b r b'.
Proof.
  intros Hpo Ho. destruct (deliver_spec ms b i rq A (po_settled _ _ Hpo) Ho (po_sendable _ _ Hpo)) as (r & b' & ? & ? & ? & ? & ?).
  exists r, b'. by split_and!.
Qed.

Lemma deliver_pending ms b i rq A :
  public_ok ms b -> own i rq A b -> ab_isRunning b = true ->
  exists b' b'', deliver_n (length (pending ms b)) b = Some (pending ms b, b') /\ GetNextToDeliver b' = Some (None, b'').
Proof.
  remember (pending ms b) as l eqn:Hl. revert b Hl. induction l as [|a l IH]; intros b Hl Hpo Ho Hrun;
    destruct (deliver_step ms b i rq A Hpo Ho) as (r & b1 & Hd & Hpo1 & Ho1 & Hdel).
  - exists b, b1. split; [done|]. destruct Hdel as [|p a a' m b1 _ Hp]; [done|]. congruence.
  - destruct Hdel as [b1 _ Hp|p a0 a' m b1 Hfr Hp _ _ _ _ _ Ha' _]; [congruence|]. rewrite <-Hl in Hp. injection Hp as <- Hp.
    assert (Hrun1 : ab_isRunning b1 = true) by (by rewrite Hfr).
    destruct (IH b1 Hp Hpo1 Ho1 Hrun1) as (b2 & b3 & Hn & Hnone). exists b2, b3. split; [|done]. simpl.
    destruct Ha' as [(-> & _ & _)|(? & _)]; [|congruence]. by rewrite Hd, !bind_ret, Hn.
Qed.

Lemma reset_public b i rq A :
  ok b -> own i rq A b -> exists ms1 b1 n b', ResetDelivery b = Some b' /\ public_ok (drop n ms1) b' /\ own i rq A b' /\
    restarted (held b) b i rq A ms1 b1 n b' /\ buf_ok ms1 b1.
Proof.
  intros Hok Ho. destruct (reset_spec (held b) b i rq A (po_settled _ _ Hok) Ho) as (ms1 & b1 & n & b' & Hr & Hs & Ho' & Hrst & Hok1).
  exists ms1, b1, n, b'. split_and!; try done. split; [done|by eapply restarted_sendable].
Qed.

Lemma unacked_live ms b : public_ok ms b -> GetUnAcked b = Some (Some <$> live ms b).
Proof. intros Hpo. apply GetUnAcked_spec; apply (so_ok _ _ (po_settled _ _ Hpo)). Qed.

(** C4. After a reset the next hand-overs are exactly the messages [GetUnAcked]
    returns, each one once and in order, and then nothing; and the reset takes
    out of these only the frames that used up their transmissions. *)
Theorem go_back_n b i rq A l :
  ok b -> own i rq A b -> ab_isRunning b = true -> GetUnAcked b = Some l ->
  exists b' l' b1 b2, ResetDelivery b = Some b' /\ GetUnAcked b' = Some (Some <$> l') /\
    deliver_n (length l') b' = Some (l', b1) /\ GetNextToDeliver b1 = Some (None, b2) /\
    Some <$> l' = Some <$> live_list (exhausted_seqs (ab_receipts b) ∪ ab_retired b) (ab_firstSeqNum b) (held b) /\
    ((forall e, e ∈ ab_receipts b -> exhausted e = false) -> Some <$> l' = l).
Proof.
  intros Hok Ho Hrun Hl. destruct (reset_public b i rq A Hok Ho) as (ms1 & b1 & n & b' & Hr & Hpo' & Ho' & Hrst & Hok1).
  assert (Hlive : live (drop n ms1) b' = live_list (exhausted_seqs (ab_receipts b) ∪ ab_retired b) (ab_firstSeqNum b) (held b)).
  { pose proof (rst_retires _ _ _ _ _ _ _ _ _ Hrst) as Hrt. pose proof (bo_win _ _ (so_ok _ _ (po_settled _ _ Hok))) as Hw.
    apply (reset_live (held b) b i rq A ms1 b1 n b' (held b) ms1 Hw Hrst eq_refl (rt_length _ _ _ _ _ Hrt)); [|done].
    intros j Hj. apply (rt_slots _ _ _ _ _ Hrt). change (seq_at (reset_start b)) with (seq_at b). set_solver. }
  assert (Hp : pending (drop n ms1) b' = live (drop n ms1) b').
  { unfold pending. rewrite (rst_index _ _ _ _ _ _ _ _ _ Hrst). simpl. rewrite drop_0.
    by rewrite (seq_at_0 b' (w_first _ _ (bo_win _ _ (so_ok _ _ (po_settled _ _ Hpo'))))). }
  assert (Hrun' : ab_isRunning b' = true).
  { destruct Hrst as [Hrt (b2 & rd & em & Hhr & ->) _ _]. assert (Hr1 : ab_isRunning b1 = true) by (by rewrite (rt_frame _ _ _ _ _ Hrt)).
    by destruct Hhr. }
  destruct (deliver_pending (drop n ms1) b' i rq A Hpo' Ho' Hrun') as (b2 & b3 & Hd & Hnone). rewrite Hp in Hd.
  exists b', (live (drop n ms1) b'), b2, b3. split; [done|]. split; [by apply unacked_live|]. split; [done|]. split; [done|].
  split; [by rewrite Hlive|]. intros Hne. rewrite (unacked_live (held b) b Hok) in Hl. injection Hl as <-. rewrite Hlive.
  unfold live. assert (Hem : exhausted_seqs (ab_receipts b) = ∅).
  { unfold exhausted_seqs. rewrite filter_none; [done|]. intros e He Hx. rewrite (Hne e He) in Hx. done. }
  rewrite Hem. by rewrite (left_id_L ∅ (∪)).
Qed.
End delivery.

Lemma go_back_n_witness :
  exists b' b1 b2, ResetDelivery a_buffer = Some b' /\ deliver_n 2 b' = Some ([0; 2]%nat, b1) /\
    GetNextToDeliver b1 = Some (None, b2).
Proof.
  destruct (go_back_n a_buffer 0 (cl_calls a_client) (fleet_accounts a_fleet) (Some <$> [0; 1; 2]%nat))
    as (b' & l' & b1 & b2 & Hr & _ & Hd & Hn & Hl & _); [exact a_buffer_ok|exact a_buffer_own|by vm_compute..|].
  assert (Hv : Some <$> l' = Some <$> [0; 2]%nat) by (rewrite Hl; vm_compute; reflexivity).
  apply list_fmap_eq_inj in Hv; [|by intros ? ? [= ->]]. subst l'.
  exists b', b1, b2. split; [exact Hr|]. split; [exact Hd|exact Hn].
Defined.
