(* ===== verification/AckProps.v ===== *)
(** * The properties of the single methods of the buffer

    What each method does on every branch, proved from the step lemmas of the
    component files, with the fleet of AckExample.v as example. *)

From S2P Require Import Prelude ByteBudget Event Protocol SharedBudget AckBuffer AckInv AckRemove AckReceipts AckRetire AckDeliver AckAdmit AckMethods AckFleet AckWindow AckFlags AckExample.

Section methods.
Context {B : Type} `{HB : LenientLaws B}.
Implicit Types (b : AckBuffer B).

Lemma ok_win b : ok b -> win_ok (held b) b.
Proof. intros Hok. apply (so_ok _ _ (po_settled _ _ Hok)). Qed.

(** ** Acknowledgement *)

(** What the checks accept while the numbers of the window do not wrap around. *)
Lemma ackCheck_iff ms seq b :
  win_ok ms b -> is_u64 seq -> ab_firstSeqNum b + ab_nextIndexFree b < W64 ->
  ackCheck seq b = None <->
    (ab_firstSeqNum b <= seq < ab_firstSeqNum b + ab_nextIndexToDeliver b \/
     seq = ab_firstSeqNum b /\ ab_nextIndexToDeliver b = 0 /\ ab_nextIndexFree b <> 0).
Proof.
  intros Hw Hu Hnw. pose proof (w_first _ _ Hw) as Hf. pose proof (w_deliver _ _ Hw) as Hd. pose proof (w_len _ _ Hw) as Hlen.
  assert (Hnext : ab_nextSeqNum b = ab_firstSeqNum b + ab_nextIndexFree b).
  { rewrite (w_next _ _ Hw). unfold seq_at. apply add64_small; unfold is_u64 in Hf; lia. }
  unfold is_u64, max_slots in *. unfold ackCheck. rewrite Hnext.
  assert (Hoff : sub64 seq (ab_firstSeqNum b) = if decide (ab_firstSeqNum b <= seq) then seq - ab_firstSeqNum b
    else seq - ab_firstSeqNum b + W64).
  { destruct (decide (ab_firstSeqNum b <= seq)); u64_lia. }
  rewrite Hoff. destruct (decide (ab_firstSeqNum b <= seq)) as [Hle|Hgt].
  - destruct (decide (seq < ab_firstSeqNum b /\ _)) as [[? _]|_]; [lia|].
    destruct (decide (seq >= _ /\ _)) as [[? _]|Hn2]; [split; [done|lia]|].
    destruct (decide (seq - ab_firstSeqNum b >= _ \/ _)) as [[?|?]|Hn3]; [split; [done|lia]..|].
    destruct (decide (seq - ab_firstSeqNum b >= _ /\ _)) as [[Hge Hn4]|Hn4].
    + split; [done|]. intros [?|(-> & Hz & _)]; [lia|]. destruct Hn4. lia.
    + split; [|done]. intros _. destruct (decide (seq - ab_firstSeqNum b < ab_nextIndexToDeliver b)); [left; lia|].
      right. destruct (decide (ab_nextIndexToDeliver b = 0 /\ seq - ab_firstSeqNum b = 0)) as [[? ?]|Hn5]; [lia|]. destruct Hn4. lia.
  - split; [|lia]. destruct (decide (seq < ab_firstSeqNum b /\ _)); [done|].
    destruct (decide (seq >= _ /\ _)); [done|]. rewrite decide_True by (right; lia). done.
Qed.

(** The ring remembers the number of a released retired frame. *)
Definition remembered b (seq : Z) : Prop := exists r, ab_releasedRetired b = Some r /\ ring_has seq r = true.

(** C26. Below the wrap-around of the numbers, [Ack] accepts exactly three kinds
    of numbers: those the delivery index has passed and, as long as it has passed
    none, that of the first frame, which both remove everything up to the number;
    and a number outside the window that is remembered as that of a released
    retired frame, which changes nothing.  Every other number is refused and
    leaves the buffer as it is. *)
Theorem ack_accepts b seq i rq A :
  ok b -> own i rq A b -> is_u64 seq -> ab_firstSeqNum b + ab_nextIndexFree b < W64 ->
  let removes := ab_firstSeqNum b <= seq < ab_firstSeqNum b + ab_nextIndexToDeliver b \/
    seq = ab_firstSeqNum b /\ ab_nextIndexToDeliver b = 0 /\ ab_nextIndexFree b <> 0 in
  let late := ~ (ab_firstSeqNum b <= seq < ab_firstSeqNum b + ab_nextIndexFree b) /\ remembered b seq in
  exists err b', Ack seq b = Some (err, b') /\ ok b' /\ own i rq A b' /\ (err = None <-> removes \/ late) /\
    (removes -> seq < ab_firstSeqNum b') /\ (~ removes -> b' = b).
Proof.
  intros Hok Ho Hu Hnw removes late. destruct (Ack_spec (held b) b seq i rq A Hok Ho) as (err & b' & Ha & Hpost).
  pose proof (ok_win b Hok) as Hw. pose proof (ackCheck_iff _ seq b Hw Hu Hnw) as Hiff. fold removes in Hiff.
  pose proof (w_first _ _ Hw) as Hf. pose proof (w_deliver _ _ Hw).
  assert (Hin : ab_firstSeqNum b <= seq < ab_firstSeqNum b + ab_nextIndexFree b <-> off b seq < ab_nextIndexFree b).
  { pose proof (window_size _ _ Hw). unfold off, is_u64, max_slots in *. u64_lia. }
  assert (Hsub : removes -> ab_firstSeqNum b <= seq < ab_firstSeqNum b + ab_nextIndexFree b) by (unfold removes; lia).
  exists err, b'. split; [done|]. destruct Hpost as [ring Hr Hh Hge|e Hc Hno|r n b' k Hc Hlt _ _ Hhr Hpub Ho'].
  - split; [done|]. split; [done|]. assert (Hno : ~ removes) by (intros ?%Hsub; lia).
    split; [|split; [done|done]]. split; [|done]. intros _. right. split; [lia|by exists ring].
  - split; [done|]. split; [done|]. assert (Hn : ~ removes) by (rewrite <-Hiff; congruence). split; [|split; [done|done]]. split; [done|].
    intros [?|[Hout (ring & Hr & Hhas)]]; [done|]. specialize (Hno ring Hr Hhas). tauto.
  - split; [by eapply public_ok_held|]. split; [done|]. assert (Hre : removes) by (by apply Hiff). split; [|split; [|done]].
    { split; [intros _; by left|done]. }
    intros _. assert (Hfirst : ab_firstSeqNum b' = seq_at b (Z.of_nat (k + n))).
    { destruct Hhr as [|n r' ring _ _ _ _]; simpl; [f_equal; lia|]. unfold seq_at. simpl. unfold seq_at. rewrite add64_assoc. f_equal. lia. }
    pose proof (public_held _ _ Hpub) as Hh'. pose proof (ok_win b' (public_ok_held _ _ Hpub)) as Hw'.
    assert (Hle : (k + n <= length (held b))%nat).
    { destruct Hhr as [|n r' ring [_ Hn] _ _ _]; [|rewrite length_drop in Hn]; pose proof (w_free _ _ Hw); pose proof (off_u64 b seq); unfold k in *; lia. }
    rewrite Hfirst. pose proof (w_free _ _ Hw). unfold seq_at. unfold is_u64 in *. pose proof (off_u64 b seq).
    rewrite add64_small by lia. unfold k, off in *. rewrite sub64_small in * by lia. lia.
Qed.

(** The receipts an acknowledgement confirms. *)
Definition covers b (seq : Z) (c : cell) : Prop :=
  exists e, e ∈ ab_receipts b /\ te_state e = c /\ off b (te_seq e) <= off b seq /\ te_seq e ∉ ab_retired b.

Lemma gone_cells b seq c :
  track_ok b ->
  let cells := acknowledged (gone_entries (off b seq + 1) b) (ab_cells b) in
  (covers b seq c -> cells !! c = Some ReceiptAcknowledged) /\ (~ covers b seq c -> cells !! c = ab_cells b !! c).
Proof.
  intros Htr. simpl. rewrite acknowledged_lookup.
  assert (Hiff : c ∈ te_state <$> gone_entries (off b seq + 1) b /\ ab_cells b !! c = Some ReceiptRetained <-> covers b seq c).
  { split.
    - intros [(e & -> & [Hlt He]%list_elem_of_filter)%list_elem_of_fmap Hc]. exists e. split_and!; [done|done|lia|].
      rewrite (tr_cell _ Htr e He) in Hc. by destruct (decide (te_seq e ∈ ab_retired b)).
    - intros (e & He & <- & Hle & Hn). split; [|rewrite (tr_cell _ Htr e He); by rewrite decide_False].
      apply list_elem_of_fmap_2. apply list_elem_of_filter. split; [lia|done]. }
  split; intros Hcov.
  - by rewrite decide_True by (by apply Hiff).
  - by rewrite decide_False by (by rewrite Hiff).
Qed.

Lemma head_cells ms b i rq A n b' : head_released ms b i rq A n b' -> ab_cells b' = ab_cells b /\ ab_msgs b' = ab_msgs b.
Proof. by intros []. Qed.

(** C25. An accepted acknowledgement confirms exactly the retained receipts of
    the frames it covers, removes these frames and no later one, and touches no
    message: the receipt of a retired frame stays retired. *)
Theorem ack_confirms b seq i rq A :
  ok b -> own i rq A b -> is_u64 seq -> ackCheck seq b = None ->
  (forall r, ab_releasedRetired b = Some r -> ring_has seq r = false) ->
  exists b', Ack seq b = Some (None, b') /\ ab_msgs b' = ab_msgs b /\
    (forall c, (covers b seq c -> ab_cells b' !! c = Some ReceiptAcknowledged) /\
               (~ covers b seq c -> ab_cells b' !! c = ab_cells b !! c)) /\
    sent b' ++ todo b' = filter (fun f => after seq f.1) (sent b ++ todo b).
Proof.
  intros Hok Ho Hu Hc Hring. destruct (Ack_spec (held b) b seq i rq A Hok Ho) as (err & b' & Ha & Hpost).
  destruct Hpost as [ring Hr Hh|e Hc'|r n b' k _ Hlt Hres Hok1 Hhr Hpub Ho']; [by rewrite (Hring ring Hr) in Hh|congruence|].
  exists b'. split; [done|]. destruct (head_cells _ _ _ _ _ _ _ Hhr) as [Hcells Hmsgs]. split; [done|]. split.
  - intros c. rewrite Hcells. simpl. pose proof (off_u64 b seq). unfold k, dropped_cells.
    replace (Z.of_nat (S (Z.to_nat (off b seq)))) with (off b seq + 1) by lia.
    apply gone_cells, (so_ok _ _ (po_settled _ _ Hok)).
  - destruct (ack_slid (held b) seq i rq A b r n b') as (Hs & HP & Hn & _); [done..|].
    destruct (slid_abs _ _ _ _ Hs HP Hn) as [-> ->]. by rewrite <-filter_app.
Qed.

(** ** Receipts *)

(** A receipt is created retained and ends, once, acknowledged or retired. *)
Inductive cell_step : option ReceiptFrameState -> option ReceiptFrameState -> Prop :=
  | cell_same x : cell_step x x
  | cell_new : cell_step None (Some ReceiptRetained)
  | cell_acked : cell_step (Some ReceiptRetained) (Some ReceiptAcknowledged)
  | cell_retired : cell_step (Some ReceiptRetained) (Some ReceiptRetired).

Lemma ack_cells b seq i rq A r b' c :
  ok b -> ack_post (held b) seq i rq A b r b' -> cell_step (ab_cells b !! c) (ab_cells b' !! c).
Proof.
  intros Hok [ring|e|r' n b'' k _ _ _ _ Hhr _ _]; [constructor..|]. destruct (head_cells _ _ _ _ _ _ _ Hhr) as [-> _].
  simpl. unfold dropped_cells. rewrite acknowledged_lookup. destruct (decide _) as [[_ ->]|_]; constructor.
Qed.

Lemma reset_cells b i rq A ms1 b1 n b' c :
  ok b -> restarted (held b) b i rq A ms1 b1 n b' -> cell_step (ab_cells b !! c) (ab_cells b' !! c).
Proof.
  intros Hok [Hrt (b2 & rd & em & Hhr & ->) _ _]. destruct (head_cells _ _ _ _ _ _ _ Hhr) as [Hc _]. simpl. rewrite Hc.
  destruct (rt_cells _ _ _ _ _ Hrt c) as [->|(-> & e & He & <- & Hx)]; [constructor|].
  pose proof (tr_cell _ (bo_track _ _ (so_ok _ _ (po_settled _ _ Hok))) e He) as Hce. change (ab_cells (reset_start b)) with (ab_cells b).
  rewrite Hce, decide_False by set_solver. constructor.
Qed.

Lemma added_cells b e size receipt maxT x c :
  (forall c', receipt = Some c' -> ab_cells b !! c' = None) ->
  cell_step (ab_cells b !! c) (ab_cells (added (held b) e size receipt maxT x b) !! c).
Proof.
  intros Hn. destruct receipt as [c'|]; [|constructor]. unfold added. simpl. destruct (decide (c = c')) as [->|Hne].
  - rewrite lookup_insert_eq, (Hn c' eq_refl). constructor.
  - rewrite lookup_insert_ne by done. constructor.
Qed.

Lemma sampleWake_cells b c b' : sampleWake b = (c, b') -> ab_cells b' = ab_cells b.
Proof. unfold sampleWake. destruct (ab_wake b); by intros [= <- <-]. Qed.

Lemma op_cells o i calls A b r calls' b' c :
  ok b -> own i calls A b -> op_guard o calls (<[i := acct calls b]> A) b = true ->
  run_op o calls b = Some (r, calls', b') -> cell_step (ab_cells b !! c) (ab_cells b' !! c).
Proof.
  intros Hok Ho Hg Hrun. destruct (run_op_post o i calls A b r calls' b' Hok Ho Hg Hrun) as [m|?????|????? s c' b' _ _ Hs|????? x _ Hc _|w s|
    seq r b' Hu Ha|r b' Hs Hd|ms1 b1 n b' Hs Hrst Hok1| |cap len av Hne Hpub|Hpub|done r b' Hd|s Hpub|]; try constructor.
  - rewrite (sampleWake_cells _ _ _ Hs). constructor.
  - by apply added_cells.
  - by eapply ack_cells.
  - by destruct Hd as [b' Hfr|p a a' m b' Hfr]; rewrite Hfr; constructor.
  - by eapply reset_cells.
  - destruct Hd as [| |wake b' _ _ Hw]; [constructor..|]. rewrite (sampleWake_cells _ _ _ Hw). constructor.
Qed.

(** C27. Whatever an operation does, a receipt moves from retained to
    acknowledged or to retired and never from these: an acknowledgement or a
    retirement is final. *)
Theorem receipts_final o i calls A b r calls' b' c :
  ok b -> own i calls A b -> op_guard o calls (<[i := acct calls b]> A) b = true ->
  run_op o calls b = Some (r, calls', b') -> cell_step (ab_cells b !! c) (ab_cells b' !! c).
Proof. apply op_cells. Qed.

(** ** Transmissions *)

Lemma pending_not_retired b p a t :
  ok b -> held b !! p = Some a -> pending (held b) b = a :: t -> seq_at b (Z.of_nat p) ∉ ab_retired b.
Proof.
  intros Hok Hp Hpend. pose proof (so_ok _ _ (po_settled _ _ Hok)) as [Hw Hst _ _ _ _].
  rewrite <-(todo_pending _ _ Hw) in Hpend. destruct (todo b) as [|[s a'] l] eqn:Ht; [done|]. injection Hpend as -> _.
  assert (Hin : (s, a) ∈ todo b) by (rewrite Ht; by left). apply list_elem_of_filter in Hin as [Hn Hin].
  apply list_elem_of_lookup in Hin as [j Hj]. rewrite lookup_drop in Hj. apply numbered_lookup in Hj as (a' & Ha' & [= -> <-]).
  rewrite (NoDup_lookup _ _ _ _ (st_nodup _ _ Hst) Hp Ha'). exact Hn.
Qed.

(** C28. A frame with a transmission limit is handed out only while its count is
    below the limit, each hand-over counts one, and no other count moves; a
    retired frame is never handed out. *)
Theorem delivery_counted b i rq A a b' :
  ok b -> own i rq A b -> GetNextToDeliver b = Some (Some a, b') ->
  exists p seq m, seq = seq_at b p /\ ab_msgs b' !! a = Some m /\ SeqNum m = seq /\ (seq ∉ ab_retired b) /\
    (forall e, e ∈ ab_receipts b -> te_seq e = seq -> te_max e <> 0 -> te_sends e < te_max e) /\
    ab_receipts b' = (fun e => if decide (te_seq e = seq /\ te_max e <> 0) then e <| te_sends := te_sends e + 1 |> else e)
      <$> ab_receipts b.
Proof.
  intros Hok Ho Hd. destruct (deliver_spec (held b) b i rq A (po_settled _ _ Hok) Ho (po_sendable _ _ Hok)) as (r & b1 & Hd' & Hs & _ & _ & Hdel).
  rewrite Hd in Hd'. injection Hd' as <- <-. pose proof (so_ok _ _ (po_settled _ _ Hok)) as [Hw Hst _ _ Htr _].
  inversion Hdel as [|p a0 a' m b1 Hfr Hp Hpa Hle Hn Hm Hsq Ha' Hrc]; subst.
  pose proof (w_free _ _ Hw) as Hf. pose proof (w_len _ _ Hw) as Hlen. unfold max_slots in Hlen. apply lookup_lt_Some in Hpa as Hlt.
  assert (Hoff : forall e, e ∈ ab_receipts b -> off b (te_seq e) = Z.of_nat p <-> te_seq e = seq_at b (Z.of_nat p)).
  { intros e [Hu _]%(tr_window _ Htr). split; [|intros ->; apply off_seq_at; split; lia]. intros <-. symmetry. by apply seq_at_off. }
  assert (Hnr : seq_at b (Z.of_nat p) ∉ ab_retired b) by (by eapply pending_not_retired).
  exists (Z.of_nat p), (seq_at b (Z.of_nat p)), (if decide (a = a0) then m else m <| AckRequested := true |>).
  split; [done|]. split; [|split; [by destruct (decide (a = a0))|split; [done|split]]].
  - destruct Ha' as [(-> & -> & _)|(_ & _ & Hn' & ->)]; [by rewrite decide_True|].
    rewrite lookup_insert_eq, decide_False; [done|]. intros ->. congruence.
  - intros e He Hse Hmax. assert (Hx : exhausted e = false).
    { apply (po_sendable _ _ Hok); [done|rewrite (proj2 (Hoff e He) Hse); lia|by rewrite Hse]. }
    apply bool_decide_eq_false in Hx. lia.
  - rewrite Hrc. apply list_fmap_ext. intros j e He%list_elem_of_lookup_2. unfold counted. apply decide_ext. by rewrite (Hoff e He).
Qed.

(** ** Shutdown *)

(** C30. [Close] returns the whole charge and the registration to the budget,
    keeps the messages for [GetUnAcked], and a second one changes nothing. *)
Theorem close_returns_all b i rq A :
  ok b -> own i rq A b ->
  exists b', Close b = Some b' /\ ok b' /\ BufferedBytes b' = 0 /\ ab_isRunning b' = false /\
    sb_holds (<[i := Account (ab_group b) false 0 0 rq]> A) (ab_shared b') /\
    GetUnAcked b' = GetUnAcked b /\ Close b' = Some b'.
Proof.
  intros Hok Ho. destruct (Close_spec (held b) b i rq A Hok Ho) as (s & Hc & _ & Hpub & Ho').
  exists (closed_buffer s b). split; [done|]. split; [by eapply public_ok_held|]. split; [done|]. split; [done|]. split; [exact Ho'|].
  split; [|reflexivity]. pose proof (so_ok _ _ (po_settled _ _ Hok)) as [Hw _ _ Hre _ _].
  pose proof (so_ok _ _ (po_settled _ _ Hpub)) as [Hw' _ _ Hre' _ _].
  by rewrite (GetUnAcked_spec _ _ Hw Hre), (GetUnAcked_spec _ _ Hw' Hre').
Qed.

(** When a drain gives up, its error counts exactly the messages of
    [GetUnAcked] and carries the numbers of the first and of the last of them; it
    reports success exactly when nothing is retained, and otherwise waits. *)
Theorem drain_report b done l :
  ok b -> GetUnAcked b = Some (Some <$> l) ->
  exists r b', drain_turn done b = Some (r, b') /\
    match r with
    | DrainDone => l = [] /\ b' = b
    | DrainFailed e => b' = b /\ ab_isClosed b || done = true /\ Err e = (if ab_isClosed b then ErrorClosed else ErrorContext) /\
        Unacked e = Z.of_nat (length l) /\
        exists m1 m2, head l ≫= (ab_msgs b !!.) = Some m1 /\ last l ≫= (ab_msgs b !!.) = Some m2 /\
          FirstSeq e = SeqNum m1 /\ LastSeq e = SeqNum m2
    | DrainWait c => ab_isClosed b || done = false /\ l <> [] /\ ab_wake b' = Some c /\ ab_chans b' !! c = Some false
    end.
Proof.
  intros Hok Hl. pose proof (so_ok _ _ (po_settled _ _ Hok)) as [Hw _ _ Hre _ _].
  rewrite (GetUnAcked_spec _ _ Hw Hre) in Hl. injection Hl as Hl. apply list_fmap_eq_inj in Hl; [|by intros ? ? [= ->]]. subst l.
  destruct (drain_turn_spec (held b) b done (po_settled _ _ Hok)) as (r & b' & Hd & Hpost). exists r, b'. split; [done|].
  destruct Hpost as [Hnil|e a1 a2 m1 m2 H1 H2 H3 H4 H5 H6 H7 H8 H9|wake b' Hne Hn Hs].
  - split; [|done]. unfold live. by rewrite Hnil.
  - split; [done|]. split; [done|]. split; [done|]. split; [done|]. exists m1, m2. by rewrite H1, H2.
  - destruct (sampleWake_spec _ _ Hok) as (c & b2 & Hs2 & _ & Hwk & Hch & _). rewrite Hs in Hs2. injection Hs2 as <- <-.
    split; [done|]. split; [|done]. destruct (held b) as [|a ms] eqn:Hh; [done|]. unfold live. simpl.
    rewrite decide_False; [done|]. apply (so_head _ _ (po_settled _ _ Hok)). pose proof (w_free _ _ Hw) as Hf.
    simpl in Hf. lia.
Qed.

(** ** Window *)

(** C31. [UpdateCapacity] sets the window, asks for an acknowledgement every half
    window, opens admission exactly when there is room, and keeps the backing
    array at the larger of the window and what is retained; no message is lost.  A window that no
    allocation can hold is a run-time panic. *)
Theorem capacity_bounds b cap :
  ok b -> 0 <= cap -> cap <> ab_currentCapacity b ->
  if decide (cap > max_slots) then UpdateCapacity cap b = None else
  exists b', UpdateCapacity cap b = Some b' /\ ok b' /\ GetCurrentCapacity b' = cap /\
    ab_ackEvery b' = Z.max 1 (cap / 2) /\ IsSet (ab_isAvailable b') = bool_decide (ab_nextIndexFree b < cap) /\
    Z.of_nat (length (ab_buff b')) = Z.max cap (Z.max (ab_nextIndexFree b) 1) /\ GetUnAcked b' = GetUnAcked b.
Proof.
  intros Hok Hcap Hne. destruct (decide (cap > max_slots)) as [Hbig|Hsm].
  { by eapply UpdateCapacity_panic; [apply ok_win|]. }
  destruct (UpdateCapacity_spec (held b) b cap Hok ltac:(lia) Hne) as (len & av & Hu & Hlen & Hav & Hpub).
  eexists. split; [exact Hu|]. split; [by eapply public_ok_held|]. split; [done|]. split; [done|]. split; [apply Hav|].
  pose proof (so_ok _ _ (po_settled _ _ Hok)) as [Hw _ _ Hre _ _]. pose proof (so_ok _ _ (po_settled _ _ Hpub)) as [Hw' _ _ Hre' _ _].
  split; [simpl; rewrite slots_length; [done|]; pose proof (w_free _ _ Hw); lia|].
  by rewrite (GetUnAcked_spec _ _ Hw Hre), (GetUnAcked_spec _ _ Hw' Hre').
Qed.

(** C32. Both code paths of [GetUnAcked] return the live frames of the window in
    order: those handed out and not acknowledged, then those still to hand out,
    without the retired ones. *)
Theorem unacked_exact b :
  ok b -> GetUnAcked b = Some (Some ∘ snd <$> sent b ++ todo b) /\ NoDup (sent b ++ todo b).*2 /\
    (forall f, f ∈ sent b ++ todo b -> exists m, ab_msgs b !! f.2 = Some m /\ SeqNum m = f.1).
Proof.
  intros Hok. pose proof (so_ok _ _ (po_settled _ _ Hok)) as [Hw Hst _ Hre _ _].
  rewrite (GetUnAcked_spec _ _ Hw Hre), list_fmap_compose, (frames_live _ _ Hw). split; [done|]. split.
  - unfold live. generalize (ab_firstSeqNum b). pose proof (st_nodup _ _ Hst) as Hnd. revert Hnd. generalize (held b).
    intros ms Hnd. induction Hnd as [|a ms Ha Hnd IH]; intros s; simpl; [constructor|].
    destruct (decide (s ∈ ab_retired b)); [apply IH|]. constructor; [|apply IH]. intros Hin. apply Ha. revert Hin.
    clear. generalize (add64 s 1). induction ms as [|x ms IH]; intros s'; simpl; [done|].
    destruct (decide (s' ∈ ab_retired b)); rewrite ?elem_of_cons; naive_solver.
  - intros f. rewrite sent_todo. unfold live_frames. intros [_ Hf]%list_elem_of_filter.
    destruct (frame_number _ _ _ Hw Hst Hf) as (m & ? & ?). by exists m.
Qed.

(** ** Draining *)

(** While a buffer drains, the last frame it hands out asks for an
    acknowledgement: it is a copy of the retained message with the request set,
    and the retained message itself is left alone. *)
Theorem drain_asks_ack b i rq A a b' :
  ok b -> own i rq A b -> ab_isRunning b = false -> GetNextToDeliver b = Some (Some a, b') -> todo b' = [] ->
  exists a0 m, last (sent b').*2 = Some a0 /\ ab_msgs b !! a0 = Some m /\ ab_msgs b' !! a0 = Some m /\
    ab_msgs b' !! a = Some (m <| AckRequested := true |>).
Proof.
  intros Hok Ho Hrun Hd Ht. destruct (deliver_spec (held b) b i rq A (po_settled _ _ Hok) Ho (po_sendable _ _ Hok))
    as (r & b1 & Hd' & Hs & _ & _ & Hdel). rewrite Hd in Hd'. injection Hd' as <- <-.
  pose proof (so_ok _ _ Hs) as [Hw' _ _ _ _ _].
  inversion Hdel as [|p a0 a' m b1 Hfr Hp Hpa Hle Hn Hm Hsq Ha' Hrc]; subst.
  assert (Hp' : pending (held b) b' = []) by (rewrite <-(todo_pending _ _ Hw'), Ht; done).
  destruct Ha' as [(_ & _ & [?|?])|(_ & _ & Hfresh & Hmsgs)]; [congruence|done|].
  assert (Hlast : last (sent b').*2 = Some a0).
  { pose proof (frames_live _ _ Hw') as Hl'. pose proof (frames_live _ _ (ok_win b Hok)) as Hl.
    assert (Hsame : live (held b) b' = live (held b) b) by (unfold live; by rewrite Hfr).
    rewrite Hsame, <-Hl, Ht, app_nil_r, fmap_app, (todo_pending _ _ (ok_win b Hok)), Hp, Hp' in Hl'.
    change (last (snd <$> sent b') = Some a0). by rewrite Hl', last_app. }
  exists a0, m. split; [done|]. split; [done|]. rewrite Hmsgs. split; [|apply lookup_insert_eq].
  rewrite lookup_insert_ne; [done|]. congruence.
Qed.

(** ** Admission *)

Lemma live_added b b' e :
  ok b -> public_ok (held b ++ [e]) b' -> ab_retired b' = ab_retired b -> ab_firstSeqNum b' = ab_firstSeqNum b ->
  live (held b ++ [e]) b' = live (held b) b ++ [e].
Proof.
  intros Hok Hpub Hr Hf. unfold live. rewrite Hr, Hf. pose proof (ok_win b Hok) as Hw. pose proof (w_free _ _ Hw) as Hfree.
  pose proof (w_len _ _ Hw) as Hlen. unfold max_slots in Hlen. rewrite live_list_app by apply Hw. f_equal. simpl.
  rewrite decide_False; [done|]. intros [_ Hoff]%(re_window _ (bo_retired _ _ (so_ok _ _ (po_settled _ _ Hok)))).
  fold (seq_at b (Z.of_nat (length (held b)))) in Hoff. rewrite off_seq_at in Hoff by (split; lia). lia.
Qed.

(** The ACK request on a new frame: the caller's own, one every [ackEvery]
    numbers, one when the message is over the limit of the client or was admitted
    over that of the budget, and one per step of bytes while half of a limit is in
    use. *)
Definition asks_ack (m : DataMessage) (size : Z) (forced : bool) (step : Z) b : Prop :=
  AckRequested m = true \/ ab_nextSeqNum b mod ab_ackEvery b = 0 \/ forced = true \/
  (step <> 0 /\ step <= add64 (ab_bytesSinceFlag b) size).

Lemma stamped_asks m forced step size b :
  AckRequested (stamped m forced step size b) = true <-> asks_ack m size forced step b.
Proof.
  unfold stamped, asks_ack. destruct (_ || _ || _) eqn:E.
  - rewrite !orb_true_iff, !bool_decide_eq_true in E. split; [|done]. intros _.
    destruct E as [[?|?]|[? ?]]; [by right; left|by right; right; left|right; right; right; split; [done|lia]].
  - rewrite !orb_false_iff, !bool_decide_eq_false in E. destruct E as [[? ?] Hs]. split; [by left|].
    intros [?|[?|[?|[? ?]]]]; [done|done|congruence|]. destruct Hs. split; [done|lia].
Qed.

(** C29. An admission attempt never panics.  It is refused only while the window
    is full, or an ACK request is pending and the byte limit would be exceeded or
    the request waits for the shared budget, and then changes nothing but the
    queue of the budget.  Otherwise the message is appended with the next number
    and keeps its contents; it asks for an ACK exactly when the caller did, when
    its number is due, when it exceeds the limit of the client or the budget
    reports it as an overshoot, or when the step of bytes under pressure is
    reached; and its size is charged to the buffer and to the account of the
    client with the budget, an overshoot of a grouped budget with its escape
    bytes. *)
Theorem admission b e m size waiter receipt maxT i rq A l :
  ok b -> own i rq A b -> op_guard (OpAdd e size waiter receipt maxT) rq (<[i := acct rq b]> A) b = true ->
  ab_isRunning b = true -> ab_msgs b !! e = Some m -> GetUnAcked b = Some l ->
  exists ok' w' b', tryAddWithReceiptLocked e size waiter receipt maxT b = Some (ok', w', b') /\ ok b' /\
    if ok' : bool then
      ab_nextIndexFree b < ab_currentCapacity b /\ w' = None /\ GetUnAcked b' = Some (l ++ [Some e]) /\
      ab_bytes b' = (if ab_accounting b then ab_bytes b + size else ab_bytes b) /\
      sb_holds (<[i := acct (ended waiter rq) b']> A) (ab_shared b') /\
      (ab_accounting b = true -> over_limit size b = true -> heldFlagged b = false) /\
      exists m' forced step, ab_msgs b' !! e = Some m' /\
        m' = m <| SeqNum := ab_nextSeqNum b |> <| AckRequested := AckRequested m' |> /\
        (AckRequested m' = true <-> asks_ack m size forced step b) /\
        (if ab_accounting b
         then admission_answer size waiter forced step (ab_escapeSeq b') (ab_escapeBytes b') (ab_shared b') b
         else forced = false /\ step = 0 /\ ab_shared b' = ab_shared b)
    else
      b' = b <| ab_shared := ab_shared b' |> /\ refusal size w' b.
Proof.
  intros Hok Ho Hg Hrun Hm Hl.
  destruct (guard_add e size waiter receipt maxT i rq A b Hok Hg Hrun) as (m0 & Hrq & Hsz & Hca).
  assert (m0 = m) as -> by (pose proof (ca_msg _ _ _ _ _ _ Hca); congruence). pose proof (so_ok _ _ (po_settled _ _ Hok)) as [Hw _ _ Hre _ _].
  destruct (tryAdd_spec (held b) b e m size waiter receipt maxT i rq A) as (k & w' & b' & Ht & Hpost); [done|done|apply lenient_safe|done..|].
  exists k, w', b'. split; [done|]. rewrite (GetUnAcked_spec _ _ Hw Hre) in Hl. injection Hl as <-.
  destruct Hpost as [w' rq' s Hwhy Hp Hleft Ho'|x forced step Hlt Hx Hmsg Hpub Ho'].
  - split; [by apply ok_shared|]. by split.
  - split; [by eapply public_ok_held|]. split; [done|]. split; [done|].
    set (b' := added (held b) e size receipt maxT x b) in *.
    assert (Hfields : ab_firstSeqNum b' = ab_firstSeqNum b /\ ab_retired b' = ab_retired b /\
      ab_bytes b' = (if ab_accounting b then ab_bytes b + size else ab_bytes b) /\ ab_msgs b' = <[e := sl_msg x]> (ab_msgs b) /\
      ab_escapeSeq b' = sl_escapeSeq x /\ ab_escapeBytes b' = sl_escapeBytes x /\ ab_shared b' = sl_shared x).
    { unfold b', added. by destruct receipt. }
    destruct Hfields as (F1 & F2 & F3 & F4 & F5 & F6 & F7). split; [|split; [done|split; [exact Ho'|]]].
    { pose proof (so_ok _ _ (po_settled _ _ Hpub)) as [Hw' _ _ Hre' _ _]. rewrite (GetUnAcked_spec _ _ Hw' Hre').
      by rewrite (live_added b b' e Hok Hpub F2 F1), fmap_app. }
    split.
    { intros Ha Hov. destruct (so_admitted _ _ _ _ _ _ _ _ _ Hx) as [[_ Had]|[? _]]; [|congruence].
      apply bool_decide_eq_true in Hov as [? ?]. by apply (am_forced _ _ _ _ _ _ _ _ _ _ _ Had). }
    exists (sl_msg x), forced, step. rewrite F4, F5, F6, F7, lookup_insert_eq. split; [done|]. rewrite Hmsg.
    split; [apply stamped_payload|]. split; [apply stamped_asks|].
    destruct (so_admitted _ _ _ _ _ _ _ _ _ Hx) as [[-> Had]|(-> & _ & _ & -> & ? & ?)]; [apply Had|done].
Qed.
End methods.

(** ** The memory of released retired frames *)

(** The numbers of [l] entered one after the other. *)
Fixpoint ring_add_all (l : list Z) (r : releasedRetiredRing) : option releasedRetiredRing :=
  match l with
  | [] => Some r
  | x :: l => r ← ring_add x r; ring_add_all l r
  end.

(** The ring after the numbers [l]: slot [k mod 64] holds the [k]th number. *)
Record ring_of (l : list Z) (r : releasedRetiredRing) : Prop := {
  ri_len : Z.of_nat (length (rr_seqs r)) = 64;
  ri_n : rr_n r = Z.min 64 (Z.of_nat (length l));
  ri_next : rr_next r = Z.of_nat (length l) mod 64;
  ri_slot k x : l !! k = Some x -> Z.of_nat (length l) - 64 <= Z.of_nat k -> rr_seqs r !! Z.to_nat (Z.of_nat k mod 64) = Some x;
}.

Lemma ring_add_of l r x : ring_of l r -> exists r', ring_add x r = Some r' /\ ring_of (l ++ [x]) r'.
Proof.
  intros [R1 R2 R3 R4]. pose proof (Z.mod_pos_bound (Z.of_nat (length l)) 64 ltac:(lia)) as Hm.
  unfold ring_add, releasedRetiredMemory. rewrite zset_Some by (rewrite R3; lia). rewrite bind_ret.
  eexists. split; [reflexivity|]. split; simpl.
  - by rewrite length_insert.
  - rewrite length_app, R2. simpl. destruct (decide (Z.min 64 (Z.of_nat (length l)) < 64)); lia.
  - rewrite length_app, R3. simpl. rewrite Nat2Z.inj_add, Zplus_mod_idemp_l. done.
  - intros k y Hk Hge. rewrite length_app in Hge. simpl in Hge. rewrite R3.
    apply lookup_app_Some in Hk as [Hk|[Hlen Hk]].
    + pose proof (lookup_lt_Some _ _ _ Hk). rewrite list_lookup_insert_ne; [apply R4; [done|lia]|].
      pose proof (Z.mod_pos_bound (Z.of_nat k) 64 ltac:(lia)). intros Heq. assert (Heq' : Z.of_nat (length l) mod 64 = Z.of_nat k mod 64) by lia.
      pose proof (Z.div_mod (Z.of_nat (length l)) 64 ltac:(lia)). pose proof (Z.div_mod (Z.of_nat k) 64 ltac:(lia)). lia.
    + apply list_lookup_singleton_Some in Hk as [Hk <-]. replace k with (length l) by lia. apply list_lookup_insert_eq. lia.
Qed.

Lemma ring_has_of l r seq :
  ring_of l r -> ring_has seq r = true <-> seq ∈ drop (length l - 64) l.
Proof.
  intros [R1 R2 R3 R4]. unfold ring_has. rewrite bool_decide_eq_true. split.
  - intros [j Hj]%list_elem_of_lookup. apply lookup_take_Some in Hj as [Hj Hlt]. rewrite R2 in Hlt.
    set (n := Z.of_nat (length l)) in *. set (d := (n - 1 - Z.of_nat j) mod 64).
    pose proof (Z.mod_pos_bound (n - 1 - Z.of_nat j) 64 ltac:(lia)) as Hd. fold d in Hd.
    assert (Hdn : d <= n - 1).
    { destruct (decide (n <= 64)); [unfold d; rewrite Z.mod_small; lia|lia]. }
    destruct (lookup_lt_is_Some_2 l (Z.to_nat (n - 1 - d))) as [x Hx]; [lia|].
    assert (Hmod : (n - 1 - d) mod 64 = Z.of_nat j).
    { unfold d. rewrite Zminus_mod_idemp_r. replace (n - 1 - (n - 1 - Z.of_nat j)) with (Z.of_nat j) by lia. apply Z.mod_small.
      pose proof (lookup_lt_Some _ _ _ Hj). lia. }
    pose proof (R4 _ x Hx ltac:(lia)) as Hs. rewrite Z2Nat.id, Hmod, Nat2Z.id in Hs by lia.
    assert (x = seq) as <- by congruence. apply list_elem_of_lookup. exists (Z.to_nat (n - 1 - d) - (length l - 64))%nat.
    rewrite lookup_drop. etrans; [|exact Hx]. f_equal. lia.
  - intros [j Hj]%list_elem_of_lookup. rewrite lookup_drop in Hj. pose proof (lookup_lt_Some _ _ _ Hj) as Hlt.
    pose proof (R4 _ seq Hj ltac:(lia)) as Hs. apply list_elem_of_lookup. eexists. apply lookup_take_Some. split; [exact Hs|].
    rewrite R2. pose proof (Z.mod_pos_bound (Z.of_nat (length l - 64 + j)) 64 ltac:(lia)).
    destruct (decide (length l <= 64)%nat); [|lia]. rewrite Z.mod_small by lia. lia.
Qed.

(** The ring remembers exactly the last 64 numbers entered, in whatever
    order and number they come. *)
Theorem ring_recent l :
  exists r, ring_add_all l newRing = Some r /\ forall seq, ring_has seq r = true <-> seq ∈ drop (length l - 64) l.
Proof.
  assert (Hall : forall l2 l1 r, ring_of l1 r -> exists r', ring_add_all l2 r = Some r' /\ ring_of (l1 ++ l2) r').
  { induction l2 as [|x l2 IH]; intros l1 r Hr; simpl; [exists r; by rewrite app_nil_r|].
    destruct (ring_add_of l1 r x Hr) as (r1 & -> & Hr1). rewrite bind_ret.
    destruct (IH (l1 ++ [x]) r1 Hr1) as (r2 & -> & Hr2). exists r2. split; [done|]. by rewrite <-app_assoc in Hr2. }
  destruct (Hall l [] newRing) as (r & Hr & Ho); [by split; [| | |intros k x]|]. exists r. split; [done|]. intros seq. by apply ring_has_of.
Qed.

Lemma ack_accepts_witness :
  exists b', Ack 2 a_buffer = Some (None, b') /\ ok b' /\
    exists e, Ack 3 a_buffer = Some (Some e, a_buffer).
Proof.
  destruct (ack_accepts a_buffer 2 0 (cl_calls a_client) (fleet_accounts a_fleet) a_buffer_ok a_buffer_own u64_2
    a_buffer_numbers) as (err & b' & Ha & Hok & _ & Hiff & _).
  assert (Hn : err = None) by (apply Hiff; left; left; vm_compute; split; [discriminate|reflexivity]). subst err.
  exists b'. split; [exact Ha|]. split; [exact Hok|].
  destruct (ack_accepts a_buffer 3 0 (cl_calls a_client) (fleet_accounts a_fleet) a_buffer_ok a_buffer_own u64_3
    a_buffer_numbers) as (err & b3 & Ha3 & _ & _ & Hiff3 & _ & Hsame).
  assert (Hno : ~ (ab_firstSeqNum a_buffer <= 3 < ab_firstSeqNum a_buffer + ab_nextIndexToDeliver a_buffer \/
    3 = ab_firstSeqNum a_buffer /\ ab_nextIndexToDeliver a_buffer = 0 /\ ab_nextIndexFree a_buffer <> 0)).
  { intros [[_ Hlt]|[Heq _]]; [vm_compute in Hlt; discriminate Hlt|vm_compute in Heq; discriminate Heq]. }
  destruct err as [e|].
  - exists e. rewrite (Hsame Hno) in Ha3. exact Ha3.
  - exfalso. destruct (proj1 Hiff3 eq_refl) as [Hre|[_ (r & Hr & Hh)]]; [exact (Hno Hre)|]. rewrite (a_buffer_ring 3 r Hr) in Hh. discriminate Hh.
Defined.

Lemma ack_confirms_witness :
  exists b', Ack 2 a_buffer = Some (None, b') /\ ab_cells b' !! 7%nat = Some ReceiptAcknowledged.
Proof.
  assert (Hck : ackCheck 2 a_buffer = None) by (vm_compute; reflexivity).
  destruct (ack_confirms a_buffer 2 0 (cl_calls a_client) (fleet_accounts a_fleet) a_buffer_ok a_buffer_own u64_2 Hck
    (a_buffer_ring 2)) as (b' & Ha & _ & Hc & _).
  exists b'. split; [exact Ha|]. apply (proj1 (Hc 7%nat)).
  assert (He : exists e, e ∈ ab_receipts a_buffer /\ te_state e = 7%nat /\ te_seq e = 2).
  { eexists (TrackedAdmission _ 2 7 1 1). split; [|split; reflexivity]. vm_compute. apply list_elem_of_here. }
  destruct He as (e & He & Hs & Hq). exists e. split; [exact He|]. split; [exact Hs|]. rewrite Hq. split; [apply Z.le_refl|].
  assert (Hr : ab_retired a_buffer = ∅) by (vm_compute; reflexivity). rewrite Hr. apply not_elem_of_empty.
Defined.

Lemma receipts_final_witness :
  exists r calls' b', run_op (OpAck 2) (cl_calls a_client) a_buffer = Some (r, calls', b') /\
    cell_step (ab_cells a_buffer !! 7%nat) (ab_cells b' !! 7%nat).
Proof.
  assert (Hg : op_guard (OpAck 2) (cl_calls a_client) (<[0%nat := acct (cl_calls a_client) a_buffer]> (fleet_accounts a_fleet)) a_buffer = true)
    by (vm_compute; reflexivity).
  destruct (a_buffer_run (OpAck 2) Hg) as (r & calls' & b' & Hr). exists r, calls', b'. split; [exact Hr|].
  exact (receipts_final (OpAck 2) 0 (cl_calls a_client) (fleet_accounts a_fleet) a_buffer r calls' b' 7 a_buffer_ok a_buffer_own Hg Hr).
Defined.

Lemma delivery_counted_witness :
  exists a b', GetNextToDeliver a_buffer = Some (Some a, b') /\
    exists m, ab_msgs b' !! a = Some m /\ SeqNum m ∉ ab_retired a_buffer.
Proof.
  assert (Hd : exists a b', GetNextToDeliver a_buffer = Some (Some a, b')) by (vm_compute; eexists _, _; reflexivity).
  destruct Hd as (a & b' & Hd). exists a, b'. split; [exact Hd|].
  destruct (delivery_counted a_buffer 0 (cl_calls a_client) (fleet_accounts a_fleet) a b' a_buffer_ok a_buffer_own Hd)
    as (p & seq & m & _ & Hm & Hs & Hn & _). exists m. split; [exact Hm|]. rewrite Hs. exact Hn.
Defined.

Lemma close_returns_all_witness :
  BufferedBytes a_buffer = 1800 /\ exists b', Close a_buffer = Some b' /\ BufferedBytes b' = 0.
Proof.
  destruct (close_returns_all a_buffer 0 (cl_calls a_client) (fleet_accounts a_fleet) a_buffer_ok a_buffer_own)
    as (b' & Hc & _ & Hb & _). split; [vm_compute; reflexivity|]. exists b'. split; [exact Hc|exact Hb].
Defined.

Lemma capacity_bounds_witness :
  UpdateCapacity (2 ^ 60) a_buffer = None /\
  exists b', UpdateCapacity 2 a_buffer = Some b' /\ Z.of_nat (length (ab_buff b')) = 3 /\ IsSet (ab_isAvailable b') = false.
Proof.
  assert (Hc : ab_currentCapacity a_buffer = 10) by (vm_compute; reflexivity).
  assert (Hne : 2 <> ab_currentCapacity a_buffer) by (rewrite Hc; lia).
  assert (Hne' : 2 ^ 60 <> ab_currentCapacity a_buffer) by (rewrite Hc; lia).
  pose proof (capacity_bounds a_buffer 2 a_buffer_ok ltac:(lia) Hne) as H2.
  pose proof (capacity_bounds a_buffer (2 ^ 60) a_buffer_ok ltac:(lia) Hne') as H60.
  rewrite decide_True in H60 by (unfold max_slots; lia). rewrite decide_False in H2 by (unfold max_slots; lia).
  split; [exact H60|]. destruct H2 as (b' & Hu & _ & _ & _ & Hav & Hlen & _). exists b'. split; [exact Hu|].
  rewrite Hlen, Hav. split; vm_compute; reflexivity.
Defined.

Lemma unacked_exact_witness : GetUnAcked a_buffer = Some (Some ∘ snd <$> sent a_buffer ++ todo a_buffer).
Proof. exact (proj1 (unacked_exact a_buffer a_buffer_ok)). Defined.

Lemma drain_asks_ack_witness :
  exists a b' m, GetNextToDeliver a_draining = Some (Some a, b') /\ ab_msgs b' !! a = Some m /\ AckRequested m = true.
Proof.
  destruct a_draining_ok as [Hok Ho].
  assert (Hr : ab_isRunning a_draining = false) by (vm_compute; reflexivity).
  assert (Ht : match GetNextToDeliver a_draining with Some (Some _, b') => todo b' = [] | _ => False end) by (vm_compute; reflexivity).
  destruct (GetNextToDeliver a_draining) as [[[a|] b']|] eqn:Hd; [|contradiction..].
  destruct (drain_asks_ack a_draining 0 (cl_calls a_draining_client) (fleet_accounts a_draining_fleet) a b' Hok Ho Hr Hd Ht)
    as (a0 & m & _ & _ & _ & Hm). exists a, b', (m <| AckRequested := true |>). split; [reflexivity|]. split; [exact Hm|reflexivity].
Defined.

Lemma admission_witness :
  exists ok' w' b', tryAddWithReceiptLocked 5 600 None (Some 9%nat) 2 a_buffer = Some (ok', w', b') /\ ok b'.
Proof.
  assert (Hg : op_guard (OpAdd 5 600 None (Some 9%nat) 2) (cl_calls a_client)
    (<[0%nat := acct (cl_calls a_client) a_buffer]> (fleet_accounts a_fleet)) a_buffer = true) by (vm_compute; reflexivity).
  assert (Hr : ab_isRunning a_buffer = true) by (vm_compute; reflexivity).
  assert (Hl : GetUnAcked a_buffer = Some (Some <$> [0; 1; 2]%nat)) by (vm_compute; reflexivity).
  assert (Hm : is_Some (ab_msgs a_buffer !! 5%nat)) by (vm_compute; eexists; reflexivity). destruct Hm as [m Hm].
  destruct (admission a_buffer 5 m 600 None (Some 9%nat) 2 0 _ _ _ a_buffer_ok a_buffer_own Hg Hr Hm Hl)
    as (ok' & w' & b' & Ha & Hok & _). exists ok', w', b'. split; [exact Ha|exact Hok].
Defined.
