(* ===== verification/AckCall.v ===== *)
(** * Blocking admissions

    [addWithReceipt] from its entry to its return, as a process that interleaves
    with everything else the clients do: its turns under the lock of the buffer,
    the deadline and the timer, the select on the two wake channels, and the
    deferred [cancel].  [calls] is a fleet with the calls that run in it. *)

From S2P Require Import Prelude ByteBudget Event Protocol SharedBudget AckBuffer AckInv AckRemove AckReceipts AckRetire AckDeliver AckAdmit AckMethods AckFleet AckWindow AckFlags.

(** ** The process *)

(** Where a call stands. *)
Inductive call_point :=
  (** at the head of the loop *)
  | CallTurn
  (** refused and unlocked, with the sampled wake channel *)
  | CallTime (localWake : chan)
  (** in [onBackPressure], before the timer is set *)
  | CallPressure (localWake : chan)
  | CallSelect (localWake : chan)
  (** before [timeoutErr] *)
  | CallExpired
  (** returning, before the deferred [cancel] *)
  | CallUnwind (err : option usp_error)
  | CallReturned (err : option usp_error).

#[projections(primitive)] Record addCall := AddCall {
  ac_client : nat;
  ac_message : maddr;
  ac_size : Z;
  ac_receipt : option cell;
  ac_max : Z;
  (** [deadlineC], absent when it is the zero time *)
  ac_deadline : option Z;
  (** whether [timer] was set *)
  ac_timer : bool;
  ac_waiter : option wid;
  ac_point : call_point;
}.
#[export] Instance addCall_eta : Eta addCall := fun a =>
  AddCall (ac_client a) (ac_message a) (ac_size a) (ac_receipt a) (ac_max a) (ac_deadline a) (ac_timer a) (ac_waiter a) (ac_point a).
#[export] Instance set_ac_timer : Setter ac_timer := ltac:(make_setter).
#[export] Instance set_ac_waiter : Setter ac_waiter := ltac:(make_setter).
#[export] Instance set_ac_point : Setter ac_point := ltac:(make_setter).

(** The case a select takes. *)
Inductive select_case := LocalWake | PoolWake | TimerFired.

Section calls.
Context {B : Type} `{HB : LenientLaws B}.
Implicit Types (b : AckBuffer B) (F : fleet B) (a : addCall).

(** The entry of [addWithReceipt]: a nil message is refused at once. *)
Definition addWithReceipt (h : jheap) (now : Z) (i : nat) (e : option maddr) (timeout : Z) (receipt : option cell)
    (maxTransmissions : Z) F : option (usp_error + addCall) :=
  match e with
  | None => Some (inl ErrorBufferFull)
  | Some e =>
      c ← fl_clients F !! i;
      m ← ab_msgs (cl_buf c) !! e;
      let deadline := if decide (timeout <> 0) then Some (now + timeout) else None in
      Some (inr (AddCall i e (addSize h m (cl_buf c)) receipt maxTransmissions deadline false None CallTurn))
  end.

(** [add]: no receipt and no transmission limit; [Add] says whether it succeeded. *)
Definition add (h : jheap) (now : Z) (i : nat) (e : option maddr) (timeout : Z) F : option (usp_error + addCall) :=
  addWithReceipt h now i e timeout None 0 F.
Definition Add (err : option usp_error) : bool := match err with None => true | Some _ => false end.

(** Client [i] with its buffer and queued requests replaced. *)
Definition fleet_set (i : nat) b (rq : gmap wid Z) F : fleet B := Fleet (ab_shared b) (<[i := Client b rq]> (fl_clients F)).

(** One step of a call at time [now]; [case] is what the select takes.  The timer
    was set for what was left of the deadline, so it fires no earlier. *)
Definition call_step (now : Z) (case : select_case) a F : option (addCall * fleet B) :=
  c ← fl_clients F !! ac_client a;
  let b := view F c in
  match ac_point a with
  | CallTurn =>
      '(r, waiter, b) ← add_turn (ac_message a) (ac_size a) (ac_waiter a) (ac_receipt a) (ac_max a) b;
      let F := fleet_set (ac_client a) b (left_calls (ac_size a) (ac_waiter a) waiter (cl_calls c)) F in
      let a := a <| ac_waiter := waiter |> in
      Some (a <| ac_point := match r with AddReturn err => CallUnwind err | AddBlock localWake => CallTime localWake end |>, F)
  | CallTime localWake =>
      Some (a <| ac_point :=
        match ac_deadline a with
        | None => CallSelect localWake
        | Some deadline => if decide (deadline - now <= 0) then CallExpired else CallPressure localWake
        end |>, F)
  | CallPressure localWake => Some (a <| ac_timer := true |> <| ac_point := CallSelect localWake |>, F)
  | CallSelect localWake =>
      match case with
      | LocalWake =>
          if bool_decide (ab_chans b !! localWake = Some true) then Some (a <| ac_point := CallTurn |>, F) else None
      | PoolWake =>
          w ← ac_waiter a;
          if sb_woken w (fl_budget F) then Some (a <| ac_point := CallTurn |>, F) else None
      | TimerFired =>
          deadline ← ac_deadline a;
          if ac_timer a && bool_decide (deadline <= now) then Some (a <| ac_point := CallExpired |>, F) else None
      end
  | CallExpired => Some (a <| ac_point := CallUnwind (Some (timeoutErr b)) |>, F)
  | CallUnwind err =>
      b ← cancelShared (ac_waiter a) b;
      Some (a <| ac_waiter := None |> <| ac_point := CallReturned err |>,
        fleet_set (ac_client a) b (ended (ac_waiter a) (cl_calls c)) F)
  | CallReturned _ => None
  end.

(** ** All calls *)

Record calls := Calls { cs_now : Z; cs_fleet : fleet B; cs_calls : gmap nat addCall }.

(** The operations that are not part of a call of [addWithReceipt]. *)
Definition other_op (o : op) : bool := match o with OpAdd _ _ _ _ _ | OpCancel _ => false | _ => true end.

(** What the caller of [addWithReceipt] guarantees at a turn: see [op_guard].
    That its waiter is queued is not assumed. *)
Definition turn_guard a F : bool :=
  match fl_clients F !! ac_client a with
  | Some c =>
      let o := OpAdd (ac_message a) (ac_size a) None (ac_receipt a) (ac_max a) in
      negb (ab_isRunning (cl_buf c)) || op_guard o (cl_calls c) (fleet_accounts F) (view F c) && number_guard o (view F c)
  | None => false
  end.

Definition at_turn a : bool := match ac_point a with CallTurn => true | _ => false end.

Inductive calls_step (S : calls) : calls -> Prop :=
  | cs_tick now : cs_now S <= now -> calls_step S (Calls now (cs_fleet S) (cs_calls S))
  | cs_join i maxBytes key F :
      fl_clients (cs_fleet S) !! i = None -> sb_joinable key (fl_budget (cs_fleet S)) ->
      Z.of_nat (size (fl_clients (cs_fleet S))) < 2 ^ 62 -> is_u64 maxBytes ->
      fleet_join i maxBytes key (cs_fleet S) = Some (inr F) -> calls_step S (Calls (cs_now S) F (cs_calls S))
  | cs_other i o r F :
      other_op o = true -> fleet_guard i o (cs_fleet S) = true -> fleet_op i o (cs_fleet S) = Some (r, F) ->
      calls_step S (Calls (cs_now S) F (cs_calls S))
  | cs_start k h i e timeout receipt maxT a :
      cs_calls S !! k = None -> addWithReceipt h (cs_now S) i e timeout receipt maxT (cs_fleet S) = Some (inr a) ->
      calls_step S (Calls (cs_now S) (cs_fleet S) (<[k := a]> (cs_calls S)))
  | cs_move k case a a' F :
      cs_calls S !! k = Some a -> (at_turn a = true -> turn_guard a (cs_fleet S) = true) ->
      call_step (cs_now S) case a (cs_fleet S) = Some (a', F) ->
      calls_step S (Calls (cs_now S) F (<[k := a']> (cs_calls S))).

Inductive calls_reachable (s0 : B) : calls -> Prop :=
  | calls_init now : calls_reachable s0 (Calls now (Fleet s0 ∅) ∅)
  | calls_next S S' : calls_reachable s0 S -> calls_step S S' -> calls_reachable s0 S'.
End calls.

Arguments calls B : clear implicits.
