(* ===== verification/AckCallInv.v ===== *)
(** * The invariant of blocking admissions

    Every call that waits does so with its reason standing or its wake channel
    closed, its queued request is its own, and no request is queued without a
    call that waits for it. *)

From S2P Require Import Prelude ByteBudget Event Protocol SharedBudget AckBuffer AckInv AckRemove AckReceipts AckRetire AckDeliver AckAdmit AckMethods AckFleet AckWindow AckFlags AckCall.

Section invariant.
Context {B : Type} `{HB : LenientLaws B}.
Implicit Types (b : AckBuffer B) (F : fleet B) (a : addCall) (S : calls B).

(** The call waits on [c]: it was closed, or the attempt would be refused again. *)
Definition waiting_ok b a (c : chan) : Prop :=
  ab_chans b !! c = Some true \/ (ab_wake b = Some c /\ ab_isRunning b = true /\ refusal (ac_size a) (ac_waiter a) b).

Definition late (now : Z) a : Prop := exists deadline, ac_deadline a = Some deadline /\ deadline <= now.

Definition point_ok (now : Z) b a : Prop :=
  match ac_point a with
  | CallTurn => True
  | CallTime c | CallPressure c => waiting_ok b a c
  | CallSelect c => waiting_ok b a c /\ (ac_deadline a <> None -> ac_timer a = true)
  | CallExpired => late now a
  | CallUnwind err => err = Some ErrorBufferFull -> late now a
  | CallReturned err => ac_waiter a = None /\ (err = Some ErrorBufferFull -> late now a)
  end.

Record calls_ok S : Prop := {
  co_fleet : fleet_ok (cs_fleet S);
  co_flags i c : fl_clients (cs_fleet S) !! i = Some c -> flags_ok (view (cs_fleet S) c);
  co_call k a : cs_calls S !! k = Some a -> exists c, fl_clients (cs_fleet S) !! ac_client a = Some c /\
    point_ok (cs_now S) (view (cs_fleet S) c) a /\ forall w, ac_waiter a = Some w -> cl_calls c !! w = Some (ac_size a);
  co_queued i c w n : fl_clients (cs_fleet S) !! i = Some c -> cl_calls c !! w = Some n ->
    exists k a, cs_calls S !! k = Some a /\ ac_client a = i /\ ac_waiter a = Some w;
  co_owner k k' a a' w : cs_calls S !! k = Some a -> cs_calls S !! k' = Some a' -> ac_client a = ac_client a' ->
    ac_waiter a = Some w -> ac_waiter a' = Some w -> k = k';
}.

(** ** What a call keeps when others move *)

Lemma point_later now now' b a : now <= now' -> point_ok now b a -> point_ok now' b a.
Proof.
  intros Hle. unfold point_ok. assert (Hl : late now a -> late now' a) by (intros (d & ? & ?); exists d; split; [done|lia]).
  destruct (ac_point a); try done; [tauto|]. intros [? ?]. split; [done|tauto].
Qed.

Lemma point_moved now b b' a :
  (forall c, ab_wake b = Some c -> still c b b') -> (forall c, ab_chans b !! c = Some true -> ab_chans b' !! c = Some true) ->
  point_ok now b a -> point_ok now b' a.
Proof.
  intros Hst Hcl. assert (Hw : forall c, waiting_ok b a c -> waiting_ok b' a c).
  { intros c [?|(Hc & Hr & Hwhy)]; [left; by apply Hcl|]. destruct (Hst c Hc) as [?|[? Hcalm]]; [by left|right].
    split_and!; [done|by rewrite (cm_running _ _ Hcalm)|by eapply refusal_calm]. }
  unfold point_ok. destruct (ac_point a); auto. intros [? ?]. auto.
Qed.

(** Another client moved the budget. *)
Lemma budget_calm b s : sb_present s = sb_present (ab_shared b) -> calm b (b <| ab_shared := s |>).
Proof. intros. by apply calm_frame. Qed.

Lemma point_budget now b s a : sb_present s = sb_present (ab_shared b) -> point_ok now b a -> point_ok now (b <| ab_shared := s |>) a.
Proof.
  intros Hp. apply point_moved; [|done]. intros c Hc. right. split; [done|by apply budget_calm].
Qed.

Lemma flags_budget b s : ok b -> sb_present s = sb_present (ab_shared b) -> flags_ok b -> flags_ok (b <| ab_shared := s |>).
Proof. intros Hok Hp. apply same_flags; try done. by apply ok_shared. Qed.

(** ** Moves *)

(** A step of one call that leaves the fleet as it is. *)
Lemma calls_retag S k a a' :
  calls_ok S -> cs_calls S !! k = Some a -> ac_client a' = ac_client a -> ac_size a' = ac_size a -> ac_waiter a' = ac_waiter a ->
  (forall c, fl_clients (cs_fleet S) !! ac_client a = Some c -> point_ok (cs_now S) (view (cs_fleet S) c) a') ->
  calls_ok (Calls (cs_now S) (cs_fleet S) (<[k := a']> (cs_calls S))).
Proof.
  intros [H1 H2 H3 H4 H5] Hk Hcl Hsz Hwt Hp. split; simpl; [done|done|..].
  - intros k' a0 [[<- <-]|[Hne Hk']]%lookup_insert_Some; [|by eauto]. destruct (H3 k a Hk) as (c & Hc & _ & Hw).
    exists c. rewrite Hcl, Hsz, Hwt. split_and!; [done|by apply Hp|done].
  - intros i c w n Hc Hn. destruct (H4 i c w n Hc Hn) as (k' & a0 & Hk' & <- & Hw). destruct (decide (k = k')) as [<-|Hne].
    + exists k, a'. rewrite lookup_insert_eq. replace a0 with a in * by congruence. split_and!; [done|done|congruence].
    + exists k', a0. by rewrite lookup_insert_ne.
  - intros k1 k2 a1 a2 w [[<- <-]|[Hne Hk1]]%lookup_insert_Some [[<- <-]|[Hne' Hk2]]%lookup_insert_Some;
      rewrite ?Hcl, ?Hwt; [done|by eauto..].
Qed.

(** Client [i] moved to [b] with the requests [rq]. *)
Record moved S (i : nat) (c : client B) b (rq : gmap wid Z) : Prop := {
  mv_client : fl_clients (cs_fleet S) !! i = Some c;
  mv_ok : ok b;
  mv_own : own i rq (fleet_accounts (cs_fleet S)) b;
  mv_present : sb_present (ab_shared b) = sb_present (fl_budget (cs_fleet S));
  mv_flags : flags_ok b;
  mv_still x : ab_wake (view (cs_fleet S) c) = Some x -> still x (view (cs_fleet S) c) b;
  mv_closed x : ab_chans (view (cs_fleet S) c) !! x = Some true -> ab_chans b !! x = Some true;
}.

Lemma view_moved S i c b rq j d :
  moved S i c b rq -> j <> i -> fl_clients (cs_fleet S) !! j = Some d ->
  fl_clients (fleet_set i b rq (cs_fleet S)) !! j = Some d /\
  view (fleet_set i b rq (cs_fleet S)) d = (view (cs_fleet S) d) <| ab_shared := ab_shared b |>.
Proof. intros Hmv Hne Hd. simpl. by rewrite lookup_insert_ne. Qed.

(** The parts of the invariant that do not mention the requests. *)
Lemma moved_fleet S i c b rq : calls_ok S -> moved S i c b rq ->
  fleet_ok (fleet_set i b rq (cs_fleet S)) /\
  (forall j d, fl_clients (fleet_set i b rq (cs_fleet S)) !! j = Some d -> flags_ok (view (fleet_set i b rq (cs_fleet S)) d)) /\
  (forall k a, cs_calls S !! k = Some a -> exists d, fl_clients (fleet_set i b rq (cs_fleet S)) !! ac_client a = Some d /\
     point_ok (cs_now S) (view (fleet_set i b rq (cs_fleet S)) d) a).
Proof.
  intros Hok Hmv. split; [|split].
  - apply fleet_update; [apply Hok|apply Hmv|apply Hmv|apply Hmv].
  - intros j d. destruct (decide (j = i)) as [->|Hne].
    + simpl. rewrite lookup_insert_eq. intros [= <-]. apply Hmv.
    + simpl. rewrite lookup_insert_ne by done. intros Hd.
      apply (flags_budget (view (cs_fleet S) d)); [exact (fo_client _ (co_fleet _ Hok) _ _ Hd)|apply Hmv|exact (co_flags _ Hok _ _ Hd)].
  - intros k a Hk. destruct (co_call _ Hok k a Hk) as (d & Hd & Hp & _). destruct (decide (ac_client a = i)) as [He|Hne].
    + exists (Client b rq). simpl. rewrite He, lookup_insert_eq. split; [done|].
      rewrite He, (mv_client _ _ _ _ _ Hmv) in Hd. injection Hd as <-.
      exact (point_moved _ _ _ _ (mv_still _ _ _ _ _ Hmv) (mv_closed _ _ _ _ _ Hmv) Hp).
    + destruct (view_moved S i c b rq _ d Hmv Hne Hd) as [Hl Hv]. exists d. split; [done|]. rewrite Hv.
      apply point_budget; [apply Hmv|done].
Qed.

(** An operation that is not part of a call. *)
Lemma calls_other S i c b : calls_ok S -> moved S i c b (cl_calls c) ->
  calls_ok (Calls (cs_now S) (fleet_set i b (cl_calls c) (cs_fleet S)) (cs_calls S)).
Proof.
  intros Hok Hmv. destruct (moved_fleet S i c b (cl_calls c) Hok Hmv) as (Hf & Hfl & Hpt). split; [exact Hf|exact Hfl|..]; simpl.
  - intros k a Hk. destruct (Hpt k a Hk) as (d & Hd & Hp). exists d. split_and!; [done|done|]. intros w Hw.
    destruct (co_call _ Hok k a Hk) as (d0 & Hd0 & _ & Hq). simpl in Hd. apply lookup_insert_Some in Hd as [[He <-]|[Hne Hd]].
    + rewrite <-He, (mv_client _ _ _ _ _ Hmv) in Hd0. injection Hd0 as <-. by apply Hq.
    + rewrite Hd in Hd0. injection Hd0 as <-. by apply Hq.
  - intros j d w n [[<- <-]|[Hne Hd]]%lookup_insert_Some Hn; [exact (co_queued _ Hok _ _ _ _ (mv_client _ _ _ _ _ Hmv) Hn)|].
    exact (co_queued _ Hok _ _ _ _ Hd Hn).
  - exact (co_owner _ Hok).
Qed.

(** A turn or the end of a call: its request is handed on. *)
Lemma calls_turn S k a a' c b rq :
  calls_ok S -> cs_calls S !! k = Some a -> moved S (ac_client a) c b rq ->
  ac_client a' = ac_client a -> ac_size a' = ac_size a ->
  request_left (ac_size a) (ac_waiter a) (ac_waiter a') (cl_calls c) rq -> point_ok (cs_now S) b a' ->
  calls_ok (Calls (cs_now S) (fleet_set (ac_client a) b rq (cs_fleet S)) (<[k := a']> (cs_calls S))).
Proof.
  intros Hok Hk Hmv Hcl Hsz Hleft Hp'. set (i := ac_client a) in *.
  destruct (moved_fleet S i c b rq Hok Hmv) as (Hf & Hfl & Hpt). pose proof (mv_client _ _ _ _ _ Hmv) as Hc.
  (* the other calls of the client keep their requests, apart from that of [a] *)
  assert (Hkeep : forall w n, Some w <> ac_waiter a -> cl_calls c !! w = Some n -> Some w <> ac_waiter a' /\ rq !! w = Some n).
  { intros w n Hne Hn. destruct Hleft as [[-> ->]|(w1 & -> & Hor & ->)].
    - split; [done|]. destruct (ac_waiter a) as [w0|]; [|done]. simpl. rewrite lookup_delete_ne by congruence. done.
    - assert (w1 <> w). { intros ->. destruct Hor as [[_ ?]|?]; congruence. }
      split; [congruence|]. by rewrite lookup_insert_ne. }
  assert (Hother : forall k' a0 w, k' <> k -> cs_calls S !! k' = Some a0 -> ac_client a0 = i -> ac_waiter a0 = Some w -> Some w <> ac_waiter a).
  { intros k' a0 w Hne Hk' Hi Hw Heq. apply Hne. eapply (co_owner _ Hok k' k a0 a w); [done..|congruence]. }
  assert (Hreq : forall k' a0 w, cs_calls S !! k' = Some a0 -> ac_client a0 = i -> ac_waiter a0 = Some w -> cl_calls c !! w = Some (ac_size a0)).
  { intros k' a0 w Hk' Hi Hw. destruct (co_call _ Hok k' a0 Hk') as (d & Hd & _ & Hq). rewrite Hi, Hc in Hd. injection Hd as <-. by apply Hq. }
  split; [exact Hf|exact Hfl|..]; simpl.
  - intros k' a0 [[<- <-]|[Hne Hk']]%lookup_insert_Some.
    + exists (Client b rq). rewrite Hcl, lookup_insert_eq. split_and!; [done|done|]. intros w Hw. rewrite Hsz.
      destruct Hleft as [[Hn _]|(w1 & Hw1 & _ & ->)]; [congruence|]. simpl. replace w with w1 by congruence. apply lookup_insert_eq.
    + destruct (Hpt k' a0 Hk') as (d & Hd & Hp). exists d. split_and!; [done|done|]. intros w Hw.
      simpl in Hd. apply lookup_insert_Some in Hd as [[He <-]|[Hne' Hd]].
      * simpl. eapply Hkeep; [by eapply Hother|by eapply Hreq].
      * destruct (co_call _ Hok k' a0 Hk') as (d0 & Hd0 & _ & Hq). rewrite Hd in Hd0. injection Hd0 as <-. by apply Hq.
  - intros j d w n [[<- <-]|[Hne Hd]]%lookup_insert_Some Hn.
    + assert (Hor : ac_waiter a' = Some w \/ (Some w <> ac_waiter a /\ cl_calls c !! w = Some n)).
      { simpl in Hn. destruct Hleft as [[_ ->]|(w1 & -> & Hor & ->)].
        - right. destruct (ac_waiter a) as [w0|]; [|done]. simpl in Hn. apply lookup_delete_Some in Hn as [? ?]. split; [congruence|done].
        - apply lookup_insert_Some in Hn as [[<- _]|[Hne Hn]]; [by left|].
          destruct (decide (Some w = ac_waiter a)) as [He|?]; [|by right]. destruct Hor as [[? _]|?]; congruence. }
      destruct Hor as [Hw|[Hne Hq]]; [exists k, a'; by rewrite lookup_insert_eq|].
      destruct (co_queued _ Hok i c w n Hc Hq) as (k' & a0 & Hk' & Hi & Hw). exists k', a0.
      rewrite lookup_insert_ne; [done|]. intros <-. congruence.
    + destruct (co_queued _ Hok j d w n Hd Hn) as (k' & a0 & Hk' & Hi & Hw). exists k', a0. rewrite lookup_insert_ne; [done|].
      intros <-. apply Hne. unfold i. congruence.
  - assert (Hnew : forall k' a0 w, k' <> k -> cs_calls S !! k' = Some a0 -> ac_client a0 = ac_client a' -> ac_waiter a0 = Some w -> ac_waiter a' <> Some w).
    { intros k' a0 w Hne Hk' Hi Hw Heq. rewrite Hcl in Hi.
      destruct (Hkeep w (ac_size a0)) as [Hn _]; [by eapply Hother|by eapply Hreq|congruence]. }
    intros k1 k2 a1 a2 w [[<- <-]|[Hne Hk1]]%lookup_insert_Some [[<- <-]|[Hne' Hk2]]%lookup_insert_Some Hi Hw1 Hw2; [done|..].
    + by destruct (Hnew k2 a2 w).
    + by destruct (Hnew k1 a1 w).
    + by eapply (co_owner _ Hok k1 k2 a1 a2 w).
Qed.
End invariant.
