(* ===== verification/AckCallSteps.v ===== *)
(** * Every step keeps the invariant of blocking admissions *)

From S2P Require Import Prelude ByteBudget Event Protocol SharedBudget AckBuffer AckInv AckRemove AckReceipts AckRetire AckDeliver AckAdmit AckMethods AckFleet AckWindow AckFlags AckCall AckCallInv.

Section steps.
Context {B : Type} `{HB : LenientLaws B}.
Implicit Types (b : AckBuffer B) (F : fleet B) (a : addCall) (S : calls B).

(** ** Operations outside the calls *)

Lemma other_calls o rq b r rq' b' : other_op o = true -> run_op o rq b = Some (r, rq', b') -> rq' = rq.
Proof.
  intros Ho Hrun. destruct o; try done; simpl in Hrun; first [by injection Hrun|idtac];
    match type of Hrun with (?x ≫= _) = _ => destruct x as [y|]; [|done] end; cbn [mbind option_bind] in Hrun; try by injection Hrun.
  all: destruct y; by injection Hrun.
Qed.

Lemma other_moved S i o r F :
  calls_ok S -> other_op o = true -> fleet_guard i o (cs_fleet S) = true -> fleet_op i o (cs_fleet S) = Some (r, F) ->
  exists c b, moved S i c b (cl_calls c) /\ F = fleet_set i b (cl_calls c) (cs_fleet S).
Proof.
  intros Hok Hoth Hg Hop. unfold fleet_guard in Hg. unfold fleet_op in Hop.
  destruct (fl_clients (cs_fleet S) !! i) as [c|] eqn:Hc; [|done]. rewrite bind_ret in Hop.
  destruct (run_op o (cl_calls c) (view (cs_fleet S) c)) as [[[r' rq] b]|] eqn:Hrun; [|done]. simpl in Hop. injection Hop as <- <-.
  assert (rq = cl_calls c) as -> by (by eapply other_calls). exists c, b. split; [|done].
  pose proof (fo_client _ (co_fleet _ Hok) i c Hc) as Hokb. pose proof (fleet_own _ i c (co_fleet _ Hok) Hc) as Ho.
  rewrite <-(fleet_accounts_id _ i c Hc) in Hg.
  destruct (run_op_good o i (cl_calls c) _ _ Hokb Ho Hg) as (r1 & rq1 & b1 & Hr & _ & Hok' & Ho' & Hp). rewrite Hrun in Hr. injection Hr as <- <- <-.
  split; try done.
  - eapply op_flags; [exact Hokb|exact Ho|exact Hg|by destruct o|exact Hrun|exact (co_flags _ Hok i c Hc)].
  - intros x Hx. eapply op_still; [exact Hokb|exact Ho|exact Hg|apply (co_flags _ Hok i c Hc)|exact Hrun|exact Hx].
  - intros x Hx. eapply op_closed; [exact Hokb|exact Ho|exact Hg|exact Hrun|exact Hx].
Qed.

(** ** Turns *)

(** What the guard of a turn gives. *)
Lemma turn_guard_ok S a c :
  calls_ok S -> fl_clients (cs_fleet S) !! ac_client a = Some c -> (forall w, ac_waiter a = Some w -> cl_calls c !! w = Some (ac_size a)) ->
  turn_guard a (cs_fleet S) = true -> ab_isRunning (view (cs_fleet S) c) = true ->
  op_guard (OpAdd (ac_message a) (ac_size a) (ac_waiter a) (ac_receipt a) (ac_max a)) (cl_calls c)
    (<[ac_client a := acct (cl_calls c) (view (cs_fleet S) c)]> (fleet_accounts (cs_fleet S))) (view (cs_fleet S) c) = true /\
  ab_firstSeqNum (view (cs_fleet S) c) + ab_nextIndexFree (view (cs_fleet S) c) + 1 < W64 /\ 0 <= ac_size a.
Proof.
  intros Hok Hc Hw Hg Hrun. unfold turn_guard in Hg. rewrite Hc in Hg. change (ab_isRunning (cl_buf c)) with (ab_isRunning (view (cs_fleet S) c)) in Hg.
  rewrite Hrun in Hg. simpl negb in Hg. rewrite orb_false_l in Hg. apply andb_true_iff in Hg as [Hg Hn]. apply bool_decide_eq_true in Hn.
  rewrite (fleet_accounts_id _ _ c Hc). split; [|split; [done|]].
  - cbn [op_guard] in Hg |- *. rewrite !andb_true_iff in Hg |- *. destruct Hg as [[_ Hcell] Hrest]. split; [split; [|done]|done].
    destruct (ac_waiter a) as [w|]; [|done]. apply bool_decide_eq_true. by apply Hw.
  - cbn [op_guard] in Hg. rewrite !andb_true_iff in Hg. destruct Hg as [_ Hrest%bool_decide_eq_true]. apply Hrest.
Qed.

(** One turn of a call: what it did to the buffer, and how the request moved. *)
Lemma turn_moved S k a c :
  calls_ok S -> cs_calls S !! k = Some a -> fl_clients (cs_fleet S) !! ac_client a = Some c -> turn_guard a (cs_fleet S) = true ->
  exists r w' b, let b0 := view (cs_fleet S) c in
    add_turn (ac_message a) (ac_size a) (ac_waiter a) (ac_receipt a) (ac_max a) b0 = Some (r, w', b) /\
    turn_post (ac_message a) (ac_size a) (ac_waiter a) (ac_receipt a) (ac_max a) (ac_client a) (cl_calls c) (fleet_accounts (cs_fleet S)) b0 r w' b /\
    moved S (ac_client a) c b (left_calls (ac_size a) (ac_waiter a) w' (cl_calls c)) /\
    request_left (ac_size a) (ac_waiter a) w' (cl_calls c) (left_calls (ac_size a) (ac_waiter a) w' (cl_calls c)).
Proof.
  intros Hok Hk Hc Hg. set (b0 := view (cs_fleet S) c).
  assert (Hw : forall w, ac_waiter a = Some w -> cl_calls c !! w = Some (ac_size a)).
  { destruct (co_call _ Hok k a Hk) as (d & Hd & _ & Hq). rewrite Hc in Hd. by injection Hd as <-. }
  pose proof (turn_guard_ok S a c Hok Hc Hw Hg) as Hgd. fold b0 in Hgd.
  pose proof (fo_client _ (co_fleet _ Hok) _ c Hc) as Hok0. pose proof (co_flags _ Hok _ c Hc) as Hfl.
  destruct (add_turn_spec (ac_message a) (ac_size a) (ac_waiter a) (ac_receipt a) (ac_max a) (ac_client a) (cl_calls c)
    (fleet_accounts (cs_fleet S)) b0) as (r & w' & b & Ht & Htp & Hok' & Ho' & Hp);
    [done|by apply fleet_own; [apply Hok|]|done|intros Hr; by apply Hgd|].
  exists r, w', b. split_and!; [done|done| |].
  - split; try done.
    + eapply turn_flags; [exact Hok0|done| |exact Htp|exact Hfl]. destruct (ab_isRunning b0) eqn:Hr; [left; by apply Hgd|by right].
    + intros x Hx. eapply turn_still; [exact Hok0|apply Hfl| |exact Htp|exact Hx]. intros Hr. by apply Hgd.
    + intros x Hx. eapply turn_closed_chan; [exact Hok0|exact Htp|exact Hx].
  - destruct Htp as [_| |]; [|done|by left]. destruct (ac_waiter a) as [w|]; [right|by left]. exists w. split_and!; [done|by right|done].
Qed.

Lemma call_turn_ok S k a r w' b c :
  calls_ok S -> cs_calls S !! k = Some a -> fl_clients (cs_fleet S) !! ac_client a = Some c -> turn_guard a (cs_fleet S) = true ->
  add_turn (ac_message a) (ac_size a) (ac_waiter a) (ac_receipt a) (ac_max a) (view (cs_fleet S) c) = Some (r, w', b) ->
  calls_ok (Calls (cs_now S) (fleet_set (ac_client a) b (left_calls (ac_size a) (ac_waiter a) w' (cl_calls c)) (cs_fleet S))
    (<[k := a <| ac_waiter := w' |>
             <| ac_point := match r with AddReturn err => CallUnwind err | AddBlock localWake => CallTime localWake end |>]> (cs_calls S))).
Proof.
  intros Hok Hk Hc Hg Ht. destruct (turn_moved S k a c Hok Hk Hc Hg) as (r1 & w1 & b1 & Ht1 & Htp & Hmv & Hleft).
  rewrite Ht in Ht1. injection Ht1 as <- <- <-. eapply calls_turn; [done|done|done|done|done|exact Hleft|].
  destruct Htp as [_|w1 s x b1 Hrun Hwhy Hps _ Hs|m x forced step _ _ _ _ _ _]; [done| |done].
  pose proof (fo_client _ (co_fleet _ Hok) _ c Hc) as Hok0.
  destruct (sampleWake_spec (held (view (cs_fleet S) c)) ((view (cs_fleet S) c) <| ab_shared := s |>)) as (x1 & b2 & Hs2 & _ & Hwk & _).
  { by apply public_shared. }
  rewrite Hs in Hs2. injection Hs2 as <- <-. pose proof (sampleWake_calm _ _ _ _ Hps Hs) as Hcalm.
  right. split_and!; [done|by rewrite (cm_running _ _ Hcalm)|]. by eapply refusal_calm.
Qed.

(** The deferred [cancel]. *)
Lemma unwind_moved S k a c :
  calls_ok S -> cs_calls S !! k = Some a -> fl_clients (cs_fleet S) !! ac_client a = Some c ->
  exists s, cancelShared (ac_waiter a) (view (cs_fleet S) c) = Some ((view (cs_fleet S) c) <| ab_shared := s |>) /\
    moved S (ac_client a) c ((view (cs_fleet S) c) <| ab_shared := s |>) (ended (ac_waiter a) (cl_calls c)).
Proof.
  intros Hok Hk Hc. destruct (co_call _ Hok k a Hk) as (d & Hd & _ & Hq). rewrite Hc in Hd. injection Hd as <-.
  pose proof (fo_client _ (co_fleet _ Hok) _ c Hc) as Hok0.
  destruct (own_cancel (ac_client a) (cl_calls c) (fleet_accounts (cs_fleet S)) (view (cs_fleet S) c) (ac_waiter a)) as (s & Hs & Hp & Ho).
  { by apply fleet_own; [apply Hok|]. }
  { intros w Hw. rewrite (Hq w Hw). by eexists. }
  exists s. split; [done|]. split; try done.
  - by apply ok_shared.
  - apply flags_budget; [done|done|exact (co_flags _ Hok _ c Hc)].
  - intros x Hx. right. split; [done|by apply budget_calm].
Qed.

(** ** Steps *)

Lemma call_move_ok S k case a a' F :
  calls_ok S -> cs_calls S !! k = Some a -> (at_turn a = true -> turn_guard a (cs_fleet S) = true) ->
  call_step (cs_now S) case a (cs_fleet S) = Some (a', F) -> calls_ok (Calls (cs_now S) F (<[k := a']> (cs_calls S))).
Proof.
  intros Hok Hk Hg Hstep. destruct (co_call _ Hok k a Hk) as (c & Hc & Hp & _). unfold call_step in Hstep. rewrite Hc, bind_ret in Hstep.
  unfold point_ok in Hp. unfold at_turn in Hg.
  assert (Hretag : forall t p, (forall d, fl_clients (cs_fleet S) !! ac_client a = Some d ->
      point_ok (cs_now S) (view (cs_fleet S) d) (a <| ac_timer := t |> <| ac_point := p |>)) ->
    calls_ok (Calls (cs_now S) (cs_fleet S) (<[k := a <| ac_timer := t |> <| ac_point := p |>]> (cs_calls S)))).
  { intros t p Hpt. by apply (calls_retag S k a). }
  assert (Hcd : forall d, fl_clients (cs_fleet S) !! ac_client a = Some d -> d = c) by (intros; congruence).
  destruct (ac_point a) as [|x|x|x| |err|err] eqn:Hpt.
  - destruct (add_turn _ _ _ _ _ (view (cs_fleet S) c)) as [[[r w'] b]|] eqn:Ht; [|done]. simpl in Hstep. injection Hstep as <- <-.
    by apply call_turn_ok; [| | |apply Hg|].
  - injection Hstep as <- <-. apply (Hretag (ac_timer a)). intros d ->%Hcd. unfold point_ok. simpl.
    destruct (ac_deadline a) as [dl|] eqn:Hdl; [|by split]. destruct (decide (dl - cs_now S <= 0)) as [Hle|Hgt]; [|exact Hp].
    exists dl. split; [done|lia].
  - injection Hstep as <- <-. apply (Hretag true). intros d ->%Hcd. by split.
  - destruct case.
    + case_bool_decide; [|done]. injection Hstep as <- <-. by apply (Hretag (ac_timer a)).
    + destruct (ac_waiter a) as [w|] eqn:Hw; [|done]. simpl in Hstep. destruct (sb_woken _ _); [|done]. injection Hstep as <- <-.
      by apply (Hretag (ac_timer a)).
    + destruct (ac_deadline a) as [dl|] eqn:Hdl; [|done]. simpl in Hstep. destruct (ac_timer a && _) eqn:Hd; [|done]. injection Hstep as <- <-.
      apply andb_true_iff in Hd as [_ Hd%bool_decide_eq_true]. apply (Hretag (ac_timer a)). intros d ->%Hcd. by exists dl.
  - injection Hstep as <- <-. apply (Hretag (ac_timer a)). intros d ->%Hcd _. exact Hp.
  - destruct (unwind_moved S k a c Hok Hk Hc) as (s & Hs & Hmv). rewrite Hs, bind_ret in Hstep. injection Hstep as <- <-.
    eapply calls_turn; [done|done|exact Hmv|done|done|by left|]. by split.
  - done.
Qed.

Lemma call_join_ok S i maxBytes key F :
  calls_ok S -> fl_clients (cs_fleet S) !! i = None -> sb_joinable key (fl_budget (cs_fleet S)) ->
  Z.of_nat (size (fl_clients (cs_fleet S))) < 2 ^ 62 -> is_u64 maxBytes ->
  fleet_join i maxBytes key (cs_fleet S) = Some (inr F) -> calls_ok (Calls (cs_now S) F (cs_calls S)).
Proof.
  intros Hok Hi Hj Hsz Hmax Hjoin. destruct (fleet_join_ok i maxBytes key (cs_fleet S)) as (F' & HF & Hok'); [apply Hok|done..|].
  rewrite Hjoin in HF. injection HF as <-. unfold fleet_join in Hjoin.
  destruct (NewAckBuffer_spec (MkAckBufferOptions maxBytes (fl_budget (cs_fleet S)) key) (fleet_accounts (cs_fleet S)) i)
    as (b & Hb & Hpub & _ & _ & _ & _ & _ & _ & Hp); simpl; [apply Hok| |done| |done|].
  { unfold fleet_accounts. by rewrite lookup_fmap, Hi. }
  { unfold fleet_accounts. by rewrite map_size_fmap. }
  rewrite Hb in Hjoin. simpl in Hjoin. injection Hjoin as <-. simpl in Hp.
  destruct (new_fields _ b Hb) as (N1 & N2 & N3 & _). split; simpl.
  - exact Hok'.
  - intros j d [[<- <-]|[Hne Hd]]%lookup_insert_Some.
    + split; [split; simpl; rewrite ?N1, ?N2; done|]. intros [Hz _]%heldFlagged_true. done.
    + apply (flags_budget (view (cs_fleet S) d)); [exact (fo_client _ (co_fleet _ Hok) _ _ Hd)|done|exact (co_flags _ Hok _ _ Hd)].
  - intros k a Hk. destruct (co_call _ Hok k a Hk) as (d & Hd & Hpt & Hq). exists d. rewrite lookup_insert_ne by congruence.
    split_and!; [done| |done]. exact (point_budget _ (view (cs_fleet S) d) (ab_shared b) a Hp Hpt).
  - intros j d w n [[<- <-]|[Hne Hd]]%lookup_insert_Some Hn; [done|]. exact (co_queued _ Hok _ _ _ _ Hd Hn).
  - exact (co_owner _ Hok).
Qed.

Lemma call_start_ok S k h i e timeout receipt maxT a :
  calls_ok S -> cs_calls S !! k = None -> addWithReceipt h (cs_now S) i e timeout receipt maxT (cs_fleet S) = Some (inr a) ->
  calls_ok (Calls (cs_now S) (cs_fleet S) (<[k := a]> (cs_calls S))).
Proof.
  intros [H1 H2 H3 H4 H5] Hk Hadd. unfold addWithReceipt in Hadd. destruct e as [e|]; [|done].
  destruct (fl_clients (cs_fleet S) !! i) as [c|] eqn:Hc; [|done]. simpl in Hadd.
  destruct (ab_msgs (cl_buf c) !! e) as [m|]; [|done]. injection Hadd as <-. split; simpl; [done|done|..].
  - intros k' a [[<- <-]|[Hne Hk']]%lookup_insert_Some; [|by eauto]. by exists c.
  - intros j d w n Hd Hn. destruct (H4 j d w n Hd Hn) as (k' & a & Hk' & ? & ?). exists k', a. by rewrite lookup_insert_ne by congruence.
  - intros k1 k2 a1 a2 w [[<- <-]|[Hne Hk1]]%lookup_insert_Some [[<- <-]|[Hne' Hk2]]%lookup_insert_Some Hi Hw1 Hw2; [done|done|done|by eauto].
Qed.

Lemma calls_step_ok S S' : calls_ok S -> calls_step S S' -> calls_ok S'.
Proof.
  intros Hok [now Hle|i maxBytes key F|i o r F Ho Hg Hop|k h i e timeout receipt maxT a|k case a a' F].
  - destruct Hok as [H1 H2 H3 H4 H5]. split; simpl; try done. intros k a Hk. destruct (H3 k a Hk) as (c & Hc & Hp & Hq).
    exists c. split_and!; [done|by eapply point_later|done].
  - by eapply call_join_ok.
  - destruct (other_moved S i o r F Hok Ho Hg Hop) as (c & b & Hmv & ->). by apply calls_other.
  - by eapply call_start_ok.
  - by eapply call_move_ok.
Qed.

Lemma calls_reachable_ok s0 S : sb_holds ∅ s0 -> calls_reachable s0 S -> calls_ok S.
Proof.
  intros Hs. induction 1 as [now|S S' _ IH Hstep]; [|by eapply calls_step_ok].
  split; done.
Qed.
End steps.
