(* ===== verification/AckCallExample.v ===== *)
(** * Calls for the examples

    Two calls of one client whose byte limit admits one message: the second
    blocks on an ACK request.  Scripts run the machine of AckCall.v. *)

From S2P Require Import Prelude ByteBudget BudgetSpec Event Protocol SharedBudget AckBuffer AckInv AckFleet AckFlags AckExample AckCall.

Inductive act :=
  | ATick (now : Z)
  | AOther (i : nat) (o : op)
  | AStart (k : nat) (i : nat) (e : option maddr) (timeout : Z) (receipt : option cell) (maxT : Z)
  | AMove (k : nat) (case : select_case).

Section play.
Context {B : Type} `{HB : LenientLaws B}.

Definition play_act (x : act) (S : calls B) : option (calls B) :=
  match x with
  | ATick now => if decide (cs_now S <= now) then Some (Calls now (cs_fleet S) (cs_calls S)) else None
  | AOther i o =>
      if other_op o && fleet_guard i o (cs_fleet S)
      then '(_, F) ← fleet_op i o (cs_fleet S); Some (Calls (cs_now S) F (cs_calls S)) else None
  | AStart k i e timeout receipt maxT =>
      if decide (cs_calls S !! k = None) then
        r ← addWithReceipt ∅ (cs_now S) i e timeout receipt maxT (cs_fleet S);
        match r with inr a => Some (Calls (cs_now S) (cs_fleet S) (<[k := a]> (cs_calls S))) | inl _ => None end
      else None
  | AMove k case =>
      a ← cs_calls S !! k;
      if negb (at_turn a) || turn_guard a (cs_fleet S)
      then '(a, F) ← call_step (cs_now S) case a (cs_fleet S); Some (Calls (cs_now S) F (<[k := a]> (cs_calls S))) else None
  end.

Lemma play_act_step x S S' : play_act x S = Some S' -> calls_step S S'.
Proof.
  destruct x as [now|i o|k i e timeout receipt maxT|k case]; simpl.
  - case_decide; [|done]. intros [= <-]. by apply cs_tick.
  - destruct (other_op o && _) eqn:Hg; [|done]. apply andb_true_iff in Hg as [? ?].
    destruct (fleet_op i o (cs_fleet S)) as [[r F]|] eqn:Hop; [|done]. intros [= <-]. by eapply cs_other.
  - case_decide; [|done]. destruct (addWithReceipt _ _ _ _ _ _ _ _) as [[err|a]|] eqn:Ha; [done| |done]. intros [= <-].
    by eapply cs_start.
  - destruct (cs_calls S !! k) as [a|] eqn:Hk; [|done]. simpl. destruct (negb (at_turn a) || _) eqn:Hg; [|done].
    destruct (call_step _ _ _ _) as [[a' F]|] eqn:Hs; [|done]. intros [= <-]. eapply cs_move; [done| |done].
    intros Ht. by rewrite Ht in Hg.
Qed.

Fixpoint play (l : list act) (S : calls B) : option (calls B) :=
  match l with [] => Some S | x :: l => S ← play_act x S; play l S end.

Lemma play_reachable s0 l S S' : calls_reachable s0 S -> play l S = Some S' -> calls_reachable s0 S'.
Proof.
  revert S. induction l as [|x l IH]; intros S Hr Hp; simpl in Hp; [by injection Hp as <-|].
  destruct (play_act x S) as [S1|] eqn:H1; [|done]. eapply IH; [|exact Hp]. eapply calls_next; [done|by eapply play_act_step].
Qed.
End play.

(** The client may hold 400 bytes and has a window of ten messages; each message
    costs more than half of that. *)
Definition c_fleet : fleet (option ByteBudget) :=
  match fleet_join 0 400 "tenant-a" (Fleet (Some a_budget) ∅) with Some (inr F) => F | _ => Fleet None ∅ end.

Definition c_start : calls (option ByteBudget) := Calls 0 c_fleet ∅.

Lemma c_start_reachable : calls_reachable (Some a_budget) c_start.
Proof.
  eapply calls_next; [apply (calls_init _ 0)|]. apply (cs_join (Calls 0 (Fleet (Some a_budget) ∅) ∅) 0%nat 400 "tenant-a" c_fleet); try (vm_compute; reflexivity); [by intros _|by vm_compute].
Qed.

(** The second call, with a deadline at 100, waits in its select. *)
Definition c_script : list act :=
  [AOther 0 (OpFlow 10); AOther 0 (OpAlloc a_message); AOther 0 (OpAlloc a_message);
   AStart 1 0 (Some 0%nat) 0 None 0; AMove 1 LocalWake; AMove 1 LocalWake;
   AStart 2 0 (Some 1%nat) 100 (Some 5%nat) 0; AMove 2 LocalWake; AMove 2 LocalWake; AMove 2 LocalWake].

Definition c_blocked : calls (option ByteBudget) := default c_start (play c_script c_start).

Lemma play_default l S : calls_reachable (Some a_budget) S -> calls_reachable (Some a_budget) (default S (play l S)).
Proof. intros HS. destruct (play l S) as [S'|] eqn:Hp; [|done]. by eapply play_reachable. Qed.

Lemma c_blocked_reachable : calls_reachable (Some a_budget) c_blocked.
Proof. apply play_default, c_start_reachable. Qed.

Definition call_2 (S : calls (option ByteBudget)) : addCall :=
  default (AddCall 0 0 0 None 0 None false None CallTurn) (cs_calls S !! 2%nat).
Definition client_0 (S : calls (option ByteBudget)) : client (option ByteBudget) :=
  default no_client (fl_clients (cs_fleet S) !! 0%nat).

(** The deadline passed. *)
Definition c_late : calls (option ByteBudget) := default c_blocked (play [ATick 100] c_blocked).

(** The timer ended the call, and the client was closed. *)
Definition c_done : calls (option ByteBudget) :=
  default c_late (play [AMove 2 TimerFired; AMove 2 LocalWake; AMove 2 LocalWake; AOther 0 OpClose] c_late).

Lemma c_late_reachable : calls_reachable (Some a_budget) c_late.
Proof. apply play_default, c_blocked_reachable. Qed.

Lemma c_done_reachable : calls_reachable (Some a_budget) c_done.
Proof. apply play_default, c_late_reachable. Qed.
