(* ===== verification/AckCallProps.v ===== *)
(** * The properties of blocking admissions

    What a call of [addWithReceipt] returns and what it leaves behind, that it
    sleeps only while another attempt would fail, and that it returns once its
    deadline passed or its buffer was stopped; for all interleavings of calls and
    other operations of all clients of a budget. *)

From S2P Require Import Prelude ByteBudget BudgetInv BudgetSpec Event Protocol SharedBudget AckBuffer AckInv AckRemove AckReceipts AckRetire AckDeliver AckAdmit AckMethods AckFleet AckWindow AckFlags AckExample AckSpec AckCall AckCallInv AckCallSteps AckCallExample.

Section properties.
Context {B : Type} `{HB : LenientLaws B}.
Implicit Types (b : AckBuffer B) (F : fleet B) (a : addCall) (S : calls B).

(** ** Sleeping *)

(** A call whose reason stands and whose waiter is not woken is refused again. *)
Lemma blocked_again S a c :
  calls_ok S -> fl_clients (cs_fleet S) !! ac_client a = Some c -> (forall w, ac_waiter a = Some w -> cl_calls c !! w = Some (ac_size a)) ->
  turn_guard a (cs_fleet S) = true -> ab_isRunning (view (cs_fleet S) c) = true ->
  refusal (ac_size a) (ac_waiter a) (view (cs_fleet S) c) ->
  (forall w, ac_waiter a = Some w -> sb_woken w (fl_budget (cs_fleet S)) = false) ->
  exists x w' b, add_turn (ac_message a) (ac_size a) (ac_waiter a) (ac_receipt a) (ac_max a) (view (cs_fleet S) c) = Some (AddBlock x, w', b).
Proof.
  intros Hok Hc Hq Hg Hrun Hwhy Hwk. destruct (turn_guard_ok S a c Hok Hc Hq Hg Hrun) as (Hop & _ & Hsz).
  pose proof (fo_client _ (co_fleet _ Hok) _ c Hc) as Hok0. pose proof (fleet_own _ _ c (co_fleet _ Hok) Hc) as Ho.
  destruct (guard_add _ _ _ _ _ _ _ _ _ Hok0 Hop Hrun) as (m & Hrq & _ & Hca).
  destruct (tryAdd_refused (held (view (cs_fleet S) c)) (view (cs_fleet S) c) (ac_message a) m (ac_size a) (ac_waiter a) (ac_receipt a)
    (ac_max a) (ac_client a) (cl_calls c) (fleet_accounts (cs_fleet S))) as (w' & b & Ht); [done|done|apply lenient_safe|done..|].
  unfold add_turn. rewrite Hrun. simpl negb. cbv iota. rewrite Ht, bind_ret. destruct (sampleWake b) as [x b'] eqn:Hs. by exists x, w', b'.
Qed.

(** C5. No wake-up of a blocked admission is lost: while a call sleeps with none of
    its two wake channels closed, another attempt would be refused again.  And it
    never waits for bytes without an acknowledgement being asked for: unless the
    window is full, a live unacknowledged frame of the buffer carries the ACK
    request. *)
Theorem call_no_lost_wakeup s0 S k a c x :
  sb_holds ∅ s0 -> calls_reachable s0 S -> cs_calls S !! k = Some a -> fl_clients (cs_fleet S) !! ac_client a = Some c ->
  ac_point a = CallSelect x -> turn_guard a (cs_fleet S) = true ->
  call_step (cs_now S) LocalWake a (cs_fleet S) = None -> call_step (cs_now S) PoolWake a (cs_fleet S) = None ->
  let b := view (cs_fleet S) c in
  ab_isRunning b = true /\
  (exists x' w' b', add_turn (ac_message a) (ac_size a) (ac_waiter a) (ac_receipt a) (ac_max a) b = Some (AddBlock x', w', b')) /\
  (ab_nextIndexFree b >= ab_currentCapacity b \/
   exists f m, f ∈ sent b ++ todo b /\ f.1 = ab_lastFlaggedSeq b /\ ab_msgs b !! f.2 = Some m /\ AckRequested m = true).
Proof.
  intros Hs HS%calls_reachable_ok Hk Hc Hx Hg Hlocal Hpool b; [|done].
  destruct (co_call _ HS k a Hk) as (d & Hd & Hp & Hq). rewrite Hc in Hd. injection Hd as <-.
  unfold point_ok in Hp. rewrite Hx in Hp. destruct Hp as [Hp _]. unfold call_step in Hlocal, Hpool. rewrite Hc, bind_ret, Hx in Hlocal, Hpool.
  destruct Hp as [Hcl|(Hw & Hrun & Hwhy)]; [by rewrite bool_decide_true in Hlocal|]. split; [done|]. split.
  - apply (blocked_again S a c); try done. intros w Hwt. rewrite Hwt in Hpool. simpl in Hpool. by destruct (sb_woken _ _).
  - destruct Hwhy as [?|(_ & Hheld & _)]; [by left|right].
    destruct (fk_held _ (co_flags _ HS _ c Hc) Hheld) as (j & e & m & He & Hj & Hr & Hm & Hack).
    exists (ab_lastFlaggedSeq b, e), m. split_and!; [|done|done|done]. rewrite sent_todo. apply list_elem_of_filter. split; [done|].
    apply (list_elem_of_lookup_2 _ j), numbered_lookup. exists e. split; [done|]. unfold b. by rewrite Hj.
Qed.

(** ** What a call returns *)

(** A select leaves for another turn or for the timeout, and touches nothing. *)
Lemma select_result now case a F a' F' x :
  ac_point a = CallSelect x -> call_step now case a F = Some (a', F') ->
  F' = F /\ ac_deadline a' = ac_deadline a /\ (ac_point a' = CallTurn \/ ac_point a' = CallExpired).
Proof.
  intros Hx. unfold call_step. destruct (fl_clients F !! ac_client a) as [c|]; [|done]. rewrite bind_ret, Hx. destruct case.
  - case_bool_decide; [|done]. intros [= <- <-]. by split_and!; [..|left].
  - destruct (ac_waiter a); [|done]. simpl. destruct (sb_woken _ _); [|done]. intros [= <- <-]. by split_and!; [..|left].
  - destruct (ac_deadline a) as [dl|] eqn:Hdl; [|done]. simpl. destruct (_ && _); [|done]. intros [= <- <-].
    by split_and!; [..|right].
Qed.

Lemma entry_refused h now i e timeout receipt maxT F err :
  addWithReceipt h now i e timeout receipt maxT F = Some (inl err) <-> e = None /\ err = ErrorBufferFull.
Proof.
  unfold addWithReceipt. destruct e as [e|]; [|split; [by intros [= <-]|by intros [_ ->]]].
  split; [|by intros [? _]]. destruct (fl_clients F !! i) as [c|]; [|done]. simpl. by destruct (ab_msgs _ !! _).
Qed.

Lemma same_abs b b' : b' = b <| ab_shared := ab_shared b' |> -> abs b' = abs b.
Proof. by intros ->. Qed.

Lemma turn_abs e size waiter receipt maxT i rq A b r w' b' :
  ok b -> turn_post e size waiter receipt maxT i rq A b r w' b' ->
  match r with
  | AddReturn None => window_step (abs b) (OpAdd e size waiter receipt maxT) (AddTurn (AddReturn None)) (abs b') /\
      ab_isRunning b = true /\ forall x, receipt = Some x -> ab_cells b' !! x = Some ReceiptRetained
  | AddReturn (Some err) => err = ErrorClosed /\ ab_isRunning b = false /\ abs b' = abs b
  | AddBlock _ => abs b' = abs b
  end.
Proof.
  intros Hok [Hrun|w1 s c b1 Hrun _ _ _ Hs|m x forced step Hrun Hm Hne Hx Hmsg Hpub]; [done|by rewrite (sampleWake_abs _ _ _ Hs)|].
  rewrite (added_abs b e size receipt maxT x) by done. split; [by apply (ws_added (abs b))|]. split; [done|].
  intros x' ->. unfold added. simpl. by rewrite lookup_insert_eq.
Qed.

(** C6. What [addWithReceipt] returns is what happened.  At its entry it refuses
    exactly the nil message, with [ErrorBufferFull] and whatever the state of the
    buffer.  A call past the entry returns nil exactly when its message was
    appended with the next number (and its receipt reads retained),
    [ErrorClosed] only from a stopped buffer, [ErrorBufferFull] only from a
    running one and at or after the deadline.  No other step of the call moves the
    window, the windows of the other clients never move, and the deferred cancel
    does not change the result. *)
Theorem call_outcome s0 S k case a a' F c :
  sb_holds ∅ s0 -> calls_reachable s0 S -> cs_calls S !! k = Some a -> fl_clients (cs_fleet S) !! ac_client a = Some c ->
  (at_turn a = true -> turn_guard a (cs_fleet S) = true) -> call_step (cs_now S) case a (cs_fleet S) = Some (a', F) ->
  (forall h i e timeout receipt maxT err, addWithReceipt h (cs_now S) i e timeout receipt maxT (cs_fleet S) = Some (inl err) <->
    e = None /\ err = ErrorBufferFull) /\
  (forall j, j <> ac_client a -> fl_clients F !! j = fl_clients (cs_fleet S) !! j) /\
  exists c', fl_clients F !! ac_client a = Some c' /\
  let b := view (cs_fleet S) c in
  let b' := view F c' in
  match ac_point a, ac_point a' with
  | CallTurn, CallUnwind None =>
      wn_todo (abs b') = wn_todo (abs b) ++ [(ab_nextSeqNum b, ac_message a)] /\
      window_step (abs b) (OpAdd (ac_message a) (ac_size a) (ac_waiter a) (ac_receipt a) (ac_max a)) (AddTurn (AddReturn None)) (abs b') /\
      ab_isRunning b = true /\ forall x, ac_receipt a = Some x -> ab_cells b' !! x = Some ReceiptRetained
  | CallTurn, CallUnwind (Some err) => err = ErrorClosed /\ ab_isRunning b = false /\ abs b' = abs b
  | CallExpired, CallUnwind err =>
      (err = Some ErrorClosed /\ ab_isRunning b = false \/ err = Some ErrorBufferFull /\ ab_isRunning b = true) /\
      (exists deadline, ac_deadline a = Some deadline /\ deadline <= cs_now S) /\ abs b' = abs b
  | CallUnwind err, p => p = CallReturned err /\ abs b' = abs b
  | _, CallUnwind _ => False
  | _, _ => abs b' = abs b
  end.
Proof.
  intros Hs HS%calls_reachable_ok Hk Hc Hg Hstep; [|done]. split; [intros; apply entry_refused|].
  pose proof (fun x Hx => select_result (cs_now S) case a (cs_fleet S) a' F x Hx Hstep) as Hsel.
  unfold call_step in Hstep. rewrite Hc, bind_ret in Hstep.
  destruct (co_call _ HS k a Hk) as (d & Hd & Hp & Hq). rewrite Hc in Hd. injection Hd as <-. unfold point_ok in Hp. unfold at_turn in Hg.
  destruct (ac_point a) as [|x|x|x| |err|err] eqn:Hpt; [..|done].
  - destruct (turn_moved S k a c HS Hk Hc (Hg eq_refl)) as (r & w' & b1 & Ht & Htp & _). rewrite Ht in Hstep. cbn [mbind option_bind] in Hstep.
    injection Hstep as <- <-. split; [intros j Hj; simpl; by rewrite lookup_insert_ne|].
    eexists. split; [simpl; apply lookup_insert_eq|]. pose proof (turn_abs _ _ _ _ _ _ _ _ _ _ _ _ (fo_client _ (co_fleet _ HS) _ c Hc) Htp) as Hab.
    destruct r as [[err|]|x]; [exact Hab| |exact Hab]. split; [|exact Hab]. destruct Hab as [Hab _]. by inversion Hab.
  - injection Hstep as <- <-. split; [done|]. exists c. split; [done|]. simpl. destruct (ac_deadline a); [case_decide|]; done.
  - injection Hstep as <- <-. split; [done|]. by exists c.
  - destruct (Hsel x eq_refl) as (-> & _ & Hpt'). split; [done|]. exists c. split; [done|]. by destruct Hpt' as [-> | ->].
  - injection Hstep as <- <-. split; [done|]. exists c. split; [done|]. simpl. unfold timeoutErr. simpl. split; [|done].
    destruct (ab_isRunning (cl_buf c)); [by right|by left].
  - destruct (unwind_moved S k a c HS Hk Hc) as (s & Hcs & _). rewrite Hcs, bind_ret in Hstep. injection Hstep as <- <-.
    split; [intros j Hj; simpl; by rewrite lookup_insert_ne|]. eexists. split; [simpl; apply lookup_insert_eq|]. done.
Qed.

(** ** Returning *)

(** How far a call is from its return, once its buffer is stopped or else its
    deadline passed. *)
Definition call_rank (running : bool) (p : call_point) : nat :=
  match p with
  | CallTime _ => if running then 3 else 6
  | CallPressure _ => if running then 6 else 5
  | CallSelect _ => if running then 5 else 4
  | CallTurn => if running then 4 else 3
  | CallExpired => 2
  | CallUnwind _ => 1
  | CallReturned _ => 0
  end.

(** A stopped buffer stays stopped. *)
Lemma turn_running e size waiter receipt maxT i rq A b r w' b' :
  turn_post e size waiter receipt maxT i rq A b r w' b' -> ab_isRunning b' = ab_isRunning b.
Proof.
  intros [| w1 s c b1 _ _ _ _ Hs|m x forced step _ _ _ _ _ _]; [done|by rewrite (sampleWake_fields _ _ _ Hs)|].
  unfold added. by destruct receipt.
Qed.

(** C7. A blocked admission returns: when the buffer is stopped (by Close or a
    drain) or the deadline passed, the call can always make a step, and every step
    it makes brings it closer to its return, which is at most six steps away; its
    deadline and the state of the buffer, as far as the call moves them, stay. *)
Theorem call_returns s0 S k a c :
  sb_holds ∅ s0 -> calls_reachable s0 S -> cs_calls S !! k = Some a -> fl_clients (cs_fleet S) !! ac_client a = Some c ->
  (at_turn a = true -> turn_guard a (cs_fleet S) = true) ->
  let running := ab_isRunning (cl_buf c) in
  running = false \/ (exists deadline, ac_deadline a = Some deadline /\ deadline <= cs_now S) ->
  ((exists err, ac_point a = CallReturned err) \/ exists case a' F, call_step (cs_now S) case a (cs_fleet S) = Some (a', F)) /\
  (call_rank running (ac_point a) <= 6)%nat /\
  forall case a' F, call_step (cs_now S) case a (cs_fleet S) = Some (a', F) ->
    (call_rank running (ac_point a') < call_rank running (ac_point a))%nat /\ ac_deadline a' = ac_deadline a /\
    exists c', fl_clients F !! ac_client a = Some c' /\ ab_isRunning (cl_buf c') = running.
Proof.
  intros Hs HS%calls_reachable_ok Hk Hc Hg running Hend; [|done].
  pose proof (fun case a' F x => select_result (cs_now S) case a (cs_fleet S) a' F x) as Hsel. unfold call_step in Hsel |- *. rewrite Hc. setoid_rewrite bind_ret.
  destruct (co_call _ HS k a Hk) as (d & Hd & Hp & Hq). rewrite Hc in Hd. injection Hd as <-. unfold point_ok in Hp. unfold at_turn in Hg.
  assert (Hre : ab_isRunning (view (cs_fleet S) c) = running) by done. clearbody running.
  destruct (ac_point a) as [|x|x|x| |err|err] eqn:Hpt.
  - destruct (turn_moved S k a c HS Hk Hc (Hg eq_refl)) as (r & w' & b1 & Ht & Htp & _). rewrite Ht. cbn [mbind option_bind].
    split; [right; by eexists LocalWake, _, _|]. split; [simpl; destruct running; lia|]. intros _ a' F [= <- <-].
    split; [|split; [done|eexists; split; [simpl; apply lookup_insert_eq|rewrite <-Hre; exact (turn_running _ _ _ _ _ _ _ _ _ _ _ _ Htp)]]].
    destruct Htp as [Hrun|w1 s c1 b1 Hrun _ _ _ _|m x forced step Hrun _ _ _ _ _]; rewrite Hrun in Hre; subst running; simpl; lia.
  - split; [right; by eexists LocalWake, _, _|]. split; [simpl; destruct running; lia|]. intros _ a' F [= <- <-].
    split; [|split; [done|by exists c]]. simpl. destruct Hend as [->|(dl & -> & Hle)].
    + destruct (ac_deadline a); [case_decide|]; simpl; lia.
    + rewrite decide_True by lia. simpl. destruct running; lia.
  - split; [right; by eexists LocalWake, _, _|]. split; [simpl; destruct running; lia|]. intros _ a' F [= <- <-].
    split; [simpl; destruct running; lia|]. split; [done|by exists c].
  - split; [right|split; [simpl; destruct running; lia|]].
    + destruct Hp as [Hp Htm]. destruct Hend as [Hrun|(dl & Hdl & Hle)].
      * exists LocalWake. destruct Hp as [Hcl|(_ & Hr & _)]; [|congruence]. rewrite bool_decide_true by done. by eexists _, _.
      * exists TimerFired. rewrite Hdl, Htm by congruence. cbn [mbind option_bind]. rewrite bool_decide_true by done. by eexists _, _.
    + intros case a' F Hstep. rewrite Hc in Hsel. destruct (Hsel case a' F x eq_refl Hstep) as (-> & Hdl & Hor). split; [|split; [done|by exists c]]. destruct Hor as [-> | ->]; simpl; destruct running; lia.
  - split; [right; by eexists LocalWake, _, _|]. split; [simpl; lia|]. intros _ a' F [= <- <-].
    split; [simpl; lia|]. split; [done|by exists c].
  - destruct (unwind_moved S k a c HS Hk Hc) as (s & Hcs & _). rewrite Hcs, bind_ret.
    split; [right; by eexists LocalWake, _, _|]. split; [simpl; lia|]. intros _ a' F [= <- <-].
    split; [simpl; lia|]. split; [done|]. eexists. split; [simpl; apply lookup_insert_eq|done].
  - split; [left; by eexists|]. split; [simpl; lia|]. done.
Qed.
End properties.

(** ** What the calls leave behind *)

(** The waiters of a fair budget are those of the requests its accounts list. *)
Lemma fair_waiter st A bb i a w n :
  fair_holds st A bb -> A !! i = Some a -> a_requests a !! w = Some n ->
  exists g gr wr, a_group a = Some g /\ bb_groupOf bb !! g = Some gr /\ bb_waiterOf bb !! w = Some wr /\ w_n wr = n /\
    (w ∈ g_waiters gr \/ w_granted wr = true /\ w_credit wr = n).
Proof.
  intros (L & _ & T) Hi Hw. destruct (ft_acc _ _ _ T i a Hi) as (_ & g & Hg & _).
  assert (Hl : l_live L !! w = Some (g, n)) by (apply (ft_live _ _ _ T); by exists i, a).
  pose proof (ac_waiters _ _ (bo_acct _ _ (ft_ok _ _ _ T))) as Hwo.
  destruct (wo_live _ _ Hwo w g n Hl) as (wr & c & Hlo). destruct (lo_group _ _ _ _ _ _ Hlo) as [gr Hgr].
  exists g, gr, wr. split_and!; [done|done|apply Hlo|apply Hlo|]. destruct (w_granted wr) eqn:Hgd.
  - right. split; [done|]. pose proof (lo_granted _ _ _ _ _ _ Hlo) as Hb. rewrite Hgd in Hb. symmetry in Hb. by apply bool_decide_eq_true in Hb.
  - left. apply (wo_queue _ _ Hwo g gr w Hgr). exists n, wr. split_and!; [done|apply Hlo|done].
Qed.

Lemma fair_queue st A bb g gr w :
  fair_holds st A bb -> bb_groupOf bb !! g = Some gr -> w ∈ g_waiters gr ->
  exists i a n, A !! i = Some a /\ a_group a = Some g /\ a_requests a !! w = Some n.
Proof.
  intros (L & _ & T) Hgr Hw. apply (wo_queue _ _ (ac_waiters _ _ (bo_acct _ _ (ft_ok _ _ _ T))) g gr w Hgr) in Hw as (n & wr & Hl & _).
  apply (ft_live _ _ _ T) in Hl as (i & a & ? & ? & ?). by exists i, a, n.
Qed.

(** Without requests nothing waits, and without registered clients no group is left. *)
Lemma fair_quiet st A bb :
  fair_holds st A bb -> (forall i a, A !! i = Some a -> a_requests a = ∅) ->
  (forall g gr, bb_groupOf bb !! g = Some gr -> g_waiters gr = [] /\ g_pending gr = 0) /\
  ((forall i a, A !! i = Some a -> a_registered a = false) -> bb_groups bb = ∅).
Proof.
  intros Hf Hno. assert (Hnil : forall g gr, bb_groupOf bb !! g = Some gr -> g_waiters gr = []).
  { intros g gr Hgr. destruct (g_waiters gr) as [|w l] eqn:Hw; [done|]. destruct (fair_queue st A bb g gr w Hf Hgr) as (i & a & n & Hi & _ & Hn).
    - rewrite Hw. left.
    - by rewrite (Hno i a Hi) in Hn. }
  destruct Hf as (L & _ & T). pose proof (bo_acct _ _ (ft_ok _ _ _ T)) as Hac.
  assert (Hlive : l_live L = ∅).
  { apply map_empty. intros w. destruct (l_live L !! w) as [[g n]|] eqn:Hl; [|done].
    apply (ft_live _ _ _ T) in Hl as (i & a & Hi & _ & Hn). by rewrite (Hno i a Hi) in Hn. }
  assert (Hpend : forall g gr, bb_groupOf bb !! g = Some gr -> g_pending gr = 0).
  { intros g gr Hgr. rewrite (go_pending _ _ _ _ (ac_groups _ _ Hac g gr Hgr)). unfold gcount. by rewrite Hlive, msum_empty. }
  split; [by eauto|]. intros Hreg. apply map_empty. intros key. destruct (bb_groups bb !! key) as [g|] eqn:Hk; [|done].
  apply (ac_keys _ _ Hac) in Hk as (_ & gr & Hgr & _ & Hpos). pose proof (go_refs _ _ _ _ (ac_groups _ _ Hac g gr Hgr)) as Hrf.
  rewrite (Hpend g gr Hgr), (ft_regs _ _ _ T), msum_zero in Hrf; [lia|]. intros i a Hi. rewrite (Hreg i a Hi). unfold in_group. by case_decide.
Qed.

(** C8. The queues of a fair budget hold the requests of calls under way and
    nothing else: a queued waiter belongs to a call that did not return, of a
    client of that group and for the bytes of its message, and the waiter of a
    call is queued or granted all its bytes.  So calls that returned leave
    nothing: once every call returned nothing is queued or pending and the budget
    counts exactly the bytes of the buffers, and once every client is closed too
    it counts no used bytes and has no group left. *)
Theorem calls_leave_nothing s0 S bb :
  sb_holds ∅ s0 -> calls_reachable s0 S -> fl_budget (cs_fleet S) = Some bb ->
  let returned := forall k a, cs_calls S !! k = Some a -> exists err, ac_point a = CallReturned err in
  let closed := forall i c, fl_clients (cs_fleet S) !! i = Some c -> ab_isClosed (cl_buf c) = true in
  (returned -> bb_used bb = msum (fun _ c => ab_bytes (cl_buf c)) (fl_clients (cs_fleet S))) /\
  (returned -> closed -> bb_used bb = 0) /\
  (bb_fair bb = true ->
    (forall g gr w, bb_groupOf bb !! g = Some gr -> w ∈ g_waiters gr ->
      exists k a c, cs_calls S !! k = Some a /\ ac_waiter a = Some w /\ (forall err, ac_point a <> CallReturned err) /\
        fl_clients (cs_fleet S) !! ac_client a = Some c /\ ab_group (cl_buf c) = Some g) /\
    (forall k a w, cs_calls S !! k = Some a -> ac_waiter a = Some w ->
      exists c g gr wr, fl_clients (cs_fleet S) !! ac_client a = Some c /\ ab_group (cl_buf c) = Some g /\
        bb_groupOf bb !! g = Some gr /\ bb_waiterOf bb !! w = Some wr /\ w_n wr = ac_size a /\
        (w ∈ g_waiters gr \/ w_granted wr = true /\ w_credit wr = ac_size a)) /\
    (returned -> (forall g gr, bb_groupOf bb !! g = Some gr -> g_waiters gr = [] /\ g_pending gr = 0) /\
      (closed -> bb_groups bb = ∅))).
Proof.
  intros Hs HS%calls_reachable_ok Hbb returned closed; [|done].
  pose proof (fo_budget _ (co_fleet _ HS)) as Hh. rewrite Hbb in Hh. simpl in Hh.
  assert (Hunder : forall k a w, cs_calls S !! k = Some a -> ac_waiter a = Some w -> forall err, ac_point a <> CallReturned err).
  { intros k a w Hk Hw err Herr. destruct (co_call _ HS k a Hk) as (d & _ & Hp & _). unfold point_ok in Hp. rewrite Herr in Hp.
    destruct Hp as [Hp _]. congruence. }
  assert (Hnone : returned -> forall i c, fl_clients (cs_fleet S) !! i = Some c -> cl_calls c = ∅).
  { intros Hret i c Hc. apply map_empty. intros w. destruct (cl_calls c !! w) as [n|] eqn:Hn; [|done].
    destruct (co_queued _ HS i c w n Hc Hn) as (k & a & Hk & _ & Hw). destruct (Hret k a Hk) as [err Herr]. by destruct (Hunder k a w Hk Hw err). }
  destruct (fleet_sums false (cs_fleet S) bb (co_fleet _ HS) Hbb) as (Hlo & Hhi & _ & Hzero & Hqz).
  split; [|split]; [intros Hret; specialize (Hqz (Hnone Hret)); lia|intros Hret Hcl; specialize (Hqz (Hnone Hret)); specialize (Hzero Hcl); lia|].
  intros Hf. rewrite Hf in Hh. split; [|split].
  - intros g gr w Hgr Hw. destruct (fair_queue _ _ _ g gr w Hh Hgr Hw) as (i & x & n & Hx & Hg & Hn).
    apply lookup_fmap_Some in Hx as (c & <- & Hc). destruct (co_queued _ HS i c w n Hc Hn) as (k & a & Hk & <- & Hwt).
    exists k, a, c. split_and!; [done|done|by eapply Hunder|done|done].
  - intros k a w Hk Hw. destruct (co_call _ HS k a Hk) as (c & Hc & _ & Hq).
    destruct (fair_waiter _ _ _ (ac_client a) (client_account c) w (ac_size a) Hh) as (g & gr & wr & Hwt);
      [unfold fleet_accounts; by rewrite lookup_fmap, Hc|by apply Hq|]. by exists c, g, gr, wr.
  - intros Hret. destruct (fair_quiet _ _ _ Hh) as [Hq Hcl].
    + intros i x Hx. apply lookup_fmap_Some in Hx as (c & <- & Hc). by apply (Hnone Hret i).
    + split; [done|]. intros Hclosed. apply Hcl. intros i x Hx. apply lookup_fmap_Some in Hx as (c & <- & Hc).
      apply (li_left _ (bo_life _ _ (so_ok _ _ (po_settled _ _ (fo_client _ (co_fleet _ HS) i c Hc))))). by apply (Hclosed i).
Qed.

(** ** Examples *)

Lemma call_no_lost_wakeup_witness :
  ab_isRunning (view (cs_fleet c_blocked) (client_0 c_blocked)) = true /\
  exists f m, f ∈ sent (view (cs_fleet c_blocked) (client_0 c_blocked)) ++ todo (view (cs_fleet c_blocked) (client_0 c_blocked)) /\
    ab_msgs (view (cs_fleet c_blocked) (client_0 c_blocked)) !! f.2 = Some m /\ AckRequested m = true.
Proof.
  destruct (call_no_lost_wakeup (Some a_budget) c_blocked 2 (call_2 c_blocked) (client_0 c_blocked) 2 a_budget_empty c_blocked_reachable)
    as (Hrun & _ & Hor); try (vm_compute; reflexivity).
  split; [exact Hrun|]. destruct Hor as [Hfull|(f & m & Hf & _ & Hm & Hack)]; [vm_compute in Hfull; by destruct Hfull|].
  exists f, m. split; [exact Hf|]. split; [exact Hm|exact Hack].
Defined.

Lemma call_outcome_witness :
  exists a' F, call_step (cs_now c_late) TimerFired (call_2 c_late) (cs_fleet c_late) = Some (a', F) /\
    exists c', fl_clients F !! 0%nat = Some c' /\ abs (view F c') = abs (view (cs_fleet c_late) (client_0 c_late)).
Proof.
  assert (Hs : exists a' F, call_step (cs_now c_late) TimerFired (call_2 c_late) (cs_fleet c_late) = Some (a', F) /\ ac_point a' = CallExpired)
    by (vm_compute; eexists _, _; split; reflexivity).
  destruct Hs as (a' & F & Hs & Ha'). exists a', F. split; [exact Hs|].
  destruct (call_outcome (Some a_budget) c_late 2 TimerFired (call_2 c_late) a' F (client_0 c_late) a_budget_empty c_late_reachable)
    as (_ & _ & c' & Hc' & Hm); [vm_compute; reflexivity|vm_compute; reflexivity|by vm_compute|exact Hs|].
  exists c'. split; [exact Hc'|].
  assert (Hp : ac_point (call_2 c_late) = CallSelect 2) by (vm_compute; reflexivity). rewrite Hp, Ha' in Hm. exact Hm.
Defined.

Lemma call_returns_witness :
  exists case a' F, call_step (cs_now c_late) case (call_2 c_late) (cs_fleet c_late) = Some (a', F).
Proof.
  destruct (call_returns (Some a_budget) c_late 2 (call_2 c_late) (client_0 c_late) a_budget_empty c_late_reachable)
    as ([[err Herr]|Hstep] & _); [vm_compute; reflexivity|vm_compute; reflexivity|by vm_compute| | |exact Hstep].
  - right. exists 100. split; [vm_compute; reflexivity|by vm_compute].
  - vm_compute in Herr. discriminate Herr.
Defined.

Lemma calls_leave_nothing_witness :
  exists bb, fl_budget (cs_fleet c_done) = Some bb /\ bb_used bb = 0.
Proof.
  assert (Hb : exists bb, fl_budget (cs_fleet c_done) = Some bb) by (vm_compute; eexists; reflexivity). destruct Hb as [bb Hb].
  exists bb. split; [exact Hb|].
  destruct (calls_leave_nothing (Some a_budget) c_done bb a_budget_empty c_done_reachable Hb) as (_ & Hz & _).
  assert (Hall : forall k a, cs_calls c_done !! k = Some a -> exists err, ac_point a = CallReturned err).
  { intros k a Hk. assert (Hlist : Forall (fun x => exists err, ac_point x.2 = CallReturned err) (map_to_list (cs_calls c_done)))
      by (vm_compute; repeat constructor; eexists; reflexivity).
    rewrite Forall_forall in Hlist. apply (Hlist (k, a)). by apply elem_of_map_to_list. }
  apply (Hz Hall). intros i c Hc.
  assert (Hlist : Forall (fun x => ab_isClosed (cl_buf x.2) = true) (map_to_list (fl_clients (cs_fleet c_done))))
    by (vm_compute; repeat constructor).
  rewrite Forall_forall in Hlist. apply (Hlist (i, c)). by apply elem_of_map_to_list.
Defined.
