(* ===== verification/AckFindings.v ===== *)
(** * Where the buffer departs from what its comments say *)

From S2P Require Import Prelude ByteBudget BudgetSpec Event Protocol SharedBudget AckBuffer AckInv AckFleet AckFlags AckExample AckCall AckCallExample.

(** ** Two escapes of one buffer

    [escapeSeq] and [escapeBytes] describe one escape message.  The retirement of
    a later frame that asked for an ACK clears [lastFlaggedSeq], so the next
    message over the limit escapes too and overwrites the record of the first:
    its escape bytes are never given back. *)

Definition escape_budget : ByteBudget :=
  default (NewByteBudget 0) (NewFairByteBudget 1000 (MkFairByteBudgetOptions 500 250)).

Definition escape_clients : fleet (option ByteBudget) := joined 1 "tenant-b" (joined 0 "tenant-a" (Fleet (Some escape_budget) ∅)).

Fixpoint text (n : nat) : string := match n with O => "" | S n => String (Ascii.ascii_of_nat 120) (text n) end.

(** A call that is admitted at its first turn. *)
Definition admitted_at_once (k i : nat) (e : maddr) (receipt : option cell) (maxT : Z) : list act :=
  [AStart k i (Some e) 0 receipt maxT; AMove k LocalWake; AMove k LocalWake].

(** The first client escapes with a long message, has a limited frame that asked
    for an ACK retired, escapes again, and has everything acknowledged; then both
    clients close.  Each call charges the estimate of its message. *)
Definition escape_history : list act :=
  [AOther 0 (OpAlloc (MkDataMessage 0 false (text 3000) None "" [] [] "" 1 "" "" "" "")); AOther 0 (OpAlloc (a_message <| AckRequested := true |>));
   AOther 0 (OpAlloc a_message); AOther 1 (OpAlloc a_message); AOther 0 (OpFlow 100); AOther 1 (OpFlow 100)] ++
  admitted_at_once 0 0 0 None 0 ++ admitted_at_once 1 0 1 (Some 7%nat) 1 ++ [AOther 0 OpDeliver; AOther 0 OpDeliver; AOther 0 OpReset] ++
  admitted_at_once 2 1 0 None 0 ++ admitted_at_once 3 0 2 None 0 ++
  [AOther 0 OpDeliver; AOther 0 OpDeliver; AOther 0 (OpAck 3); AOther 0 OpClose; AOther 1 OpClose].

Definition escape_end : calls (option ByteBudget) :=
  default (Calls 0 escape_clients ∅) (play escape_history (Calls 0 escape_clients ∅)).

Lemma escape_clients_reachable : calls_reachable (Some escape_budget) (Calls 0 escape_clients ∅).
Proof.
  apply (calls_next _ (Calls 0 (joined 0 "tenant-a" (Fleet (Some escape_budget) ∅)) ∅));
    [apply (calls_next _ (Calls 0 (Fleet (Some escape_budget) ∅) ∅)); [apply calls_init|]|].
  - apply (cs_join (Calls 0 (Fleet (Some escape_budget) ∅) ∅) 0%nat 0 "tenant-a"); try (vm_compute; reflexivity); by vm_compute.
  - apply (cs_join (Calls 0 (joined 0 "tenant-a" (Fleet (Some escape_budget) ∅)) ∅) 1%nat 0 "tenant-b");
      try (vm_compute; reflexivity); by vm_compute.
Qed.

(** More escape bytes than used ones make every test of room fail. *)
Lemma fits_nothing n g bb :
  bb_used bb = 0 -> 0 <= n -> 0 < bb_total bb < W64 - bb_escape bb -> 0 < bb_escape bb < W64 -> fits n g bb = Some false.
Proof.
  intros Hu Hn Ht He. unfold fits. rewrite decide_False by lia. cbv zeta. rewrite decide_True; [done|].
  destruct (decide (n > bb_total bb)); [by left|right]. rewrite Hu. unfold sub64. rewrite (Z.mod_small (bb_total bb - n)) by lia.
  replace (0 - bb_escape bb) with (W64 - bb_escape bb + (-1) * W64) by lia. rewrite Z.mod_add by done. rewrite Z.mod_small; lia.
Qed.

(** C36. Escape bytes can outlive the message they were counted for: a history of
    calls and acknowledgements exists after which every call returned and every
    client is closed, the budget counts no used bytes but still counts escape
    bytes, and from then on no message of any size fits for any group, so that
    the budget admits nothing but further escapes. *)
Theorem escape_leak :
  exists (S : calls (option ByteBudget)) bb, calls_reachable (Some escape_budget) S /\ fl_budget (cs_fleet S) = Some bb /\
    (forall k a, cs_calls S !! k = Some a -> ac_point a = CallReturned None) /\
    (forall i c, fl_clients (cs_fleet S) !! i = Some c -> ab_isClosed (cl_buf c) = true) /\
    bb_used bb = 0 /\ bb_escape bb <> 0 /\ forall n g, 0 <= n -> fits n g bb = Some false.
Proof.
  assert (Hrun : exists bb, fl_budget (cs_fleet escape_end) = Some bb /\ bb_used bb = 0 /\ bb_escape bb = 3256 /\ bb_total bb = 1000)
    by (vm_compute; eexists; split_and!; reflexivity).
  destruct Hrun as (bb & Hbb & Hu & He & Ht). exists escape_end, bb. split; [|split; [exact Hbb|split; [|split]]].
  - unfold escape_end. destruct (play escape_history _) as [S|] eqn:Hp; [|exact escape_clients_reachable].
    exact (play_reachable _ _ _ _ escape_clients_reachable Hp).
  - assert (Hall : map_Forall (fun _ a => ac_point a = CallReturned None) (cs_calls escape_end))
      by (apply map_Forall_to_list; vm_compute; repeat constructor). exact Hall.
  - assert (Hall : map_Forall (fun _ c => ab_isClosed (cl_buf c) = true) (fl_clients (cs_fleet escape_end)))
      by (apply map_Forall_to_list; vm_compute; repeat constructor). exact Hall.
  - split; [exact Hu|]. split; [rewrite He; discriminate|]. intros n g Hn. clear Hbb.
    apply fits_nothing; [exact Hu|exact Hn|rewrite Ht, He; by vm_compute|rewrite He; by vm_compute].
Qed.

(** ** Numbers that wrap around

    With the window across the wrap-around of the sequence numbers, the check
    against [nextSeqNum] refuses the number of a frame that was handed out. *)
Definition wrapped_buffer : AckBuffer (option ByteBudget) :=
  a_buffer <| ab_firstSeqNum := W64 - 2 |> <| ab_nextSeqNum := 1 |> <| ab_nextIndexToDeliver := 3 |>.

Example ack_refused_before_wrap :
  sub64 (W64 - 2) (ab_firstSeqNum wrapped_buffer) < ab_nextIndexToDeliver wrapped_buffer /\
  ackCheck (W64 - 2) wrapped_buffer = Some (UnexpectedSeq (W64 - 2)).
Proof. vm_compute. split; reflexivity. Qed.
