(* ===== verification/AckDrain.v ===== *)
(** * Draining

    [drain] from its entry to its return, as a process that interleaves with
    everything else the clients of a budget do.  A drain sleeps only while a
    message is unacknowledged, returns once its context ended or its buffer was
    closed, and what it confirmed stays confirmed. *)

From S2P Require Import Prelude ByteBudget BudgetSpec Event Protocol SharedBudget AckBuffer AckInv AckRemove AckReceipts AckRetire AckDeliver AckAdmit AckMethods AckFleet AckWindow AckFlags AckExample AckProps.

(** ** The process *)

Inductive drain_point :=
  | DrainEntry
  (** in the select, with the sampled channel *)
  | DrainSelect (wake : chan)
  | DrainReturned (err : option DrainError).

Record drainCall := DrainCall {
  dc_client : nat;
  (** whether the context ended *)
  dc_done : bool;
  dc_point : drain_point;
}.

Definition drain_goto (r : drain_outcome) : drain_point :=
  match r with DrainDone => DrainReturned None | DrainFailed e => DrainReturned (Some e) | DrainWait wake => DrainSelect wake end.

Section drains.
Context {B : Type} `{HB : LenientLaws B}.
Implicit Types (b : AckBuffer B) (F : fleet B) (d : drainCall).

(** One turn of the loop, up to the select or the return. *)
Definition drain_loop d F : option (drainCall * fleet B) :=
  '(r, F) ← fleet_op (dc_client d) (OpDrain (dc_done d)) F;
  match r with Drained r => Some (DrainCall (dc_client d) (dc_done d) (drain_goto r), F) | _ => None end.

(** One step of a drain: admission is sealed and the first turn taken under one
    lock; the select takes the wake channel or the end of the context. *)
Definition drain_step d F : option (drainCall * fleet B) :=
  match dc_point d with
  | DrainEntry => '(_, F) ← fleet_op (dc_client d) OpSeal F; drain_loop d F
  | DrainSelect wake =>
      c ← fl_clients F !! dc_client d;
      if bool_decide (ab_chans (view F c) !! wake = Some true) || dc_done d then drain_loop d F else None
  | DrainReturned _ => None
  end.

Record drains := Drains { ds_fleet : fleet B; ds_drains : gmap nat drainCall }.
Implicit Types (S : drains).

Inductive drains_step S : drains -> Prop :=
  | ds_join i maxBytes key F :
      fl_clients (ds_fleet S) !! i = None -> sb_joinable key (fl_budget (ds_fleet S)) ->
      Z.of_nat (size (fl_clients (ds_fleet S))) < 2 ^ 62 -> is_u64 maxBytes ->
      fleet_join i maxBytes key (ds_fleet S) = Some (inr F) -> drains_step S (Drains F (ds_drains S))
  | ds_op i o r F :
      fleet_guard i o (ds_fleet S) = true -> fleet_op i o (ds_fleet S) = Some (r, F) -> drains_step S (Drains F (ds_drains S))
  | ds_start k i :
      ds_drains S !! k = None -> is_Some (fl_clients (ds_fleet S) !! i) ->
      drains_step S (Drains (ds_fleet S) (<[k := DrainCall i false DrainEntry]> (ds_drains S)))
  | ds_done k d :
      ds_drains S !! k = Some d ->
      drains_step S (Drains (ds_fleet S) (<[k := DrainCall (dc_client d) true (dc_point d)]> (ds_drains S)))
  | ds_move k d d' F :
      ds_drains S !! k = Some d -> drain_step d (ds_fleet S) = Some (d', F) ->
      drains_step S (Drains F (<[k := d']> (ds_drains S))).

Inductive drains_reachable (s0 : B) : drains -> Prop :=
  | drains_init : drains_reachable s0 (Drains (Fleet s0 ∅) ∅)
  | drains_next S S' : drains_reachable s0 S -> drains_step S S' -> drains_reachable s0 S'.

(** ** One buffer *)

(** No operation opens a sealed buffer, so an empty one stays empty. *)
Lemma op_sealed o i calls A b r calls' b' :
  ok b -> own i calls A b -> op_guard o calls (<[i := acct calls b]> A) b = true ->
  run_op o calls b = Some (r, calls', b') -> ab_isRunning b = false ->
  ab_isRunning b' = false /\ (ab_nextIndexFree b = 0 -> ab_nextIndexFree b' = 0).
Proof.
  intros Hok Ho Hg Hrun Hs. destruct (run_op_good o i calls A b Hok Ho Hg) as (r1 & c1 & b1 & Hr & Hpost & Hok' & _ & _).
  rewrite Hrun in Hr. injection Hr as <- <- <-. pose proof (ok_free b' Hok') as Hf'. pose proof (ok_free b Hok) as Hf.
  destruct Hpost as [m|?????|????? s c' b' Hr|????? x Hr|w s|seq r b' Hu Ha|r b' Hs' Hd|ms1 b1 n b' Hs' Hrst Hok1| |cap len av Hne Hpub|Hpub|done r b' Hd|s Hpub|];
    try congruence; try (split; [first [exact Hs|reflexivity]|exact (fun h => h)]).
  - destruct Ha as [| |r' n b' k Hc Hlt Hres Hok2 Hhr Hpub' _]; [by split; [|exact (fun h => h)]..|].
    destruct (ack_slid (held b) seq i calls A b r' n b') as (Hsl & _ & _ & _ & ->); [done..|]. rewrite (sd_length _ _ _ Hsl) in Hf'.
    split; [exact Hs|lia].
  - assert (Hfr : b' = deliver_frame b b') by (by destruct Hd). rewrite Hfr. by split; [|exact (fun h => h)].
  - destruct (reset_slid b i calls A ms1 b1 n b') as (Hsl & _ & _ & -> & _); [done..|]. rewrite (sd_length _ _ _ Hsl) in Hf'. split; [done|lia].
  - destruct Hd as [| |wake b' _ _ Hw]; [by split; [|exact (fun h => h)]..|]. apply sampleWake_fields in Hw. rewrite Hw. by split; [|exact (fun h => h)].
Qed.

(** What a drain that sleeps on [c] relies on. *)
Definition pending (c : chan) b : Prop :=
  ab_chans b !! c = Some true \/ (ab_wake b = Some c /\ ab_nextIndexFree b <> 0 /\ ab_isClosed b = false).

Lemma op_pending o i calls A b r calls' b' c :
  ok b -> own i calls A b -> op_guard o calls (<[i := acct calls b]> A) b = true ->
  run_op o calls b = Some (r, calls', b') -> ab_isRunning b = false -> pending c b -> pending c b'.
Proof.
  intros Hok Ho Hg Hrun Hs [Hc|Hp]; [left; by eapply op_closed|]. pose proof Hp as (Hc & Hz & Hcl).
  destruct (run_op_post o i calls A b r calls' b' Hok Ho Hg Hrun) as [m|?????|????? s c' b' Hr|????? x Hr|w s|
    seq r b' Hu Ha|r b' Hs' Hd|ms1 b1 n b' Hs' Hrst Hok1| |cap len av Hne Hpub|Hpub|done r b' Hd|s Hpub|];
    try (right; exact Hp); try congruence; try (left; by apply woken_closed).
  - destruct Ha as [| |r' n b' k _ _ _ _ Hhr _ _]; [by right..|]. left. apply (head_chans _ _ _ _ _ _ _ c Hhr). by apply woken_closed.
  - assert (Hfr : b' = deliver_frame b b') by (by destruct Hd). right. by rewrite Hfr.
  - destruct Hrst as [Hrt (b2 & rd & em & Hhr & ->) _ _]. unfold pending. simpl. destruct (rt_quiet _ _ _ _ _ Hrt) as [[_ ->]|[_ Hnone]].
    + destruct Hhr as [|n r ring _ _ _ _]; [by right|]. left. by apply woken_closed.
    + left. apply (head_chans _ _ _ _ _ _ _ c Hhr). destruct (rt_wake _ _ _ _ _ Hrt c Hc); [congruence|done].
  - destruct Hd as [| |wake b' _ _ Hw]; [by right..|]. right. split; [by eapply sampleWake_kept|].
    apply sampleWake_fields in Hw. by rewrite Hw.
Qed.

(** ** The invariant *)

Definition drain_ok b d : Prop :=
  match dc_point d with
  | DrainEntry => True
  | DrainSelect c => ab_isRunning b = false /\ pending c b
  | DrainReturned None => ab_isRunning b = false /\ ab_nextIndexFree b = 0
  | DrainReturned (Some _) => ab_isRunning b = false
  end.

Record drains_ok S : Prop := {
  do_fleet : fleet_ok (ds_fleet S);
  do_drain k d : ds_drains S !! k = Some d ->
    exists c, fl_clients (ds_fleet S) !! dc_client d = Some c /\ drain_ok (view (ds_fleet S) c) d;
}.

Lemma op_drain_ok o i calls A b r calls' b' d :
  ok b -> own i calls A b -> op_guard o calls (<[i := acct calls b]> A) b = true ->
  run_op o calls b = Some (r, calls', b') -> drain_ok b d -> drain_ok b' d.
Proof.
  intros Hok Ho Hg Hrun. unfold drain_ok.
  assert (Hsl : ab_isRunning b = false -> _) by exact (op_sealed o i calls A b r calls' b' Hok Ho Hg Hrun).
  destruct (dc_point d) as [|c|[e|]]; [done|..].
  - intros [Hs Hp]. split; [by apply Hsl|by eapply op_pending].
  - intros Hs. by apply Hsl.
  - intros [Hs Hz]. destruct (Hsl Hs). auto.
Qed.

(** An operation of one client keeps every drain in order. *)
Lemma fleet_op_drain i o r F F' d c :
  fleet_ok F -> fleet_guard i o F = true -> fleet_op i o F = Some (r, F') -> fl_clients F !! dc_client d = Some c -> drain_ok (view F c) d ->
  exists c', fl_clients F' !! dc_client d = Some c' /\ drain_ok (view F' c') d.
Proof.
  intros HF Hg Hop Hc Hd. unfold fleet_guard in Hg. unfold fleet_op in Hop. destruct (fl_clients F !! i) as [x|] eqn:Hx; [|done].
  rewrite bind_ret in Hop. destruct (run_op o (cl_calls x) (view F x)) as [[[r' rq] b]|] eqn:Hrun; [|done]. simpl in Hop.
  injection Hop as <- <-. simpl. destruct (decide (i = dc_client d)) as [->|Hne].
  - exists (Client b rq). rewrite lookup_insert_eq. split; [done|]. assert (x = c) as -> by congruence.
    rewrite <-(fleet_accounts_id _ _ c Hc) in Hg.
    exact (op_drain_ok o _ _ _ _ _ _ _ d (fo_client _ HF _ _ Hc) (fleet_own _ _ _ HF Hc) Hg Hrun Hd).
  - exists c. rewrite lookup_insert_ne by done. split; [done|exact Hd].
Qed.

(** What one turn reports, given the unacknowledged messages. *)
Definition reported (l : list maddr) (done : bool) b (r : drain_outcome) : Prop :=
  match r with
  | DrainDone => l = []
  | DrainFailed e => l <> [] /\ ab_isClosed b || done = true /\ Err e = (if ab_isClosed b then ErrorClosed else ErrorContext) /\
      Unacked e = Z.of_nat (length l) /\
      exists m1 m2, head l ≫= (ab_msgs b !!.) = Some m1 /\ last l ≫= (ab_msgs b !!.) = Some m2 /\
        FirstSeq e = SeqNum m1 /\ LastSeq e = SeqNum m2
  | DrainWait _ => l <> [] /\ ab_isClosed b || done = false
  end.

Lemma drain_loop_spec d F c l :
  fleet_ok F -> fl_clients F !! dc_client d = Some c -> ab_isRunning (view F c) = false -> GetUnAcked (view F c) = Some (Some <$> l) ->
  exists r F' c', fleet_op (dc_client d) (OpDrain (dc_done d)) F = Some (Drained r, F') /\
    fl_clients F' !! dc_client d = Some c' /\ drain_ok (view F' c') (DrainCall (dc_client d) (dc_done d) (drain_goto r)) /\
    reported l (dc_done d) (view F c) r.
Proof.
  intros HF Hc Hs Hl. pose proof (fo_client _ HF _ _ Hc) as Hok.
  pose proof (ok_free _ Hok) as Hf.
  destruct (drain_report _ (dc_done d) l Hok Hl) as (r & b' & Hd & Hrep).
  destruct (drain_turn_spec _ _ (dc_done d) (po_settled _ _ Hok)) as (r1 & b1 & Hd1 & Hpost). rewrite Hd in Hd1. injection Hd1 as <- <-.
  exists r, (Fleet (ab_shared b') (<[dc_client d := Client b' (cl_calls c)]> (fl_clients F))), (Client b' (cl_calls c)).
  split; [unfold fleet_op; rewrite Hc, bind_ret; simpl; by rewrite Hd|]. split; [apply lookup_insert_eq|].
  change (view _ (Client b' (cl_calls c))) with b'. unfold drain_ok, reported. simpl.
  destruct Hpost as [Hnil|e a1 a2 m1 m2 H1 _|wake b' Hne Hcl Hw]; simpl.
  - split; [|apply Hrep]. split; [done|]. rewrite Hnil in Hf. exact Hf.
  - split; [done|]. destruct Hrep as (_ & ? & ? & ? & m1' & m2' & Hh & ?). split_and!; try done; [|by exists m1', m2']. by intros ->.
  - destruct Hrep as (_ & Hl' & Hwk & _). split; [|done]. pose proof (sampleWake_fields _ _ _ Hw) as Hfr.
    split; [by rewrite Hfr|]. right. split; [done|]. apply orb_false_iff in Hcl as [Hcl _]. split; [|by rewrite Hfr].
    rewrite Hfr. intros Hz. simpl in Hz, Hf. destruct (held (view F c)); [done|simpl in Hf; lia].
Qed.

(** A drain whose next step is a turn. *)
Definition movable d F (c : client B) : Prop :=
  dc_point d = DrainEntry \/
  exists wake, dc_point d = DrainSelect wake /\ (ab_chans (view F c) !! wake = Some true \/ dc_done d = true).

Lemma movable_or_asleep d F c :
  fl_clients F !! dc_client d = Some c -> match dc_point d with DrainReturned _ => false | _ => true end = true ->
  movable d F c \/ (exists wake, dc_point d = DrainSelect wake /\ ab_chans (view F c) !! wake <> Some true) /\ dc_done d = false /\ drain_step d F = None.
Proof.
  intros Hc Hp. unfold movable, drain_step. destruct (dc_point d) as [|wake|]; [by left; left| |done]. rewrite Hc, bind_ret.
  case_bool_decide as Hw; [left; right; eauto|]. destruct (dc_done d); [left; right; eauto|]. right. split_and!; [by exists wake|done|done].
Qed.

(** ** Every step keeps it *)

Lemma client_guard i F c o : fl_clients F !! i = Some c -> o = OpSeal \/ (exists done, o = OpDrain done) -> fleet_guard i o F = true.
Proof. intros Hc Ho. unfold fleet_guard. rewrite Hc. by destruct Ho as [->|[done ->]]. Qed.

Lemma drains_op S i o r F :
  drains_ok S -> fleet_guard i o (ds_fleet S) = true -> fleet_op i o (ds_fleet S) = Some (r, F) -> drains_ok (Drains F (ds_drains S)).
Proof.
  intros [HF Hd] Hg Hop. split; simpl.
  - destruct (fleet_op_ok i o _ HF Hg) as (r' & F' & HF' & Hok). congruence.
  - intros k d Hk. destruct (Hd k d Hk) as (c & Hc & Hdo). by eapply fleet_op_drain.
Qed.

Lemma drains_put S k d c :
  drains_ok S -> fl_clients (ds_fleet S) !! dc_client d = Some c -> drain_ok (view (ds_fleet S) c) d ->
  drains_ok (Drains (ds_fleet S) (<[k := d]> (ds_drains S))).
Proof.
  intros [HF Hd] Hc Hdo. split; simpl; [done|]. intros k' d' [[<- <-]|[_ Hk']]%lookup_insert_Some; [by exists c|by eapply Hd].
Qed.

(** A turn of a drain whose buffer is sealed. *)
Lemma drains_turn S k d c l :
  drains_ok S -> ds_drains S !! k = Some d -> fl_clients (ds_fleet S) !! dc_client d = Some c ->
  ab_isRunning (view (ds_fleet S) c) = false -> GetUnAcked (view (ds_fleet S) c) = Some (Some <$> l) ->
  exists r F, drain_loop d (ds_fleet S) = Some (DrainCall (dc_client d) (dc_done d) (drain_goto r), F) /\
    drains_ok (Drains F (<[k := DrainCall (dc_client d) (dc_done d) (drain_goto r)]> (ds_drains S))) /\
    reported l (dc_done d) (view (ds_fleet S) c) r.
Proof.
  intros Hok Hk Hc Hs Hl. destruct (drain_loop_spec d (ds_fleet S) c l (do_fleet _ Hok) Hc Hs Hl) as (r & F & c' & Hop & Hc' & Hdo & Hrep).
  exists r, F. split; [unfold drain_loop; by rewrite Hop|]. split; [|done].
  apply (drains_put (Drains F (ds_drains S)) k _ c'); [|done|done]. eapply drains_op; [done| |done]. eapply client_guard; [done|by right; eexists].
Qed.

(** A drain seals its buffer and changes no message. *)
Lemma seal_spec d F c : fleet_ok F -> fl_clients F !! dc_client d = Some c ->
  exists F' c', fleet_op (dc_client d) OpSeal F = Some (Silent, F') /\ fl_clients F' !! dc_client d = Some c' /\
    view F' c' = signalled ((view F c) <| ab_isRunning := false |>) /\ GetUnAcked (view F' c') = GetUnAcked (view F c).
Proof.
  intros HF Hc. pose proof (fo_client _ HF _ _ Hc) as Hok. pose proof (fleet_own _ _ _ HF Hc) as Ho.
  destruct (run_op_good OpSeal (dc_client d) (cl_calls c) _ _ Hok Ho eq_refl) as (r & rq & b & Hrun & Hpost & _).
  inversion Hpost as [| | | | | | | | | |Hpub| | |]; subst. unfold fleet_op. rewrite Hc, bind_ret, Hrun. simpl.
  eexists _, (Client (signalled ((view F c) <| ab_isRunning := false |>)) rq). split; [reflexivity|].
  split; [apply lookup_insert_eq|]. split; [reflexivity|]. change (view _ (Client ?b rq)) with b.
  pose proof (so_ok _ _ (po_settled _ _ Hok)) as [Hw _ _ Hre _ _]. pose proof (so_ok _ _ (po_settled _ _ Hpub)) as [Hw' _ _ Hre' _ _].
  rewrite (GetUnAcked_spec _ _ Hw Hre). exact (GetUnAcked_spec _ _ Hw' Hre').
Qed.

Lemma unacked_list b : ok b -> exists l, GetUnAcked b = Some (Some <$> l) /\ (l = [] <-> ab_nextIndexFree b = 0).
Proof.
  intros Hok. pose proof (so_ok _ _ (po_settled _ _ Hok)) as [Hw _ _ Hre _ _]. exists (live (held b) b).
  split; [exact (GetUnAcked_spec _ _ Hw Hre)|]. pose proof (ok_free b Hok) as Hf. unfold live.
  destruct (held b) as [|a ms] eqn:Hh; [done|]. simpl in Hf. split; [|lia]. simpl.
  rewrite decide_False; [done|]. apply (so_head _ _ (po_settled _ _ Hok)). lia.
Qed.

(** A step of a drain: a turn, after sealing the buffer when it just began. *)
Lemma drains_move S k d c :
  drains_ok S -> ds_drains S !! k = Some d -> fl_clients (ds_fleet S) !! dc_client d = Some c ->
  movable d (ds_fleet S) c ->
  exists l r F, GetUnAcked (view (ds_fleet S) c) = Some (Some <$> l) /\
    drain_step d (ds_fleet S) = Some (DrainCall (dc_client d) (dc_done d) (drain_goto r), F) /\
    drains_ok (Drains F (<[k := DrainCall (dc_client d) (dc_done d) (drain_goto r)]> (ds_drains S))) /\
    reported l (dc_done d) (view (ds_fleet S) c) r.
Proof.
  intros Hok Hk Hc Hp. destruct (unacked_list _ (fo_client _ (do_fleet _ Hok) _ _ Hc)) as (l & Hl & _). exists l.
  destruct Hp as [Hp|(wake & Hp & Hready)].
  - destruct (seal_spec d _ c (do_fleet _ Hok) Hc) as (F1 & c1 & Hseal & Hc1 & Hv & Hu).
    assert (Hok1 : drains_ok (Drains F1 (ds_drains S))) by (eapply drains_op; [done| |done]; eapply client_guard; [done|by left]).
    destruct (drains_turn (Drains F1 (ds_drains S)) k d c1 l) as (r & F & Hd & Hok' & Hrep); [done|done|done|cbn [ds_fleet]; by rewrite Hv|cbn [ds_fleet]; by rewrite Hu|].
    exists r, F. split; [done|]. split; [unfold drain_step; by rewrite Hp, Hseal|]. split; [done|]. cbn [ds_fleet] in Hrep. rewrite Hv in Hrep. exact Hrep.
  - destruct (do_drain _ Hok k d Hk) as (c' & Hc' & Hdo). assert (c' = c) as -> by congruence. unfold drain_ok in Hdo. rewrite Hp in Hdo.
    destruct (drains_turn S k d c l Hok Hk Hc (proj1 Hdo) Hl) as (r & F & Hd & Hok' & Hrep). exists r, F. split_and!; try done.
    unfold drain_step. rewrite Hp, Hc, bind_ret.
    replace (bool_decide _ || dc_done d) with true; [exact Hd|]. symmetry. apply orb_true_iff.
    destruct Hready; [left; by apply bool_decide_eq_true_2|by right].
Qed.

Lemma drains_step_ok S S' : drains_ok S -> drains_step S S' -> drains_ok S'.
Proof.
  intros Hok [i maxBytes key F Hi Hj Hsz Hmax Hjoin|i o r F Hg Hop|k i Hk [c Hc]|k d Hk|k d d' F Hk Hst].
  - split; simpl; [destruct (fleet_join_ok i maxBytes key (ds_fleet S)) as (F' & HF & ?); [apply Hok|done..|congruence]|].
    unfold fleet_join in Hjoin. destruct (NewAckBuffer _) as [[|b]|]; [done| |done]. injection Hjoin as <-. intros k d Hk.
    destruct (do_drain _ Hok k d Hk) as (c & Hc & Hdo). exists c. simpl. rewrite lookup_insert_ne by congruence. split; [done|exact Hdo].
  - by eapply drains_op.
  - by eapply (drains_put S k (DrainCall i false DrainEntry) c).
  - destruct (do_drain _ Hok k d Hk) as (c & Hc & Hdo). by eapply (drains_put S k (DrainCall (dc_client d) true (dc_point d)) c).
  - destruct (do_drain _ Hok k d Hk) as (c & Hc & _).
    destruct (drains_move S k d c Hok Hk Hc) as (l & r & F' & _ & Hst' & Hok' & _); [|congruence].
    destruct (movable_or_asleep d (ds_fleet S) c Hc) as [?|(_ & _ & ?)]; [|done|congruence].
    unfold drain_step in Hst. by destruct (dc_point d).
Qed.

Lemma drains_reachable_ok s0 S : sb_holds ∅ s0 -> drains_reachable s0 S -> drains_ok S.
Proof.
  intros Hs. induction 1 as [|S S' _ IH Hst]; [|by eapply drains_step_ok]. split; simpl.
  - apply (fleet_reachable_ok s0); [done|apply reach_start].
  - intros k d. by rewrite lookup_empty.
Qed.

Lemma fleet_drains s0 F : fleet_reachable s0 F -> drains_reachable s0 (Drains F ∅).
Proof.
  induction 1 as [|F F' i maxBytes key _ IH Hi Hj Hsz Hmax Hjoin|F F' i o r _ IH Hg Hop]; [apply drains_init|..].
  - eapply drains_next; [exact IH|]. by eapply (ds_join (Drains F ∅)).
  - eapply drains_next; [exact IH|]. by eapply (ds_op (Drains F ∅)).
Qed.

(** ** Properties *)

(** C9. A drain that has not returned returns at its next step as soon as nothing is
    unacknowledged, its context ended or its buffer was closed: with success
    exactly when nothing is unacknowledged, and otherwise with the reason, the
    count and the first and last sequence number of what [GetUnAcked] returns.  In
    every other state it sleeps or goes back to sleep: no final acknowledgement is
    missed. *)
Theorem drain_returns s0 S k d c :
  sb_holds ∅ s0 -> drains_reachable s0 S -> ds_drains S !! k = Some d -> fl_clients (ds_fleet S) !! dc_client d = Some c ->
  match dc_point d with DrainReturned _ => false | _ => true end = true ->
  exists l, GetUnAcked (view (ds_fleet S) c) = Some (Some <$> l) /\
    if decide (l = [] \/ ab_isClosed (view (ds_fleet S) c) || dc_done d = true) then
      exists err F, drain_step d (ds_fleet S) = Some (DrainCall (dc_client d) (dc_done d) (DrainReturned err), F) /\
        match err with None => l = [] | Some e => reported l (dc_done d) (view (ds_fleet S) c) (DrainFailed e) end
    else
      match drain_step d (ds_fleet S) with
      | None => exists wake, dc_point d = DrainSelect wake /\ ab_wake (view (ds_fleet S) c) = Some wake
      | Some (d', _) => exists wake, d' = DrainCall (dc_client d) (dc_done d) (DrainSelect wake)
      end.
Proof.
  intros Hs HS%drains_reachable_ok Hk Hc Hp; [|done]. pose proof (fo_client _ (do_fleet _ HS) _ _ Hc) as Hok.
  destruct (unacked_list _ Hok) as (l & Hl & Hnil). exists l. split; [done|].
  destruct (do_drain _ HS k d Hk) as (c' & Hc' & Hdo). assert (c' = c) as -> by congruence. clear Hc'.
  destruct (movable_or_asleep d _ c Hc Hp) as [Hm|((wake & Hw & Hopen) & Hdn & Hst)].
  - destruct (drains_move S k d c HS Hk Hc Hm) as (l' & r & F & Hl' & Hst & _ & Hrep). rewrite Hl in Hl'. injection Hl' as Hl'.
    apply list_fmap_eq_inj in Hl'; [|by intros ? ? [= ->]]. subst l'. rewrite Hst. case_decide as Hd.
    + destruct r as [|e|wake]; [by exists None, F|by exists (Some e), F|]. destruct Hrep as [? ?]. destruct Hd; [done|congruence].
    + destruct r as [|e|wake]; [by destruct Hd; left| |by exists wake]. destruct Hrep as (_ & ? & _). by destruct Hd; right.
  - unfold drain_ok in Hdo. rewrite Hw in Hdo. destruct Hdo as [_ [?|(Hwk & Hz & Hcl)]]; [done|].
    rewrite decide_False; [rewrite Hst; by exists wake|]. rewrite Hcl, Hdn. intros [?%Hnil|?]; done.
Qed.
(** C10. What a drain confirmed stays confirmed: in every state after it returned
    without an error, whatever the clients do, nothing of its buffer is
    unacknowledged and every admission is refused as closed. *)
Theorem drain_confirms s0 S k i dn c :
  sb_holds ∅ s0 -> drains_reachable s0 S -> ds_drains S !! k = Some (DrainCall i dn (DrainReturned None)) ->
  fl_clients (ds_fleet S) !! i = Some c ->
  GetUnAcked (view (ds_fleet S) c) = Some [] /\
  forall e size waiter receipt maxT, add_turn e size waiter receipt maxT (view (ds_fleet S) c) =
    Some (AddReturn (Some ErrorClosed), waiter, view (ds_fleet S) c).
Proof.
  intros Hs HS%drains_reachable_ok Hk Hc; [|done]. destruct (do_drain _ HS _ _ Hk) as (c' & Hc' & Hrun & Hz). simpl in Hc'.
  assert (c' = c) as -> by congruence. destruct (unacked_list _ (fo_client _ (do_fleet _ HS) _ _ Hc)) as (l & Hl & Hnil). split.
  - rewrite Hl. by rewrite (proj2 Hnil Hz).
  - intros e size waiter receipt maxT. unfold add_turn. by rewrite Hrun.
Qed.
End drains.

(** ** A drain of the second client of the example: it waits until its message is
    acknowledged *)

Arguments drains B : clear implicits.

Definition w_start (i : nat) : drains (option ByteBudget) := Drains a_fleet {[0%nat := DrainCall i false DrainEntry]}.

(** One step of the drain, and one operation of a client. *)
Definition w_move (S : drains (option ByteBudget)) : drains (option ByteBudget) :=
  default S (d ← ds_drains S !! 0%nat; '(d, F) ← drain_step d (ds_fleet S); Some (Drains F (<[0%nat := d]> (ds_drains S)))).
Definition w_op (i : nat) (o : op) (S : drains (option ByteBudget)) : drains (option ByteBudget) :=
  if fleet_guard i o (ds_fleet S) then default S ('(_, F) ← fleet_op i o (ds_fleet S); Some (Drains F (ds_drains S))) else S.

Lemma w_start_reachable i : is_Some (fl_clients a_fleet !! i) -> drains_reachable (Some a_budget) (w_start i).
Proof. intros Hi. eapply drains_next; [apply fleet_drains, a_fleet_reachable|]. by apply (ds_start (Drains a_fleet ∅) 0%nat i). Qed.

Lemma w_move_reachable S : drains_reachable (Some a_budget) S -> drains_reachable (Some a_budget) (w_move S).
Proof.
  intros HS. unfold w_move. destruct (ds_drains S !! 0%nat) as [d|] eqn:Hd; [|done]. simpl.
  destruct (drain_step d (ds_fleet S)) as [[d' F]|] eqn:Hs; [|done]. eapply drains_next; [done|]. by eapply ds_move.
Qed.

Lemma w_op_reachable i o S : drains_reachable (Some a_budget) S -> drains_reachable (Some a_budget) (w_op i o S).
Proof.
  intros HS. unfold w_op. destruct (fleet_guard i o (ds_fleet S)) eqn:Hg; [|done].
  destruct (fleet_op i o (ds_fleet S)) as [[r F]|] eqn:Hop; [|done]. eapply drains_next; [done|]. by eapply ds_op.
Qed.

Definition w_acked : drains (option ByteBudget) := w_move (w_op 1 (OpAck 1) (w_op 1 OpDeliver (w_move (w_start 1)))).

Lemma w_acked_reachable : drains_reachable (Some a_budget) w_acked.
Proof. apply w_move_reachable, w_op_reachable, w_op_reachable, w_move_reachable, w_start_reachable. vm_compute. by eexists. Qed.

Definition client_1 : client (option ByteBudget) := default no_client (fl_clients (ds_fleet w_acked) !! 1%nat).

Lemma drain_confirms_witness :
  ds_drains w_acked !! 0%nat = Some (DrainCall 1 false (DrainReturned None)) /\ GetUnAcked (view (ds_fleet w_acked) client_1) = Some [].
Proof.
  assert (Hd : ds_drains w_acked !! 0%nat = Some (DrainCall 1 false (DrainReturned None))) by (vm_compute; reflexivity).
  split; [exact Hd|].
  assert (Hc : fl_clients (ds_fleet w_acked) !! 1%nat = Some client_1).
  { assert (Hs : is_Some (fl_clients (ds_fleet w_acked) !! 1%nat)) by (vm_compute; by eexists).
    unfold client_1. destruct Hs as [c Hc]. by rewrite Hc. }
  exact (proj1 (drain_confirms (Some a_budget) w_acked 0 1 false client_1 a_budget_empty w_acked_reachable Hd Hc)).
Defined.

(** The context of a drain of the first client ends while three messages are left. *)
Definition w_ended : drains (option ByteBudget) := Drains a_fleet {[0%nat := DrainCall 0 true DrainEntry]}.

Lemma w_ended_reachable : drains_reachable (Some a_budget) w_ended.
Proof.
  assert (Hi : is_Some (fl_clients a_fleet !! 0%nat)) by (rewrite a_client_joined; by eexists).
  eapply drains_next; [apply (w_start_reachable 0 Hi)|]. by eapply (ds_done (w_start 0) 0%nat (DrainCall 0 false DrainEntry)).
Qed.

Lemma drain_returns_witness :
  exists e F, drain_step (DrainCall 0 true DrainEntry) a_fleet = Some (DrainCall 0 true (DrainReturned (Some e)), F) /\ Unacked e = 3.
Proof.
  destruct (drain_returns (Some a_budget) w_ended 0 (DrainCall 0 true DrainEntry) a_client a_budget_empty w_ended_reachable eq_refl
    a_client_joined eq_refl) as (l & Hl & Hd).
  assert (Hl' : GetUnAcked (view (ds_fleet w_ended) a_client) = Some (Some <$> [0; 1; 2]%nat)) by (vm_compute; reflexivity).
  rewrite Hl in Hl'. injection Hl' as Hl'. assert (l = [0; 1; 2]%nat) as -> by (apply (inj (fmap Some)); exact Hl').
  rewrite decide_True in Hd by (right; apply orb_true_r). destruct Hd as (err & F & Hs & He). destruct err as [e|]; [|discriminate He].
  exists e, F. split; [exact Hs|]. destruct He as (_ & _ & _ & Hu & _). exact Hu.
Defined.
