(* ===== verification/ClientOptions.v ===== *)
(** * The options of a client (client.go)

    Validation, proxy defaults, the checks of [NewClient] and the connection
    header.  URLs, regular expressions and grok patterns are those of the
    libraries called: parameters. *)

From S2P Require Import Prelude Protocol.

Record Identity := MkIdentity { id_Oid : string; id_InstallationKey : string }.

(** Durations are in nanoseconds. *)
Record ProxyOptions := MkProxyOptions {
  URL : string;
  Username : string;
  Password : string;
  HandshakeTimeout : Z;
  ConnectTimeout : Z;
  ReadWriteTimeout : Z;
}.

(** [Buf] is the type of the buffer options; callbacks are left out. *)
Record ClientOptions (Buf : Type) := MkClientOptions {
  co_Identity : Identity;
  co_Hostname : string;
  co_Platform : string;
  co_Architecture : string;
  co_Mapping : MappingDescriptor;
  co_Mappings : list MappingDescriptor;
  co_Indexing : list IndexDescriptor;
  BufferOptions : Buf;
  co_IsCompressed : bool;
  co_SensorSeedKey : string;
  DestURL : string;
  TestSinkMode : bool;
  Proxy : ProxyOptions;
}.
Arguments MkClientOptions {Buf}.
Arguments co_Identity {Buf}.
Arguments co_Hostname {Buf}.
Arguments co_Platform {Buf}.
Arguments co_Architecture {Buf}.
Arguments co_Mapping {Buf}.
Arguments co_Mappings {Buf}.
Arguments co_Indexing {Buf}.
Arguments BufferOptions {Buf}.
Arguments co_IsCompressed {Buf}.
Arguments co_SensorSeedKey {Buf}.
Arguments DestURL {Buf}.
Arguments TestSinkMode {Buf}.
Arguments Proxy {Buf}.

Definition Second : Z := 1000000000.

(** ** Defaults *)

Definition default_timeout (d v : Z) : Z := if decide (v = 0) then d else v.

Definition normalizeProxy (p : ProxyOptions) : ProxyOptions :=
  MkProxyOptions (URL p) (Username p) (Password p) (default_timeout (45 * Second) (HandshakeTimeout p))
    (default_timeout (10 * Second) (ConnectTimeout p)) (default_timeout (30 * Second) (ReadWriteTimeout p)).

Definition normalizeProxyConfig {Buf} (o : ClientOptions Buf) : ClientOptions Buf :=
  MkClientOptions (co_Identity o) (co_Hostname o) (co_Platform o) (co_Architecture o) (co_Mapping o) (co_Mappings o)
    (co_Indexing o) (BufferOptions o) (co_IsCompressed o) (co_SensorSeedKey o) (DestURL o) (TestSinkMode o)
    (normalizeProxy (Proxy o)).

(** ** Validation *)

(** A parsed URL, as far as it is looked at: whether it has credentials. *)
Record parsed_url := ParsedURL { u_User : bool; u_Host : string }.

Inductive options_error (E : Type) :=
  | MissingOid
  | MissingInstallationKey
  | MissingPlatform
  | InvalidProxyURL (e : E)
  | ProxyCredentialsInURL
  | ProxyAuthIncomplete
  | InvalidIndexing (i : nat) (e : descriptor_error E)
  | InvalidMappings (i : nat) (e : descriptor_error E)
  | InvalidMapping (e : descriptor_error E).
Arguments MissingOid {E}.
Arguments MissingInstallationKey {E}.
Arguments MissingPlatform {E}.
Arguments InvalidProxyURL {E} e.
Arguments ProxyCredentialsInURL {E}.
Arguments ProxyAuthIncomplete {E}.
Arguments InvalidIndexing {E} i e.
Arguments InvalidMappings {E} i e.
Arguments InvalidMapping {E} e.

(** The errors of the checks at the start of [NewClient]. *)
Inductive new_error (E : Type) :=
  | NewInvalidMappingIdentity
  | NewInvalidMappingsIdentity
  | NewParsingMissing (i : nat)
  | NewInvalidParsingRE (i : nat) (e : E)
  | NewInvalidParsingGrok (i : nat) (e : E)
  | NewInvalidMappingRE (e : E)
  | NewInvalidMappingGrok (e : E).
Arguments NewInvalidMappingIdentity {E}.
Arguments NewInvalidMappingsIdentity {E}.
Arguments NewParsingMissing {E} i.
Arguments NewInvalidParsingRE {E} i e.
Arguments NewInvalidParsingGrok {E} i e.
Arguments NewInvalidMappingRE {E} e.
Arguments NewInvalidMappingGrok {E} e.

(** [for i, x := range l { if err := f(i, x); err != nil { return err } }] *)
Fixpoint range_errors {A X} (f : nat -> A -> option X) (i : nat) (l : list A) : option X :=
  match l with
  | [] => None
  | x :: l => match f i x with Some e => Some e | None => range_errors f (S i) l end
  end.

Section validate.
(** [regexp.Compile], [grok.NewComplete], [time.LoadLocation], [url.Parse] and
    [AddPatterns] of a new grok; [None] and [inr] are success. *)
Context {E : Type} (Compile : string -> option E) (NewComplete : gmap string string -> option E)
  (LoadLocation : string -> option E) (Parse : string -> E + parsed_url) (AddPatterns : gmap string string -> option E).
Context {Buf : Type}.
Implicit Types (o : ClientOptions Buf).

(** The proxy part of [Validate]. *)
Definition validateProxy (p : ProxyOptions) : option (options_error E) :=
  if decide (URL p <> "") then
    match Parse (URL p) with
    | inl e => Some (InvalidProxyURL e)
    | inr u =>
        if u_User u then Some ProxyCredentialsInURL
        else if decide ((Username p <> "" /\ Password p = "") \/ (Username p = "" /\ Password p <> ""))
        then Some ProxyAuthIncomplete else None
    end
  else None.

Definition ClientOptions_Validate o : option (options_error E) :=
  if decide (id_Oid (co_Identity o) = "") then Some MissingOid
  else if decide (id_InstallationKey (co_Identity o) = "") then Some MissingInstallationKey
  else if decide (co_Platform o = "") then Some MissingPlatform
  else
    match validateProxy (Proxy o) with
    | Some e => Some e
    | None =>
        match range_errors (fun i d => InvalidIndexing i <$> IndexDescriptor_Validate Compile d) 0 (co_Indexing o) with
        | Some e => Some e
        | None =>
            if decide (co_Mappings o <> []) then
              range_errors (fun i m => InvalidMappings i <$> Validate Compile NewComplete LoadLocation m) 0 (co_Mappings o)
            else InvalidMapping <$> Validate Compile NewComplete LoadLocation (co_Mapping o)
        end
    end.

(** One of several mappings in [NewClient]. *)
Definition checkMapping (i : nat) (m : MappingDescriptor) : option (new_error E) :=
  if decide (ParsingRE m = "" /\ size (ParsingGrok m) = 0%nat) then Some (NewParsingMissing i)
  else
    match (if decide (ParsingRE m <> "") then Compile (ParsingRE m) else None) with
    | Some e => Some (NewInvalidParsingRE i e)
    | None =>
        if decide (0 < size (ParsingGrok m))%nat then NewInvalidParsingGrok i <$> AddPatterns (ParsingGrok m) else None
    end.

(** The checks of [NewClient] on the normalized options. *)
Definition newClientChecks o : option (new_error E) :=
  if negb (ValidSensorIdentityType (SensorIdentityType (co_Mapping o))) then Some NewInvalidMappingIdentity
  else if existsb (fun m => negb (ValidSensorIdentityType (SensorIdentityType m))) (co_Mappings o)
  then Some NewInvalidMappingsIdentity
  else
    match range_errors checkMapping 0 (co_Mappings o) with
    | Some e => Some e
    | None =>
        match (if decide (ParsingRE (co_Mapping o) <> "") then Compile (ParsingRE (co_Mapping o)) else None) with
        | Some e => Some (NewInvalidMappingRE e)
        | None =>
            if decide (0 < size (ParsingGrok (co_Mapping o)))%nat
            then NewInvalidMappingGrok <$> AddPatterns (ParsingGrok (co_Mapping o)) else None
        end
    end.

(** The header of a connection. *)
Definition connectionHeader o (instanceID : string) : ConnectionHeader :=
  MkConnectionHeader CurrentVersion (id_Oid (co_Identity o)) (id_InstallationKey (co_Identity o)) (co_Hostname o)
    (co_Platform o) (co_Architecture o) (co_Mapping o) (co_Mappings o) (co_SensorSeedKey o) (co_IsCompressed o) "msgpack"
    instanceID (co_Indexing o).

(** ** Properties *)

Lemma range_errors_none {A X} (f : nat -> A -> option X) i l :
  range_errors f i l = None <-> forall j x, l !! j = Some x -> f (i + j)%nat x = None.
Proof.
  revert i. induction l as [|x l IH]; intros i; simpl; [split; [intros _ j y; by rewrite lookup_nil|done]|].
  destruct (f i x) eqn:Hf.
  - split; [done|]. intros Hall. specialize (Hall 0%nat x eq_refl). rewrite Nat.add_0_r in Hall. congruence.
  - rewrite IH. split; intros Hall.
    + intros [|j] y Hy; simpl in Hy; [injection Hy as <-; by rewrite Nat.add_0_r|]. rewrite Nat.add_succ_r. by apply Hall.
    + intros j y Hy. specialize (Hall (S j) y Hy). by rewrite Nat.add_succ_r in Hall.
Qed.

Lemma validateProxy_none p :
  validateProxy p = None <->
    (URL p <> "" -> (exists u, Parse (URL p) = inr u /\ u_User u = false) /\ (Username p = "" <-> Password p = "")).
Proof.
  unfold validateProxy. destruct (decide (URL p <> "")) as [Hu|Hu]; [|tauto].
  destruct (Parse (URL p)) as [e|u] eqn:Hp.
  { split; [done|]. intros Hall. by destruct (Hall Hu) as [(u & ? & _) _]. }
  destruct (u_User u) eqn:Hc.
  { split; [done|]. intros Hall. destruct (Hall Hu) as [(u' & [= <-] & ?) _]. congruence. }
  destruct (decide _) as [Hd|Hd].
  - split; [done|]. intros Hall. destruct (Hall Hu) as [_ Hi]. tauto.
  - split; [|done]. intros _ _. split; [by exists u|].
    destruct (decide (Username p = "")), (decide (Password p = "")); tauto.
Qed.

(** [Validate] accepts options exactly when the identity and the platform are
    given, the proxy URL, if any, parses without credentials and comes with both
    or neither of user and password, every index descriptor is valid and every
    mapping descriptor is, the single one counting only without a list. *)
Theorem options_validate o :
  ClientOptions_Validate o = None <->
    id_Oid (co_Identity o) <> "" /\ id_InstallationKey (co_Identity o) <> "" /\ co_Platform o <> "" /\
    (URL (Proxy o) <> "" -> (exists u, Parse (URL (Proxy o)) = inr u /\ u_User u = false) /\
       (Username (Proxy o) = "" <-> Password (Proxy o) = "")) /\
    (forall d, d ∈ co_Indexing o -> IndexDescriptor_Validate Compile d = None) /\
    (forall m, m ∈ (if decide (co_Mappings o <> []) then co_Mappings o else [co_Mapping o]) ->
       Validate Compile NewComplete LoadLocation m = None).
Proof.
  unfold ClientOptions_Validate. destruct (decide (id_Oid (co_Identity o) = "")); [intuition congruence|].
  destruct (decide (id_InstallationKey (co_Identity o) = "")); [intuition congruence|].
  destruct (decide (co_Platform o = "")); [intuition congruence|]. rewrite <-validateProxy_none.
  destruct (validateProxy (Proxy o)); [intuition congruence|].
  assert (Hix : range_errors (fun i d => InvalidIndexing i <$> IndexDescriptor_Validate Compile d) 0 (co_Indexing o) = None <->
    forall d, d ∈ co_Indexing o -> IndexDescriptor_Validate Compile d = None).
  { rewrite range_errors_none. split; intros Hall.
    - intros d [j Hj]%list_elem_of_lookup. by apply (Hall j), fmap_None in Hj.
    - intros j d Hj. apply fmap_None, Hall. by eapply list_elem_of_lookup_2. }
  destruct (range_errors _ 0 (co_Indexing o)) as [e|].
  { split; [done|]. intros (_ & _ & _ & _ & Hall & _). by rewrite <-Hix in Hall. }
  destruct (decide (co_Mappings o <> [])) as [Hm|Hm].
  - assert (Hmp : range_errors (fun i m => InvalidMappings i <$> Validate Compile NewComplete LoadLocation m) 0 (co_Mappings o) = None <->
      forall m, m ∈ co_Mappings o -> Validate Compile NewComplete LoadLocation m = None).
    { rewrite range_errors_none. split; intros Hall.
      - intros d [j Hj]%list_elem_of_lookup. by apply (Hall j), fmap_None in Hj.
      - intros j d Hj. apply fmap_None, Hall. by eapply list_elem_of_lookup_2. }
    rewrite Hmp. tauto.
  - rewrite fmap_None. split.
    + intros Hv. split_and!; try done; [by apply Hix|]. by intros m ->%list_elem_of_singleton.
    + intros (_ & _ & _ & _ & _ & Hall). apply Hall. by left.
Qed.
End validate.
