(* ===== verification/ClientReceipts.v ===== *)
(** * Admission receipts of a client (receipt.go)

    A receipt names its client's owner cell and the state cell of one admission.
    The owner holds the lifetime of the client; [ObserveReceipt] combines both
    cells.  Its loads are separate steps of the threads of Client.v; here they
    are run one after the other. *)

From S2P Require Import Prelude AckBuffer.

Inductive ReceiptLifetime := ReceiptUnknown | ReceiptLive | ReceiptClosing | ReceiptClosed.

#[export] Instance ReceiptLifetime_eq_dec : EqDecision ReceiptLifetime.
Proof. solve_decision. Defined.
#[export] Instance ReceiptFrameState_eq_dec : EqDecision ReceiptFrameState.
Proof. solve_decision. Defined.

(** The value of the constant. *)
Definition rank (l : ReceiptLifetime) : Z :=
  match l with ReceiptUnknown => 0 | ReceiptLive => 1 | ReceiptClosing => 2 | ReceiptClosed => 3 end.

Record ReceiptObservation := MkObservation { Frame : ReceiptFrameState; Lifetime : ReceiptLifetime }.

#[export] Instance ReceiptObservation_eq_dec : EqDecision ReceiptObservation.
Proof. solve_decision. Defined.

(** The zero observation. *)
Definition noObservation : ReceiptObservation := MkObservation ReceiptInvalid ReceiptUnknown.

(** Pointers to owners; an owner is its lifetime. *)
Abbreviation owner_ptr := nat.

Record AdmissionReceipt := MkReceipt { r_owner : option owner_ptr; r_state : option cell }.

(** The receipt fields of a client: the owner object it points to and
    [receiptLifetime]. *)
Record receipts := MkReceipts {
  receiptOwner : option (owner_ptr * ReceiptLifetime);
  receiptLifetime : ReceiptLifetime;
}.

Definition newReceipts : receipts := MkReceipts None ReceiptUnknown.

(** [new] is the address of a new object. *)
Definition admissionReceiptOwner (new : owner_ptr) (isClosing : bool) (r : receipts) : owner_ptr * receipts :=
  match receiptOwner r with
  | Some (p, _) => (p, r)
  | None =>
      let lifetime := receiptLifetime r in
      let lifetime := if isClosing && bool_decide (rank lifetime < rank ReceiptClosing) then ReceiptClosing else lifetime in
      let lifetime := if decide (lifetime = ReceiptUnknown) then ReceiptLive else lifetime in
      (new, MkReceipts (Some (new, lifetime)) (receiptLifetime r))
  end.

Definition setReceiptLifetime (lifetime : ReceiptLifetime) (r : receipts) : receipts :=
  let kept := if decide (rank (receiptLifetime r) < rank lifetime) then lifetime else receiptLifetime r in
  MkReceipts (match receiptOwner r with Some (p, _) => Some (p, kept) | None => None end) kept.

(** ** The loads of ObserveReceipt *)

(** The tests on the receipt and the load of [c.receiptOwner]. *)
Definition observable (x : AdmissionReceipt) (r : receipts) : option cell :=
  match r_owner x, r_state x with
  | Some p, Some c => if decide (fst <$> receiptOwner r = Some p) then Some c else None
  | _, _ => None
  end.

(** A new cell holds zero. *)
Definition load_frame (cells : gmap cell ReceiptFrameState) (c : cell) : ReceiptFrameState :=
  default ReceiptInvalid (cells !! c).

Definition known_frame (s : ReceiptFrameState) : bool :=
  match s with ReceiptRetained | ReceiptAcknowledged | ReceiptRetired => true | _ => false end.

Definition load_lifetime (r : receipts) : ReceiptLifetime := default ReceiptUnknown (snd <$> receiptOwner r).

(** The part after the last load, of [c.isClosing]. *)
Definition concluded (s : ReceiptFrameState) (l : ReceiptLifetime) (isClosing : bool) : ReceiptObservation :=
  let l := if isClosing && bool_decide (rank l < rank ReceiptClosing) then ReceiptClosing else l in
  let s := if decide (l = ReceiptClosed /\ s = ReceiptRetained) then ReceiptClosedUnconfirmed else s in
  MkObservation s l.

Definition ObserveReceipt (x : AdmissionReceipt) (r : receipts) (cells : gmap cell ReceiptFrameState) (isClosing : bool)
    : ReceiptObservation :=
  match observable x r with
  | None => noObservation
  | Some c =>
      let s := load_frame cells c in
      if negb (known_frame s) then noObservation
      else
        let l := load_lifetime r in
        let s := if decide (l = ReceiptClosed) then load_frame cells c else s in
        concluded s l isClosing
  end.

(** ** Lifetimes *)

(** The owner shows the lifetime of the client: live until [Close] begins. *)
Definition receipts_ok (isClosing : bool) (r : receipts) : Prop :=
  receiptLifetime r <> ReceiptLive /\
  (receiptLifetime r <> ReceiptUnknown -> isClosing = true) /\
  forall p l, receiptOwner r = Some (p, l) ->
    (receiptLifetime r = ReceiptUnknown -> l = ReceiptLive \/ l = ReceiptClosing /\ isClosing = true) /\
    (receiptLifetime r <> ReceiptUnknown -> l = receiptLifetime r).

Lemma newReceipts_ok isClosing : receipts_ok isClosing newReceipts.
Proof. split_and!; done. Qed.

Lemma receipts_ok_closing isClosing r : receipts_ok isClosing r -> receipts_ok true r.
Proof. intros (H1 & H2 & H3). split_and!; [done|done|]. intros p l Hp. specialize (H3 p l Hp). tauto. Qed.

Lemma admissionReceiptOwner_ok new isClosing r : receipts_ok isClosing r -> receipts_ok isClosing (admissionReceiptOwner new isClosing r).2.
Proof.
  intros Hok. unfold admissionReceiptOwner. destruct (receiptOwner r) as [[p l]|] eqn:Ho; [done|].
  destruct r as [o []], Hok as (H1 & H2 & H3); simpl in *; (split_and!; [done|done|]); intros p l; simpl.
  - destruct isClosing; intros [= <- <-]; naive_solver.
  - done.
  - rewrite (H2 ltac:(done)). intros [= <- <-]. naive_solver.
  - rewrite (H2 ltac:(done)). intros [= <- <-]. naive_solver.
Qed.

Lemma setReceiptLifetime_ok l r :
  receipts_ok true r -> l = ReceiptClosing \/ l = ReceiptClosed -> receipts_ok true (setReceiptLifetime l r).
Proof.
  intros (H1 & H2 & H3) Hl. unfold setReceiptLifetime.
  destruct r as [[[p l']|] rl]; simpl in *; destruct Hl as [-> | ->], rl; simpl; (split_and!; [done|done|]); intros q l'' [= <- <-]; done.
Qed.

(** A lifetime never goes back. *)
Lemma setReceiptLifetime_rank l r : rank (receiptLifetime r) <= rank (receiptLifetime (setReceiptLifetime l r)).
Proof. unfold setReceiptLifetime. simpl. case_decide; lia. Qed.

(** ** What an observation says *)

Lemma ObserveReceipt_foreign x r cells isClosing :
  observable x r = None -> ObserveReceipt x r cells isClosing = noObservation.
Proof. intros H. unfold ObserveReceipt. by rewrite H. Qed.

Lemma concluded_live s l isClosing :
  Lifetime (concluded s l isClosing) = ReceiptLive -> isClosing = false /\ l = ReceiptLive /\ Frame (concluded s l isClosing) = s.
Proof.
  unfold concluded. destruct isClosing, l; simpl; try done. all: repeat case_decide; simpl; naive_solver.
Qed.

Lemma concluded_closed s l isClosing :
  Lifetime (concluded s l isClosing) = ReceiptClosed <-> l = ReceiptClosed.
Proof. unfold concluded. destruct isClosing, l; simpl; done. Qed.

(** A lone call sees the two cells as they are. *)
Lemma ObserveReceipt_spec x r cells isClosing c :
  observable x r = Some c -> receipts_ok isClosing r -> known_frame (load_frame cells c) = true ->
  let o := ObserveReceipt x r cells isClosing in
  (Frame o = ReceiptAcknowledged <-> load_frame cells c = ReceiptAcknowledged) /\
  (Frame o = ReceiptRetired <-> load_frame cells c = ReceiptRetired) /\
  (Lifetime o = ReceiptLive <-> isClosing = false) /\
  (Frame o = ReceiptClosedUnconfirmed <-> load_frame cells c = ReceiptRetained /\ receiptLifetime r = ReceiptClosed) /\
  (Frame o = ReceiptRetained <-> load_frame cells c = ReceiptRetained /\ receiptLifetime r <> ReceiptClosed).
Proof.
  intros Hobs (H1 & H2 & H3) Hk. unfold ObserveReceipt. rewrite Hobs, Hk. simpl.
  assert (Hown : exists p l, receiptOwner r = Some (p, l)).
  { unfold observable in Hobs. destruct (r_owner x), (r_state x); try done. case_decide as Hd; [|done].
    destruct (receiptOwner r) as [[p l]|]; [by eauto|done]. }
  destruct Hown as (p & l & Hp). destruct (H3 p l Hp) as [Hu Hn]. unfold load_lifetime. rewrite Hp. simpl.
  destruct r as [o rl]; simpl in *. unfold concluded.
  destruct (load_frame cells c), rl, isClosing; simpl in *; try done;
    (destruct l; simpl in *; try (naive_solver; fail); repeat case_decide; naive_solver).
Qed.
