(* ===== verification/ProxyTunnel.v ===== *)
(** * The tunnel through an HTTP proxy (client.go, createProxyDialer)

    The dialer of a client with its TLS configuration, and its connection
    function: it connects to the proxy, asks for a tunnel and returns the
    connection.  What each call on the network answers is
    an argument.  The deferred clean-up reads the variable [err] of the function
    body; an [err] declared by an [if] statement is another variable. *)

From S2P Require Import Prelude Protocol ClientOptions.

(** ** The CONNECT request *)

Section headers.
(** The credentials [SetBasicAuth] writes. *)
Context (BasicAuth : string -> string -> string).

(** [Header.Get]: empty when absent. *)
Definition header_get (k : string) (h : gmap string string) : string := default "" (h !! k).

Definition connectHeader (p : ProxyOptions) : gmap string string :=
  let h : gmap string string := ∅ in
  if decide (Username p <> "" /\ Password p <> "") then
    let h := <["Proxy-Authorization" := header_get "Authorization" h]> h in
    let h := <["Authorization" := BasicAuth (Username p) (Password p)]> h in
    let auth := header_get "Authorization" h in
    if decide (auth <> "") then delete "Authorization" (<["Proxy-Authorization" := auth]> h) else h
  else h.

(** The credentials go to the proxy only. *)
Lemma connectHeader_auth p :
  (forall u w, BasicAuth u w <> "") ->
  connectHeader p = if decide (Username p <> "" /\ Password p <> "")
    then {["Proxy-Authorization" := BasicAuth (Username p) (Password p)]} else ∅.
Proof.
  intros Hb. unfold connectHeader. case_decide; [|done]. unfold header_get. rewrite lookup_insert_eq. cbn [default from_option id].
  rewrite decide_True by apply Hb. apply map_eq. intros k. destruct (decide (k = "Authorization")) as [->|Hk].
  - by rewrite lookup_delete_eq, lookup_singleton_ne.
  - rewrite lookup_delete_ne by done. destruct (decide (k = "Proxy-Authorization")) as [->|Hk'].
    + by rewrite lookup_insert_eq, lookup_singleton_eq.
    + by rewrite lookup_singleton_ne, !lookup_insert_ne by done.
Qed.

Lemma connectHeader_sent p v :
  (forall u w, BasicAuth u w <> "") ->
  connectHeader p !! "Proxy-Authorization" = Some v <->
  Username p <> "" /\ Password p <> "" /\ v = BasicAuth (Username p) (Password p).
Proof.
  intros Hb. rewrite connectHeader_auth by done. case_decide as Hc; [|split; [done|tauto]].
  rewrite lookup_singleton_eq. split; [by intros [= <-]; destruct Hc|by intros (_ & _ & ->)].
Qed.
End headers.

(** ** The connection *)

Section tunnel.
Context {E : Type}.

(** The answers of the network. *)
Record answers := Answers {
  n_dial : option E;
  n_setDeadline : option E;
  n_write : option E;
  (** an error, or the status *)
  n_read : E + Z;
  n_clearDeadline : option E;
}.

Inductive tunnel_error :=
  | ConnectFailed (e : E)
  | SetDeadlineFailed (e : E)
  | SendFailed (e : E)
  | ReadFailed (e : E)
  | ProxyStatus (status : Z)
  | ClearDeadlineFailed (e : E).

(** The body once the connection is there: what it returns, and whether the
    variable [err] the clean-up reads is set. *)
Definition tunnel_body (n : answers) : option tunnel_error * bool :=
  match n_setDeadline n with
  | Some e => (Some (SetDeadlineFailed e), false)
  | None =>
      match n_write n with
      | Some e => (Some (SendFailed e), true)
      | None =>
          match n_read n with
          | inl e => (Some (ReadFailed e), true)
          | inr status =>
              if decide (status <> 200) then (Some (ProxyStatus status), true)
              else
                match n_clearDeadline n with
                | Some e => (Some (ClearDeadlineFailed e), false)
                | None => (None, false)
                end
          end
      end
  end.

(** [NetDialContext]: the error, if any, and whether the connection to the proxy
    is open afterwards. *)
Definition NetDialContext (n : answers) : option tunnel_error * bool :=
  match n_dial n with
  | Some e => (Some (ConnectFailed e), false)
  | None => let '(r, err) := tunnel_body n in (r, negb err)
  end.

(** C38. A tunnel is returned exactly when every call succeeded and the proxy
    answered 200, and it is open.  A failed attempt leaves no connection behind,
    except when a deadline could not be set or cleared: then it stays open. *)
Theorem proxy_tunnel n r opened :
  NetDialContext n = (r, opened) ->
  (r = None <-> n_dial n = None /\ n_setDeadline n = None /\ n_write n = None /\ n_read n = inr 200 /\ n_clearDeadline n = None) /\
  (r = None -> opened = true) /\
  (r <> None -> opened = true <-> exists e, r = Some (SetDeadlineFailed e) \/ r = Some (ClearDeadlineFailed e)).
Proof.
  unfold NetDialContext, tunnel_body. destruct (n_dial n); [intros [= <- <-]; naive_solver|].
  destruct (n_setDeadline n); [intros [= <- <-]; naive_solver|]. destruct (n_write n); [intros [= <- <-]; naive_solver|].
  destruct (n_read n) as [e|status]; [intros [= <- <-]; naive_solver|].
  destruct (decide (status <> 200)) as [Hs|Hs]; [intros [= <- <-]; naive_solver|].
  assert (status = 200) as -> by lia. destruct (n_clearDeadline n); intros [= <- <-]; naive_solver.
Qed.
End tunnel.

Lemma proxy_tunnel_witness :
  let n := Answers (E := unit) None None None (inr 200) (Some tt) in
  NetDialContext n = (Some (ClearDeadlineFailed tt), true) /\
  exists e, Some (ClearDeadlineFailed tt) = Some (SetDeadlineFailed e) \/ Some (ClearDeadlineFailed tt) = Some (ClearDeadlineFailed e).
Proof.
  intros n. split; [reflexivity|].
  exact (proj1 (proj2 (proj2 (proxy_tunnel n _ true eq_refl)) ltac:(discriminate)) eq_refl).
Defined.

(** ** The dialer *)

Section dialer.
(** [url.Parse] and [URL.Hostname]; the certificate pools of crypto/x509, with the
    pool [AppendCertsFromPEM] leaves or its refusal; the embedded certificate. *)
Context {E Pool : Type} (Parse : string -> E + parsed_url) (Hostname : parsed_url -> string).
Context (SystemCertPool : option Pool) (NewCertPool : Pool) (AppendCertsFromPEM : Pool -> string -> option Pool).
Context (certsGoogleWr3 : string) (BasicAuth : string -> string -> string).

Record tlsConfig := TlsConfig { ServerName : string; RootCAs : Pool }.

(** What the dialer of a proxy is made of; [pd_Header] is the header of the CONNECT
    request its connection function sends. *)
Record proxyDialer := ProxyDialer {
  pd_proxyHost : string;
  pd_HandshakeTimeout : Z;
  pd_ConnectTimeout : Z;
  pd_ReadWriteTimeout : Z;
  pd_Header : gmap string string;
  pd_NetDialContext : answers (E := E) -> option (tunnel_error (E := E)) * bool;
  pd_TLSClientConfig : option tlsConfig;
}.

(** [None] is [websocket.DefaultDialer]. *)
Inductive dialer_error := InvalidProxy (e : E) | CertificateRefused.

Definition createProxyDialer (p : ProxyOptions) (wssURL : string) : dialer_error + option proxyDialer :=
  if decide (URL p = "") then inr None
  else
    match Parse (URL p) with
    | inl e => inl (InvalidProxy e)
    | inr proxyURL =>
        let dialer := ProxyDialer (u_Host proxyURL) (HandshakeTimeout p) (ConnectTimeout p) (ReadWriteTimeout p)
          (connectHeader BasicAuth p) NetDialContext in
        match Parse wssURL with
        | inr targetURL =>
            if decide (u_Host targetURL <> "") then
              let certPool := default NewCertPool SystemCertPool in
              match AppendCertsFromPEM certPool certsGoogleWr3 with
              | None => inl CertificateRefused
              | Some certPool => inr (Some (dialer (Some (TlsConfig (Hostname targetURL) certPool))))
              end
            else inr (Some (dialer None))
        | inl _ => inr (Some (dialer None))
        end
    end.

(** The URL [connectBeforeWorkers] dials, and the dialer it dials it with. *)
Definition dial_target (GenURL : option string) (p : ProxyOptions) (wssURL : string) : string * (dialer_error + option proxyDialer) :=
  (default wssURL GenURL, createProxyDialer p wssURL).

Lemma normalizeProxy_timeouts p :
  let p' := normalizeProxy p in HandshakeTimeout p' <> 0 /\ ConnectTimeout p' <> 0 /\ ReadWriteTimeout p' <> 0.
Proof. simpl. unfold default_timeout, Second. repeat case_decide; lia. Qed.

(** C37. For options that pass [Validate], with the defaults of [NewClient] filled in,
    a dialer fails only when the embedded certificate is refused; without a proxy
    it is the default one; with one it goes to the host of the proxy URL with
    timeouts set and the credentials of the options, and whenever the address of the service has a host, TLS is
    checked against its name with a pool that holds the certificate. *)
Theorem proxy_dialer {Buf} Compile NewComplete LoadLocation (o : ClientOptions Buf) wssURL :
  ClientOptions_Validate Compile NewComplete LoadLocation Parse o = None -> (forall u w, BasicAuth u w <> "") ->
  let p := Proxy (normalizeProxyConfig o) in
  match createProxyDialer p wssURL with
  | inl err => err = CertificateRefused /\ AppendCertsFromPEM (default NewCertPool SystemCertPool) certsGoogleWr3 = None
  | inr None => URL (Proxy o) = ""
  | inr (Some d) =>
      URL (Proxy o) <> "" /\ (exists u, Parse (URL (Proxy o)) = inr u /\ u_User u = false /\ pd_proxyHost d = u_Host u) /\
      pd_HandshakeTimeout d <> 0 /\ pd_ConnectTimeout d <> 0 /\ pd_ReadWriteTimeout d <> 0 /\
      (forall v, pd_Header d !! "Proxy-Authorization" = Some v <->
        Username p <> "" /\ Password p <> "" /\ v = BasicAuth (Username p) (Password p)) /\
      (forall t, Parse wssURL = inr t -> u_Host t <> "" -> exists pool,
        pd_TLSClientConfig d = Some (TlsConfig (Hostname t) pool) /\
        AppendCertsFromPEM (default NewCertPool SystemCertPool) certsGoogleWr3 = Some pool)
  end.
Proof.
  intros Hv Hb p. assert (Hp : validateProxy Parse (Proxy o) = None).
  { revert Hv. unfold ClientOptions_Validate. do 3 (case_decide; [done|]). by destruct (validateProxy Parse (Proxy o)). }
  pose proof (proj1 (validateProxy_none Parse (Proxy o)) Hp) as Hp'. change (URL (Proxy o)) with (URL p) in *.
  pose proof (normalizeProxy_timeouts (Proxy o)) as (Ht1 & Ht2 & Ht3). unfold createProxyDialer.
  destruct (decide (URL p = "")) as [Hu|Hu]; [done|]. destruct (Hp' Hu) as [(u & Hpu & Hus) _]. rewrite Hpu.
  destruct (Parse wssURL) as [e|t] eqn:Ht.
  - split_and!; try done; [by exists u|intros v; exact (connectHeader_sent BasicAuth p v Hb)].
  - destruct (decide (u_Host t <> "")) as [Hh|Hh].
    + destruct (AppendCertsFromPEM _ _) as [pool|] eqn:Ha; [|done]. split_and!; try done; [by exists u|intros v; exact (connectHeader_sent BasicAuth p v Hb)|].
      intros t' [= <-] _. by exists pool.
    + split_and!; try done; [by exists u|intros v; exact (connectHeader_sent BasicAuth p v Hb)|]. intros t' [= <-] ?. done.
Qed.
End dialer.

(** Dialing goes to the generated URL, but the name that TLS checks is that of the
    configured address. *)
Lemma dial_name_of_configured {E Pool} (Parse : string -> E + parsed_url) Hostname (sys : option Pool) new append cert auth p wssURL gen t d :
  Parse wssURL = inr t -> u_Host t <> "" ->
  snd (dial_target Parse Hostname sys new append cert auth (Some gen) p wssURL) = inr (Some d) ->
  fst (dial_target Parse Hostname sys new append cert auth (Some gen) p wssURL) = gen /\
  ServerName <$> pd_TLSClientConfig d = Some (Hostname t).
Proof.
  intros Ht Hh. unfold dial_target, createProxyDialer. simpl. case_decide; [done|]. destruct (Parse (URL p)) as [|u]; [done|].
  rewrite Ht, decide_True by done. destruct (append _ _); [|done]. intros [= <-]. done.
Qed.

(** A parser for the examples: every nonempty string is a URL of that host. *)
Definition w_Parse (s : string) : unit + parsed_url := if decide (s = "") then inl tt else inr (ParsedURL false s).

Definition w_proxied : ClientOptions unit :=
  MkClientOptions (MkIdentity "oid" "key") "" "json" "" (MkMappingDescriptor "" ∅ "" "" "" "" "" "" "" false [] None [] "") [] [] tt
    false "" "" false (MkProxyOptions "proxy:3128" "user" "secret" 0 0 0).

Lemma proxy_dialer_witness :
  let append pool c := Some (c :: pool) in
  let auth u w := ("Basic " +:+ u +:+ ":" +:+ w)%string in
  let d := ProxyDialer "proxy:3128" (45 * Second) (10 * Second) (30 * Second)
    {["Proxy-Authorization" := "Basic user:secret"]} (NetDialContext (E := unit)) (Some (TlsConfig "service" ["wr3"])) in
  createProxyDialer w_Parse u_Host None [] append "wr3" auth (Proxy (normalizeProxyConfig w_proxied)) "service" = inr (Some d) /\
  exists pool, pd_TLSClientConfig d = Some (TlsConfig "service" pool) /\ append [] "wr3" = Some pool.
Proof.
  intros append auth d. split; [vm_compute; reflexivity|].
  pose proof (proxy_dialer w_Parse u_Host None [] append "wr3" auth (fun _ => None) (fun _ => None) (fun _ => None) w_proxied "service" eq_refl ltac:(discriminate)) as H.
  exact (proj2 (proj2 (proj2 (proj2 (proj2 (proj2 H))))) (ParsedURL false "service") eq_refl ltac:(discriminate)).
Defined.
