(* ===== verification/Client.v ===== *)
(** * The client and its goroutines (client.go, receipt.go)

    A client that is not a test sink: its buffer, its connection, the flags its
    goroutines share and the goroutines themselves.  [pc] is where a goroutine
    is; one step runs up to the next shared access, holding [connMutex] where the
    code holds it.  The function given to [context.AfterFunc], which closes the
    socket of an attempt whose context ends, is a [closer] of that socket with
    steps of its own.  What comes from outside, the network, timers, the order of
    the steps and the calls of the users, is an argument of the step.

    [isStart] and [isStop] are the flags of the two events: Event.v shows that a
    wait ends when the flag is set.  [lastError], the log and the callbacks
    report and decide nothing; they are left out. *)

From S2P Require Import Prelude ByteBudget Event Protocol SharedBudget AckBuffer AckFleet ClientOptions ClientReceipts.

Abbreviation tid := nat.
Abbreviation socket := nat.

(** ** Program points *)

(** Who runs [connectBeforeWorkers]: [NewClient], or the goroutine of a
    [Reconnect] that set [isReconnecting]. *)
Inductive opener := Initial | Owner.

(** Who runs [disconnect]. *)
Inductive leaver := OwnerLeaves | CloseLeaves.

Inductive worker := Listener | Sender | KeepAlive.

(** What follows a call of [Reconnect]. *)
Inductive after :=
  (** the worker returns *)
  | ThenExit (w : worker)
  (** the listener goes on *)
  | ThenListen
  (** the connection attempt fails *)
  | ThenFail (o : opener) (s : socket)
  (** a call of the user returns *)
  | ThenReturn.

Inductive pc :=
  (** [connectBeforeWorkers] *)
  | ConLock (o : opener)
  | ConCheck (o : opener)
  | ConDial (o : opener) (i : nat)
  | ConPause (o : opener) (i : nat)
  | ConHeader (o : opener) (s : socket)
  (** [ReadJSON] *)
  | ConReady (o : opener) (s : socket)
  (** [stopCloseOnCancel()] after the answer was read, and the answer *)
  | ConStop (o : opener) (s : socket) (m : ControlMessage)
  | ConAnswer (o : opener) (s : socket) (m : ControlMessage)
  (** the deferred [stopCloseOnCancel()] after a failed read *)
  | ConLeave (o : opener) (s : socket)
  | ConCheckAgain (o : opener) (s : socket)
  | ConClearStop (o : opener) (s : socket)
  | ConWorkers (o : opener) (s : socket)
  | ConHandBack (o : opener)
  | ConStart (o : opener)
  | ConUnlock (o : opener) (failed : bool)
  (** [disconnect] *)
  | DisStop (k : leaver)
  | DisLock (k : leaver)
  | DisConn (k : leaver)
  | DisWait (k : leaver)
  | DisUnlock (k : leaver)
  (** [Reconnect] and its goroutine *)
  | RecTest (a : after)
  | RecSwap (a : after)
  | RecWindow
  | RecReset
  | RecFailed
  | RecPause
  | RecRelease
  (** [NewClient] after a failed connect *)
  | NewClose
  | NewCancel
  (** [Close] *)
  | CloseFlag
  | CloseReceipts
  | CloseCancel
  | CloseBuffer
  | CloseCollect
  | CloseForget (ms : list (option maddr))
  | CloseDone (ms : list (option maddr))
  | CloseReturned (ms : list (option maddr))
  (** the workers *)
  | Waiting (w : worker)
  | ListenLoop
  | ListenRead
  | SendLoop
  | SendBackoff
  (** for a duration in nanoseconds *)
  | SendPause (d : Z)
  | SendNext
  | SendWrite
  | KeepWait
  | KeepPing
  (** [ObserveReceipt] *)
  | ObsOwner (x : AdmissionReceipt)
  | ObsFrame (c : cell)
  | ObsLifetime (c : cell) (s : ReceiptFrameState)
  | ObsReread (c : cell) (l : ReceiptLifetime)
  | ObsClosing (c : cell) (s : ReceiptFrameState) (l : ReceiptLifetime)
  | Observed (c : option cell) (o : ReceiptObservation).

(** ** State *)

(** The function given to [context.AfterFunc] for a socket: it waits for the
    context of the attempt, or runs in a goroutine of its own. *)
Inductive closer := Armed (o : opener) | Fired.

Record Client (B : Type) := MkClient {
  c_receipts : receipts;
  c_conn : option socket;
  c_ab : AckBuffer B;
  (** the counter of the wait group *)
  c_wg : Z;
  c_connMutex : option tid;
  c_isStart : bool;
  c_isStop : bool;
  c_isReconnecting : bool;
  c_backoffTime : Z;
  c_isClosing : bool;
  (** [closeCtx] and the context given to [NewClient] are cancelled *)
  c_closeCtx : bool;
  c_newCtx : bool;
  (** [NewClient] returned the client, or an error *)
  c_public : bool;
  c_failed : bool;
  (** the sockets not closed, and the next one *)
  c_open : gset socket;
  c_socket : socket;
  c_closers : gmap socket closer;
  (** the queued byte requests of blocked calls *)
  c_calls : gmap wid Z;
  c_threads : gmap tid pc;
  c_next : tid;
}.
Arguments MkClient {B}.
Arguments c_receipts {B}.
Arguments c_conn {B}.
Arguments c_ab {B}.
Arguments c_wg {B}.
Arguments c_connMutex {B}.
Arguments c_isStart {B}.
Arguments c_isStop {B}.
Arguments c_isReconnecting {B}.
Arguments c_backoffTime {B}.
Arguments c_isClosing {B}.
Arguments c_closeCtx {B}.
Arguments c_newCtx {B}.
Arguments c_public {B}.
Arguments c_failed {B}.
Arguments c_open {B}.
Arguments c_socket {B}.
Arguments c_closers {B}.
Arguments c_calls {B}.
Arguments c_threads {B}.
Arguments c_next {B}.

Section setters.
Context {B : Type}.
#[global] Instance Client_eta : Eta (Client B) := fun c =>
  MkClient (c_receipts c) (c_conn c) (c_ab c) (c_wg c) (c_connMutex c) (c_isStart c) (c_isStop c) (c_isReconnecting c)
    (c_backoffTime c) (c_isClosing c) (c_closeCtx c) (c_newCtx c) (c_public c) (c_failed c) (c_open c) (c_socket c)
    (c_closers c) (c_calls c) (c_threads c) (c_next c).
#[global] Instance set_c_receipts : Setter (@c_receipts B) := ltac:(make_setter).
#[global] Instance set_c_conn : Setter (@c_conn B) := ltac:(make_setter).
#[global] Instance set_c_ab : Setter (@c_ab B) := ltac:(make_setter).
#[global] Instance set_c_wg : Setter (@c_wg B) := ltac:(make_setter).
#[global] Instance set_c_connMutex : Setter (@c_connMutex B) := ltac:(make_setter).
#[global] Instance set_c_isStart : Setter (@c_isStart B) := ltac:(make_setter).
#[global] Instance set_c_isStop : Setter (@c_isStop B) := ltac:(make_setter).
#[global] Instance set_c_isReconnecting : Setter (@c_isReconnecting B) := ltac:(make_setter).
#[global] Instance set_c_backoffTime : Setter (@c_backoffTime B) := ltac:(make_setter).
#[global] Instance set_c_isClosing : Setter (@c_isClosing B) := ltac:(make_setter).
#[global] Instance set_c_closeCtx : Setter (@c_closeCtx B) := ltac:(make_setter).
#[global] Instance set_c_newCtx : Setter (@c_newCtx B) := ltac:(make_setter).
#[global] Instance set_c_public : Setter (@c_public B) := ltac:(make_setter).
#[global] Instance set_c_failed : Setter (@c_failed B) := ltac:(make_setter).
#[global] Instance set_c_open : Setter (@c_open B) := ltac:(make_setter).
#[global] Instance set_c_socket : Setter (@c_socket B) := ltac:(make_setter).
#[global] Instance set_c_closers : Setter (@c_closers B) := ltac:(make_setter).
#[global] Instance set_c_calls : Setter (@c_calls B) := ltac:(make_setter).
#[global] Instance set_c_threads : Setter (@c_threads B) := ltac:(make_setter).
#[global] Instance set_c_next : Setter (@c_next B) := ltac:(make_setter).
End setters.

(** A step of a goroutine: it must wait, it panics, or it was taken. *)
Inductive result (B : Type) := Blocked | Panic | Next (c : Client B).
Arguments Blocked {B}.
Arguments Panic {B}.
Arguments Next {B} c.

(** What the network, a timer or an encoder answers: the call succeeded, it
    failed, or a control message was read. *)
Inductive env := Fine | Fault | Message (m : ControlMessage).

(** How a control message was taken; [WantsReconnect] is the call of [Reconnect]. *)
Inductive verdict := Accepted | Rejected | WantsReconnect.

Section steps.
Context {B : Type} `{SharedBudget B}.
Implicit Types (c : Client B).

(** [NewClient] once the options are checked and the buffer made. *)
Definition newClient (ab : AckBuffer B) : Client B :=
  MkClient newReceipts None ab 0 None false false false 0 false false false false false ∅ 0 ∅ ∅ {[0%nat := ConLock Initial]} 1.

Definition goto (t : tid) (p : pc) c : Client B := c <| c_threads ::= <[t := p]> |>.
Definition finish (t : tid) c : Client B := c <| c_threads ::= delete t |>.
Definition spawn (p : pc) c : Client B := c <| c_threads ::= <[c_next c := p]> |> <| c_next ::= S |>.

(** A worker returns: [defer c.wg.Done()]. *)
Definition finishWorker (t : tid) c : Client B := finish t (c <| c_wg ::= Z.pred |>).

Definition closeSocket (s : socket) c : Client B := c <| c_open ::= (.∖ {[s]}) |>.

(** A call on the buffer; its panic is a panic of the goroutine. *)
Definition with_ab (r : option (AckBuffer B)) (k : AckBuffer B -> result B) : result B :=
  match r with Some b => k b | None => Panic end.

(** [ctx.Err() != nil] of the context of a connection attempt. *)
Definition cancelled (o : opener) c : bool := match o with Initial => c_newCtx c | Owner => c_closeCtx c end.

(** [context.AfterFunc(ctx, func() { conn.Close() })]: on a context that is done the
    function is started at once. *)
Definition closeOnCancel (o : opener) (s : socket) c : Client B :=
  c <| c_closers ::= <[s := if cancelled o c then Fired else Armed o]> |>.

(** [stopCloseOnCancel()]: whether it kept the function from being started; it does
    not wait for one that was. *)
Definition stopCloseOnCancel (s : socket) c : bool * Client B :=
  match c_closers c !! s with
  | Some (Armed _) => (true, c <| c_closers ::= delete s |>)
  | _ => (false, c)
  end.

(** The function: its context is cancelled, and then it closes the socket. *)
Definition closer_fires (s : socket) c : result B :=
  match c_closers c !! s with
  | Some (Armed o) => if cancelled o c then Next (c <| c_closers ::= <[s := Fired]> |>) else Blocked
  | _ => Blocked
  end.
Definition closer_closes (s : socket) c : result B :=
  match c_closers c !! s with
  | Some Fired => Next (closeSocket s (c <| c_closers ::= delete s |>))
  | _ => Blocked
  end.

Definition processControlMessage (m : ControlMessage) c : option (verdict * Client B) :=
  if decide (Verb m = ControlMessageACK) then
    '(_, b) ← Ack (cm_SeqNum m) (c_ab c); Some (Accepted, c <| c_ab := b |>)
  else if decide (Verb m = ControlMessageBACKOFF) then Some (Accepted, c <| c_backoffTime := Duration m |>)
  else if decide (Verb m = ControlMessageRECONNECT) then Some (WantsReconnect, c)
  else if decide (Verb m = ControlMessageERROR) then Some (Rejected, c)
  else if decide (Verb m = ControlMessageREADY) then Some (Accepted, c)
  else if decide (Verb m = ControlMessageFLOW) then
    b ← UpdateCapacity (WindowSize m) (c_ab c); Some (Accepted, c <| c_ab := b |>)
  else Some (Rejected, c).

(** [connectBeforeWorkers]; [maxRetries] is 1, or 3 through a proxy. *)
Definition connect_step (maxRetries : nat) (t : tid) (e : env) (p : pc) c : result B :=
  match p with
  | ConLock o =>
      match c_connMutex c with
      | None => Next (goto t (ConCheck o) (c <| c_connMutex := Some t |>))
      | Some _ => Blocked
      end
  | ConCheck o =>
      if c_isClosing c then Next (goto t (ConUnlock o true) c)
      else
        let c := c <| c_isStart := false |> in
        match e with
        | Fine => Next (goto t (ConDial o 0) c)
        | Fault => Next (goto t (ConUnlock o true) c)
        | Message _ => Blocked
        end
  | ConDial o i =>
      if cancelled o c then Next (goto t (ConUnlock o true) c)
      else
        match e with
        | Fine =>
            let s := c_socket c in
            Next (goto t (ConHeader o s) (c <| c_open ::= ({[s]} ∪.) |> <| c_socket ::= S |>))
        | Fault =>
            if decide (i < maxRetries - 1)%nat then Next (goto t (ConPause o i) c)
            else Next (goto t (ConUnlock o true) c)
        | Message _ => Blocked
        end
  | ConPause o i =>
      match e with
      | Fine => Next (goto t (ConDial o (S i)) c)
      | Fault => if cancelled o c then Next (goto t (ConUnlock o true) c) else Blocked
      | Message _ => Blocked
      end
  | ConHeader o s =>
      match e with
      | Fine => Next (goto t (ConReady o s) (closeOnCancel o s c))
      | Fault => Next (goto t (ConUnlock o true) (closeSocket s c))
      | Message _ => Blocked
      end
  | ConReady o s =>
      match e with
      | Fault => Next (goto t (ConLeave o s) (closeSocket s c))
      | Message m => Next (goto t (ConStop o s m) c)
      | Fine => Blocked
      end
  | ConStop o s m =>
      let '(stopped, c) := stopCloseOnCancel s c in
      Next (goto t (if stopped then ConAnswer o s m else ConUnlock o true) c)
  | ConAnswer o s m =>
      match processControlMessage m c with
      | None => Panic
      | Some (Accepted, c) => Next (goto t (ConCheckAgain o s) c)
      | Some (Rejected, c) => Next (goto t (ConUnlock o true) (closeSocket s c))
      | Some (WantsReconnect, c) => Next (goto t (RecTest (ThenFail o s)) c)
      end
  | ConLeave o s => Next (goto t (ConUnlock o true) (stopCloseOnCancel s c).2)
  | ConCheckAgain o s =>
      if c_isClosing c then Next (goto t (ConUnlock o true) (closeSocket s c))
      else Next (goto t (ConClearStop o s) c)
  | ConClearStop o s => Next (goto t (ConWorkers o s) (c <| c_isStop := false |>))
  | ConWorkers o s =>
      let c := c <| c_conn := Some s |> <| c_wg ::= Z.add 3 |> in
      Next (goto t (ConHandBack o) (spawn (Waiting KeepAlive) (spawn (Waiting Sender) (spawn (Waiting Listener) c))))
  | ConHandBack o =>
      Next (goto t (ConStart o) (match o with Initial => c | Owner => c <| c_isReconnecting := false |> end))
  | ConStart o => Next (goto t (ConUnlock o false) (c <| c_isStart := true |>))
  | ConUnlock o failed =>
      let c := c <| c_connMutex := None |> in
      match o, failed with
      | Initial, false => Next (finish t (c <| c_public := true |>))
      | Initial, true => Next (goto t NewClose (c <| c_failed := true |>))
      | Owner, false => Next (finish t c)
      | Owner, true => Next (goto t RecFailed c)
      end
  | _ => Blocked
  end.

Definition disconnect_step (t : tid) (p : pc) c : result B :=
  match p with
  | DisStop k => Next (goto t (DisLock k) (c <| c_isStop := true |>))
  | DisLock k =>
      match c_connMutex c with
      | None => Next (goto t (DisConn k) (c <| c_connMutex := Some t |>))
      | Some _ => Blocked
      end
  | DisConn k => Next (goto t (DisWait k) (match c_conn c with Some s => closeSocket s c | None => c end))
  | DisWait k => if decide (c_wg c = 0) then Next (goto t (DisUnlock k) (c <| c_conn := None |>)) else Blocked
  | DisUnlock k =>
      Next (goto t (match k with OwnerLeaves => RecWindow | CloseLeaves => CloseCollect end) (c <| c_connMutex := None |>))
  | _ => Blocked
  end.

(** A call of [Reconnect] returned. *)
Definition resume (t : tid) (a : after) c : Client B :=
  match a with
  | ThenExit _ => finishWorker t c
  | ThenListen => goto t ListenLoop c
  | ThenFail o s => goto t (ConUnlock o true) (closeSocket s c)
  | ThenReturn => finish t c
  end.

Definition reconnect_step (t : tid) (e : env) (p : pc) c : result B :=
  match p with
  | RecTest a => if c_isClosing c then Next (resume t a c) else Next (goto t (RecSwap a) c)
  | RecSwap a =>
      if c_isReconnecting c then Next (resume t a c)
      else Next (resume t a (spawn (DisStop OwnerLeaves) (c <| c_isReconnecting := true |>)))
  | RecWindow => with_ab (UpdateCapacity 1 (c_ab c)) (fun b => Next (goto t RecReset (c <| c_ab := b |>)))
  | RecReset => with_ab (ResetDelivery (c_ab c)) (fun b => Next (goto t (ConLock Owner) (c <| c_ab := b |>)))
  | RecFailed => Next (goto t (if c_isClosing c then RecRelease else RecPause) c)
  | RecPause =>
      match e with
      | Fine => Next (goto t (ConLock Owner) c)
      | Fault => if c_closeCtx c then Next (goto t RecRelease c) else Blocked
      | Message _ => Blocked
      end
  | RecRelease => Next (finish t (c <| c_isReconnecting := false |>))
  | _ => Blocked
  end.

(** The end of [NewClient] after an error. *)
Definition new_step (t : tid) (p : pc) c : result B :=
  match p with
  | NewClose => with_ab (Close (c_ab c)) (fun b => Next (goto t NewCancel (c <| c_ab := b |>)))
  | NewCancel => Next (finish t (c <| c_closeCtx := true |>))
  | _ => Blocked
  end.

(** [Client.Close] *)
Definition close_step (t : tid) (p : pc) c : result B :=
  match p with
  | CloseFlag => Next (goto t CloseReceipts (c <| c_isClosing := true |>))
  | CloseReceipts => Next (goto t CloseCancel (c <| c_receipts ::= setReceiptLifetime ReceiptClosing |>))
  | CloseCancel => Next (goto t CloseBuffer (c <| c_closeCtx := true |>))
  | CloseBuffer => with_ab (Close (c_ab c)) (fun b => Next (goto t (DisStop CloseLeaves) (c <| c_ab := b |>)))
  | CloseCollect =>
      match GetUnAcked (c_ab c) with Some ms => Next (goto t (CloseForget ms) c) | None => Panic end
  | CloseForget ms => Next (goto t (CloseDone ms) (c <| c_ab ::= releaseReceiptTracking |>))
  | CloseDone ms => Next (goto t (CloseReturned ms) (c <| c_receipts ::= setReceiptLifetime ReceiptClosed |>))
  | _ => Blocked
  end.

(** [uint64((24*time.Hour)/time.Second)] *)
Definition maxBackoff : Z := 86400.

(** The seconds of a pause. *)
Definition cappedBackoff (backoffSec : Z) : Z := if decide (maxBackoff < backoffSec) then maxBackoff else backoffSec.

(** The socket of [c.conn]; [None] is the panic on a nil pointer. *)
Definition with_conn c (k : socket -> result B) : result B :=
  match c_conn c with Some s => k s | None => Panic end.

Definition listener_step (t : tid) (e : env) (p : pc) c : result B :=
  match p with
  | Waiting Listener => if c_isStart c then Next (goto t ListenLoop c) else Blocked
  | ListenLoop => Next (if c_isStop c then finishWorker t c else goto t ListenRead c)
  | ListenRead =>
      with_conn c (fun s =>
        match e with
        | Fault => Next (goto t (RecTest (ThenExit Listener)) c)
        | Message m =>
            if decide (s ∈ c_open c) then
              match processControlMessage m c with
              | None => Panic
              | Some (WantsReconnect, c) => Next (goto t (RecTest ThenListen) c)
              | Some (_, c) => Next (goto t ListenLoop c)
              end
            else Blocked
        | Fine => Blocked
        end)
  | _ => Blocked
  end.

Definition sender_step (t : tid) (e : env) (p : pc) c : result B :=
  match p with
  | Waiting Sender => if c_isStart c then Next (goto t SendLoop c) else Blocked
  | SendLoop => Next (if c_isStop c then finishWorker t c else goto t SendBackoff c)
  | SendBackoff =>
      let backoffSec := c_backoffTime c in
      let c := c <| c_backoffTime := 0 |> in
      Next (goto t (if decide (backoffSec = 0) then SendNext else SendPause (cappedBackoff backoffSec * Second)) c)
  | SendPause _ =>
      match e with
      | Fine => Next (goto t SendBackoff c)
      | Fault => if c_closeCtx c then Next (finishWorker t c) else Blocked
      | Message _ => Blocked
      end
  | SendNext =>
      match GetNextToDeliver (c_ab c) with
      | None => Panic
      | Some (None, b) => Next (goto t SendLoop (c <| c_ab := b |>))
      | Some (Some _, b) =>
          let c := c <| c_ab := b |> in
          match e with
          | Fine => Next (goto t SendWrite c)
          | Fault => Next (goto t SendLoop c)
          | Message _ => Blocked
          end
      end
  | SendWrite =>
      with_conn c (fun s =>
        match e with
        | Fine => if decide (s ∈ c_open c) then Next (goto t SendLoop c) else Blocked
        | Fault => Next (goto t (RecTest (ThenExit Sender)) c)
        | Message _ => Blocked
        end)
  | _ => Blocked
  end.

Definition keepalive_step (t : tid) (e : env) (p : pc) c : result B :=
  match p with
  | Waiting KeepAlive => if c_isStart c then Next (goto t KeepWait c) else Blocked
  | KeepWait => Next (if c_isStop c then finishWorker t c else goto t KeepPing c)
  | KeepPing =>
      with_conn c (fun s =>
        match e with
        | Fine => if decide (s ∈ c_open c) then Next (goto t KeepWait c) else Blocked
        | Fault => Next (goto t (RecTest (ThenExit KeepAlive)) c)
        | Message _ => Blocked
        end)
  | _ => Blocked
  end.

Definition observe_step (t : tid) (p : pc) c : result B :=
  let cells := ab_cells (c_ab c) in
  match p with
  | ObsOwner x =>
      Next (goto t (match observable x (c_receipts c) with Some k => ObsFrame k | None => Observed None noObservation end) c)
  | ObsFrame k =>
      let s := load_frame cells k in
      Next (goto t (if known_frame s then ObsLifetime k s else Observed (Some k) noObservation) c)
  | ObsLifetime k s =>
      let l := load_lifetime (c_receipts c) in
      Next (goto t (if decide (l = ReceiptClosed) then ObsReread k l else ObsClosing k s l) c)
  | ObsReread k l => Next (goto t (ObsClosing k (load_frame cells k) l) c)
  | ObsClosing k s l => Next (goto t (Observed (Some k) (concluded s l (c_isClosing c))) c)
  | _ => Blocked
  end.

(** Goroutine [t] takes a step. *)
Definition thread_step (maxRetries : nat) (t : tid) (e : env) c : result B :=
  match c_threads c !! t with
  | None => Blocked
  | Some p =>
      match p with
      | ConLock _ | ConCheck _ | ConDial _ _ | ConPause _ _ | ConHeader _ _ | ConReady _ _ | ConStop _ _ _ | ConAnswer _ _ _
      | ConLeave _ _ | ConCheckAgain _ _ | ConClearStop _ _ | ConWorkers _ _ | ConHandBack _ | ConStart _ | ConUnlock _ _ => connect_step maxRetries t e p c
      | DisStop _ | DisLock _ | DisConn _ | DisWait _ | DisUnlock _ => disconnect_step t p c
      | RecTest _ | RecSwap _ | RecWindow | RecReset | RecFailed | RecPause | RecRelease => reconnect_step t e p c
      | NewClose | NewCancel => new_step t p c
      | CloseFlag | CloseReceipts | CloseCancel | CloseBuffer | CloseCollect | CloseForget _ | CloseDone _
      | CloseReturned _ => close_step t p c
      | Waiting Listener | ListenLoop | ListenRead => listener_step t e p c
      | Waiting Sender | SendLoop | SendBackoff | SendPause _ | SendNext | SendWrite => sender_step t e p c
      | Waiting KeepAlive | KeepWait | KeepPing => keepalive_step t e p c
      | ObsOwner _ | ObsFrame _ | ObsLifetime _ _ | ObsReread _ _ | ObsClosing _ _ _ | Observed _ _ => observe_step t p c
      end
  end.

(** ** The users *)

(** What the methods of the client other than [Close] and [Reconnect] do to the
    buffer: [Ship], [ShipWithReceipt], [BeginDrain], [DrainContext]. *)
Definition user_op (o : op) : bool :=
  match o with OpAlloc _ | OpAdd _ _ _ _ _ | OpCancel _ | OpSeal | OpDrain _ => true | _ => false end.

Inductive action :=
  | Run (t : tid) (e : env)
  | CallClose
  | CallReconnect
  | CallObserve (x : AdmissionReceipt)
  | CallBuffer (o : op)
  (** the end of [ShipWithReceiptOptions] *)
  | BindOwner (new : owner_ptr)
  (** the context given to [NewClient] is cancelled *)
  | CancelNew
  (** another client changes the shared budget *)
  | Budget (s : B)
  (** steps of the functions given to [context.AfterFunc] *)
  | CloserFires (s : socket)
  | CloserCloses (s : socket).

(** A user has the client once [NewClient] returned it. *)
Definition act (maxRetries : nat) (a : action) c : result B :=
  match a with
  | Run t e => thread_step maxRetries t e c
  | CancelNew => Next (c <| c_newCtx := true |>)
  | Budget s => Next (c <| c_ab := (c_ab c) <| ab_shared := s |> |>)
  | CloserFires s => closer_fires s c
  | CloserCloses s => closer_closes s c
  | _ =>
      if c_public c then
        match a with
        | CallClose => Next (spawn CloseFlag c)
        | CallReconnect => Next (spawn (RecTest ThenReturn) c)
        | CallObserve x => Next (spawn (ObsOwner x) c)
        | CallBuffer o =>
            if user_op o then
              match run_op o (c_calls c) (c_ab c) with
              | None => Panic
              | Some (_, calls, b) => Next (c <| c_calls := calls |> <| c_ab := b |>)
              end
            else Blocked
        | BindOwner new => Next (c <| c_receipts := (admissionReceiptOwner new (c_isClosing c) (c_receipts c)).2 |>)
        | _ => Blocked
        end
      else Blocked
  end.

(** The states of a client made with the buffer [ab]. *)
Inductive reachable (maxRetries : nat) (ab : AckBuffer B) : Client B -> Prop :=
  | reach_new : reachable maxRetries ab (newClient ab)
  | reach_act a c c' : reachable maxRetries ab c -> act maxRetries a c = Next c' -> reachable maxRetries ab c'.

(** A run of given actions. *)
Fixpoint run (maxRetries : nat) (l : list action) c : result B :=
  match l with
  | [] => Next c
  | a :: l => match act maxRetries a c with Next c => run maxRetries l c | r => r end
  end.

Lemma run_reachable maxRetries ab l c c' : reachable maxRetries ab c -> run maxRetries l c = Next c' -> reachable maxRetries ab c'.
Proof.
  revert c. induction l as [|a l IH]; intros c Hc; simpl; [by intros [= <-]|].
  destruct (act maxRetries a c) as [| |c1] eqn:Ha; [done|done|]. intros Hr. by eapply IH; [eapply reach_act|].
Qed.

End steps.
Arguments action B : clear implicits.
