(* ===== verification/ClientInv.v ===== *)
(** * The invariant of the client's goroutines

    Classes of program points, and what the shared flags say about who is where:
    who holds [connMutex] and [isReconnecting], when workers exist and may run,
    which sockets are open, who has still to replace a failed connection. *)

From S2P Require Import Prelude ByteBudget Event Protocol SharedBudget AckBuffer AckFleet ClientReceipts Client.

(** ** Classes of program points *)

(** [connMutex] is held *)
Definition locked (p : pc) : bool :=
  match p with
  | ConCheck _ | ConDial _ _ | ConPause _ _ | ConHeader _ _ | ConReady _ _ | ConStop _ _ _ | ConAnswer _ _ _ | ConCheckAgain _ _ | ConClearStop _ _
  | ConWorkers _ _ | ConHandBack _ | ConStart _ | ConLeave _ _ | ConUnlock _ _ | DisConn _ | DisWait _ | DisUnlock _
  | RecTest (ThenFail _ _) | RecSwap (ThenFail _ _) => true
  | _ => false
  end.

(** connecting, from [isStart.Clear] to [isStart.Set] *)
Definition unstarted (p : pc) : bool :=
  match p with
  | ConDial _ _ | ConPause _ _ | ConHeader _ _ | ConReady _ _ | ConStop _ _ _ | ConAnswer _ _ _ | ConCheckAgain _ _ | ConClearStop _ _
  | ConWorkers _ _ | ConHandBack _ | ConStart _ | RecTest (ThenFail _ _) | RecSwap (ThenFail _ _) => true
  | _ => false
  end.

(** the goroutine that has to replace the connection, before it joined the workers *)
Definition leaving (p : pc) : bool :=
  match p with DisStop OwnerLeaves | DisLock OwnerLeaves | DisConn OwnerLeaves | DisWait OwnerLeaves => true | _ => false end.

(** [isReconnecting] is held, after the workers were joined and before new ones *)
Definition rebuilding (p : pc) : bool :=
  match p with
  | DisUnlock OwnerLeaves | RecWindow | RecReset | RecFailed | RecPause | RecRelease
  | ConLock Owner | ConCheck Owner | ConDial Owner _ | ConPause Owner _ | ConHeader Owner _ | ConReady Owner _
  | ConStop Owner _ _ | ConAnswer Owner _ _ | ConLeave Owner _ | ConCheckAgain Owner _ | ConClearStop Owner _ | ConWorkers Owner _ | ConUnlock Owner true
  | RecTest (ThenFail Owner _) | RecSwap (ThenFail Owner _) => true
  | _ => false
  end.

Definition handing (p : pc) : bool := match p with ConHandBack Owner => true | _ => false end.

(** [isReconnecting] is held *)
Definition owning (p : pc) : bool := leaving p || rebuilding p || handing p.

(** [NewClient], until the workers exist *)
Definition opening (p : pc) : bool :=
  match p with
  | ConLock Initial | ConCheck Initial | ConDial Initial _ | ConPause Initial _ | ConHeader Initial _ | ConReady Initial _
  | ConStop Initial _ _ | ConAnswer Initial _ _ | ConCheckAgain Initial _ | ConClearStop Initial _ | ConWorkers Initial _ => true
  | _ => false
  end.

(** [NewClient] *)
Definition initial (p : pc) : bool :=
  match p with
  | ConHandBack Initial | ConStart Initial | ConLeave Initial _ | ConUnlock Initial _ | NewClose | NewCancel
  | RecTest (ThenFail Initial _) | RecSwap (ThenFail Initial _) => true
  | _ => opening p
  end.

(** no worker can exist *)
Definition quiet (p : pc) : bool := rebuilding p || opening p.

Definition working (p : pc) : option worker :=
  match p with
  | Waiting w | RecTest (ThenExit w) | RecSwap (ThenExit w) => Some w
  | ListenLoop | ListenRead | RecTest ThenListen | RecSwap ThenListen => Some Listener
  | SendLoop | SendBackoff | SendPause _ | SendNext | SendWrite => Some Sender
  | KeepWait | KeepPing => Some KeepAlive
  | _ => None
  end.

Definition waiting (p : pc) : bool := match p with Waiting _ => true | _ => false end.

(** [Close], after [isClosing] was set *)
Definition closing (p : pc) : bool :=
  match p with
  | CloseReceipts | CloseCancel | CloseBuffer | DisStop CloseLeaves | DisLock CloseLeaves | DisConn CloseLeaves
  | DisWait CloseLeaves | DisUnlock CloseLeaves | CloseCollect | CloseForget _ | CloseDone _ | CloseReturned _ => true
  | _ => false
  end.

(** [Close], after it joined the workers *)
Definition joined (p : pc) : bool :=
  match p with DisUnlock CloseLeaves | CloseCollect | CloseForget _ | CloseDone _ | CloseReturned _ => true | _ => false end.

(** the socket of a connection attempt *)
Definition holding (p : pc) : option socket :=
  match p with
  | ConHeader _ s | ConReady _ s | ConStop _ s _ | ConAnswer _ s _ | ConCheckAgain _ s | ConClearStop _ s | ConWorkers _ s
  | RecTest (ThenFail _ s) | RecSwap (ThenFail _ s) => Some s
  | _ => None
  end.

(** the socket of an attempt with a closer that was not stopped *)
Definition reading (p : pc) : option socket :=
  match p with ConReady _ s | ConStop _ s _ => Some s | _ => None end.

(** the socket of an attempt that stopped its closer *)
Definition settled (p : pc) : option socket :=
  match p with
  | ConAnswer _ s _ | ConCheckAgain _ s | ConClearStop _ s | ConWorkers _ s | RecTest (ThenFail _ s) | RecSwap (ThenFail _ s) => Some s
  | _ => None
  end.

Definition at_wait (p : pc) : bool := match p with DisWait _ => true | _ => false end.
(** workers exist and [isStart] is to be set *)
Definition starting (p : pc) : bool := match p with ConHandBack _ | ConStart _ => true | _ => false end.
Definition at_workers (p : pc) : bool := match p with ConWorkers _ _ => true | _ => false end.
Definition after_failure (p : pc) : bool := match p with NewClose | NewCancel => true | _ => false end.

Definition by_user (p : pc) : bool := match p with RecTest ThenReturn | RecSwap ThenReturn => true | _ => false end.

(** A class holds of what a goroutine does; [None] is a goroutine that is not there. *)
Definition sat (P : pc -> bool) (o : option pc) : bool := match o with Some p => P p | None => false end.

Definition works (o : option pc) : Z := match o ≫= working with Some _ => 1 | None => 0 end.

Section invariant.
Context {B : Type} `{SharedBudget B}.
Implicit Types (c : Client B).

(** ** Invariant *)

Definition at_pc c (t : tid) (P : pc -> bool) : Prop := sat P (c_threads c !! t) = true.

(** Someone has still to join the workers and connect again. *)
Definition replacing c : Prop := exists t, at_pc c t leaving.

Definition workers c : Z := msum (fun _ p => works (Some p)) (c_threads c).

Definition working_at c (t : tid) : option worker := c_threads c !! t ≫= working.

Record conn_ok c : Prop := {
  k_next t : c_threads c !! t <> None -> (t < c_next c)%nat;
  k_lock t : at_pc c t locked <-> c_connMutex c = Some t;
  k_owner t t' : at_pc c t owning -> at_pc c t' owning -> t = t';
  k_flag : c_isReconnecting c = true <-> exists t, at_pc c t owning;
  k_initial t : at_pc c t initial -> t = 0%nat /\ c_public c = false;
  k_user t : at_pc c t by_user -> c_public c = true;
  k_opening t : at_pc c t opening -> c_isReconnecting c = false;
  k_quiet t : at_pc c t quiet -> c_conn c = None /\ c_wg c = 0;
  k_count : c_wg c = workers c;
  k_three : c_wg c <= 3;
  k_conn t : working_at c t <> None -> c_conn c <> None;
  k_unique t t' w : working_at c t = Some w -> working_at c t' = Some w -> t = t';
  k_running t : working_at c t <> None -> ~ at_pc c t waiting -> c_isStart c = true;
  k_unstarted t : at_pc c t unstarted -> c_isStart c = false;
  k_starting : c_conn c <> None -> c_isStart c = true \/ exists t, at_pc c t starting;
  k_closing t : at_pc c t closing -> c_isClosing c = true;
  k_joined t : at_pc c t joined -> c_conn c = None /\ c_wg c = 0 /\ forall t', ~ at_pc c t' unstarted;
  k_open s : s ∈ c_open c -> c_conn c = Some s \/ (exists t, c_threads c !! t ≫= holding = Some s) \/ c_closers c !! s = Some Fired;
  k_closer t s : c_threads c !! t ≫= reading = Some s -> is_Some (c_closers c !! s) \/ s ∉ c_open c;
  k_settled t s : c_threads c !! t ≫= settled = Some s -> c_closers c !! s = None;
  k_safe s : c_conn c = Some s -> c_closers c !! s = None;
  k_wait t s : at_pc c t at_wait -> c_conn c = Some s -> s ∉ c_open c;
  k_stop : c_isStop c = true -> c_conn c <> None -> c_isClosing c = true \/ replacing c;
  k_clear t : at_pc c t at_workers -> c_isClosing c = true \/ c_isStop c = false;
  k_failed t : at_pc c t after_failure -> c_failed c = true;
  k_cancel : c_closeCtx c = true -> c_isClosing c = true \/ c_failed c = true;
  k_gone : c_conn c <> None -> c_wg c < 3 -> c_isClosing c = true \/ c_failed c = true \/ replacing c;
}.

End invariant.

(** ** Implications between classes *)

(** Case analysis on a program point. *)
Ltac by_pc p :=
  destruct p; repeat match goal with x : after |- _ => destruct x end;
  repeat match goal with x : opener |- _ => destruct x | x : leaver |- _ => destruct x | x : worker |- _ => destruct x
                       | x : bool |- _ => destruct x end;
  simpl; try discriminate; try tauto; auto.

Lemma unstarted_locked o : sat unstarted o = true -> sat locked o = true.
Proof. destruct o as [p|]; [|done]. by_pc p. Qed.
Lemma wait_locked o : sat at_wait o = true -> sat locked o = true.
Proof. destruct o as [p|]; [|done]. by_pc p. Qed.
Lemma workers_locked o : sat at_workers o = true -> sat locked o = true /\ (sat owning o = true \/ sat opening o = true).
Proof. destruct o as [p|]; [|done]. by_pc p. Qed.
Lemma quiet_owning o : sat quiet o = true -> sat owning o = true \/ sat opening o = true.
Proof. destruct o as [p|]; [|done]. by_pc p. Qed.
Lemma leaving_owning o : sat leaving o = true -> sat owning o = true.
Proof. destruct o as [p|]; [|done]. by_pc p. Qed.
Lemma opening_initial o : sat opening o = true -> sat initial o = true.
Proof. destruct o as [p|]; [|done]. by_pc p. Qed.
Lemma opening_quiet o : sat opening o = true -> sat quiet o = true.
Proof. destruct o as [p|]; [|done]. simpl. unfold quiet. intros ->. apply orb_true_r. Qed.
Lemma owning_cases o : sat owning o = true -> sat leaving o = true \/ sat quiet o = true \/ sat unstarted o = true.
Proof. destruct o as [p|]; [|done]. by_pc p. Qed.
Lemma works_range o : works o = 0 \/ works o = 1.
Proof. unfold works. destruct (o ≫= working); auto. Qed.

(** ** One goroutine moves *)

Section move.
Context {B : Type} `{SharedBudget B}.
Implicit Types (c : Client B).

Lemma count_zero c t : c_wg c = workers c -> c_wg c = 0 -> working_at c t = None.
Proof.
  intros Hc Hz. unfold workers in Hc. unfold working_at. destruct (c_threads c !! t) as [p|] eqn:Ht; [|done]. simpl.
  destruct (working p) as [w|] eqn:Hw; [|done]. exfalso.
  pose proof (msum_ge (fun (_ : tid) p => works (Some p)) (c_threads c) t p) as Hge. simpl in Hge.
  assert (works (Some p) = 1) as H1 by (unfold works; simpl; by rewrite Hw).
  rewrite H1 in Hge. destruct (Z.le_gt_cases 1 0); [lia|]. assert (1 <= 0); [|lia]. rewrite <-Hz, Hc. apply Hge; [|done].
  intros k q _. destruct (works_range (Some q)); lia.
Qed.

(** What the goroutine at [o] may do to the shared state when it goes to [o']. *)
Record move c c' (t : tid) (o o' : option pc) : Prop := {
  m_from : c_threads c !! t = o;
  m_to : c_threads c' = partial_alter (fun _ => o') t (c_threads c);
  m_next : (c_next c <= c_next c')%nat /\ (o' <> None -> (t < c_next c')%nat);
  m_lock :
    (sat locked o' = true /\ c_connMutex c' = Some t /\ (sat locked o = true \/ c_connMutex c = None)) \/
    (sat locked o' = false /\ sat locked o = true /\ c_connMutex c' = None) \/
    (sat locked o' = false /\ sat locked o = false /\ c_connMutex c' = c_connMutex c);
  m_flag :
    (sat owning o' = sat owning o /\ c_isReconnecting c' = c_isReconnecting c) \/
    (sat owning o' = false /\ sat owning o = true /\ c_isReconnecting c' = false) \/
    (sat owning o' = true /\ sat owning o = false /\ c_isReconnecting c = false /\ c_isReconnecting c' = true /\
       sat opening o' = false /\ forall u, u <> t -> ~ at_pc c u opening);
  m_initial : (sat initial o' = true -> sat initial o = true) /\ (sat opening o' = true -> sat opening o = true);
  m_public : c_public c' = c_public c \/ (c_public c' = true /\ sat initial o' = false /\ sat initial o = true);
  m_user : sat by_user o' = true -> sat by_user o = true \/ c_public c' = true;
  m_conn : c_conn c' = c_conn c \/
    (c_conn c' = None /\ c_wg c = 0 /\ forall s, c_conn c = Some s -> s ∉ c_open c');
  m_wg : c_wg c' = c_wg c + works o' - works o /\ forall w, o' ≫= working = Some w -> o ≫= working = Some w;
  m_quiet : sat quiet o' = true -> sat quiet o = true \/ (c_conn c' = None /\ c_wg c' = 0);
  m_running : sat waiting o = true -> sat waiting o' = false -> o' ≫= working <> None -> c_isStart c' = true;
  m_starting : sat starting o = true -> sat starting o' = true \/ c_isStart c' = true;
  m_start : c_isStart c' = c_isStart c \/ (c_isStart c' = false /\ c_wg c = 0 /\ c_conn c = None) \/
    (c_isStart c' = true /\ sat unstarted o = true /\ sat unstarted o' = false);
  m_unstarted : sat unstarted o' = true ->
    sat unstarted o = true \/ (c_isStart c' = false /\ c_isClosing c = false);
  m_closing : (c_isClosing c = true -> c_isClosing c' = true) /\
    (sat closing o' = true -> sat closing o = true \/ c_isClosing c' = true);
  m_joined : sat joined o' = true -> sat joined o = true \/
    (c_conn c' = None /\ c_wg c' = 0 /\ sat locked o = true /\ sat unstarted o' = false);
  m_open s : s ∈ c_open c' -> s ∈ c_open c \/ (o' ≫= holding = Some s /\ sat locked o = true /\ o ≫= holding = None);
  m_holding s : o ≫= holding = Some s -> o' ≫= holding = Some s \/ s ∉ c_open c' \/ c_closers c' !! s = Some Fired;
  m_fired s : c_closers c !! s = Some Fired -> c_closers c' !! s = Some Fired \/ o' ≫= holding = Some s;
  m_closers s : is_Some (c_closers c !! s) -> is_Some (c_closers c' !! s) \/ (sat locked o = true /\ o' ≫= reading <> Some s);
  m_new s : is_Some (c_closers c' !! s) -> is_Some (c_closers c !! s) \/
    (sat locked o = true /\ o' ≫= settled <> Some s /\ c_conn c = None);
  m_settled s : o' ≫= settled = Some s -> o ≫= settled = Some s \/ c_closers c' !! s = None;
  m_reading s : o' ≫= reading = Some s -> o ≫= reading = Some s \/ is_Some (c_closers c' !! s);
  m_wait : sat at_wait o' = true -> sat at_wait o = true \/ forall s, c_conn c' = Some s -> s ∉ c_open c';
  m_stop : c_isStop c' = true -> c_isStop c = true \/ c_isClosing c' = true \/ (sat leaving o' = true /\ sat owning o = true);
  m_leaving : sat leaving o = true -> sat leaving o' = true \/ c_conn c' = None;
  m_workers : sat at_workers o' = true -> sat at_workers o = true \/ c_isStop c' = false;
  m_failed : (c_failed c = true -> c_failed c' = true) /\
    (sat after_failure o' = true -> sat after_failure o = true \/ c_failed c' = true);
  m_cancel : c_closeCtx c' = true -> c_closeCtx c = true \/ c_isClosing c' = true \/ c_failed c' = true;
  m_gone : works o' < works o -> c_isClosing c' = true \/ c_failed c' = true \/ replacing c';
}.

Section preserved.
Context c c' (t : tid) (o o' : option pc) (K : conn_ok c) (M : move c c' t o o').

Lemma move_at : c_threads c' !! t = o'.
Proof. rewrite (m_to _ _ _ _ _ M). apply lookup_partial_alter_eq. Qed.

Lemma move_other u : u <> t -> c_threads c' !! u = c_threads c !! u.
Proof. intros. rewrite (m_to _ _ _ _ _ M). by apply lookup_partial_alter_ne. Qed.

(** Who satisfies a class afterwards. *)
Lemma move_pc P u : at_pc c' u P -> (u = t /\ sat P o' = true) \/ (u <> t /\ at_pc c u P).
Proof.
  unfold at_pc. destruct (decide (u = t)) as [->|Hne]; [rewrite move_at; auto|]. rewrite move_other by done. auto.
Qed.

Lemma move_pc_at P : sat P o = true -> at_pc c t P.
Proof. unfold at_pc. by rewrite (m_from _ _ _ _ _ M). Qed.

Lemma move_pc_to P : sat P o' = true -> at_pc c' t P.
Proof. unfold at_pc. by rewrite move_at. Qed.

Lemma move_pc_other P u : u <> t -> at_pc c u P -> at_pc c' u P.
Proof. intros Hne. unfold at_pc. by rewrite move_other. Qed.

Lemma move_working u w : working_at c' u = Some w -> working_at c u = Some w.
Proof.
  unfold working_at. destruct (decide (u = t)) as [->|Hne]; [|by rewrite move_other].
  rewrite move_at, (m_from _ _ _ _ _ M). apply (m_wg _ _ _ _ _ M).
Qed.

Lemma move_workers : workers c' = workers c + works o' - works o.
Proof.
  unfold workers. rewrite (m_to _ _ _ _ _ M). destruct o' as [p'|].
  - change (partial_alter (fun _ => Some p') t (c_threads c)) with (<[t := p']> (c_threads c)).
    rewrite msum_insert_any, (m_from _ _ _ _ _ M). destruct o as [p|]; cbn [from_option]; [lia|].
    change (works None) with 0. lia.
  - change (partial_alter (fun _ => None) t (c_threads c)) with (delete t (c_threads c)). change (works None) with 0.
    destruct o as [p|] eqn:Ho.
    + pose proof (m_from _ _ _ _ _ M) as Hf. rewrite (msum_delete _ _ _ _ Hf). lia.
    + rewrite delete_id by apply M. change (works None) with 0. lia.
Qed.

Lemma move_wg_zero : c_wg c = 0 -> c_wg c' = 0.
Proof.
  intros Hz. pose proof (count_zero c t (k_count _ K) Hz) as Hw. unfold working_at in Hw. rewrite (m_from _ _ _ _ _ M) in Hw.
  destruct (m_wg _ _ _ _ _ M) as [-> Hin]. assert (works o = 0) as -> by (unfold works; by rewrite Hw).
  assert (works o' = 0) as ->; [|lia]. unfold works. destruct (o' ≫= working) as [w|] eqn:Ho'; [|done].
  specialize (Hin w eq_refl). congruence.
Qed.

Lemma move_wg_le : works o' <= works o /\ c_wg c' <= c_wg c.
Proof.
  destruct (m_wg _ _ _ _ _ M) as [-> Hin]. assert (works o' <= works o); [|lia]. unfold works.
  destruct (o' ≫= working) as [w|]; [by rewrite (Hin w eq_refl)|]. destruct (o ≫= working); lia.
Qed.

(** Nobody else holds the mutex. *)
Lemma move_alone u : sat locked o = true -> at_pc c u locked -> u = t.
Proof. intros Hl Hu. apply move_pc_at, (k_lock _ K) in Hl. apply (k_lock _ K) in Hu. congruence. Qed.

Lemma move_replacing : replacing c -> replacing c' \/ c_conn c' = None.
Proof.
  intros [u Hu]. destruct (decide (u = t)) as [->|Hne].
  - unfold at_pc in Hu. rewrite (m_from _ _ _ _ _ M) in Hu. destruct (m_leaving _ _ _ _ _ M Hu) as [Hl|]; [|auto].
    left. exists t. by apply move_pc_to.
  - left. exists u. by apply move_pc_other.
Qed.

Lemma move_conn_none : c_conn c = None -> c_conn c' = None.
Proof. intros Hn. destruct (m_conn _ _ _ _ _ M) as [->|[-> _]]; done. Qed.

Lemma move_locks u : at_pc c' u locked <-> c_connMutex c' = Some u.
Proof.
  split.
  - intros [[-> Hl]|[Hne Hl]]%move_pc.
    + destruct (m_lock _ _ _ _ _ M) as [(_ & ? & _)|[(Hf & _)|(Hf & _)]]; congruence.
    + pose proof Hl as Hm. apply (k_lock _ K) in Hm.
      destruct (m_lock _ _ _ _ _ M) as [(_ & _ & [Ho|Hn])|[(_ & Ho & _)|(_ & _ & ->)]]; [|congruence| |done].
      * by destruct (Hne (move_alone u Ho Hl)).
      * by destruct (Hne (move_alone u Ho Hl)).
  - intros Hm. destruct (m_lock _ _ _ _ _ M) as [(Ho' & Hc & _)|[(_ & _ & Hc)|(Hf' & Hf & Hc)]]; rewrite Hc in Hm; [|done|].
    + injection Hm as <-. by apply move_pc_to.
    + apply (k_lock _ K) in Hm. apply move_pc_other; [|done]. intros ->. unfold at_pc in Hm.
      rewrite (m_from _ _ _ _ _ M) in Hm. congruence.
Qed.

Lemma move_owners u u' : at_pc c' u owning -> at_pc c' u' owning -> u = u'.
Proof.
  intros [[-> Hu]|[Hne Hu]]%move_pc [[-> Hu']|[Hne' Hu']]%move_pc; [done| | |by eapply k_owner].
  - destruct (m_flag _ _ _ _ _ M) as [[Heq _]|[(? & _)|(_ & _ & Hf & _)]]; [|congruence|].
    + rewrite Hu in Heq. by apply (k_owner _ K); [apply move_pc_at|].
    + assert (c_isReconnecting c = true) by (apply (k_flag _ K); eauto). congruence.
  - destruct (m_flag _ _ _ _ _ M) as [[Heq _]|[(? & _)|(_ & _ & Hf & _)]]; [|congruence|].
    + rewrite Hu' in Heq. by apply (k_owner _ K); [|apply move_pc_at].
    + assert (c_isReconnecting c = true) by (apply (k_flag _ K); eauto). congruence.
Qed.

Lemma move_flag : c_isReconnecting c' = true <-> exists u, at_pc c' u owning.
Proof.
  destruct (m_flag _ _ _ _ _ M) as [[Heq ->]|[(Ho' & Ho & ->)|(Ho' & _ & _ & -> & _)]].
  - rewrite (k_flag _ K). split; intros [u Hu].
    + exists u. destruct (decide (u = t)) as [->|Hne]; [|by apply move_pc_other]. apply move_pc_to. unfold at_pc in Hu.
      rewrite (m_from _ _ _ _ _ M) in Hu. congruence.
    + apply move_pc in Hu as [[-> Hu]|[_ Hu]]; [|by exists u]. exists t. apply move_pc_at. congruence.
  - split; [done|]. intros [u [[-> Hu]|[Hne Hu]]%move_pc]; [congruence|]. apply move_pc_at in Ho.
    by destruct (Hne (k_owner _ K _ _ Hu Ho)).
  - split; [|done]. intros _. exists t. by apply move_pc_to.
Qed.

Lemma move_opening u : at_pc c' u opening -> c_isReconnecting c' = false.
Proof.
  intros Hu. assert (Hc : at_pc c u opening).
  { destruct (move_pc _ _ Hu) as [[-> Hu']|[_ Hu']]; [|done]. by apply move_pc_at, (m_initial _ _ _ _ _ M). }
  destruct (m_flag _ _ _ _ _ M) as [[_ ->]|[(_ & _ & ->)|(_ & _ & _ & _ & Hn & Hall)]]; [by eapply k_opening|done|].
  destruct (move_pc _ _ Hu) as [[-> Hu']|[Hne _]]; [congruence|]. by destruct (Hall u Hne).
Qed.

Lemma move_initial u : at_pc c' u initial -> u = 0%nat /\ c_public c' = false.
Proof.
  intros Hu. assert (Hc : at_pc c u initial).
  { destruct (move_pc _ _ Hu) as [[-> Hu']|[_ Hu']]; [|done]. by apply move_pc_at, (m_initial _ _ _ _ _ M). }
  destruct (k_initial _ K u Hc) as [Hz Hp]. split; [done|]. destruct (m_public _ _ _ _ _ M) as [->|(_ & Ho' & Ho)]; [done|].
  apply move_pc_at, (k_initial _ K) in Ho as [Hz' _]. destruct (move_pc _ _ Hu) as [[_ Hu']|[Hne _]]; congruence.
Qed.

Lemma move_quiet u : at_pc c' u quiet -> c_conn c' = None /\ c_wg c' = 0.
Proof.
  intros Hu. assert (Hq : at_pc c u quiet -> c_conn c' = None /\ c_wg c' = 0).
  { intros [Hn Hz]%(k_quiet _ K). split; [by apply move_conn_none|by apply move_wg_zero]. }
  destruct (move_pc _ _ Hu) as [[-> Hu']|[_ Hu']]; [|auto]. destruct (m_quiet _ _ _ _ _ M Hu') as [Ho|?]; [|done].
  by apply Hq, move_pc_at.
Qed.

Lemma move_running u : working_at c' u <> None -> ~ at_pc c' u waiting -> c_isStart c' = true.
Proof.
  intros Hw Hn. destruct (working_at c' u) as [w|] eqn:Hw'; [|done]. pose proof (move_working u w Hw') as Hwc.
  assert (Hrun : ~ at_pc c u waiting -> c_isStart c' = true).
  { intros Hn'. assert (Hst : c_isStart c = true) by (apply (k_running _ K u); congruence).
    destruct (m_start _ _ _ _ _ M) as [->|[(_ & Hz & _)|[-> _]]]; [done| |done].
    rewrite (count_zero c u (k_count _ K) Hz) in Hwc. done. }
  destruct (decide (u = t)) as [->|Hne].
  - unfold at_pc in *. rewrite (m_from _ _ _ _ _ M) in Hrun. rewrite move_at in Hn. unfold working_at in Hw'. rewrite move_at in Hw'.
    destruct (sat waiting o) eqn:Ho; [|by apply Hrun]. apply (m_running _ _ _ _ _ M Ho); [by destruct (sat waiting o')|congruence].
  - apply Hrun. intros Hc. by apply Hn, move_pc_other.
Qed.

Lemma move_unstarted u : at_pc c' u unstarted -> c_isStart c' = false.
Proof.
  intros Hu. destruct (move_pc _ _ Hu) as [[-> Hu']|[Hne Hu']].
  - destruct (m_unstarted _ _ _ _ _ M Hu') as [Ho|[? _]]; [|done]. apply move_pc_at, (k_unstarted _ K) in Ho.
    destruct (m_start _ _ _ _ _ M) as [->|[[? _]|(_ & _ & ?)]]; [done|done|congruence].
  - pose proof (k_unstarted _ K u Hu') as Hs. destruct (m_start _ _ _ _ _ M) as [->|[[? _]|(_ & Ho & _)]]; [done|done|].
    apply unstarted_locked in Ho. apply unstarted_locked in Hu'. by destruct (Hne (move_alone u Ho Hu')).
Qed.

Lemma move_starting : c_conn c' <> None -> c_isStart c' = true \/ exists u, at_pc c' u starting.
Proof.
  intros Hn. assert (Hc : c_conn c <> None) by (intros Hc; by apply Hn, move_conn_none).
  destruct (k_starting _ K Hc) as [Hs|[u Hu]].
  - destruct (m_start _ _ _ _ _ M) as [->|[(_ & _ & ?)|[-> _]]]; [auto|done|auto].
  - destruct (decide (u = t)) as [->|Hne]; [|right; exists u; by apply move_pc_other].
    unfold at_pc in Hu. rewrite (m_from _ _ _ _ _ M) in Hu. destruct (m_starting _ _ _ _ _ M Hu) as [?|?]; [|auto].
    right. exists t. by apply move_pc_to.
Qed.

Lemma move_joined u : at_pc c' u joined -> c_conn c' = None /\ c_wg c' = 0 /\ forall u', ~ at_pc c' u' unstarted.
Proof.
  intros Hu. assert (Hold : forall v, at_pc c v joined -> at_pc c v closing -> c_conn c' = None /\ c_wg c' = 0 /\ forall u', ~ at_pc c' u' unstarted).
  { intros v (Hn & Hz & Hall)%(k_joined _ K) Hcl. split; [by apply move_conn_none|]. split; [by apply move_wg_zero|].
    intros u' [[-> Hu']|[_ Hu']]%move_pc; [|by destruct (Hall u')].
    destruct (m_unstarted _ _ _ _ _ M Hu') as [Ho|[_ Hf]]; [by destruct (Hall t); apply move_pc_at|].
    rewrite (k_closing _ K v Hcl) in Hf. done. }
  assert (Hjc : forall q, sat joined q = true -> sat closing q = true) by (intros [p|]; [by_pc p|done]).
  destruct (move_pc _ _ Hu) as [[-> Hu']|[_ Hu']]; [|apply (Hold u Hu'); by apply Hjc].
  destruct (m_joined _ _ _ _ _ M Hu') as [Ho|(Hn & Hz & Ho & Hns)]; [apply (Hold t); apply move_pc_at; [done|by apply Hjc]|].
  split_and!; [done|done|]. intros u' [[-> Hu2]|[Hne Hu2]]%move_pc; [congruence|].
  apply unstarted_locked in Hu2. by destruct (Hne (move_alone u' Ho Hu2)).
Qed.

Lemma move_open s :
  s ∈ c_open c' -> c_conn c' = Some s \/ (exists u, c_threads c' !! u ≫= holding = Some s) \/ c_closers c' !! s = Some Fired.
Proof.
  intros Hs. destruct (m_open _ _ _ _ _ M s Hs) as [Hc|[Ho' _]]; [|right; left; exists t; by rewrite move_at].
  destruct (k_open _ K s Hc) as [Hcn|[[u Hu]|Hf]].
  - destruct (m_conn _ _ _ _ _ M) as [->|(_ & _ & Hcl)]; [auto|]. by destruct (Hcl s Hcn).
  - right. destruct (decide (u = t)) as [->|Hne]; [|left; exists u; by rewrite move_other].
    rewrite (m_from _ _ _ _ _ M) in Hu. destruct (m_holding _ _ _ _ _ M s Hu) as [Ho'|[?|?]]; [left; exists t; by rewrite move_at|done|auto].
  - destruct (m_fired _ _ _ _ _ M s Hf); [auto|right; left; exists t; by rewrite move_at].
Qed.

Lemma move_closer u s : c_threads c' !! u ≫= reading = Some s -> is_Some (c_closers c' !! s) \/ s ∉ c_open c'.
Proof.
  intros Hu. destruct (decide (u = t)) as [->|Hne].
  - rewrite move_at in Hu. destruct (m_reading _ _ _ _ _ M s Hu) as [Ho|?]; [|auto].
    pose proof (k_closer _ K t s) as Hk. rewrite (m_from _ _ _ _ _ M) in Hk. destruct (Hk Ho) as [Hx|Hx].
    + destruct (m_closers _ _ _ _ _ M s Hx) as [?|[_ ?]]; [auto|done].
    + right. intros Hs. destruct (m_open _ _ _ _ _ M s Hs) as [?|(_ & _ & Hn)]; [done|]. destruct o as [p|]; [|done]. by destruct p.
  - rewrite move_other in Hu by done. assert (Hlo : at_pc c u locked).
    { unfold at_pc. destruct (c_threads c !! u) as [p|]; [|done]. by destruct p. }
    assert (Hno : sat locked o = true -> False) by (intros Ho; by destruct (Hne (move_alone u Ho Hlo))).
    destruct (k_closer _ K u s Hu) as [Hx|Hx].
    + destruct (m_closers _ _ _ _ _ M s Hx) as [?|[? _]]; [auto|by destruct Hno].
    + right. intros Hs. destruct (m_open _ _ _ _ _ M s Hs) as [?|(_ & ? & _)]; [done|by destruct Hno].
Qed.

Lemma move_settled u s : c_threads c' !! u ≫= settled = Some s -> c_closers c' !! s = None.
Proof.
  intros Hu. destruct (c_closers c' !! s) as [x|] eqn:Hx; [|done]. exfalso.
  assert (Hs : is_Some (c_closers c' !! s)) by eauto. destruct (decide (u = t)) as [->|Hne].
  - rewrite move_at in Hu. destruct (m_settled _ _ _ _ _ M s Hu) as [Ho|?]; [|congruence].
    pose proof (k_settled _ K t s) as Hk. rewrite (m_from _ _ _ _ _ M) in Hk. specialize (Hk Ho).
    destruct (m_new _ _ _ _ _ M s Hs) as [[? ?]|(_ & ? & _)]; [congruence|done].
  - rewrite move_other in Hu by done. pose proof (k_settled _ K u s Hu) as Hk. assert (Hlo : at_pc c u locked).
    { unfold at_pc. destruct (c_threads c !! u) as [p|]; [|done]. simpl in *. clear -Hu. by_pc p. }
    destruct (m_new _ _ _ _ _ M s Hs) as [[? ?]|(Ho & _)]; [congruence|]. by destruct (Hne (move_alone u Ho Hlo)).
Qed.

Lemma move_safe s : c_conn c' = Some s -> c_closers c' !! s = None.
Proof.
  intros Hc. destruct (m_conn _ _ _ _ _ M) as [Heq|[? _]]; [|congruence]. rewrite Heq in Hc. pose proof (k_safe _ K s Hc) as Hk.
  destruct (c_closers c' !! s) as [x|] eqn:Hx; [|done]. destruct (m_new _ _ _ _ _ M s) as [[? ?]|(_ & _ & ?)]; [eauto|congruence..].
Qed.

Lemma move_wait u s : at_pc c' u at_wait -> c_conn c' = Some s -> s ∉ c_open c'.
Proof.
  intros Hu Hs. assert (Hold : at_pc c u at_wait -> ~ (u <> t /\ sat locked o = true) -> s ∉ c_open c').
  { intros Hc Hn Hin. destruct (m_conn _ _ _ _ _ M) as [Heq|(He & _)]; [|congruence]. rewrite Heq in Hs.
    pose proof (k_wait _ K u s Hc Hs) as Hno. destruct (m_open _ _ _ _ _ M s Hin) as [?|(Ho' & Ho & _)]; [done|].
    destruct (decide (u = t)) as [->|Hne]; [|by apply Hn]. unfold at_pc in Hc. rewrite (m_from _ _ _ _ _ M) in Hc.
    unfold at_pc in Hu. rewrite move_at in Hu. clear -Hu Ho'. destruct o' as [p'|]; [|done]. simpl in *. by destruct p'. }
  destruct (move_pc _ _ Hu) as [[-> Hu']|[Hne Hu']].
  - destruct (m_wait _ _ _ _ _ M Hu') as [Ho|Hcl]; [|by apply Hcl]. apply Hold; [by apply move_pc_at|naive_solver].
  - apply Hold; [done|]. intros [_ Ho]. apply wait_locked in Hu'. by destruct (Hne (move_alone u Ho Hu')).
Qed.

Lemma move_stop : c_isStop c' = true -> c_conn c' <> None -> c_isClosing c' = true \/ replacing c'.
Proof.
  intros Hs Hn. destruct (m_stop _ _ _ _ _ M Hs) as [Ho|[?|[? _]]]; [|auto|right; exists t; by apply move_pc_to].
  destruct (k_stop _ K Ho) as [Hcl|Hr].
  - intros Hcn. by apply Hn, move_conn_none.
  - left. by apply (m_closing _ _ _ _ _ M).
  - destruct (move_replacing Hr) as [?|?]; [auto|done].
Qed.

Lemma move_clear u : at_pc c' u at_workers -> c_isClosing c' = true \/ c_isStop c' = false.
Proof.
  intros Hu. destruct (c_isStop c') eqn:Hs; [|auto]. left.
  assert (Hold : at_pc c u at_workers -> c_isClosing c' = true).
  { intros Hc. destruct (m_stop _ _ _ _ _ M Hs) as [Ho|[?|[Hl Ho]]]; [|done|].
    - destruct (k_clear _ K u Hc) as [Hcl|?]; [|congruence]. by apply (m_closing _ _ _ _ _ M).
    - exfalso. destruct (workers_locked _ Hc) as [_ [Hown|Hop]].
      + apply move_pc_at in Ho. pose proof (k_owner _ K _ _ Hown Ho) as ->. apply move_pc in Hu as [[_ Hu]|[Hne _]]; [|done].
        clear -Hu Hl. destruct o' as [p|]; [|done]. by_pc p.
      + pose proof (k_opening _ K u Hop) as Hf. assert (c_isReconnecting c = true); [|congruence]. apply (k_flag _ K). exists t.
        by apply move_pc_at. }
  destruct (move_pc _ _ Hu) as [[-> Hu']|[_ Hu']]; [|auto]. destruct (m_workers _ _ _ _ _ M Hu') as [Ho|?]; [|congruence].
  by apply Hold, move_pc_at.
Qed.

Lemma move_gone : c_conn c' <> None -> c_wg c' < 3 -> c_isClosing c' = true \/ c_failed c' = true \/ replacing c'.
Proof.
  intros Hn Hlt. destruct (decide (works o' < works o)) as [Hd|Hd]; [by apply (m_gone _ _ _ _ _ M)|].
  destruct (m_wg _ _ _ _ _ M) as [Hwg _]. destruct (k_gone _ K) as [Hcl|[Hf|Hr]].
  - intros Hcn. by apply Hn, move_conn_none.
  - destruct move_wg_le. lia.
  - left. by apply (m_closing _ _ _ _ _ M).
  - right. left. by apply (m_failed _ _ _ _ _ M).
  - destruct (move_replacing Hr) as [?|?]; [auto|done].
Qed.

Lemma move_ok : conn_ok c'.
Proof.
  split.
  - intros u Hu. destruct (m_next _ _ _ _ _ M) as [Hle Hlt]. destruct (decide (u = t)) as [->|Hne].
    + rewrite move_at in Hu. auto.
    + rewrite move_other in Hu by done. apply (k_next _ K) in Hu. lia.
  - exact move_locks.
  - exact move_owners.
  - exact move_flag.
  - exact move_initial.
  - intros u Hu. assert (Hmono : c_public c = true -> c_public c' = true) by (destruct (m_public _ _ _ _ _ M) as [->|[? _]]; auto).
    destruct (move_pc _ _ Hu) as [[-> Hu']|[_ Hu']]; [|by apply Hmono, (k_user _ K u)].
    destruct (m_user _ _ _ _ _ M Hu') as [Ho|?]; [|done]. apply Hmono, (k_user _ K t). by apply move_pc_at.
  - exact move_opening.
  - exact move_quiet.
  - rewrite move_workers, (proj1 (m_wg _ _ _ _ _ M)), (k_count _ K). lia.
  - pose proof (k_three _ K). destruct move_wg_le. lia.
  - intros u Hw Hn. destruct (working_at c' u) as [w|] eqn:Hw'; [|done]. apply move_working in Hw'.
    destruct (m_conn _ _ _ _ _ M) as [Heq|(_ & Hz & _)].
    + rewrite Heq in Hn. by apply (k_conn _ K u); [rewrite Hw'|].
    + rewrite (count_zero c u (k_count _ K) Hz) in Hw'. done.
  - intros u u' w Hu Hu'. eapply (k_unique _ K); by apply move_working.
  - exact move_running.
  - exact move_unstarted.
  - exact move_starting.
  - intros u Hu. destruct (m_closing _ _ _ _ _ M) as [Hmono Hto]. destruct (move_pc _ _ Hu) as [[-> Hu']|[_ Hu']].
    + destruct (Hto Hu') as [Ho|?]; [|done]. by eapply Hmono, (k_closing _ K), move_pc_at.
    + by eapply Hmono, (k_closing _ K).
  - exact move_joined.
  - exact move_open.
  - exact move_closer.
  - exact move_settled.
  - exact move_safe.
  - exact move_wait.
  - exact move_stop.
  - exact move_clear.
  - intros u Hu. destruct (m_failed _ _ _ _ _ M) as [Hmono Hto]. destruct (move_pc _ _ Hu) as [[-> Hu']|[_ Hu']].
    + destruct (Hto Hu') as [Ho|?]; [|done]. by eapply Hmono, (k_failed _ K), move_pc_at.
    + by eapply Hmono, (k_failed _ K).
  - intros Hc. destruct (m_cancel _ _ _ _ _ M Hc) as [Ho|?]; [|done]. destruct (k_cancel _ K Ho) as [?|?].
    + left. by apply (m_closing _ _ _ _ _ M).
    + right. by apply (m_failed _ _ _ _ _ M).
  - exact move_gone.
Qed.

End preserved.
End move.
