(* ===== verification/ClientSteps.v ===== *)
(** * Every step keeps the invariant of the goroutines

    One lemma per step function of Client.v.  A step of one goroutine is a [move]
    of ClientInv.v; the start of the workers and the spawning of a reconnect
    goroutine are treated on their own. *)

From S2P Require Import Prelude ByteBudget Event Protocol SharedBudget AckBuffer AckFleet ClientReceipts Client ClientInv.

(** A move that changes nothing the class of the program point does not say. *)
Ltac move_field :=
  try reflexivity; try (intros; discriminate);
  try (by unfold works; simpl; split; intros; (discriminate || lia || auto));
  try (by auto); try (by intros; tauto); try (by naive_solver); try (by set_solver).

Ltac move_to :=
  match goal with
  | K : conn_ok ?c, Ht : c_threads ?c !! ?t = Some ?p |- conn_ok ?c' =>
      eapply (move_ok c c' t (Some p) _ K); split; [exact Ht|reflexivity|..]; simpl;
      [split; [lia|intros _; apply (k_next _ K t); rewrite Ht; done]|..]; move_field
  end.

Section steps.
Context {B : Type} `{SharedBudget B}.
Implicit Types (c : Client B).

(** The goroutine holds the mutex. *)
Lemma holds_lock c t p : conn_ok c -> c_threads c !! t = Some p -> locked p = true -> c_connMutex c = Some t.
Proof. intros K Ht Hl. apply (k_lock _ K). unfold at_pc. by rewrite Ht. Qed.

Lemma disconnect_step_ok t p c c' :
  conn_ok c -> c_threads c !! t = Some p -> disconnect_step t p c = Next c' -> conn_ok c'.
Proof.
  intros K Ht. destruct p; simpl; try done.
  - intros [= <-]. assert (Hcl : k = CloseLeaves -> c_isClosing c = true).
    { intros ->. apply (k_closing _ K t). unfold at_pc. by rewrite Ht. }
    destruct k; [|specialize (Hcl eq_refl)]; move_to.
  - destruct (c_connMutex c) eqn:Hm; [done|]. intros [= <-]. destruct k; move_to.
  - intros [= <-]. pose proof (holds_lock c t _ K Ht eq_refl) as Hm. destruct (c_conn c) as [s|] eqn:Hc; destruct k; move_to.
  - case_decide as Hz; [|done]. intros [= <-]. pose proof (holds_lock c t _ K Ht eq_refl) as Hm.
    assert (Hcl : forall s, c_conn c = Some s -> s ∉ c_open c).
    { intros s. apply (k_wait _ K t). unfold at_pc. by rewrite Ht. }
    destruct k; move_to.
  - intros [= <-]. pose proof (holds_lock c t _ K Ht eq_refl) as Hm. destruct k; move_to.
Qed.

(** ** Connecting *)

(** A control message touches the buffer and the back-off only. *)
Lemma process_frame m c v c' :
  processControlMessage m c = Some (v, c') -> exists b d, c' = c <| c_ab := b |> <| c_backoffTime := d |>.
Proof.
  unfold processControlMessage. intros Hp. exists (c_ab c'), (c_backoffTime c').
  repeat case_decide; [destruct (Ack _ _) as [[r b]|]; simpl in Hp; [|done]| | | | |destruct (UpdateCapacity _ _) as [b|]; simpl in Hp; [|done]|];
    injection Hp as <- <-; by destruct c.
Qed.

Lemma frame_ok c b d : conn_ok c -> conn_ok (c <| c_ab := b |> <| c_backoffTime := d |>).
Proof. by intros []. Qed.

(** The workers start when there are none. *)
Section start.
Context (t : tid) (o : opener) (s : socket) (c : Client B) (K : conn_ok c) (Ht : c_threads c !! t = Some (ConWorkers o s)).

Definition started : Client B :=
  goto t (ConHandBack o) (spawn (Waiting KeepAlive) (spawn (Waiting Sender) (spawn (Waiting Listener)
    (c <| c_conn := Some s |> <| c_wg ::= Z.add 3 |>)))).

Definition fresh_worker (u : tid) : option worker :=
  if decide (u = c_next c) then Some Listener
  else if decide (u = S (c_next c)) then Some Sender
  else if decide (u = S (S (c_next c))) then Some KeepAlive else None.

Lemma start_old u : c_threads c !! u <> None -> fresh_worker u = None.
Proof. intros Hu%(k_next _ K). unfold fresh_worker. rewrite !decide_False by lia. done. Qed.

Lemma start_pc : at_pc c t locked /\ at_pc c t quiet /\ at_pc c t unstarted /\ at_pc c t at_workers.
Proof. unfold at_pc. rewrite Ht. by destruct o. Qed.

Lemma start_lookup u :
  c_threads started !! u =
    if decide (u = t) then Some (ConHandBack o)
    else match fresh_worker u with Some w => Some (Waiting w) | None => c_threads c !! u end.
Proof.
  assert (Hlt : (t < c_next c)%nat) by (apply (k_next _ K); by rewrite Ht).
  unfold started, fresh_worker. simpl. destruct (decide (u = t)) as [->|Hne]; [by rewrite lookup_insert_eq|].
  rewrite lookup_insert_ne by done.
  repeat (case_decide; [subst; rewrite ?lookup_insert_ne by lia; by rewrite lookup_insert_eq|]).
  by rewrite !lookup_insert_ne by lia.
Qed.

(** Classes without waiting workers. *)
Lemma start_class P u : (forall w, P (Waiting w) = false) -> at_pc started u P -> (u = t /\ P (ConHandBack o) = true) \/ (u <> t /\ at_pc c u P).
Proof.
  intros HP. unfold at_pc. rewrite start_lookup. case_decide; [auto|]. destruct (fresh_worker u) as [w|]; [simpl; rewrite HP; done|auto].
Qed.

Lemma start_keeps P u : u <> t -> at_pc c u P -> at_pc started u P.
Proof.
  intros Hne Hu. unfold at_pc. rewrite start_lookup, decide_False by done. rewrite start_old; [done|].
  unfold at_pc in Hu. by destruct (c_threads c !! u).
Qed.

Lemma start_to P : P (ConHandBack o) = true -> at_pc started t P.
Proof. intros HP. unfold at_pc. by rewrite start_lookup, decide_True. Qed.

Lemma start_working u : working_at started u = fresh_worker u.
Proof.
  unfold working_at. rewrite start_lookup. destruct (decide (u = t)) as [->|Hne].
  - rewrite start_old; [done|by rewrite Ht].
  - destruct (fresh_worker u); [done|]. destruct (k_quiet _ K t) as [_ Hz]; [apply start_pc|].
    apply (count_zero c u (k_count _ K) Hz).
Qed.

Lemma start_workers : workers started = workers c + 3.
Proof.
  unfold workers. simpl. assert (Hlt : (t < c_next c)%nat) by (apply (k_next _ K); by rewrite Ht).
  assert (Hfr : forall u, (c_next c <= u)%nat -> c_threads c !! u = None).
  { intros u Hu. destruct (c_threads c !! u) eqn:He; [|done]. assert (u < c_next c)%nat by (apply (k_next _ K); congruence). lia. }
  rewrite !msum_insert_any, !lookup_insert_ne, Ht, !Hfr by lia. cbn [from_option].
  change (works (Some (Waiting KeepAlive))) with 1. change (works (Some (Waiting Sender))) with 1.
  change (works (Some (Waiting Listener))) with 1. change (works (Some (ConHandBack o))) with 0.
  change (works (Some (ConWorkers o s))) with 0. lia.
Qed.

Lemma start_unique u u' w : fresh_worker u = Some w -> fresh_worker u' = Some w -> u = u'.
Proof. unfold fresh_worker. repeat case_decide; congruence. Qed.

(** Nobody else holds the mutex or [isReconnecting]. *)
Lemma start_alone u : at_pc c u locked -> u = t.
Proof. intros Hu%(k_lock _ K). destruct start_pc as [Hl%(k_lock _ K) _]. congruence. Qed.

Lemma start_owner u : at_pc c u owning -> u = t /\ o = Owner.
Proof.
  intros Hu. assert (Hf : c_isReconnecting c = true) by (apply (k_flag _ K); eauto).
  destruct o eqn:Ho; [|split; [|done]; apply (k_owner _ K); [done|unfold at_pc; by rewrite Ht]].
  rewrite (k_opening _ K t) in Hf; [done|]. unfold at_pc. by rewrite Ht.
Qed.

Lemma start_stop : c_isStop c = true -> c_isClosing c = true.
Proof. intros Hs. destruct (k_clear _ K t) as [?|?]; [apply start_pc|done|congruence]. Qed.

(** Nobody else is between connections. *)
Lemma start_quiet u : at_pc c u quiet -> u = t.
Proof.
  intros Hqu. destruct (quiet_owning _ Hqu) as [Ho|Ho]; [by destruct (start_owner u Ho)|].
  pose proof (k_initial _ K u (opening_initial _ Ho)) as [-> _]. pose proof (k_opening _ K _ Ho) as Hf.
  destruct start_pc as (_ & Hq & _). destruct (quiet_owning _ Hq) as [Ho'|Ho']; [|apply opening_initial, (k_initial _ K t) in Ho' as [-> _]; done].
  assert (c_isReconnecting c = true) by (apply (k_flag _ K); eauto). congruence.
Qed.

Lemma start_ok : conn_ok started.
Proof.
  destruct start_pc as (Hl & Hq & Hu & Hw). destruct (k_quiet _ K t Hq) as [Hcn Hz].
  assert (Hlt : (t < c_next c)%nat) by (apply (k_next _ K); by rewrite Ht).
  split; simpl.
  - intros u Hu'. rewrite start_lookup in Hu'. unfold fresh_worker in Hu'.
    repeat case_decide; try lia. apply (k_next _ K) in Hu'. lia.
  - intros u. rewrite <-(k_lock _ K). split; [intros [[-> _]|[_ Hp]]%start_class; [done|done|by intros []]|].
    intros ->%start_alone. by apply start_to.
  - intros u u' [[-> _]|[Hn Hp]]%start_class [[-> _]|[Hn' Hp']]%start_class; try by intros [].
    + done.
    + symmetry. by apply start_owner.
    + by apply start_owner.
    + by apply (k_owner _ K).
  - rewrite (k_flag _ K). split; intros [u Hp].
    + destruct (start_owner u Hp) as [-> Ho]. exists t. apply start_to. by rewrite Ho.
    + apply start_class in Hp as [[-> Hp]|[_ Hp]]; [|by exists u|by intros []]. exists t. unfold at_pc. rewrite Ht. by destruct o.
  - intros u [[-> Hp]|[_ Hp]]%start_class; [| |by intros []]; apply (k_initial _ K); [|done]. unfold at_pc. rewrite Ht. by destruct o.
  - intros u [[-> Hp]|[_ Hp]]%start_class; [done|by apply (k_user _ K u)|by intros []].
  - intros u [[-> Hp]|[_ Hp]]%start_class; [by destruct o|by apply (k_opening _ K u)|by intros []].
  - intros u [[-> Hp]|[Hn Hp]]%start_class; [by destruct o| |by intros []]. by destruct (Hn (start_quiet u Hp)).
  - rewrite start_workers, <-(k_count _ K). lia.
  - lia.
  - done.
  - intros u u' w. rewrite !start_working. apply start_unique.
  - intros u Hwk Hnw. exfalso. apply Hnw. rewrite start_working in Hwk. unfold at_pc. rewrite start_lookup.
    destruct (fresh_worker u) eqn:Hf; [|done]. rewrite decide_False; [done|]. intros ->. rewrite start_old in Hf; [done|by rewrite Ht].
  - intros u _. by apply (k_unstarted _ K t).
  - intros _. right. exists t. by apply start_to.
  - intros u [[-> Hp]|[_ Hp]]%start_class; [done|by apply (k_closing _ K u)|by intros []].
  - intros u [[-> Hp]|[_ Hp]]%start_class; [done| |by intros []]. destruct (k_joined _ K u Hp) as (_ & _ & Hall). by destruct (Hall t).
  - intros s' Hs'. destruct (k_open _ K s' Hs') as [?|[[u Hh]|?]]; [congruence| |auto]. destruct (decide (u = t)) as [->|Hn].
    + rewrite Ht in Hh. auto.
    + right. left. exists u. rewrite start_lookup, decide_False by done. rewrite start_old; [done|]. by destruct (c_threads c !! u).
  - intros u s' Hr. apply (k_closer _ K u). rewrite start_lookup in Hr. case_decide; [done|]. by destruct (fresh_worker u).
  - intros u s' Hr. apply (k_settled _ K u). rewrite start_lookup in Hr. case_decide; [done|]. by destruct (fresh_worker u).
  - intros s' [= <-]. apply (k_settled _ K t). by rewrite Ht.
  - intros u s' [[-> Hp]|[Hn Hp]]%start_class; [done| |by intros []]. apply wait_locked in Hp. by destruct (Hn (start_alone u Hp)).
  - intros Hs _. left. by apply start_stop.
  - intros u [[-> Hp]|[Hn Hp]]%start_class; [done| |by intros []]. by apply (k_clear _ K u).
  - intros u [[-> Hp]|[_ Hp]]%start_class; [done|by apply (k_failed _ K u)|by intros []].
  - apply (k_cancel _ K).
  - lia.
Qed.
End start.

(** An attempt whose closer cannot be stopped any more leaves the socket to it. *)
Lemma unstopped_ok t o s m c :
  conn_ok c -> c_threads c !! t = Some (ConStop o s m) -> (forall x, c_closers c !! s <> Some (Armed x)) ->
  conn_ok (goto t (ConUnlock o true) c).
Proof.
  intros K Ht Hno. pose proof (holds_lock c t _ K Ht eq_refl) as Hm.
  assert (Hx : s ∉ c_open c \/ c_closers c !! s = Some Fired).
  { destruct (k_closer _ K t s) as [[[x|] Hx]|?]; [by rewrite Ht|by destruct (Hno x)|auto|auto]. }
  destruct o; move_to.
Qed.

Lemma stopped_ok t p p' c s x :
  conn_ok c -> c_threads c !! t = Some p -> c_closers c !! s = Some (Armed x) ->
  (exists o m, p = ConStop o s m /\ p' = ConAnswer o s m) \/ (exists o, p = ConLeave o s /\ p' = ConUnlock o true) ->
  conn_ok (goto t p' (c <| c_closers ::= delete s |>)).
Proof.
  intros K Ht Hx Hp. assert (Hm : c_connMutex c = Some t).
  { apply (holds_lock c t _ K Ht). by destruct Hp as [(o & m & -> & _)|(o & -> & _)]. }
  assert (Hf : forall s', c_closers c !! s' = Some Fired -> delete s (c_closers c) !! s' = Some Fired).
  { intros s' Hs'. rewrite lookup_delete_ne; [done|]. congruence. }
  assert (Hk : forall s', is_Some (c_closers c !! s') -> is_Some (delete s (c_closers c) !! s') \/ s' = s).
  { intros s' Hs'. destruct (decide (s' = s)); [auto|]. rewrite lookup_delete_ne by done. auto. }
  assert (Hnew : forall s', is_Some (delete s (c_closers c) !! s') -> is_Some (c_closers c !! s')).
  { intros s' [y [_ Hy]%lookup_delete_Some]. eauto. }
  assert (Hd : delete s (c_closers c) !! s = None) by apply lookup_delete_eq.
  destruct Hp as [(o & m & -> & ->)|(o & -> & ->)]; destruct o; move_to.
Qed.

(** The closer of a socket fires, and closes it. *)
Lemma closer_fires_ok s c c' : conn_ok c -> closer_fires s c = Next c' -> conn_ok c'.
Proof.
  intros K. unfold closer_fires. destruct (c_closers c !! s) as [[o|]|] eqn:Hs; [|done..]. destruct (cancelled o c); [|done].
  intros [= <-]. pose proof (k_open _ K) as Hopen. pose proof (k_closer _ K) as Hcl.
  pose proof (k_settled _ K) as Hset. pose proof (k_safe _ K) as Hsafe. destruct K. split; try assumption.
  - intros s' Hs'. simpl. destruct (decide (s' = s)) as [->|Hne]; [right; right; apply lookup_insert_eq|]. rewrite lookup_insert_ne by done.
    by apply Hopen.
  - intros t s' Ht. simpl. destruct (decide (s' = s)) as [->|Hne]; [left; by rewrite lookup_insert_eq|]. rewrite lookup_insert_ne by done.
    by eapply Hcl.
  - intros t s' Ht. simpl. pose proof (Hset t s' Ht) as Hno. rewrite lookup_insert_ne by congruence. done.
  - intros s' Hc. simpl. pose proof (Hsafe s' Hc) as Hno. rewrite lookup_insert_ne by congruence. done.
Qed.

Lemma closer_closes_ok s c c' : conn_ok c -> closer_closes s c = Next c' -> conn_ok c'.
Proof.
  intros K. unfold closer_closes. destruct (c_closers c !! s) as [[o|]|] eqn:Hs; [done| |done]. intros [= <-].
  pose proof (k_open _ K) as Hopen. pose proof (k_closer _ K) as Hcl. pose proof (k_wait _ K) as Hwait.
  pose proof (k_settled _ K) as Hset. pose proof (k_safe _ K) as Hsafe. destruct K. split; try assumption.
  - intros s' Hs'. simpl in *. apply elem_of_difference in Hs' as [Hs' Hne]. rewrite lookup_delete_ne by set_solver. by apply Hopen.
  - intros t s' Ht. simpl. destruct (decide (s' = s)) as [->|Hne]; [right; set_solver|]. rewrite lookup_delete_ne by done.
    destruct (Hcl t s' Ht); [auto|right; set_solver].
  - intros t s' Ht. simpl. apply lookup_delete_None. right. by eapply Hset.
  - intros s' Hc. simpl. apply lookup_delete_None. right. by apply Hsafe.
  - intros t s' Ht Hc. simpl. pose proof (Hwait t s' Ht Hc). set_solver.
Qed.

Lemma connect_step_ok n t e p c c' :
  conn_ok c -> c_threads c !! t = Some p -> connect_step n t e p c = Next c' -> conn_ok c'.
Proof.
  intros K Ht. assert (Hm : locked p = true -> c_connMutex c = Some t) by (by apply holds_lock).
  destruct p; simpl; try done; specialize (Hm eq_refl) || idtac.
  - clear Hm. destruct (c_connMutex c) eqn:Hm; [done|]. intros [= <-]. destruct o; move_to.
  - assert (Hq : c_conn c = None /\ c_wg c = 0) by (destruct o; apply (k_quiet _ K t); unfold at_pc; by rewrite Ht).
    destruct (c_isClosing c) eqn:Hcl; [intros [= <-]; destruct o; move_to|]. destruct e; try done; intros [= <-]; destruct o; move_to.
  - destruct (cancelled o c); [intros [= <-]; destruct o; move_to|]. destruct e; [intros [= <-]; destruct o; move_to| |done].
    case_decide; intros [= <-]; destruct o; move_to.
  - destruct e; [| |done]; [|destruct (cancelled o c); [|done]]; intros [= <-]; destruct o; move_to.
  - destruct e; [| |done]; intros [= <-]; [unfold closeOnCancel; generalize (if cancelled o c then Fired else Armed o); intros x|].
    + assert (Hf : forall s', c_closers c !! s' = Some Fired -> <[s := x]> (c_closers c) !! s' = Some Fired \/ Some s = Some s').
      { intros s' Hs'. destruct (decide (s' = s)) as [->|]; [auto|]. rewrite lookup_insert_ne by done. auto. }
      assert (Hk : forall s', is_Some (c_closers c !! s') -> is_Some (<[s := x]> (c_closers c) !! s'))
        by (intros s' Hs'; apply lookup_insert_is_Some'; auto).
      assert (Hs : is_Some (<[s := x]> (c_closers c) !! s)) by (by rewrite lookup_insert_eq).
      assert (Hn : c_conn c = None) by (destruct (k_quiet _ K t); [unfold at_pc; rewrite Ht; by destruct o|done]).
      assert (Hold : forall s', is_Some (<[s := x]> (c_closers c) !! s') -> is_Some (c_closers c !! s') \/ s' = s).
      { intros s'. destruct (decide (s' = s)); [auto|]. rewrite lookup_insert_ne by done. auto. }
      destruct o; move_to.
    + destruct o; move_to.
  - destruct e as [| |m]; [done| |]; intros [= <-]; destruct o; move_to.
  - unfold stopCloseOnCancel. destruct (c_closers c !! s) as [[x|]|] eqn:Hx; intros [= <-].
    + eapply stopped_ok; [done|exact Ht|exact Hx|left; eauto].
    + eapply unstopped_ok; [done|exact Ht|congruence].
    + eapply unstopped_ok; [done|exact Ht|congruence].
  - destruct (processControlMessage m c) as [[v c1]|] eqn:Hp; [|done]. destruct (process_frame _ _ _ _ Hp) as (b & d & ->).
    destruct v; intros [= <-]; destruct o; move_to.
  - unfold stopCloseOnCancel. destruct (c_closers c !! s) as [[x|]|] eqn:Hx; intros [= <-]; [|destruct o; move_to..].
    eapply stopped_ok; [done|exact Ht|exact Hx|right; eauto].
  - destruct (c_isClosing c); intros [= <-]; destruct o; move_to.
  - intros [= <-]; destruct o; move_to.
  - intros [= <-]. exact (start_ok t o s c K Ht).
  - intros [= <-]. destruct o; move_to.
  - intros [= <-]. destruct o; move_to.
  - destruct o, failed; intros [= <-]; move_to.
Qed.

(** ** Reconnecting *)

(** A worker that runs finds the owner of [isReconnecting], if any, before the join. *)
Lemma running_replacing t c :
  conn_ok c -> working_at c t <> None -> ~ at_pc c t waiting -> c_isReconnecting c = true -> replacing c.
Proof.
  intros K Hw Hn Hf. apply (k_flag _ K) in Hf as [u Hu]. exists u. destruct (owning_cases _ Hu) as [?|[Hq|Hs]]; [done| |].
  - destruct (k_quiet _ K u Hq) as [Hc _]. by destruct (k_conn _ K t Hw).
  - pose proof (k_running _ K t Hw Hn). pose proof (k_unstarted _ K u Hs). congruence.
Qed.

(** What is needed when a call of [Reconnect] returns to a worker. *)
Lemma resume_ok t a p c :
  conn_ok c -> c_threads c !! t = Some p -> p = RecTest a \/ p = RecSwap a ->
  (forall w, a = ThenExit w -> c_isClosing c = true \/ replacing c) -> conn_ok (resume t a c).
Proof.
  intros K Ht Hp Hx. assert (Hm : locked p = true -> c_connMutex c = Some t) by (by apply holds_lock).
  destruct a as [w| |o s|]; simpl.
  - assert (Hr : c_isClosing c = true \/ replacing (finishWorker t c)).
    { destruct (Hx w eq_refl) as [?|[u Hu]]; [auto|]. right. exists u. unfold at_pc in *. simpl. rewrite lookup_delete_ne; [done|].
      intros ->. rewrite Ht in Hu. by destruct Hp as [-> | ->]. }
    destruct Hp as [-> | ->]; move_to.
  - destruct Hp as [-> | ->]; move_to.
  - specialize (Hm ltac:(by destruct Hp as [-> | ->])). destruct Hp as [-> | ->], o; move_to.
  - destruct Hp as [-> | ->]; move_to.
Qed.

(** The goroutine of a successful [Reconnect] starts. *)
Lemma spawn_owner_ok t a c :
  conn_ok c -> c_threads c !! t = Some (RecSwap a) -> c_isReconnecting c = false ->
  conn_ok (spawn (DisStop OwnerLeaves) (c <| c_isReconnecting := true |>)).
Proof.
  intros K Ht Hf. assert (Hno : forall u, ~ at_pc c u opening).
  { intros u Hu. destruct (k_quiet _ K u (opening_quiet _ Hu)) as [Hcn Hz].
    pose proof (count_zero c t (k_count _ K) Hz) as Hw. unfold working_at in Hw. rewrite Ht in Hw.
    destruct (k_initial _ K u (opening_initial _ Hu)) as [Hu0 Hpub]. destruct a as [w| |[] s|]; try done.
    - assert (Hi : at_pc c t initial) by (unfold at_pc; by rewrite Ht). apply (k_initial _ K) in Hi as [Ht0 _].
      unfold at_pc in Hu. assert (u = t) as -> by congruence. by rewrite Ht in Hu.
    - assert (Ho : at_pc c t owning) by (unfold at_pc; by rewrite Ht).
      assert (c_isReconnecting c = true) by (apply (k_flag _ K); eauto). congruence.
    - assert (Hus : at_pc c t by_user) by (unfold at_pc; by rewrite Ht). apply (k_user _ K) in Hus. congruence. }
  assert (Hfr : c_threads c !! c_next c = None).
  { destruct (c_threads c !! c_next c) eqn:He; [|done]. assert (c_next c < c_next c)%nat by (apply (k_next _ K); congruence). lia. }
  eapply (move_ok c _ (c_next c) None _ K); split; [exact Hfr|reflexivity|..]; simpl; move_field.
Qed.

Lemma reconnect_step_ok t e p c c' :
  conn_ok c -> c_threads c !! t = Some p -> reconnect_step t e p c = Next c' -> conn_ok c'.
Proof.
  intros K Ht. destruct p; simpl; try done.
  - destruct (c_isClosing c) eqn:Hcl; intros [= <-]; [eapply (resume_ok t a (RecTest a)); auto|].
    assert (Hm : locked (RecTest a) = true -> c_connMutex c = Some t) by (by apply holds_lock).
    destruct a as [w| |[] s|]; simpl in Hm; move_to.
  - destruct (c_isReconnecting c) eqn:Hf; intros [= <-].
    + eapply resume_ok; [done|done|auto|]. intros w ->. right. eapply (running_replacing t); [done| | |done].
      * unfold working_at. by rewrite Ht.
      * unfold at_pc. by rewrite Ht.
    + pose proof (spawn_owner_ok t a c K Ht Hf) as K'. assert (Hlt : (t < c_next c)%nat) by (apply (k_next _ K); by rewrite Ht).
      eapply (resume_ok t a (RecSwap a)); [done| |auto|].
      * simpl. rewrite lookup_insert_ne by lia. exact Ht.
      * intros _ _. right. exists (c_next c). unfold at_pc. simpl. by rewrite lookup_insert_eq.
  - unfold with_ab. destruct (UpdateCapacity 1 (c_ab c)); [|done]. intros [= <-]. move_to.
  - unfold with_ab. destruct (ResetDelivery (c_ab c)); [|done]. intros [= <-]. move_to.
  - destruct (c_isClosing c); intros [= <-]; move_to.
  - destruct e; [| |done]; [|destruct (c_closeCtx c); [|done]]; intros [= <-]; move_to.
  - intros [= <-]. move_to.
Qed.

(** ** NewClient and Close *)

Lemma new_step_ok t p c c' : conn_ok c -> c_threads c !! t = Some p -> new_step t p c = Next c' -> conn_ok c'.
Proof.
  intros K Ht. destruct p; simpl; try done.
  - unfold with_ab. destruct (Close (c_ab c)); [|done]. intros [= <-]. move_to.
  - intros [= <-]. assert (Hf : c_failed c = true) by (apply (k_failed _ K t); unfold at_pc; by rewrite Ht). move_to.
Qed.

Lemma close_step_ok t p c c' : conn_ok c -> c_threads c !! t = Some p -> close_step t p c = Next c' -> conn_ok c'.
Proof.
  intros K Ht. assert (Hcl : closing p = true -> c_isClosing c = true).
  { intros Hp. apply (k_closing _ K t). unfold at_pc. by rewrite Ht. }
  destruct p; simpl; try done; simpl in Hcl.
  - intros [= <-]. move_to.
  - intros [= <-]. move_to.
  - specialize (Hcl eq_refl). intros [= <-]. move_to.
  - unfold with_ab. destruct (Close (c_ab c)); [|done]. intros [= <-]. move_to.
  - destruct (GetUnAcked (c_ab c)); [|done]. intros [= <-]. move_to.
  - intros [= <-]. move_to.
  - intros [= <-]. move_to.
Qed.

(** ** Workers *)

(** A worker that saw [isStop] may go. *)
Lemma finish_ok t p c :
  conn_ok c -> c_threads c !! t = Some p -> p = ListenLoop \/ p = SendLoop \/ p = KeepWait \/ (exists d, p = SendPause d) ->
  (c_isStop c = true \/ c_closeCtx c = true) -> conn_ok (finishWorker t c).
Proof.
  intros K Ht Hp Hs.
  assert (Hwk : working_at c t <> None /\ leaving p = false) by (unfold working_at; rewrite Ht; by destruct Hp as [->|[->|[->|[d ->]]]]).
  destruct Hwk as [Hwk Hlv]. pose proof (k_conn _ K t Hwk) as Hcn.
  assert (Hg : c_isClosing c = true \/ c_failed c = true \/ replacing (finishWorker t c)).
  { assert (Hc : c_isClosing c = true \/ c_failed c = true \/ replacing c).
    { destruct Hs as [Hs|Hs]; [destruct (k_stop _ K Hs Hcn)|destruct (k_cancel _ K Hs)]; auto. }
    destruct Hc as [?|[?|[u Hu]]]; [auto..|]. right. right. exists u. unfold at_pc in *. simpl. rewrite lookup_delete_ne; [done|].
    intros ->. rewrite Ht in Hu. simpl in Hu. congruence. }
  clear Hs Hcn Hwk Hlv. destruct Hp as [->|[->|[->|[d ->]]]]; move_to.
Qed.

Lemma listener_step_ok t e p c c' : conn_ok c -> c_threads c !! t = Some p -> listener_step t e p c = Next c' -> conn_ok c'.
Proof.
  intros K Ht. destruct p; simpl; try done.
  - destruct w; try done. destruct (c_isStart c) eqn:Hs; [|done]. intros [= <-]. move_to.
  - destruct (c_isStop c) eqn:Hs; intros [= <-]; [eapply finish_ok; [done|exact Ht|auto|auto]|]. move_to.
  - unfold with_conn. destruct (c_conn c) as [s|] eqn:Hc; [|done]. destruct e as [| |m]; [done|intros [= <-]; move_to|].
    case_decide; [|done]. destruct (processControlMessage m c) as [[v c1]|] eqn:Hp; [|done].
    destruct (process_frame _ _ _ _ Hp) as (b & d & ->). destruct v; intros [= <-]; move_to.
Qed.

Lemma sender_step_ok t e p c c' : conn_ok c -> c_threads c !! t = Some p -> sender_step t e p c = Next c' -> conn_ok c'.
Proof.
  intros K Ht. destruct p; simpl; try done.
  - destruct w; try done. destruct (c_isStart c) eqn:Hs; [|done]. intros [= <-]. move_to.
  - destruct (c_isStop c) eqn:Hs; intros [= <-]; [eapply finish_ok; [done|exact Ht|auto|auto]|]. move_to.
  - case_decide; intros [= <-]; move_to.
  - destruct e; [intros [= <-]; move_to| |done]. destruct (c_closeCtx c) eqn:Hs; [|done]. intros [= <-]. eapply finish_ok; [done|exact Ht|eauto|auto].
  - destruct (GetNextToDeliver (c_ab c)) as [[[m|] b]|]; [|intros [= <-]; move_to|done].
    destruct e; [| |done]; intros [= <-]; move_to.
  - unfold with_conn. destruct (c_conn c) as [s|] eqn:Hc; [|done]. destruct e; [| |done]; [case_decide; [|done]|]; intros [= <-]; move_to.
Qed.

Lemma keepalive_step_ok t e p c c' : conn_ok c -> c_threads c !! t = Some p -> keepalive_step t e p c = Next c' -> conn_ok c'.
Proof.
  intros K Ht. destruct p; simpl; try done.
  - destruct w; try done. destruct (c_isStart c) eqn:Hs; [|done]. intros [= <-]. move_to.
  - destruct (c_isStop c) eqn:Hs; intros [= <-]; [eapply finish_ok; [done|exact Ht|auto|auto]|]. move_to.
  - unfold with_conn. destruct (c_conn c) as [s|] eqn:Hc; [|done]. destruct e; [| |done]; [case_decide; [|done]|]; intros [= <-]; move_to.
Qed.

Lemma observe_step_ok t p c c' : conn_ok c -> c_threads c !! t = Some p -> observe_step t p c = Next c' -> conn_ok c'.
Proof.
  intros K Ht. destruct p; simpl; try done; intros [= <-].
  - destruct (observable _ _); move_to.
  - destruct (known_frame _); move_to.
  - case_decide; move_to.
  - move_to.
  - move_to.
Qed.

Lemma thread_step_ok n t e c c' : conn_ok c -> thread_step n t e c = Next c' -> conn_ok c'.
Proof.
  intros K. unfold thread_step. destruct (c_threads c !! t) as [p|] eqn:Ht; [|done].
  pose proof (connect_step_ok n t e p c c' K Ht). pose proof (disconnect_step_ok t p c c' K Ht).
  pose proof (reconnect_step_ok t e p c c' K Ht). pose proof (new_step_ok t p c c' K Ht). pose proof (close_step_ok t p c c' K Ht).
  pose proof (listener_step_ok t e p c c' K Ht). pose proof (sender_step_ok t e p c c' K Ht).
  pose proof (keepalive_step_ok t e p c c' K Ht). pose proof (observe_step_ok t p c c' K Ht).
  destruct p; try destruct w; assumption.
Qed.

(** ** Users *)

Lemma spawn_user_ok p c :
  conn_ok c -> c_public c = true -> p = RecTest ThenReturn \/ p = CloseFlag \/ (exists x, p = ObsOwner x) -> conn_ok (spawn p c).
Proof.
  intros K Hp Hk. assert (Hfr : c_threads c !! c_next c = None).
  { destruct (c_threads c !! c_next c) eqn:He; [|done]. assert (c_next c < c_next c)%nat by (apply (k_next _ K); congruence). lia. }
  destruct Hk as [->|[->|[x ->]]]; eapply (move_ok c _ (c_next c) None _ K); split; [exact Hfr|reflexivity|..]; simpl; move_field.
Qed.

Lemma act_ok n a c c' : conn_ok c -> act n a c = Next c' -> conn_ok c'.
Proof.
  intros K. destruct a; simpl; [by apply thread_step_ok|..]; try (destruct (c_public c) eqn:Hp; [|done]).
  - intros [= <-]. apply spawn_user_ok; auto.
  - intros [= <-]. apply spawn_user_ok; auto.
  - intros [= <-]. apply spawn_user_ok; eauto.
  - destruct (user_op o); [|done]. destruct (run_op _ _ _) as [[[r calls] b]|]; [|done]. intros [= <-]. by destruct K.
  - intros [= <-]. by destruct K.
  - intros [= <-]. by destruct K.
  - intros [= <-]. by destruct K.
  - by apply closer_fires_ok.
  - by apply closer_closes_ok.
Qed.

Lemma newClient_ok (ab : AckBuffer B) : conn_ok (newClient ab).
Proof.
  assert (Hl : forall P t, at_pc (newClient ab) t P -> t = 0%nat /\ P (ConLock Initial) = true).
  { intros P t. unfold at_pc. simpl. destruct (decide (t = 0%nat)) as [->|Hne]; [by rewrite lookup_singleton_eq|].
    by rewrite lookup_singleton_ne. }
  assert (Hw : forall t, working_at (newClient ab) t = None).
  { intros t. unfold working_at. simpl. destruct (decide (t = 0%nat)) as [->|Hne]; [by rewrite lookup_singleton_eq|].
    by rewrite lookup_singleton_ne. }
  split; simpl; try (intros t [-> Hp]%Hl; auto; discriminate); try (intros t; rewrite Hw; done).
  - intros t. destruct (decide (t = 0%nat)) as [->|Hne]; [lia|]. by rewrite lookup_singleton_ne.
  - intros t. split; [intros [-> ?]%Hl; done|done].
  - intros t t' [_ Hp]%Hl. done.
  - split; [done|]. intros [t [-> ?]%Hl]. done.
  - reflexivity.
  - lia.
  - done.
  - intros s Hs. set_solver.
  - intros t s _. right. set_solver.
  - done.
  - done.
  - done.
  - done.
  - done.
  - done.
Qed.

Lemma client_reachable_ok n ab c : reachable n ab c -> conn_ok c.
Proof. induction 1; [apply newClient_ok|by eapply act_ok]. Qed.

End steps.

(** All outcomes of a step. *)
Ltac step_cases H :=
  unfold with_ab, with_conn, resume, stopCloseOnCancel in H;
  repeat (match type of H with context [match ?x with _ => _ end] =>
            lazymatch x with context [match _ with _ => _ end] => fail | _ => destruct x eqn:? end
          end; cbv beta iota in H; try discriminate H);
  try (match goal with Hp : processControlMessage _ _ = Some (_, _) |- _ =>
         apply process_frame in Hp as (? & ? & ->) end);
  injection H as <-.
