(* ===== verification/ClientLaw.v ===== *)
(** * The goroutines and the buffer

    Under the guarantees of the callers ([allowed]) the steps of a client call the
    buffer as AckFleet.v requires: the buffer stays well formed, no step panics,
    and receipts only move forward.  Once the client is closed and its workers
    joined, they do not move at all. *)

From S2P Require Import Prelude ByteBudget Event Protocol SharedBudget AckBuffer AckInv AckRemove AckReceipts AckRetire AckDeliver AckAdmit AckMethods AckFleet AckProps.
From S2P Require Import ClientOptions ClientReceipts Client ClientInv ClientSteps.

Section law.
Context {B : Type} `{HB : LenientLaws B}.
Implicit Types (c : Client B) (b : AckBuffer B).

(** ** A closed buffer that forgot its receipts *)

Definition forgotten b : Prop := ab_receipts b = [] /\ ab_isRunning b = false.

Lemma removed_forgotten k ack ms r b :
  forgotten b -> forgotten (removed k ack ms r b) /\ ab_cells (removed k ack ms r b) = ab_cells b.
Proof.
  intros [Hr Hn]. unfold forgotten. simpl. unfold kept_entries, dropped_cells, gone_entries. rewrite Hr. by destruct ack.
Qed.

Lemma head_forgotten ms b i rq A n b' :
  head_released ms b i rq A n b' -> forgotten b -> forgotten b' /\ ab_cells b' = ab_cells b.
Proof.
  intros [|n' r ring _ _ _ _] Hf; [done|].
  set (b1 := b <| ab_releasedRetired := Some ring |>). assert (Hf1 : forgotten b1) by exact Hf.
  exact (removed_forgotten n' false ms r b1 Hf1).
Qed.

Lemma wake_forgotten b w b' : sampleWake b = (w, b') -> forgotten b -> forgotten b' /\ ab_cells b' = ab_cells b.
Proof. unfold sampleWake. destruct (ab_wake b); by intros [= <- <-]. Qed.

Lemma op_forgotten o i calls A b r calls' b' :
  ok b -> own i calls A b -> op_guard o calls (<[i := acct calls b]> A) b = true ->
  run_op o calls b = Some (r, calls', b') -> forgotten b -> forgotten b' /\ ab_cells b' = ab_cells b.
Proof.
  intros Hok Ho Hg Hrun Hf. pose proof Hf as [Hr Hn].
  destruct (run_op_post o i calls A b r calls' b' Hok Ho Hg Hrun) as [m|?????|????? s c' b' ? _ Hs|????? x ? Hc _|w s|
    seq r b' Hu Ha|r b' Hs Hd|ms1 b1 n b' Hs Hrst Hok1| |cap len av Hne Hpub|Hpub|done r b' Hd|s Hpub|]; try congruence;
    try (split; [split; [first [exact Hr|reflexivity]|first [exact Hn|reflexivity]]|reflexivity]).
  - destruct Ha as [|e|r' n b'' k _ _ _ _ Hhr _ _]; [done..|].
    destruct (removed_forgotten k true (held b) r' b Hf) as [Hf1 <-]. by apply (head_forgotten _ _ _ _ _ _ _ Hhr).
  - destruct Hd as [b' Hfr _ _ Hrc _|p a a' m b' Hfr _ _ _ _ _ _ _ Hrc]; rewrite Hfr; unfold forgotten; simpl; rewrite Hrc, Hr; done.
  - destruct Hrst as [Hrt (b2 & rd & em & Hhr & ->) _ _]. assert (Hf1 : forgotten b1 /\ ab_cells b1 = ab_cells b).
    { split; [split; [rewrite (retires_receipts _ _ _ _ _ Hrt); done|rewrite (rt_frame _ _ _ _ _ Hrt); done]|].
      apply map_eq. intros k. destruct (rt_cells _ _ _ _ _ Hrt k) as [->|(_ & e & He & _)]; [done|].
      change (ab_receipts (reset_start b)) with (ab_receipts b) in He. rewrite Hr in He. set_solver. }
    destruct Hf1 as [Hf1 <-]. by destruct (head_forgotten _ _ _ _ _ _ _ Hhr Hf1).
  - destruct Hd as [| |wake b' _ _ Hw]; [done..|]. by apply wake_forgotten in Hw.
Qed.

(** ** What a step does to the buffer *)

Definition buffer_ok c : Prop := ok (c_ab c) /\ exists i A, own i (c_calls c) A (c_ab c).

(** Every call on the buffer is an operation its guard admits. *)
Inductive effect c : AckBuffer B -> gmap wid Z -> Prop :=
  | no_effect : effect c (c_ab c) (c_calls c)
  | op_effect o i A r b calls :
      own i (c_calls c) A (c_ab c) -> op_guard o (c_calls c) (<[i := acct (c_calls c) (c_ab c)]> A) (c_ab c) = true ->
      run_op o (c_calls c) (c_ab c) = Some (r, calls, b) -> effect c b calls
  | budget_effect s i A :
      sb_present s = sb_present (ab_shared (c_ab c)) -> own i (c_calls c) A ((c_ab c) <| ab_shared := s |>) ->
      effect c ((c_ab c) <| ab_shared := s |>) (c_calls c).

(** A control message with a window that can be allocated; the number is 64 bits by
    its type. *)
Definition answerable (m : ControlMessage) : Prop := is_u64 (cm_SeqNum m) /\ 0 <= WindowSize m <= max_slots.
#[export] Instance answerable_dec m : Decision (answerable m).
Proof. unfold answerable. apply _. Defined.

(** What the peers guarantee: the server sends answerable messages; the users of
    [Ship] admit each message once and not in two places, with receipts of their
    own, and the bytes of all messages together stay below 2^64 (see [op_guard]);
    the other clients leave a budget that still accounts for this one. *)
Definition allowed (a : action B) c : Prop :=
  match a with
  | Run _ (Message m) => answerable m
  | CallBuffer o => exists i A, own i (c_calls c) A (c_ab c) /\
      op_guard o (c_calls c) (<[i := acct (c_calls c) (c_ab c)]> A) (c_ab c) = true
  | Budget s => sb_present s = sb_present (ab_shared (c_ab c)) /\ exists i A, own i (c_calls c) A ((c_ab c) <| ab_shared := s |>)
  | _ => True
  end.

Lemma effect_ok c b calls : buffer_ok c -> effect c b calls -> ok b /\ exists i A, own i calls A b.
Proof.
  intros [Hok Ho] [|o i A r b' calls' Hown Hg Hrun|s i A Hp Hown].
  - done.
  - destruct (run_op_good o i (c_calls c) A (c_ab c) Hok Hown Hg) as (r1 & c1 & b1 & Hr & _ & Hok' & Ho' & _).
    rewrite Hrun in Hr. injection Hr as <- <- <-. eauto.
  - split; [by apply ok_shared|eauto].
Qed.

Lemma effect_cells c b calls k : buffer_ok c -> effect c b calls -> cell_step (ab_cells (c_ab c) !! k) (ab_cells b !! k).
Proof. intros [Hok _] [|o i A r b' calls' Hown Hg Hrun|s i A _ _]; [constructor|by eapply op_cells|constructor]. Qed.

Lemma effect_forgotten c b calls :
  buffer_ok c -> effect c b calls -> forgotten (c_ab c) -> forgotten b /\ ab_cells b = ab_cells (c_ab c).
Proof. intros [Hok _] [|o i A r b' calls' Hown Hg Hrun|s i A _ _] Hf; [done|by eapply op_forgotten|done]. Qed.

(** An operation the buffer always admits returns, with its effect. *)
Lemma op_returns c o :
  buffer_ok c -> (forall A, op_guard o (c_calls c) A (c_ab c) = true) ->
  exists r calls b, run_op o (c_calls c) (c_ab c) = Some (r, calls, b) /\ effect c b calls.
Proof.
  intros [Hok (i & A & Ho)] Hg. destruct (run_op_good o i (c_calls c) A (c_ab c) Hok Ho (Hg _)) as (r & calls & b & Hr & _).
  eexists _, _, _. split; [exact Hr|]. by eapply op_effect; [exact Ho|apply Hg|exact Hr].
Qed.

(** The methods the goroutines call. *)
Lemma flow_returns c n : buffer_ok c -> 0 <= n <= max_slots -> exists b, UpdateCapacity n (c_ab c) = Some b /\ effect c b (c_calls c).
Proof.
  intros Hok Hn. destruct (op_returns c (OpFlow n) Hok) as (r & calls & b & Hr & He); [intros; simpl; by apply bool_decide_eq_true|].
  simpl in Hr. destruct (UpdateCapacity n (c_ab c)); simpl in Hr; [|done]. injection Hr as <- <- <-. eauto.
Qed.

Lemma reset_returns c : buffer_ok c -> exists b, ResetDelivery (c_ab c) = Some b /\ effect c b (c_calls c).
Proof.
  intros Hok. destruct (op_returns c OpReset Hok) as (r & calls & b & Hr & He); [done|].
  simpl in Hr. destruct (ResetDelivery (c_ab c)); simpl in Hr; [|done]. injection Hr as <- <- <-. eauto.
Qed.

Lemma close_returns c : buffer_ok c -> exists b, Close (c_ab c) = Some b /\ effect c b (c_calls c).
Proof.
  intros Hok. destruct (op_returns c OpClose Hok) as (r & calls & b & Hr & He); [done|].
  simpl in Hr. destruct (Close (c_ab c)); simpl in Hr; [|done]. injection Hr as <- <- <-. eauto.
Qed.

Lemma ack_returns c seq : buffer_ok c -> is_u64 seq -> exists r b, Ack seq (c_ab c) = Some (r, b) /\ effect c b (c_calls c).
Proof.
  intros Hok Hs. destruct (op_returns c (OpAck seq) Hok) as (r & calls & b & Hr & He); [intros; simpl; by apply bool_decide_eq_true|].
  simpl in Hr. destruct (Ack seq (c_ab c)) as [[r' b']|]; simpl in Hr; [|done]. injection Hr as <- <- <-. eauto.
Qed.

Lemma deliver_returns c : buffer_ok c -> exists r b, GetNextToDeliver (c_ab c) = Some (r, b) /\ effect c b (c_calls c).
Proof.
  intros Hok. destruct (op_returns c OpDeliver Hok) as (r & calls & b & Hr & He); [done|].
  simpl in Hr. destruct (GetNextToDeliver (c_ab c)) as [[r' b']|]; simpl in Hr; [|done]. injection Hr as <- <- <-. eauto.
Qed.

Lemma forget_effect c : buffer_ok c -> effect c (releaseReceiptTracking (c_ab c)) (c_calls c).
Proof. intros Hok. destruct (op_returns c OpForget Hok) as (r & calls & b & [= <- <- <-] & He); [done|]. exact He. Qed.

Lemma unacked_returns c : buffer_ok c -> GetUnAcked (c_ab c) = Some (Some <$> live (held (c_ab c)) (c_ab c)).
Proof. intros [[[[Hw _ _ Hre _ _] _ _ _] _] _]. by apply GetUnAcked_spec. Qed.

(** A control message: which verbs pass for an answer to the header, and the
    effect of each on the buffer and the back-off. *)
Lemma process_returns m c :
  buffer_ok c -> is_u64 (cm_SeqNum m) -> 0 <= WindowSize m <= max_slots ->
  exists v c', processControlMessage m c = Some (v, c') /\ effect c (c_ab c') (c_calls c').
Proof.
  intros Hok Hs Hw. unfold processControlMessage.
  case_decide; [destruct (ack_returns c (cm_SeqNum m) Hok Hs) as (r & b & -> & He); eexists _, _; by split|].
  case_decide; [eexists _, _; split; [reflexivity|exact (no_effect c)]|].
  case_decide; [eexists _, _; split; [reflexivity|exact (no_effect c)]|].
  case_decide; [eexists _, _; split; [reflexivity|exact (no_effect c)]|].
  case_decide; [eexists _, _; split; [reflexivity|exact (no_effect c)]|].
  case_decide; [destruct (flow_returns c (WindowSize m) Hok Hw) as (b & -> & He); eexists _, _; by split|].
  eexists _, _; split; [reflexivity|exact (no_effect c)].
Qed.

(** The answer a connection attempt has read and not processed. *)
Definition answer (p : pc) : option ControlMessage := match p with ConStop _ _ m | ConAnswer _ _ m => Some m | _ => None end.

Definition answers_ok c : Prop := forall t m, c_threads c !! t ≫= answer = Some m -> answerable m.

(** A result that is no panic and has a lawful effect. *)
Definition fine c (r : result B) : Prop :=
  match r with Blocked => True | Panic => False | Next c' => effect c (c_ab c') (c_calls c') end.

(** ** No step panics *)

Lemma connect_fine n t e p c :
  buffer_ok c -> answers_ok c -> c_threads c !! t = Some p -> fine c (connect_step n t e p c).
Proof.
  intros Hok Ha Ht. destruct p; simpl; try exact I; try exact (no_effect c).
  - by destruct (c_connMutex c); [|exact (no_effect c)].
  - destruct (c_isClosing c); [exact (no_effect c)|]. destruct e; simpl; try exact I; exact (no_effect c).
  - destruct (cancelled o c); [exact (no_effect c)|]. destruct e; simpl; try exact I; [|case_decide]; exact (no_effect c).
  - destruct e; simpl; try exact I; [|destruct (cancelled o c); simpl; [|exact I]]; exact (no_effect c).
  - destruct e; simpl; try exact I; exact (no_effect c).
  - destruct e; simpl; try exact I; exact (no_effect c).
  - unfold stopCloseOnCancel. destruct (c_closers c !! s) as [[]|]; exact (no_effect c).
  - destruct (Ha t m) as [Hs Hw]; [by rewrite Ht|]. destruct (process_returns m c Hok Hs Hw) as (v & c' & -> & He). by destruct v.
  - unfold stopCloseOnCancel. destruct (c_closers c !! s) as [[]|]; exact (no_effect c).
  - destruct (c_isClosing c); exact (no_effect c).
  - destruct o; exact (no_effect c).
  - destruct o, failed; exact (no_effect c).
Qed.

Lemma disconnect_fine t p c : fine c (disconnect_step t p c).
Proof.
  destruct p; simpl; try exact I; try exact (no_effect c).
  - destruct (c_connMutex c); [exact I|exact (no_effect c)].
  - destruct (c_conn c); exact (no_effect c).
  - case_decide; [exact (no_effect c)|exact I].
Qed.

Lemma resume_same t a c : c_ab (resume t a c) = c_ab c /\ c_calls (resume t a c) = c_calls c.
Proof. by destruct a. Qed.

Lemma reconnect_fine t e p c : buffer_ok c -> fine c (reconnect_step t e p c).
Proof.
  intros Hok. destruct p; simpl; try exact I; try exact (no_effect c).
  - destruct (c_isClosing c); simpl; [|exact (no_effect c)]. destruct (resume_same t a c) as [-> ->]. exact (no_effect c).
  - destruct (c_isReconnecting c); simpl.
    + destruct (resume_same t a c) as [-> ->]. exact (no_effect c).
    + destruct (resume_same t a (spawn (DisStop OwnerLeaves) (c <| c_isReconnecting := true |>))) as [-> ->]. exact (no_effect c).
  - unfold with_ab. destruct (flow_returns c 1 Hok) as (b & -> & He); [unfold max_slots; lia|]. exact He.
  - unfold with_ab. destruct (reset_returns c Hok) as (b & -> & He). exact He.
  - destruct e; simpl; try exact I; [|destruct (c_closeCtx c); simpl; [|exact I]]; exact (no_effect c).
Qed.

Lemma new_fine t p c : buffer_ok c -> fine c (new_step t p c).
Proof.
  intros Hok. destruct p; simpl; try exact I; try exact (no_effect c).
  unfold with_ab. destruct (close_returns c Hok) as (b & -> & He). exact He.
Qed.

Lemma close_fine t p c : buffer_ok c -> fine c (close_step t p c).
Proof.
  intros Hok. destruct p; simpl; try exact I; try exact (no_effect c).
  - unfold with_ab. destruct (close_returns c Hok) as (b & -> & He). exact He.
  - rewrite (unacked_returns c Hok). exact (no_effect c).
  - exact (forget_effect c Hok).
Qed.

(** A worker has a connection. *)
Lemma worker_conn t p c k :
  conn_ok c -> c_threads c !! t = Some p -> working p <> None -> (forall s, c_conn c = Some s -> fine c (k s)) ->
  fine c (with_conn c k).
Proof.
  intros K Ht Hw Hk. unfold with_conn. destruct (c_conn c) as [s|] eqn:Hc; [by apply Hk|].
  destruct (k_conn _ K t); [unfold working_at; by rewrite Ht|done].
Qed.

Lemma listener_fine t p c e : buffer_ok c -> conn_ok c -> c_threads c !! t = Some p -> allowed (Run t e) c -> fine c (listener_step t e p c).
Proof.
  intros Hok K Ht Ha. destruct p; simpl; try exact I.
  - destruct w; [|exact I|exact I]. destruct (c_isStart c); [exact (no_effect c)|exact I].
  - destruct (c_isStop c); exact (no_effect c).
  - eapply worker_conn; [done|exact Ht|done|]. intros s _. destruct e as [| |m]; [exact I|exact (no_effect c)|]. case_decide; [|exact I].
    destruct Ha as [Hs Hw]. destruct (process_returns m c Hok Hs Hw) as (v & c' & -> & He). by destruct v.
Qed.

Lemma sender_fine t p c e : buffer_ok c -> conn_ok c -> c_threads c !! t = Some p -> fine c (sender_step t e p c).
Proof.
  intros Hok K Ht. destruct p; simpl; try exact I.
  - destruct w; [exact I| |exact I]. destruct (c_isStart c); [exact (no_effect c)|exact I].
  - destruct (c_isStop c); exact (no_effect c).
  - exact (no_effect c).
  - destruct e; simpl; try exact I; [|destruct (c_closeCtx c); simpl; [|exact I]]; exact (no_effect c).
  - destruct (deliver_returns c Hok) as ([m|] & b & -> & He); [|exact He]. destruct e; simpl; [exact He|exact He|exact I].
  - eapply worker_conn; [done|exact Ht|done|]. intros s _. destruct e; simpl; [case_decide; [|exact I]|..]; try exact I; exact (no_effect c).
Qed.

Lemma keepalive_fine t p c e : conn_ok c -> c_threads c !! t = Some p -> fine c (keepalive_step t e p c).
Proof.
  intros K Ht. destruct p; simpl; try exact I.
  - destruct w; [exact I|exact I|]. destruct (c_isStart c); [exact (no_effect c)|exact I].
  - destruct (c_isStop c); exact (no_effect c).
  - eapply worker_conn; [done|exact Ht|done|]. intros s _. destruct e; simpl; [case_decide; [|exact I]|..]; try exact I; exact (no_effect c).
Qed.
Lemma observe_fine t p c : fine c (observe_step t p c).
Proof. destruct p; simpl; try exact I; exact (no_effect c). Qed.

Lemma closer_fine s c : fine c (closer_fires s c) /\ fine c (closer_closes s c).
Proof.
  unfold closer_fires, closer_closes. destruct (c_closers c !! s) as [[o|]|]; split; try exact I; [|exact (no_effect c)].
  destruct (cancelled o c); [exact (no_effect c)|exact I].
Qed.

Lemma act_fine n a c : buffer_ok c -> conn_ok c -> answers_ok c -> allowed a c -> fine c (act n a c).
Proof.
  intros Hok K Han Ha. destruct a as [t e| | |x|o|new| |s|s|s]; simpl.
  - unfold thread_step. destruct (c_threads c !! t) as [p|] eqn:Ht; [|exact I].
    pose proof (connect_fine n t e p c Hok Han Ht). pose proof (disconnect_fine t p c). pose proof (reconnect_fine t e p c Hok).
    pose proof (new_fine t p c Hok). pose proof (close_fine t p c Hok). pose proof (listener_fine t p c e Hok K Ht Ha).
    pose proof (sender_fine t p c e Hok K Ht). pose proof (keepalive_fine t p c e K Ht). pose proof (observe_fine t p c).
    destruct p; try destruct w; assumption.
  - destruct (c_public c); [exact (no_effect c)|exact I].
  - destruct (c_public c); [exact (no_effect c)|exact I].
  - destruct (c_public c); [exact (no_effect c)|exact I].
  - destruct (c_public c); [|exact I]. destruct (user_op o); [|exact I]. destruct Ha as (i & A & Ho & Hg).
    destruct (run_op_good o i (c_calls c) A (c_ab c) (proj1 Hok) Ho Hg) as (r & calls & b & Hr & _). rewrite Hr.
    by eapply op_effect.
  - destruct (c_public c); [exact (no_effect c)|exact I].
  - exact (no_effect c).
  - destruct Ha as (Hp & i & A & Ho). by eapply budget_effect.
  - apply closer_fine.
  - apply closer_fine.
Qed.

(** ** Lawful runs *)

(** The states of clients whose peers keep to the rules. *)
Inductive lawful (n : nat) : Client B -> Prop :=
  | law_new ab : ok ab -> (exists i A, own i ∅ A ab) -> lawful n (newClient ab)
  | law_act a c c' : lawful n c -> allowed a c -> act n a c = Next c' -> lawful n c'.

(** An answer comes from the read of the attempt. *)
Lemma act_answers n a c c' : answers_ok c -> allowed a c -> act n a c = Next c' -> answers_ok c'.
Proof.
  intros Han Ha Hact u m Hu. assert (Hin : forall q, c_threads c' !! u = Some q -> answer q = Some m -> answerable m).
  2:{ destruct (c_threads c' !! u) as [q|]; [|done]. by eapply Hin. }
  clear Hu. intros q Hq Hm. assert (Hold : c_threads c !! u = Some q -> answerable m) by (intros Hc; apply (Han u); by rewrite Hc).
  destruct a as [t e| | |x|o|new| |s|s|s]; simpl in Hact; try (destruct (c_public c); [|discriminate]);
    try (injection Hact as <-; simpl in Hq; try apply lookup_insert_Some in Hq as [[_ <-]|[_ Hq]]; by auto).
  - unfold thread_step in Hact. destruct (c_threads c !! t) as [p|] eqn:Ht; [|discriminate]. pose proof (Han t) as Hp. rewrite Ht in Hp.
    destruct p; simpl in Hact; try discriminate Hact; step_cases Hact; simpl in Hq;
      repeat first [apply lookup_insert_Some in Hq as [[_ <-]|[_ Hq]]|apply lookup_delete_Some in Hq as [_ Hq]];
      try discriminate Hm; try (by apply Hold); injection Hm as <-; first [exact Ha|by apply Hp].
  - destruct (user_op o); [|discriminate]. destruct (run_op _ _ _) as [[[r calls] b]|]; [|discriminate]. injection Hact as <-. by apply Hold.
  - unfold closer_fires in Hact. destruct (c_closers c !! s) as [[]|]; try discriminate. destruct (cancelled _ _); [|discriminate].
    injection Hact as <-. by apply Hold.
  - unfold closer_closes in Hact. destruct (c_closers c !! s) as [[]|]; try discriminate. injection Hact as <-. by apply Hold.
Qed.

Lemma lawful_answers n c : lawful n c -> answers_ok c.
Proof.
  induction 1 as [ab _ _|a c c' _ IH Ha Hact]; [|by eapply act_answers].
  intros t m. simpl. destruct (decide (t = 0%nat)) as [->|]; [by rewrite lookup_singleton_eq|by rewrite lookup_singleton_ne].
Qed.

Lemma lawful_ok n c : lawful n c -> buffer_ok c /\ conn_ok c.
Proof.
  induction 1 as [ab Hok Ho|a c c' Hl [Hok K] Ha Hact]; [split; [by split|by apply newClient_ok]|].
  pose proof (act_fine n a c Hok K (lawful_answers n c Hl) Ha) as Hf. rewrite Hact in Hf. split; [by apply (effect_ok c)|by eapply act_ok].
Qed.

Lemma lawful_fine n a c : lawful n c -> allowed a c -> fine c (act n a c).
Proof. intros Hl. destruct (lawful_ok n c Hl) as [Hok K]. apply act_fine; [done|done|by eapply lawful_answers]. Qed.

Lemma lawful_effect n a c c' : lawful n c -> allowed a c -> act n a c = Next c' -> effect c (c_ab c') (c_calls c').
Proof.
  intros Hl Ha Hact. pose proof (lawful_fine n a c Hl Ha) as Hf. by rewrite Hact in Hf.
Qed.

End law.
