(* ===== verification/ClientObserve.v ===== *)
(** * What a receipt observation means

    [ObserveReceipt] loads the frame, the lifetime and [isClosing] one after the
    other while acknowledgements arrive and the client closes.  Here: what the
    combination of the loads says about the receipt at the time it returns and
    later. *)

From S2P Require Import Prelude ByteBudget Event Protocol SharedBudget AckBuffer AckInv AckRemove AckReceipts AckRetire AckDeliver AckAdmit AckMethods AckFleet AckProps.
From S2P Require Import ClientOptions ClientReceipts Client ClientInv ClientSteps ClientLaw.

(** The state of receipt [k], and the lifetime of the client. *)
Abbreviation frame c k := (load_frame (ab_cells (c_ab c)) k).
Abbreviation lifetime c := (receiptLifetime (c_receipts c)).

Section observe.
Context {B : Type} `{HB : LenientLaws B}.
Implicit Types (c : Client B) (b : AckBuffer B).

(** ** Stopped buffers stay stopped *)

Lemma head_stopped ms b i rq A n b' : head_released ms b i rq A n b' -> ab_isRunning b' = ab_isRunning b.
Proof. by intros []. Qed.

Lemma op_stopped o i calls A b r calls' b' :
  ok b -> own i calls A b -> op_guard o calls (<[i := acct calls b]> A) b = true ->
  run_op o calls b = Some (r, calls', b') -> ab_isRunning b = false -> ab_isRunning b' = false.
Proof.
  intros Hok Ho Hg Hrun Hn.
  destruct (run_op_post o i calls A b r calls' b' Hok Ho Hg Hrun) as [m|?????|????? s c' b' ? _ Hs|????? x ? Hc _|w s|
    seq r b' Hu Ha|r b' Hs Hd|ms1 b1 n b' Hs Hrst Hok1| |cap len av Hne Hpub|Hpub|done r b' Hd|s Hpub|];
    try congruence; try exact Hn; try reflexivity.
  - destruct Ha as [|e|r' n b'' k _ _ _ _ Hhr _ _]; [done..|]. rewrite (head_stopped _ _ _ _ _ _ _ Hhr). exact Hn.
  - destruct Hd as [b' Hfr _ _ _ _|p a a' m b' Hfr _ _ _ _ _ _ _ _]; rewrite Hfr; exact Hn.
  - destruct Hrst as [Hrt (b2 & rd & em & Hhr & ->) _ _]. change (ab_isRunning b2 = false).
    rewrite (head_stopped _ _ _ _ _ _ _ Hhr), (rt_frame _ _ _ _ _ Hrt). exact Hn.
  - destruct Hd as [| |wake b' _ _ Hw]; [done..|]. unfold sampleWake in Hw. destruct (ab_wake b); by injection Hw as <- <-.
Qed.

Lemma effect_stopped c b calls : buffer_ok c -> effect c b calls -> ab_isRunning (c_ab c) = false -> ab_isRunning b = false.
Proof. intros [Hok _] [|o i A r b' calls' Hown Hg Hrun|s i A _ _] Hn; [done|by eapply op_stopped|done]. Qed.

Lemma Close_stops c b : buffer_ok c -> Close (c_ab c) = Some b -> ab_isRunning b = false.
Proof.
  intros [Hok (i & A & Ho)] Hc. destruct (Close_spec (held (c_ab c)) (c_ab c) i (c_calls c) A Hok Ho) as (s & Hs & _).
  rewrite Hs in Hc. by injection Hc as <-.
Qed.

(** ** What the loads know *)

(** [Close], after the buffer was closed *)
Definition stopping (p : pc) : bool :=
  match p with DisStop CloseLeaves | DisLock CloseLeaves | DisConn CloseLeaves | DisWait CloseLeaves => true | _ => joined p end.

(** [Close], after the receipts were forgotten *)
Definition forgot (p : pc) : bool := match p with CloseDone _ | CloseReturned _ => true | _ => false end.

Definition final (s : ReceiptFrameState) : Prop := s = ReceiptAcknowledged \/ s = ReceiptRetired.

(** What a call of [ObserveReceipt] knows. *)
Definition seen c (p : pc) : Prop :=
  match p with
  | ObsLifetime k s => known_frame s = true /\ (final s -> frame c k = s) /\ known_frame (frame c k) = true
  | ObsReread k l => l = ReceiptClosed /\ lifetime c = ReceiptClosed /\ known_frame (frame c k) = true
  | ObsClosing k s l =>
      known_frame s = true /\ (final s -> frame c k = s) /\ (l = ReceiptClosed -> lifetime c = ReceiptClosed /\ frame c k = s)
  | Observed (Some k) o =>
      (final (Frame o) -> frame c k = Frame o) /\
      (Lifetime o = ReceiptClosed -> lifetime c = ReceiptClosed /\
         frame c k = if decide (Frame o = ReceiptClosedUnconfirmed) then ReceiptRetained else Frame o)
  | _ => True
  end.

Definition observing (p : pc) : bool :=
  match p with ObsLifetime _ _ | ObsReread _ _ | ObsClosing _ _ _ | Observed _ _ => true | _ => false end.

Record seen_ok c : Prop := {
  s_receipts : receipts_ok (c_isClosing c) (c_receipts c);
  s_stopped t : at_pc c t stopping -> ab_isRunning (c_ab c) = false;
  s_forgot t : at_pc c t forgot -> forgotten (c_ab c);
  s_closed : lifetime c = ReceiptClosed -> forgotten (c_ab c);
  s_seen t p : c_threads c !! t = Some p -> seen c p;
}.

(** Receipts only move on, and not at all after [Close]. *)
Definition later c c' : Prop :=
  (forall k, final (frame c k) -> frame c' k = frame c k) /\
  (forall k, known_frame (frame c k) = true -> known_frame (frame c' k) = true) /\
  (lifetime c = ReceiptClosed -> lifetime c' = ReceiptClosed /\ forall k, frame c' k = frame c k).

Lemma seen_later c c' p : seen c p -> later c c' -> seen c' p.
Proof.
  intros Hs (Hf & Hkn & Hl). destruct p; try done; simpl in *.
  - destruct Hs as (Hk & Hs & Hk'). split_and!; [done| |auto]. intros Hfi. rewrite Hf; rewrite (Hs Hfi); done.
  - destruct Hs as (-> & Hc & Hk). destruct (Hl Hc) as [-> ->]. done.
  - destruct Hs as (Hk & Hs & Hc). split_and!; [done|intros Hfi; rewrite Hf; rewrite (Hs Hfi); done|].
    intros Heq. destruct (Hc Heq) as [Hc1 <-]. destruct (Hl Hc1) as [? ->]. done.
  - destruct c0 as [k|]; [|done]. destruct Hs as [Hs Hc]. split; [intros Hfi; rewrite Hf; rewrite (Hs Hfi); done|].
    intros Heq. destruct (Hc Heq) as [Hc1 <-]. destruct (Hl Hc1) as [? ->]. done.
Qed.

Lemma effect_later c c' :
  buffer_ok c -> seen_ok c -> effect c (c_ab c') (c_calls c') -> (lifetime c = ReceiptClosed -> lifetime c' = ReceiptClosed) -> later c c'.
Proof.
  intros Hok Hs He Hl. split_and!.
  - intros k Hfi. pose proof (effect_cells c _ _ k Hok He) as Hc. unfold load_frame in *.
    destruct Hc; simpl in *; try done; destruct Hfi; done.
  - intros k Hk. pose proof (effect_cells c _ _ k Hok He) as Hc. unfold load_frame in *. by destruct Hc.
  - intros Hc. split; [auto|]. intros k. unfold load_frame.
    by destruct (effect_forgotten c _ _ Hok He (s_closed _ Hs Hc)) as [_ ->].
Qed.

(** Where the goroutines are after a step, and what the one that moved knows. *)
Definition traced c c' : Prop :=
  forall u p', c_threads c' !! u = Some p' ->
    c_threads c !! u = Some p' \/
    (seen c' p' /\ (forgot p' = true -> forgotten (c_ab c')) /\
     (stopping p' = true -> at_pc c u stopping \/ ab_isRunning (c_ab c') = false)).

Lemma traced_ok c c' :
  buffer_ok c -> seen_ok c -> effect c (c_ab c') (c_calls c') -> traced c c' ->
  receipts_ok (c_isClosing c') (c_receipts c') -> (lifetime c = ReceiptClosed -> lifetime c' = ReceiptClosed) ->
  (lifetime c' = ReceiptClosed -> lifetime c = ReceiptClosed \/ forgotten (c_ab c')) -> seen_ok c'.
Proof.
  intros Hok Hs He Htr Hr Hl Hl'. assert (Hla : later c c') by (by apply effect_later).
  assert (Hst : forall u, at_pc c u stopping -> ab_isRunning (c_ab c') = false).
  { intros u Hu. apply (effect_stopped c _ _ Hok He), (s_stopped _ Hs u Hu). }
  assert (Hfo : forgotten (c_ab c) -> forgotten (c_ab c')) by (intros Hf; by apply (effect_forgotten c _ _ Hok He)).
  split.
  - exact Hr.
  - intros t Ht. unfold at_pc in Ht. destruct (c_threads c' !! t) as [p|] eqn:Hp; [|done].
    destruct (Htr t p Hp) as [Hc|(_ & _ & Hx)]; [apply (Hst t); unfold at_pc; by rewrite Hc|]. destruct (Hx Ht); eauto.
  - intros t Ht. unfold at_pc in Ht. destruct (c_threads c' !! t) as [p|] eqn:Hp; [|done].
    destruct (Htr t p Hp) as [Hc|(_ & Hx & _)]; [|auto]. apply Hfo, (s_forgot _ Hs t). unfold at_pc. by rewrite Hc.
  - intros Hc. destruct (Hl' Hc) as [Ho|?]; [|done]. apply Hfo, (s_closed _ Hs Ho).
  - intros t p' Hp'. destruct (Htr t p' Hp') as [Hc|[? _]]; [|done]. by eapply seen_later; [apply (s_seen _ Hs t)|].
Qed.

(** ** Every step *)

Lemma traced_goto t p' c1 c :
  c_threads c1 = c_threads c -> seen (goto t p' c1) p' -> (forgot p' = true -> forgotten (c_ab c1)) ->
  (stopping p' = true -> at_pc c t stopping \/ ab_isRunning (c_ab c1) = false) -> traced c (goto t p' c1).
Proof.
  intros Heq Hs Hf Hst u q Hq. simpl in Hq. rewrite Heq in Hq.
  apply lookup_insert_Some in Hq as [[<- <-]|[_ ?]]; auto.
Qed.

Lemma traced_finish t c1 c : c_threads c1 = c_threads c -> traced c (finish t c1).
Proof. intros Heq u q Hq. simpl in Hq. rewrite Heq in Hq. apply lookup_delete_Some in Hq as [_ ?]. auto. Qed.

Lemma traced_spawn p c1 c :
  c_threads c1 = c_threads c -> observing p = false -> stopping p = false -> traced c (spawn p c1).
Proof.
  intros Heq Ho Hs u q Hq. simpl in Hq. rewrite Heq in Hq. apply lookup_insert_Some in Hq as [[_ <-]|[_ ?]]; [right|auto].
  split_and!; [by destruct p|by destruct p|congruence].
Qed.

Lemma traced_trans c c1 c' :
  traced c c1 -> traced c1 c' -> c_ab c' = c_ab c1 -> c_receipts c' = c_receipts c1 -> traced c c'.
Proof.
  intros H1 H2 Hab Hr u q Hq. destruct (H2 u q Hq) as [Hq1|(Hs & Hf & Hst)].
  - destruct (H1 u q Hq1) as [?|(Hs & Hf & Hst)]; [auto|]. right. rewrite Hab. split_and!; [|done|done].
    destruct q; simpl in *; rewrite ?Hab, ?Hr; done.
  - right. split_and!; [done|done|]. intros Hq'. destruct (Hst Hq') as [Hp|?]; [|auto]. unfold at_pc in Hp.
    destruct (c_threads c1 !! u) as [q1|] eqn:Hq1; [|done]. rewrite Hab. destruct (H1 u q1 Hq1) as [Hc|(_ & _ & Hst1)]; [|auto].
    left. unfold at_pc. by rewrite Hc.
Qed.

End observe.

(** A step to a program point without a claim of its own. *)
Ltac trace_goto :=
  match goal with
  | |- traced ?c (goto ?t ?p ?c1) =>
      apply (traced_goto t p c1 c); [reflexivity|simpl; exact I|simpl; discriminate|simpl; try discriminate]
  end.

Section every.
Context {B : Type} `{HB : LenientLaws B}.
Implicit Types (c : Client B) (b : AckBuffer B).

(** Lifetimes and [isClosing] are as before. *)
Definition same_life c c' : Prop := c_isClosing c' = c_isClosing c /\ c_receipts c' = c_receipts c.

Lemma resume_traced t a c : traced c (resume t a c) /\ same_life c (resume t a c).
Proof.
  destruct a as [w| |o s|]; (split; [|split; reflexivity]); simpl.
  - apply traced_finish; reflexivity.
  - trace_goto.
  - trace_goto.
  - apply traced_finish; reflexivity.
Qed.

Lemma connect_traced n t e p c c' : connect_step n t e p c = Next c' -> traced c c' /\ same_life c c'.
Proof.
  destruct p; simpl; try discriminate.
  - destruct (c_connMutex c); [discriminate|]. intros [= <-]. split; [trace_goto|split; reflexivity].
  - destruct (c_isClosing c) eqn:?; [intros [= <-]; split; [trace_goto|split; reflexivity]|].
    destruct e; try discriminate; intros [= <-]; (split; [trace_goto|split; reflexivity]).
  - destruct (cancelled o c); [intros [= <-]; split; [trace_goto|split; reflexivity]|].
    destruct e; try discriminate; [|case_decide]; intros [= <-]; (split; [trace_goto|split; reflexivity]).
  - destruct e; try discriminate; [|destruct (cancelled o c); [|discriminate]]; intros [= <-]; (split; [trace_goto|split; reflexivity]).
  - destruct e; try discriminate; intros [= <-]; (split; [trace_goto|split; reflexivity]).
  - destruct e; try discriminate; intros [= <-]; (split; [trace_goto|split; reflexivity]).
  - unfold stopCloseOnCancel. destruct (c_closers c !! s) as [[]|]; intros [= <-]; (split; [trace_goto|split; reflexivity]).
  - destruct (processControlMessage m c) as [[v c1]|] eqn:Hp; [|discriminate]. destruct (process_frame _ _ _ _ Hp) as (b & d & ->).
    destruct v; intros [= <-]; (split; [trace_goto|split; reflexivity]).
  - unfold stopCloseOnCancel. destruct (c_closers c !! s) as [[]|]; intros [= <-]; (split; [trace_goto|split; reflexivity]).
  - destruct (c_isClosing c); intros [= <-]; (split; [trace_goto|split; reflexivity]).
  - intros [= <-]. split; [trace_goto|split; reflexivity].
  - intros [= <-]. split; [|split; reflexivity].
    intros u q Hq. simpl in Hq. repeat (apply lookup_insert_Some in Hq as [[_ <-]|[_ Hq]]; [by right|]). by left.
  - intros [= <-]. destruct o; (split; [trace_goto|split; reflexivity]).
  - intros [= <-]. split; [trace_goto|split; reflexivity].
  - destruct o, failed; intros [= <-]; (split; [first [trace_goto|apply traced_finish; reflexivity]|split; reflexivity]).
Qed.

Lemma disconnect_traced t p c c' :
  c_threads c !! t = Some p -> disconnect_step t p c = Next c' -> traced c c' /\ same_life c c'.
Proof.
  intros Ht. destruct p; simpl; try discriminate.
  - intros [= <-]. split; [|split; reflexivity]. trace_goto. destruct k; [discriminate|]. intros _. left. unfold at_pc. by rewrite Ht.
  - destruct (c_connMutex c); [discriminate|]. intros [= <-]. split; [|split; reflexivity]. trace_goto. destruct k; [discriminate|].
    intros _. left. unfold at_pc. by rewrite Ht.
  - intros [= <-]. split; [|destruct (c_conn c); split; reflexivity].
    destruct (c_conn c); trace_goto; (destruct k; [discriminate|]; intros _; left; unfold at_pc; by rewrite Ht).
  - case_decide; [|discriminate]. intros [= <-]. split; [|split; reflexivity]. trace_goto. destruct k; [discriminate|].
    intros _. left. unfold at_pc. by rewrite Ht.
  - intros [= <-]. split; [|split; reflexivity]. destruct k; trace_goto. intros _. left. unfold at_pc. by rewrite Ht.
Qed.

Lemma reconnect_traced t e p c c' : reconnect_step t e p c = Next c' -> traced c c' /\ same_life c c'.
Proof.
  destruct p; simpl; try discriminate.
  - destruct (c_isClosing c) eqn:?; intros [= <-]; [apply resume_traced|]. split; [trace_goto|split; reflexivity].
  - destruct (c_isReconnecting c); intros [= <-]; [apply resume_traced|].
    destruct (resume_traced t a (spawn (DisStop OwnerLeaves) (c <| c_isReconnecting := true |>))) as [Htr Hl].
    split; [|exact Hl]. eapply traced_trans; [|exact Htr|by destruct a|by destruct a]. by apply traced_spawn.
  - unfold with_ab. destruct (UpdateCapacity 1 (c_ab c)); [|discriminate]. intros [= <-]. split; [trace_goto|split; reflexivity].
  - unfold with_ab. destruct (ResetDelivery (c_ab c)); [|discriminate]. intros [= <-]. split; [trace_goto|split; reflexivity].
  - destruct (c_isClosing c); intros [= <-]; (split; [trace_goto|split; reflexivity]).
  - destruct e; [| |discriminate]; [|destruct (c_closeCtx c); [|discriminate]]; intros [= <-]; (split; [trace_goto|split; reflexivity]).
  - intros [= <-]. split; [apply traced_finish; reflexivity|split; reflexivity].
Qed.

Lemma new_traced t p c c' : new_step t p c = Next c' -> traced c c' /\ same_life c c'.
Proof.
  destruct p; simpl; try discriminate.
  - unfold with_ab. destruct (Close (c_ab c)); [|discriminate]. intros [= <-]. split; [trace_goto|split; reflexivity].
  - intros [= <-]. split; [apply traced_finish; reflexivity|split; reflexivity].
Qed.

Lemma finish_traced t c : traced c (finishWorker t c) /\ same_life c (finishWorker t c).
Proof. split; [apply traced_finish; reflexivity|split; reflexivity]. Qed.

Lemma listener_traced t e p c c' : listener_step t e p c = Next c' -> traced c c' /\ same_life c c'.
Proof.
  destruct p; simpl; try discriminate.
  - destruct w; try discriminate. destruct (c_isStart c); [|discriminate]. intros [= <-]. split; [trace_goto|split; reflexivity].
  - destruct (c_isStop c); intros [= <-]; [apply finish_traced|]. split; [trace_goto|split; reflexivity].
  - unfold with_conn. destruct (c_conn c) as [s|]; [|discriminate].
    destruct e as [| |m]; [discriminate|intros [= <-]; split; [trace_goto|split; reflexivity]|].
    case_decide; [|discriminate]. destruct (processControlMessage m c) as [[v c1]|] eqn:Hp; [|discriminate].
    destruct (process_frame _ _ _ _ Hp) as (b & d & ->). destruct v; intros [= <-]; (split; [trace_goto|split; reflexivity]).
Qed.

Lemma sender_traced t e p c c' : sender_step t e p c = Next c' -> traced c c' /\ same_life c c'.
Proof.
  destruct p; simpl; try discriminate.
  - destruct w; try discriminate. destruct (c_isStart c); [|discriminate]. intros [= <-]. split; [trace_goto|split; reflexivity].
  - destruct (c_isStop c); intros [= <-]; [apply finish_traced|]. split; [trace_goto|split; reflexivity].
  - case_decide; intros [= <-]; (split; [trace_goto|split; reflexivity]).
  - destruct e; [intros [= <-]; split; [trace_goto|split; reflexivity]| |discriminate].
    destruct (c_closeCtx c); [|discriminate]. intros [= <-]. apply finish_traced.
  - destruct (GetNextToDeliver (c_ab c)) as [[[m|] b]|]; [|intros [= <-]; split; [trace_goto|split; reflexivity]|discriminate].
    destruct e; [| |discriminate]; intros [= <-]; (split; [trace_goto|split; reflexivity]).
  - unfold with_conn. destruct (c_conn c) as [s|]; [|discriminate].
    destruct e; [| |discriminate]; [case_decide; [|discriminate]|]; intros [= <-]; (split; [trace_goto|split; reflexivity]).
Qed.

Lemma keepalive_traced t e p c c' : keepalive_step t e p c = Next c' -> traced c c' /\ same_life c c'.
Proof.
  destruct p; simpl; try discriminate.
  - destruct w; try discriminate. destruct (c_isStart c); [|discriminate]. intros [= <-]. split; [trace_goto|split; reflexivity].
  - destruct (c_isStop c); intros [= <-]; [apply finish_traced|]. split; [trace_goto|split; reflexivity].
  - unfold with_conn. destruct (c_conn c) as [s|]; [|discriminate].
    destruct e; [| |discriminate]; [case_decide; [|discriminate]|]; intros [= <-]; (split; [trace_goto|split; reflexivity]).
Qed.

Lemma closer_traced s c c' : closer_fires s c = Next c' \/ closer_closes s c = Next c' -> traced c c' /\ same_life c c'.
Proof.
  intros [Hs|Hs]; unfold closer_fires, closer_closes in Hs; destruct (c_closers c !! s) as [[]|]; try discriminate;
    try (destruct (cancelled _ _); [|discriminate]); injection Hs as <-; (split; [intros u q Hq; by left|split; reflexivity]).
Qed.

(** The steps that keep the lifetime. *)
Lemma same_life_ok c c' :
  buffer_ok c -> seen_ok c -> effect c (c_ab c') (c_calls c') -> traced c c' /\ same_life c c' -> seen_ok c'.
Proof.
  intros Hok Hs He [Htr [Hcl Hr]]. eapply traced_ok; [exact Hok|exact Hs|exact He|exact Htr|..]; rewrite ?Hcl, ?Hr; [apply Hs|auto|auto].
Qed.

Lemma close_seen t p c c' :
  buffer_ok c -> conn_ok c -> seen_ok c -> c_threads c !! t = Some p -> close_step t p c = Next c' ->
  effect c (c_ab c') (c_calls c') -> seen_ok c'.
Proof.
  intros Hok K Hs Ht Hstep He. assert (Hcl : closing p = true -> c_isClosing c = true).
  { intros Hp. apply (k_closing _ K t). unfold at_pc. by rewrite Ht. }
  assert (Hst : stopping p = true -> ab_isRunning (c_ab c) = false).
  { intros Hp. apply (s_stopped _ Hs t). unfold at_pc. by rewrite Ht. }
  pose proof (s_receipts _ Hs) as Hr. destruct p; simpl in Hstep; try discriminate.
  - injection Hstep as <-. eapply traced_ok; [exact Hok|exact Hs|exact He|trace_goto| |auto|auto]. by eapply receipts_ok_closing.
  - injection Hstep as <-. rewrite (Hcl eq_refl) in Hr. eapply traced_ok; [exact Hok|exact Hs|exact He|trace_goto|..]; simpl.
    + rewrite (Hcl eq_refl). apply setReceiptLifetime_ok; auto.
    + intros ->. done.
    + destruct (receiptLifetime (c_receipts c)); simpl; auto; discriminate.
  - injection Hstep as <-. apply (same_life_ok c); [exact Hok|exact Hs|exact He|split; [trace_goto|split; reflexivity]].
  - unfold with_ab in Hstep. destruct (Close (c_ab c)) as [b|] eqn:Hc; [|discriminate]. injection Hstep as <-.
    apply (same_life_ok c); [exact Hok|exact Hs|exact He|split; [|split; reflexivity]]. trace_goto. intros _. right.
    by apply (Close_stops c).
  - destruct (GetUnAcked (c_ab c)); [|discriminate]. injection Hstep as <-.
    apply (same_life_ok c); [exact Hok|exact Hs|exact He|split; [|split; reflexivity]]. trace_goto. intros _. right. by apply Hst.
  - injection Hstep as <-. apply (same_life_ok c); [exact Hok|exact Hs|exact He|split; [|split; reflexivity]].
    assert (Hf : forgotten (releaseReceiptTracking (c_ab c))) by (split; [reflexivity|by apply Hst]).
    apply traced_goto; [reflexivity|exact I|intros _; exact Hf|intros _; right; by apply Hst].
  - injection Hstep as <-. rewrite (Hcl eq_refl) in Hr.
    assert (Hf : forgotten (c_ab c)) by (apply (s_forgot _ Hs t); unfold at_pc; by rewrite Ht).
    eapply traced_ok; [exact Hok|exact Hs|exact He| |simpl..].
    + apply traced_goto; [reflexivity|exact I|intros _; exact Hf|intros _; right; by apply Hst].
    + rewrite (Hcl eq_refl). apply setReceiptLifetime_ok; auto.
    + intros ->. done.
    + intros _. right. exact Hf.
Qed.

(** The owner shows that the client was closed. *)
Lemma load_closed c : seen_ok c -> load_lifetime (c_receipts c) = ReceiptClosed -> lifetime c = ReceiptClosed.
Proof.
  intros Hs. destruct (s_receipts _ Hs) as (H1 & H2 & H3). unfold load_lifetime.
  destruct (receiptOwner (c_receipts c)) as [[p l]|] eqn:Ho; [|done]. simpl. intros ->.
  destruct (H3 p _ eq_refl) as [Hu Hn]. destruct (receiptLifetime (c_receipts c)) eqn:Hl; [|done..| |done].
  - destruct (Hu eq_refl) as [|[? _]]; done.
  - by rewrite Hn.
Qed.

Lemma observe_seen t p c c' :
  buffer_ok c -> seen_ok c -> c_threads c !! t = Some p -> observe_step t p c = Next c' -> seen_ok c'.
Proof.
  intros Hok Hs Ht Hstep. pose proof (s_seen _ Hs t p Ht) as Hp.
  assert (Hgo : forall q, seen c q -> forgot q = false -> stopping q = false -> seen_ok (goto t q c)).
  { intros q Hq Hf Hst. apply (same_life_ok c); [exact Hok|exact Hs|exact (no_effect c)|split; [|split; reflexivity]].
    apply traced_goto; [reflexivity|by destruct q|congruence|congruence]. }
  destruct p; simpl in Hstep; try discriminate; injection Hstep as <-; apply Hgo.
  - by destruct (observable _ _).
  - by destruct (observable _ _).
  - by destruct (observable _ _).
  - destruct (known_frame _) eqn:Hk; simpl; [by split|]. split; [by intros [|]|done].
  - by destruct (known_frame _).
  - by destruct (known_frame _).
  - destruct Hp as (Hk & Hf & Hk'). case_decide as Hc; simpl.
    + rewrite Hc. split_and!; [done|by apply load_closed|done].
    + split_and!; [done|done|done].
  - by case_decide.
  - by case_decide.
  - destruct Hp as (-> & Hc & Hk). simpl. split_and!; [done|done|done].
  - done.
  - done.
  - destruct Hp as (Hk & Hf & Hc). unfold concluded. simpl. set (l' := if c_isClosing c && _ then ReceiptClosing else l).
    assert (Hl : l' = ReceiptClosed -> l = ReceiptClosed).
    { unfold l'. destruct (c_isClosing c), l; simpl; done. }
    case_decide as Hd; simpl; [split; [by intros [|]|]|split; [done|]].
    + intros Heq. destruct (Hc (Hl Heq)) as [? ->]. split; [done|apply Hd].
    + intros Heq. destruct (Hc (Hl Heq)) as [? ->]. split; [done|]. rewrite decide_False; [done|]. by intros ->.
  - done.
  - done.
Qed.

Lemma bind_seen new c :
  buffer_ok c -> seen_ok c -> seen_ok (c <| c_receipts := (admissionReceiptOwner new (c_isClosing c) (c_receipts c)).2 |>).
Proof.
  intros Hok Hs. assert (Hl : receiptLifetime (admissionReceiptOwner new (c_isClosing c) (c_receipts c)).2 = lifetime c).
  { unfold admissionReceiptOwner. by destruct (receiptOwner (c_receipts c)) as [[]|]. }
  eapply (traced_ok c); [exact Hok|exact Hs|exact (no_effect c)|intros u q Hq; by left|..]; simpl.
  - apply admissionReceiptOwner_ok, Hs.
  - congruence.
  - intros Hc. left. congruence.
Qed.

Lemma act_seen n a c c' :
  buffer_ok c -> conn_ok c -> answers_ok c -> seen_ok c -> allowed a c -> act n a c = Next c' -> seen_ok c'.
Proof.
  intros Hok K Han Hs Ha Hact. pose proof (act_fine n a c Hok K Han Ha) as He. rewrite Hact in He. simpl in He.
  assert (Hsame : traced c c' /\ same_life c c' -> seen_ok c') by (by apply same_life_ok).
  destruct a as [t e| | |x|o|new| |s|s|s]; simpl in Hact.
  - unfold thread_step in Hact. destruct (c_threads c !! t) as [p|] eqn:Ht; [|discriminate].
    pose proof (connect_traced n t e p c c'). pose proof (disconnect_traced t p c c' Ht). pose proof (reconnect_traced t e p c c').
    pose proof (new_traced t p c c'). pose proof (fun h => close_seen t p c c' Hok K Hs Ht h He).
    pose proof (listener_traced t e p c c'). pose proof (sender_traced t e p c c'). pose proof (keepalive_traced t e p c c').
    pose proof (observe_seen t p c c' Hok Hs Ht). destruct p; try destruct w; auto.
  - destruct (c_public c); [|discriminate]. injection Hact as <-. apply Hsame. split; [by apply traced_spawn|split; reflexivity].
  - destruct (c_public c); [|discriminate]. injection Hact as <-. apply Hsame. split; [by apply traced_spawn|split; reflexivity].
  - destruct (c_public c); [|discriminate]. injection Hact as <-. apply Hsame. split; [by apply traced_spawn|split; reflexivity].
  - destruct (c_public c); [|discriminate]. destruct (user_op o); [|discriminate].
    destruct (run_op _ _ _) as [[[r calls] b]|]; [|discriminate]. injection Hact as <-. apply Hsame.
    split; [intros u q Hq; by left|split; reflexivity].
  - destruct (c_public c); [|discriminate]. injection Hact as <-. by apply bind_seen.
  - injection Hact as <-. apply Hsame. split; [intros u q Hq; by left|split; reflexivity].
  - injection Hact as <-. apply Hsame. split; [intros u q Hq; by left|split; reflexivity].
  - apply Hsame, (closer_traced s). auto.
  - apply Hsame, (closer_traced s). auto.
Qed.

Lemma lawful_seen n c : lawful n c -> seen_ok c.
Proof.
  induction 1 as [ab Hok Ho|a c c' Hl IH Ha Hact].
  - assert (Hl : forall t p, c_threads (newClient ab) !! t = Some p -> p = ConLock Initial).
    { intros t p. simpl. by intros [_ <-]%lookup_singleton_Some. }
    split; simpl; [apply newReceipts_ok| | |done|].
    + intros t Ht. unfold at_pc in Ht. destruct (c_threads (newClient ab) !! t) eqn:Hp; [|done]. by rewrite (Hl _ _ Hp) in Ht.
    + intros t Ht. unfold at_pc in Ht. destruct (c_threads (newClient ab) !! t) eqn:Hp; [|done]. by rewrite (Hl _ _ Hp) in Ht.
    + intros t p Hp. by rewrite (Hl t p Hp).
  - destruct (lawful_ok n c Hl) as [Hok K]. pose proof (lawful_answers n c Hl). by eapply act_seen.
Qed.

(** ** Runs *)

(** Lifetimes do not go back. *)
Lemma act_lifetime n a c c' : act n a c = Next c' -> lifetime c = ReceiptClosed -> lifetime c' = ReceiptClosed.
Proof.
  intros Hact Hc. assert (Hsame : traced c c' /\ same_life c c' -> lifetime c' = ReceiptClosed) by (intros [_ [_ ->]]; done).
  destruct a as [t e| | |x|o|new| |s|s|s]; simpl in Hact.
  - unfold thread_step in Hact. destruct (c_threads c !! t) as [p|] eqn:Ht; [|discriminate].
    pose proof (connect_traced n t e p c c'). pose proof (disconnect_traced t p c c' Ht). pose proof (reconnect_traced t e p c c').
    pose proof (new_traced t p c c'). pose proof (listener_traced t e p c c'). pose proof (sender_traced t e p c c').
    pose proof (keepalive_traced t e p c c').
    assert (close_step t p c = Next c' -> lifetime c' = ReceiptClosed).
    { clear -Hc. destruct p; simpl; try discriminate; unfold with_ab; try destruct (Close _); try destruct (GetUnAcked _);
        try discriminate; intros [= <-]; try exact Hc; simpl; by rewrite Hc. }
    assert (observe_step t p c = Next c' -> lifetime c' = ReceiptClosed).
    { clear -Hc. destruct p; simpl; try discriminate; intros [= <-]; exact Hc. }
    destruct p; try destruct w; auto.
  - destruct (c_public c); [|discriminate]. by injection Hact as <-.
  - destruct (c_public c); [|discriminate]. by injection Hact as <-.
  - destruct (c_public c); [|discriminate]. by injection Hact as <-.
  - destruct (c_public c); [|discriminate]. destruct (user_op o); [|discriminate].
    destruct (run_op _ _ _) as [[[r calls] b]|]; [|discriminate]. by injection Hact as <-.
  - destruct (c_public c); [|discriminate]. injection Hact as <-. simpl. unfold admissionReceiptOwner.
    by destruct (receiptOwner (c_receipts c)) as [[]|].
  - by injection Hact as <-.
  - by injection Hact as <-.
  - apply Hsame, (closer_traced s). auto.
  - apply Hsame, (closer_traced s). auto.
Qed.

(** The owner object is made once. *)
Lemma act_owner n a c c' p :
  act n a c = Next c' -> fst <$> receiptOwner (c_receipts c) = Some p -> fst <$> receiptOwner (c_receipts c') = Some p.
Proof.
  intros Hact Hp. assert (Hsame : traced c c' /\ same_life c c' -> fst <$> receiptOwner (c_receipts c') = Some p) by (by intros [_ [_ ->]]).
  destruct a as [t e| | |x|o|new| |s|s|s]; simpl in Hact; try (destruct (c_public c); [|discriminate]); try (by injection Hact as <-).
  - unfold thread_step in Hact. destruct (c_threads c !! t) as [q|] eqn:Ht; [|discriminate].
    pose proof (connect_traced n t e q c c'). pose proof (disconnect_traced t q c c' Ht). pose proof (reconnect_traced t e q c c').
    pose proof (new_traced t q c c'). pose proof (listener_traced t e q c c'). pose proof (sender_traced t e q c c').
    pose proof (keepalive_traced t e q c c').
    assert (close_step t q c = Next c' -> fst <$> receiptOwner (c_receipts c') = Some p).
    { clear -Hp. destruct q; simpl; try discriminate; unfold with_ab; try destruct (Close _); try destruct (GetUnAcked _);
        try discriminate; intros [= <-]; try exact Hp; simpl; by destruct (receiptOwner (c_receipts c)) as [[]|]. }
    assert (observe_step t q c = Next c' -> fst <$> receiptOwner (c_receipts c') = Some p).
    { clear -Hp. destruct q; simpl; try discriminate; intros [= <-]; exact Hp. }
    destruct q; try destruct w; auto.
  - destruct (user_op o); [|discriminate]. destruct (run_op _ _ _) as [[[r calls] b]|]; [|discriminate]. by injection Hact as <-.
  - injection Hact as <-. revert Hp. simpl. unfold admissionReceiptOwner. destruct (receiptOwner (c_receipts c)) as [[]|] eqn:Ho; [|done].
    simpl. by rewrite Ho.
  - apply Hsame, (closer_traced s). auto.
  - apply Hsame, (closer_traced s). auto.
Qed.

(** A client that was given out stays so. *)
Lemma act_public n a c c' : act n a c = Next c' -> c_public c = true -> c_public c' = true.
Proof.
  intros Hact Hp. destruct a as [t e| | |x|o|new| |s|s|s]; simpl in Hact; rewrite ?Hp in Hact; try (by injection Hact as <-).
  - unfold thread_step in Hact. destruct (c_threads c !! t) as [p|] eqn:Ht; [|discriminate].
    destruct p; simpl in Hact; try discriminate Hact; step_cases Hact; simpl; first [exact Hp|reflexivity].
  - destruct (user_op o); [|discriminate]. destruct (run_op _ _ _) as [[[r calls] b]|]; [|discriminate]. by injection Hact as <-.
  - unfold closer_fires in Hact. destruct (c_closers c !! s) as [[]|]; try discriminate. destruct (cancelled _ _); [|discriminate]. by injection Hact as <-.
  - unfold closer_closes in Hact. destruct (c_closers c !! s) as [[]|]; try discriminate. by injection Hact as <-.
Qed.

Definition law_step (n : nat) c c' : Prop := exists a, allowed a c /\ act n a c = Next c'.

Lemma lawful_steps n c c' : lawful n c -> rtc (law_step n) c c' -> lawful n c' /\ later c c'.
Proof.
  intros Hl Hr. induction Hr as [c|c c1 c' (a & Ha & Hact) Hr IH]; [split; [done|split_and!; auto]|].
  destruct (IH (law_act n a c c1 Hl Ha Hact)) as [Hl' (Hf & Hk & Hc)]. split; [done|].
  destruct (lawful_ok n c Hl) as [Hok K]. pose proof (lawful_seen n c Hl) as Hs.
  pose proof (lawful_effect n a c c1 Hl Ha Hact) as He.
  destruct (effect_later c c1 Hok Hs He (act_lifetime n a c c1 Hact)) as (Hf1 & Hk1 & Hc1). split_and!.
  - intros k Hfi. rewrite Hf; rewrite Hf1; done.
  - auto.
  - intros Hcl. destruct (Hc1 Hcl) as [Hcl1 Heq]. destruct (Hc Hcl1) as [? Heq']. split; [done|]. intros k. by rewrite Heq', Heq.
Qed.

Lemma lawful_kept n c c' p :
  rtc (law_step n) c c' -> (c_public c = true -> c_public c' = true) /\
  (fst <$> receiptOwner (c_receipts c) = Some p -> fst <$> receiptOwner (c_receipts c') = Some p).
Proof.
  intros Hr. induction Hr as [c|c c1 c' (a & _ & Hact) _ [IHp IHo]]; [done|].
  split; [intros Hp; by eapply IHp, act_public|intros Ho; by eapply IHo, act_owner].
Qed.

End every.
