(* ===== verification/ClientJoin.v ===== *)
(** * Joining the workers

    While a goroutine waits for the workers with [isStop] set and their socket
    closed, every step of a worker brings it closer to its end.  Once [Close]
    joined them, nothing starts again. *)

From S2P Require Import Prelude ByteBudget Event Protocol SharedBudget AckBuffer AckFleet ClientOptions ClientReceipts Client ClientInv ClientSteps.

Section join.
Context {B : Type} `{SharedBudget B}.
Implicit Types (c : Client B).

(** A closer moves no other goroutine and adds no work. *)
Lemma closer_frame s c c' :
  closer_fires s c = Next c' \/ closer_closes s c = Next c' ->
  c_threads c' = c_threads c /\ c_isStop c' = c_isStop c /\ c_backoffTime c' = c_backoffTime c.
Proof.
  intros [Hs|Hs]; unfold closer_fires, closer_closes in Hs; destruct (c_closers c !! s) as [[]|]; try discriminate;
    try (destruct (cancelled _ _); [|discriminate]); by injection Hs as <-.
Qed.

(** A step moves its own goroutine only. *)
Lemma thread_step_others n t e c c' u :
  conn_ok c -> thread_step n t e c = Next c' -> u <> t -> c_threads c !! u <> None -> c_threads c' !! u = c_threads c !! u.
Proof.
  intros K Hs Hne Hu. pose proof (k_next _ K u Hu) as Hlt. unfold thread_step in Hs.
  destruct (c_threads c !! t) as [p|] eqn:Ht; [|discriminate].
  destruct p; simpl in Hs; try discriminate Hs; step_cases Hs; simpl;
    rewrite ?lookup_insert_ne, ?lookup_delete_ne, ?lookup_insert_ne by (congruence || lia); reflexivity.
Qed.

Lemma act_others n a c c' u :
  conn_ok c -> act n a c = Next c' -> (forall e, a <> Run u e) -> c_threads c !! u <> None -> c_threads c' !! u = c_threads c !! u.
Proof.
  intros K Hs Hne Hu. pose proof (k_next _ K u Hu) as Hlt.
  destruct a as [t e| | |x|o|new| |s|s|s]; simpl in Hs; [|destruct (c_public c); [|discriminate]..| | | |].
  - destruct (decide (u = t)) as [->|]; [by destruct (Hne e)|]. by eapply thread_step_others.
  - injection Hs as <-. simpl. rewrite lookup_insert_ne by lia. reflexivity.
  - injection Hs as <-. simpl. rewrite lookup_insert_ne by lia. reflexivity.
  - injection Hs as <-. simpl. rewrite lookup_insert_ne by lia. reflexivity.
  - destruct (user_op o); [|discriminate]. destruct (run_op _ _ _) as [[[r calls] b]|]; [|discriminate]. by injection Hs as <-.
  - by injection Hs as <-.
  - by injection Hs as <-.
  - by injection Hs as <-.
  - by destruct (closer_frame s c c') as [-> _]; [auto|].
  - by destruct (closer_frame s c c') as [-> _]; [auto|].
Qed.

(** ** After the join *)

Lemma act_joined n a c c' u : conn_ok c -> act n a c = Next c' -> at_pc c u joined -> at_pc c' u joined.
Proof.
  intros K Hs Hu. destruct (c_threads c !! u) as [p|] eqn:Hp; [|unfold at_pc in Hu; by rewrite Hp in Hu].
  unfold at_pc in *. rewrite Hp in Hu. simpl in Hu.
  assert (Hd : (exists e, a = Run u e) \/ forall e, a <> Run u e).
  { destruct a as [t e| | | | | | | | |]; try (right; discriminate). destruct (decide (t = u)) as [->|]; [eauto|right; congruence]. }
  destruct Hd as [[e ->]|Hne].
  - simpl in Hs. unfold thread_step in Hs. rewrite Hp in Hs.
    destruct p; simpl in Hu; try discriminate Hu; simpl in Hs; try discriminate Hs; step_cases Hs; try discriminate Hu; simpl;
      rewrite lookup_insert_eq; reflexivity.
  - rewrite (act_others n a c c' u K Hs Hne), Hp by congruence. exact Hu.
Qed.

(** The steps of a client, whoever makes them. *)
Definition client_step (n : nat) c c' : Prop := exists a, act n a c = Next c'.

Lemma steps_ok n c c' : conn_ok c -> rtc (client_step n) c c' -> conn_ok c'.
Proof. intros K Hr. induction Hr as [c|c c1 c' (a & Ha) Hr IH]; [done|]. by eapply IH, act_ok. Qed.

Lemma steps_joined n c c' u : conn_ok c -> rtc (client_step n) c c' -> at_pc c u joined -> at_pc c' u joined.
Proof.
  intros K Hr. induction Hr as [c|c c1 c' (a & Ha) Hr IH]; [done|]. intros Hu.
  by eapply IH; [eapply act_ok|eapply act_joined].
Qed.

(** After the join a socket is open only for a closer that is about to close it. *)
Lemma joined_open c t s : conn_ok c -> at_pc c t joined -> s ∈ c_open c -> c_closers c !! s = Some Fired.
Proof.
  intros K Ht Hs. destruct (k_joined _ K t Ht) as (Hc & _ & Hn).
  destruct (k_open _ K s Hs) as [?|[[u Hu]|?]]; [congruence| |done]. destruct (Hn u). unfold at_pc.
  destruct (c_threads c !! u) as [p|]; [|done]. simpl in *. clear -Hu. by_pc p.
Qed.

(** A step opens a socket only in a connection attempt. *)
Lemma act_open n a c c' :
  act n a c = Next c' -> (forall t, ~ at_pc c t unstarted) -> c_open c' ⊆ c_open c.
Proof.
  intros Hs Hn. destruct a as [t e| | |x|o|new| |s|s|s]; simpl in Hs; [|destruct (c_public c); [|discriminate]..| | | |];
    try (by injection Hs as <-).
  - unfold thread_step in Hs. destruct (c_threads c !! t) as [p|] eqn:Ht; [|discriminate].
    assert (Hu : unstarted p = false) by (specialize (Hn t); unfold at_pc in Hn; rewrite Ht in Hn; simpl in Hn; by destruct (unstarted p)).
    destruct p; try discriminate Hu; simpl in Hs; try discriminate Hs; step_cases Hs; simpl; set_solver.
  - destruct (user_op o); [|discriminate]. destruct (run_op _ _ _) as [[[r calls] b]|]; [|discriminate]. by injection Hs as <-.
  - unfold closer_fires in Hs. destruct (c_closers c !! s) as [[]|]; try discriminate. destruct (cancelled _ _); [|discriminate]. by injection Hs as <-.
  - unfold closer_closes in Hs. destruct (c_closers c !! s) as [[]|]; try discriminate. injection Hs as <-. simpl. set_solver.
Qed.

Lemma steps_open n c c' t : conn_ok c -> rtc (client_step n) c c' -> at_pc c t joined -> c_open c' ⊆ c_open c.
Proof.
  intros K Hr. induction Hr as [c|c c1 c' (a & Ha) Hr IH]; [done|]. intros Ht. destruct (k_joined _ K t Ht) as (_ & _ & Hn).
  etrans; [apply IH; [by eapply act_ok|by eapply act_joined]|by eapply act_open].
Qed.

(** ** Before the join *)

(** The steps a worker has left once it must stop. *)
Definition steps_left (p : pc) : Z :=
  match p with
  | Waiting _ => 2
  | ListenLoop | SendLoop | KeepWait => 1
  | ListenRead | SendWrite | KeepPing => 3
  | SendNext => 4
  | SendBackoff => 5
  | SendPause _ => 6
  | RecTest (ThenExit _) => 2
  | RecSwap (ThenExit _) => 1
  | RecTest ThenListen => 3
  | RecSwap ThenListen => 2
  | _ => 0
  end.

(** A back-off still to be swapped out costs the sender a pause. *)
Definition work_left c : Z :=
  msum (fun _ p => steps_left p) (c_threads c) + if decide (c_backoffTime c = 0) then 0 else 3.

(** What a change of the goroutines does to the work left. *)
Lemma work_goto c u p p' c1 :
  c_threads c !! u = Some p -> c_threads c1 = c_threads c ->
  work_left (goto u p' c1) = work_left c - steps_left p + steps_left p' +
    ((if decide (c_backoffTime c1 = 0) then 0 else 3) - (if decide (c_backoffTime c = 0) then 0 else 3)).
Proof. intros Hu Heq. unfold work_left. simpl. rewrite Heq, (msum_insert _ _ _ _ _ Hu). lia. Qed.

Lemma work_finish c u p c1 :
  c_threads c !! u = Some p -> c_threads c1 = c_threads c -> c_backoffTime c1 = c_backoffTime c ->
  work_left (finish u c1) = work_left c - steps_left p.
Proof. intros Hu Heq Hb. unfold work_left. simpl. rewrite Heq, (msum_delete _ _ _ _ Hu), Hb. lia. Qed.

Lemma work_spawn c c1 p :
  c_threads c !! c_next c = None -> c_threads c1 = c_threads c -> c_next c1 = c_next c -> c_backoffTime c1 = c_backoffTime c ->
  steps_left p = 0 -> work_left (spawn p c1) = work_left c.
Proof. intros Hn Heq Hnx Hb Hp. unfold work_left. simpl. rewrite Heq, Hnx, msum_insert_new, Hb by done. lia. Qed.

End join.

(** The work left after a step of goroutine [u] at [Hu]. *)
Ltac work_goal := cbn [steps_left working]; simpl; repeat case_decide; (split; [lia|intros; first [lia|done]]).

Ltac work_tac :=
  match goal with
  | Hu : c_threads ?c !! ?u = Some ?p |- context [work_left (goto ?u ?q ?c1)] =>
      rewrite (work_goto c u p q c1 Hu eq_refl); work_goal
  | Hu : c_threads ?c !! ?u = Some ?p |- context [work_left (finish ?u ?c1)] =>
      rewrite (work_finish c u p c1 Hu eq_refl eq_refl); work_goal
  end.

Section wait.
Context {B : Type} `{SharedBudget B}.
Implicit Types (c : Client B).

(** The goroutine [t] waits for the workers, which were told to stop. *)
Definition joining c (t : tid) : Prop := at_pc c t at_wait /\ c_isStop c = true.

Section joining.
Context c (t : tid) (K : conn_ok c) (J : joining c t).

Lemma join_lock u p : c_threads c !! u = Some p -> locked p = true -> u = t.
Proof.
  intros Hu Hl. assert (at_pc c u locked) as H1%(k_lock _ K) by (unfold at_pc; by rewrite Hu).
  destruct J as [Hw%wait_locked _]. apply (k_lock _ K) in Hw. congruence.
Qed.

Lemma join_closed s : c_conn c = Some s -> s ∉ c_open c.
Proof. intros Hc. by apply (k_wait _ K t s); [apply J|]. Qed.

Lemma join_start : c_conn c <> None -> c_isStart c = true.
Proof.
  intros Hc. destruct (k_starting _ K Hc) as [?|[u Hu]]; [done|]. exfalso. unfold at_pc in Hu.
  destruct (c_threads c !! u) as [p|] eqn:Hp; [|done]. simpl in Hu.
  assert (u = t) as -> by (eapply join_lock; [exact Hp|]; clear -Hu; by_pc p). destruct J as [Hw _]. unfold at_pc in Hw.
  rewrite Hp in Hw. simpl in Hw. clear -Hw Hu. by destruct p.
Qed.

(** Steps of others do not hold the workers up; steps of workers bring them on. *)
Lemma join_work n u e p c' :
  c_threads c !! u = Some p -> u <> t -> thread_step n u e c = Next c' ->
  c_isStop c' = true /\ work_left c' <= work_left c /\ (working p <> None -> work_left c' < work_left c).
Proof.
  intros Hu Hne Hs. assert (Hl : locked p = false).
  { destruct (locked p) eqn:Hl; [|done]. by destruct (Hne (join_lock u p Hu Hl)). }
  assert (Hst : working p <> None -> c_isStart c = true).
  { intros Hw. apply join_start, (k_conn _ K u). unfold working_at. by rewrite Hu. }
  pose proof join_closed as Hcl. destruct J as [_ Hstop]. unfold thread_step in Hs. rewrite Hu in Hs.
  assert (Hn : c_threads c !! c_next c = None).
  { destruct (c_threads c !! c_next c) eqn:He; [|done]. assert (c_next c < c_next c)%nat by (apply (k_next _ K); congruence). lia. }
  assert (Hsp : forall q c1, c_threads c1 = c_threads c -> c_next c1 = c_next c -> c_backoffTime c1 = c_backoffTime c ->
    steps_left q = 0 -> work_left (spawn q c1) = work_left c /\ c_threads (spawn q c1) !! u = Some p).
  { intros q c1 H1 H2 H3 Hq. split; [by apply work_spawn|]. simpl. rewrite H1, H2. rewrite lookup_insert_ne by congruence. exact Hu. }
  destruct p; try destruct a; simpl in Hl; try discriminate Hl; simpl in Hs; try discriminate Hs; step_cases Hs;
    try congruence; try (exfalso; eapply Hcl; [first [eassumption|reflexivity]|eassumption]); unfold finishWorker; (split; [simpl; congruence|]);
    try match goal with |- context [spawn ?q ?c1] => destruct (Hsp q c1 eq_refl eq_refl eq_refl eq_refl) as [<- ?]; clear Hu end;
    work_tac.
Qed.


Lemma join_act n a c' :
  act n a c = Next c' -> (forall e, a <> Run t e) ->
  joining c' t /\ work_left c' <= work_left c /\ forall u e, a = Run u e -> working_at c u <> None -> work_left c' < work_left c.
Proof.
  intros Hact Hne. assert (Ht : at_pc c' t at_wait).
  { unfold at_pc. rewrite (act_others n a c c' t K Hact Hne); [apply J|]. destruct J as [Hw _]. unfold at_pc in Hw.
    by destruct (c_threads c !! t). }
  destruct J as [_ Hst]. assert (Hn : c_threads c !! c_next c = None).
  { destruct (c_threads c !! c_next c) eqn:He; [|done]. assert (c_next c < c_next c)%nat by (apply (k_next _ K); congruence). lia. }
  destruct a as [u e| | |x|o|new| |s|s|s]; simpl in Hact; [|destruct (c_public c); [|discriminate]..| | | |].
  - unfold thread_step in Hact. destruct (c_threads c !! u) as [p|] eqn:Hu; [|discriminate].
    assert (Hut : u <> t) by (intros ->; by apply (Hne e)).
    destruct (join_work n u e p c' Hu Hut) as (Hs & Hle & Hlt); [unfold thread_step; by rewrite Hu|].
    split_and!; [done|done|]. intros u' e' [= -> ->] Hw. apply Hlt. unfold working_at in Hw. by rewrite Hu in Hw.
  - injection Hact as <-. split; [done|]. split; [|done]. by rewrite (work_spawn c c).
  - injection Hact as <-. split; [done|]. split; [|done]. by rewrite (work_spawn c c).
  - injection Hact as <-. split; [done|]. split; [|done]. by rewrite (work_spawn c c).
  - destruct (user_op o); [|discriminate]. destruct (run_op _ _ _) as [[[r calls] b]|]; [|discriminate].
    injection Hact as <-. by split.
  - injection Hact as <-. by split.
  - injection Hact as <-. by split.
  - injection Hact as <-. by split.
  - destruct (closer_frame s c c') as (Hth & Hst' & Hb); [auto|]. unfold joining, work_left. rewrite Hst', Hb, Hth. by split.
  - destruct (closer_frame s c c') as (Hth & Hst' & Hb); [auto|]. unfold joining, work_left. rewrite Hst', Hb, Hth. by split.
Qed.

(** A worker is never blocked, and the join ends when there is none. *)
Definition nudge (p : pc) : env := match p with ListenRead | SendWrite | KeepPing => Fault | _ => Fine end.

Lemma join_enabled n u p : c_threads c !! u = Some p -> working p <> None -> thread_step n u (nudge p) c <> Blocked.
Proof.
  intros Hu Hw. assert (Hc : c_conn c <> None) by (apply (k_conn _ K u); unfold working_at; by rewrite Hu).
  pose proof (join_start Hc) as Hs. unfold thread_step. rewrite Hu.
  destruct p; try destruct a; try destruct w; try done; simpl;
    unfold with_conn; rewrite ?Hs; repeat case_match; done.
Qed.

Lemma join_done n e : c_wg c = 0 -> exists c', thread_step n t e c = Next c'.
Proof.
  intros Hz. destruct J as [Hw _]. unfold at_pc in Hw. unfold thread_step. destruct (c_threads c !! t) as [p|]; [|done].
  destruct p; try done. simpl. rewrite decide_True by done. eauto.
Qed.

Lemma join_worker : c_wg c <> 0 -> exists u p, c_threads c !! u = Some p /\ working p <> None.
Proof.
  intros Hz. destruct (decide (map_Forall (fun _ p => working p = None) (c_threads c))) as [Hall|Hn].
  - destruct Hz. rewrite (k_count _ K). unfold workers. apply msum_zero. intros u p Hp. unfold works. simpl.
    by rewrite (Hall u p Hp).
  - apply map_not_Forall in Hn as (u & p & Hp & Hw); [eauto|]. intros ? ?. apply _.
Qed.
End joining.
End wait.
