(* ===== verification/ClientExample.v ===== *)
(** * A concrete client

    A client without a shared budget and runs of it, for the examples: it
    connects, ships a message with a receipt, sends it, receives the
    acknowledgement and is closed. *)

From S2P Require Import Prelude ByteBudget Event Protocol SharedBudget AckBuffer AckInv AckMethods AckFleet ClientOptions ClientReceipts Client ClientInv ClientSteps ClientLaw ClientObserve.

Abbreviation Pointer := (option ByteBudget).

Definition a_options : AckBufferOptions Pointer := MkAckBufferOptions 0 None "".

Definition no_buffer : AckBuffer Pointer :=
  MkAckBuffer [] None ∅ None false false NewEvent [] 0 0 0 0 0 NewEvent NewEvent 0 false 0 None None false 0 0 [] 0 0 0 None ∅ ∅ ∅ 0.

Definition a_new : AckBuffer Pointer := match NewAckBuffer a_options with Some (inr b) => b | _ => no_buffer end.

Lemma a_new_ok : ok a_new /\ exists i A, own i ∅ A a_new.
Proof.
  destruct (NewAckBuffer_spec a_options ∅ 0) as (b & Hb & Hok & Ho & _); [by intros i a|done|exact I|by rewrite map_size_empty|done|].
  unfold a_new. rewrite Hb. split; [by eapply public_ok_held|eauto].
Qed.

(** ** Checked runs *)

(** Enough for [allowed], without a budget. *)
Definition allowedb (a : action Pointer) (c : Client Pointer) : bool :=
  match a with
  | Run _ (Message m) => bool_decide (answerable m)
  | CallBuffer o =>
      match ab_shared (c_ab c), ab_group (c_ab c) with
      | None, None => op_guard o (c_calls c) {[0%nat := acct (c_calls c) (c_ab c)]} (c_ab c)
      | _, _ => false
      end
  | Budget _ => false
  | _ => true
  end.

Fixpoint law_run (n : nat) (l : list (action Pointer)) (c : Client Pointer) : option (Client Pointer) :=
  match l with
  | [] => Some c
  | a :: l => if allowedb a c then match act n a c with Next c => law_run n l c | _ => None end else None
  end.

Lemma allowedb_sound a c : allowedb a c = true -> allowed a c.
Proof.
  destruct a as [t []| | | |o| | | | |]; simpl; try done.
  - by intros Hb%bool_decide_eq_true.
  - destruct (ab_shared (c_ab c)) eqn:Hs, (ab_group (c_ab c)) eqn:Hgr; try done. intros Hg. exists 0%nat, ∅.
    split; [|exact Hg]. intros i a [_ <-]%lookup_singleton_Some. exact Hgr.
Qed.

Lemma law_run_lawful n l c c' : lawful n c -> law_run n l c = Some c' -> lawful n c'.
Proof.
  revert c. induction l as [|a l IH]; intros c Hl; simpl; [by intros [= <-]|].
  destruct (allowedb a c) eqn:Ha; [|done]. destruct (act n a c) as [| |c1] eqn:Hact; [done..|]. intros Hr.
  eapply IH; [|exact Hr]. eapply law_act; [exact Hl|by apply allowedb_sound|exact Hact].
Qed.

Lemma law_run_run n l c c' : law_run n l c = Some c' -> run n l c = Next c'.
Proof.
  revert c. induction l as [|a l IH]; intros c; simpl; [by intros [= <-]|].
  destruct (allowedb a c); [|done]. destruct (act n a c); [done..|]. apply IH.
Qed.

Lemma law_run_steps n l c c' : law_run n l c = Some c' -> rtc (law_step n) c c'.
Proof.
  revert c. induction l as [|a l IH]; intros c; simpl; [intros [= <-]; apply rtc_refl|].
  destruct (allowedb a c) eqn:Ha; [|done]. destruct (act n a c) as [| |c1] eqn:Hact; [done..|]. intros Hr.
  eapply rtc_l; [exists a; split; [by apply allowedb_sound|exact Hact]|by apply IH].
Qed.

Lemma next_inj (c c' : Client Pointer) : Next c = Next c' -> c = c'.
Proof. by intros [= ->]. Qed.

(** ** Runs *)

Definition ready : ControlMessage := MkControlMessage ControlMessageREADY 0 0 0 "".
Definition acked (seq : Z) : ControlMessage := MkControlMessage ControlMessageACK seq 0 0 "".
Definition reconnect : ControlMessage := MkControlMessage ControlMessageRECONNECT 0 0 0 "".

(** [k] steps of a goroutine. *)
Definition steps (k : nat) (t : tid) : list (action Pointer) := replicate k (Run t Fine).

(** [connectBeforeWorkers] of goroutine [t] from the lock to the READY message. *)
Definition dial_up (t : tid) : list (action Pointer) := steps 4 t ++ [Run t (Message ready)] ++ steps 2 t.

(** [NewClient] returns; the workers are goroutines 1, 2 and 3. *)
Definition open_client : list (action Pointer) := dial_up 0 ++ steps 6 0.

Definition a_message : DataMessage := MkDataMessage 0 false "line" None "" [] [] "" 1 "" "" "" "".

(** A message is shipped with receipt 7 and bound to owner 1; the sender writes
    it and the listener reads its acknowledgement. *)
Definition deliver_one : list (action Pointer) :=
  [CallBuffer (OpAlloc a_message); CallBuffer (OpAdd 0 0 None (Some 7%nat) 0); BindOwner 1] ++
  steps 5 2 ++ steps 2 1 ++ [Run 1 (Message (acked 1))].

Definition a_receipt : AdmissionReceipt := MkReceipt (Some 1%nat) (Some 7%nat).

(** [Close] by goroutine [t], until it waits for the lock. *)
Definition close_to_lock (t : tid) : list (action Pointer) := CallClose :: steps 5 t.

Definition closed_run : list (action Pointer) :=
  open_client ++ deliver_one ++ close_to_lock 4 ++ steps 2 4 ++
  (* the workers return *)
  steps 1 1 ++ steps 1 2 ++ steps 2 3 ++
  steps 5 4.

Definition a_state (l : list (action Pointer)) : Client Pointer := default (newClient a_new) (law_run 1 l (newClient a_new)).

Lemma a_state_lawful l : lawful 1 (a_state l).
Proof.
  assert (Hn : lawful 1 (newClient a_new)) by (apply law_new; apply a_new_ok).
  unfold a_state. destruct (law_run 1 l (newClient a_new)) as [c|] eqn:Hr; [|done]. by eapply law_run_lawful.
Qed.

Lemma a_state_reachable l : reachable 1 a_new (a_state l).
Proof.
  unfold a_state. destruct (law_run 1 l (newClient a_new)) as [c|] eqn:Hr; [|apply reach_new].
  eapply run_reachable; [apply reach_new|]. by eapply law_run_run.
Qed.
