(* ===== verification/ClientProps.v ===== *)
(** * Properties of the client's goroutines

    One connection at a time, no reconnect request lost, an end to [Close], no
    panic, and what receipts tell, in every interleaving; the client of
    ClientExample.v is the example. *)

From S2P Require Import Prelude ByteBudget Event Protocol SharedBudget AckBuffer AckInv AckMethods AckFleet.
From S2P Require Import ClientOptions ClientReceipts Client ClientInv ClientSteps ClientLaw ClientObserve ClientJoin ClientExample.

Section props.
Context {B : Type} `{HB : LenientLaws B}.
Implicit Types (c : Client B).

(** ** Connection *)

(** C13. In every interleaving, [connMutex] has one holder; [isReconnecting] is set
    exactly while one goroutine has to reconnect, and only one has; there is at
    most one listener, one sender and one keepalive, the wait group counts them,
    and they have a connection to work on: [c.conn] is never nil under them. *)
Theorem single_connection n ab c :
  reachable n ab c ->
  (forall t, at_pc c t locked <-> c_connMutex c = Some t) /\
  (c_isReconnecting c = true <-> exists t, at_pc c t owning) /\
  (forall t t', at_pc c t owning -> at_pc c t' owning -> t = t') /\
  (forall t t' w, working_at c t = Some w -> working_at c t' = Some w -> t = t') /\
  c_wg c = workers c /\ c_wg c <= 3 /\
  (forall t, working_at c t <> None -> c_conn c <> None).
Proof.
  intros Hr. pose proof (client_reachable_ok n ab c Hr) as K.
  exact (conj (k_lock _ K) (conj (k_flag _ K) (conj (k_owner _ K) (conj (k_unique _ K)
    (conj (k_count _ K) (conj (k_three _ K) (k_conn _ K))))))).
Qed.

(** C12. No request to reconnect is lost: once a worker of a connection returned,
    a goroutine that will join the others and connect again is on its way,
    unless the client is closing or was never given out. *)
Theorem no_lost_reconnect n ab c :
  reachable n ab c -> c_conn c <> None -> workers c < 3 -> c_isClosing c = false -> c_failed c = false ->
  exists t, at_pc c t leaving.
Proof.
  intros Hr Hc Hw Hcl Hf. pose proof (client_reachable_ok n ab c Hr) as K. rewrite <-(k_count _ K) in Hw.
  destruct (k_gone _ K Hc Hw) as [?|[?|?]]; congruence || assumption.
Qed.

(** C14. After [Close] joined the workers nothing of the client comes back, whatever
    still runs or is called: no worker, no connection, and no socket is opened any
    more.  A socket that is still open belongs to a connection attempt whose
    context was cancelled while it waited for the answer: the goroutine that
    closes it was started, is left to run on its own, and can always do so. *)
Theorem closed_stays_closed n ab c c' t :
  reachable n ab c -> at_pc c t joined -> rtc (client_step n) c c' ->
  workers c' = 0 /\ c_conn c' = None /\ c_isClosing c' = true /\ c_open c' ⊆ c_open c /\
  forall s, s ∈ c_open c' -> c_closers c' !! s = Some Fired /\
    exists c'', act n (CloserCloses s) c' = Next c'' /\ c_open c'' = c_open c' ∖ {[s]}.
Proof.
  intros Hr Hj Hs. pose proof (client_reachable_ok n ab c Hr) as K0. pose proof (steps_ok n c c' K0 Hs) as K.
  pose proof (steps_joined n c c' t K0 Hs Hj) as Hj'. destruct (k_joined _ K t Hj') as (Hc & Hz & _). rewrite <-(k_count _ K).
  split; [done|]. split; [done|]. split; [|split; [by eapply steps_open|]].
  - apply (k_closing _ K t). unfold at_pc in *. destruct (c_threads c' !! t) as [p|]; [|done]. simpl in *. clear -Hj'. by_pc p.
  - intros s Hin. pose proof (joined_open c' t s K Hj' Hin) as Hf. split; [done|]. eexists. simpl. unfold closer_closes. rewrite Hf. done.
Qed.

(** C17. A join ends.  While a goroutine waits for the workers with [isStop] set,
    a worker that is left has a step to take; its steps use up the work left,
    and no step of anyone else adds to it; when no worker is left the waiting
    goroutine goes on. *)
Theorem join_ends n c t :
  lawful n c -> at_pc c t at_wait -> c_isStop c = true ->
  (workers c <> 0 -> exists u e c', working_at c u <> None /\ act n (Run u e) c = Next c') /\
  (workers c = 0 -> exists c', act n (Run t Fine) c = Next c') /\
  (forall a c', act n a c = Next c' -> (forall e, a <> Run t e) ->
     at_pc c' t at_wait /\ c_isStop c' = true /\ 0 <= work_left c' <= work_left c /\
     (forall u e, a = Run u e -> working_at c u <> None -> work_left c' < work_left c)).
Proof.
  intros Hl Hw Hs. destruct (lawful_ok n c Hl) as [Hok K]. assert (J : joining c t) by done.
  rewrite <-(k_count _ K). split_and!.
  - intros Hz. destruct (join_worker c K Hz) as (u & p & Hp & Hwk). exists u, (nudge p).
    pose proof (join_enabled c t K J n u p Hp Hwk) as Hen.
    assert (Hal : allowed (Run u (nudge p)) c) by (simpl; by destruct p).
    pose proof (lawful_fine n (Run u (nudge p)) c Hl Hal) as Hf. simpl in *.
    destruct (thread_step n u (nudge p) c) as [| |c']; [done|done|]. exists c'. split; [|done]. unfold working_at. by rewrite Hp.
  - intros Hz. by apply join_done.
  - intros a c' Hact Hne. destruct (join_act c t K J n a c' Hact Hne) as ([Hw' Hs'] & Hle & Hlt). split_and!; try done.
    unfold work_left. pose proof (msum_nonneg (fun (_ : tid) p => steps_left p) (c_threads c')) as Hm.
    assert (0 <= msum (fun (_ : tid) p => steps_left p) (c_threads c')); [|case_decide; lia].
    apply Hm. intros u p _. destruct p; try destruct a0; simpl; lia.
Qed.

(** ** Buffer *)

(** C16. No goroutine panics, and every call one makes on the buffer is an operation
    its guard admits, which leaves the buffer well formed and its bytes accounted
    for by the shared budget.  This holds as long as the server never asks for a
    window too large to allocate, the users ship each message and each receipt
    cell once and keep the bytes of all messages below 2^64, and the other
    clients leave a budget that accounts for this one. *)
Theorem transport_safe n a c :
  lawful n c -> allowed a c ->
  act n a c <> Panic /\
  (forall c', act n a c = Next c' ->
     effect c (c_ab c') (c_calls c') /\ ok (c_ab c') /\ exists i A, own i (c_calls c') A (c_ab c')).
Proof.
  intros Hl Ha. destruct (lawful_ok n c Hl) as [Hok K]. pose proof (lawful_fine n a c Hl Ha) as Hf. split.
  - intros Hp. by rewrite Hp in Hf.
  - intros c' Hact. rewrite Hact in Hf. split; [done|]. by apply (effect_ok c).
Qed.

(** ** The handshake *)

Definition accepted_verbs : list string := [ControlMessageREADY; ControlMessageACK; ControlMessageBACKOFF; ControlMessageFLOW].

Lemma process_verdict m c v c' :
  processControlMessage m c = Some (v, c') ->
  (v = Accepted <-> Verb m ∈ accepted_verbs) /\ (v = WantsReconnect <-> Verb m = ControlMessageRECONNECT).
Proof.
  unfold processControlMessage, accepted_verbs. intros Hp. rewrite !elem_of_cons, elem_of_nil. generalize dependent (Verb m). intros verb Hp.
  repeat case_decide; subst; try (destruct (Ack _ _) as [[r b]|]; simpl in Hp; [|done]);
    try (destruct (UpdateCapacity _ _) as [b|]; simpl in Hp; [|done]); injection Hp as <- <-;
    (split; split; [naive_solver..|]); intros; try discriminate; naive_solver.
Qed.

(** A client that is not closing goes from an accepted answer to its workers. *)
Lemma attempt_starts n t o s c :
  (t < c_next c)%nat -> c_threads c !! t = Some (ConCheckAgain o s) -> c_isClosing c = false ->
  exists c', run n (replicate 5 (Run t Fine)) c = Next c' /\ c_threads c' !! t = Some (ConUnlock o false) /\
    c_conn c' = Some s /\ c_wg c' = 3 + c_wg c /\ c_isStart c' = true /\ c_isStop c' = false /\ c_open c' = c_open c /\
    (o = Owner -> c_isReconnecting c' = false).
Proof.
  intros Hlt Ht Hcl.
  set (c1 := goto t (ConClearStop o s) c). set (c2 := goto t (ConWorkers o s) (c1 <| c_isStop := false |>)). set (c3 := started t o s c2).
  set (c4 := goto t (ConStart o) (match o with Initial => c3 | Owner => c3 <| c_isReconnecting := false |> end)).
  exists (goto t (ConUnlock o false) (c4 <| c_isStart := true |>)).
  assert (H1 : act n (Run t Fine) c = Next c1) by (simpl; unfold thread_step; rewrite Ht; simpl; by rewrite Hcl).
  assert (T1 : c_threads c1 !! t = Some (ConClearStop o s)) by apply lookup_insert_eq.
  assert (H2 : act n (Run t Fine) c1 = Next c2) by (simpl act; unfold thread_step; by rewrite T1).
  assert (T2 : c_threads c2 !! t = Some (ConWorkers o s)) by apply lookup_insert_eq.
  assert (H3 : act n (Run t Fine) c2 = Next c3) by (simpl act; unfold thread_step; by rewrite T2).
  assert (T3 : c_threads c3 !! t = Some (ConHandBack o)) by apply lookup_insert_eq.
  assert (H4 : act n (Run t Fine) c3 = Next c4) by (simpl act; unfold thread_step; by rewrite T3).
  assert (T4 : c_threads c4 !! t = Some (ConStart o)) by apply lookup_insert_eq.
  split_and!.
  - cbn [replicate run]. rewrite H1, H2, H3, H4. simpl act. unfold thread_step. by rewrite T4.
  - apply lookup_insert_eq.
  - by destruct o.
  - by destruct o.
  - done.
  - by destruct o.
  - by destruct o.
  - by intros ->.
Qed.

(** C19. The answer to the connection header decides the attempt, and by then no
    cancelled context can close its socket any more.  READY, but also ACK, BACKOFF
    and FLOW, let it go on: unless the client is closing, the attempt then starts
    the workers on this socket.  RECONNECT asks for another connection and makes
    the attempt fail; after any other verb it fails with its socket closed. *)
Theorem handshake n c t o s m :
  lawful n c -> c_threads c !! t = Some (ConAnswer o s m) ->
  c_closers c !! s = None /\ c_conn c = None /\
  exists c', (forall e, act n (Run t e) c = Next c') /\
    (Verb m ∈ accepted_verbs -> c_isClosing c = false ->
       exists c'', run n (replicate 5 (Run t Fine)) c' = Next c'' /\ c_threads c'' !! t = Some (ConUnlock o false) /\
         c_conn c'' = Some s /\ c_wg c'' = 3 /\ c_isStart c'' = true /\ c_isStop c'' = false /\ c_open c'' = c_open c /\
         (o = Owner -> c_isReconnecting c'' = false)) /\
    (Verb m = ControlMessageRECONNECT -> c_threads c' !! t = Some (RecTest (ThenFail o s))) /\
    (Verb m ∉ accepted_verbs -> Verb m <> ControlMessageRECONNECT ->
       c_threads c' !! t = Some (ConUnlock o true) /\ s ∉ c_open c').
Proof.
  intros Hl Ht. destruct (lawful_ok n c Hl) as [Hok K]. destruct (k_quiet _ K t) as [Hcn Hwg]; [unfold at_pc; rewrite Ht; by destruct o|].
  split; [apply (k_settled _ K t); by rewrite Ht|]. split; [done|].
  destruct (lawful_answers n c Hl t m) as [Hs Hw]; [by rewrite Ht|].
  destruct (process_returns m c Hok Hs Hw) as (v & c1 & Hp & _). destruct (process_verdict m c v c1 Hp) as [Hacc Hrec].
  destruct (process_frame m c v c1 Hp) as (b & d & ->). assert (Hlt : (t < c_next c)%nat) by (apply (k_next _ K); by rewrite Ht).
  set (c1 := c <| c_ab := b |> <| c_backoffTime := d |>) in *. simpl act. unfold thread_step. rewrite Ht. simpl connect_step. rewrite Hp.
  destruct v; (eexists; split; [done|]); split_and!.
  - intros _ Hcl. destruct (attempt_starts n t o s (goto t (ConCheckAgain o s) c1) Hlt (lookup_insert_eq _ _ _) Hcl)
      as (c2 & Hr & Hu & H1 & H2 & H3 & H4 & H5 & H6). exists c2. split_and!; try done. rewrite H2. simpl. lia.
  - intros Hv. by apply Hrec in Hv.
  - intros Hn. by destruct Hn; apply Hacc.
  - intros Hv. by apply Hacc in Hv.
  - intros Hv. by apply Hrec in Hv.
  - intros _ _. split; [apply lookup_insert_eq|]. simpl. set_solver.
  - intros Hv. by apply Hacc in Hv.
  - intros _. apply lookup_insert_eq.
  - intros _ Hn. by destruct Hn; apply Hrec.
Qed.

(** ** Receipts *)

(** C15. What [ObserveReceipt] returned stays true, although its loads interleave
    with acknowledgements and [Close]: acknowledged and retired are final, and an
    observation of a closed client tells the final state, unconfirmed when the
    receipt is and stays retained. *)
Theorem observation_final n c c' t k o :
  lawful n c -> c_threads c !! t = Some (Observed (Some k) o) -> rtc (law_step n) c c' ->
  (Frame o = ReceiptAcknowledged \/ Frame o = ReceiptRetired -> frame c' k = Frame o) /\
  (Lifetime o = ReceiptClosed -> frame c' k = frame c k /\
     frame c k = if decide (Frame o = ReceiptClosedUnconfirmed) then ReceiptRetained else Frame o).
Proof.
  intros Hl Ht Hr. destruct (lawful_steps n c c' Hl Hr) as [_ (Hf & _ & Hc)].
  pose proof (s_seen _ (lawful_seen n c Hl) t _ Ht) as [Hs1 Hs2]. split.
  - intros Hfi. rewrite Hf; rewrite (Hs1 Hfi); done.
  - intros Hcl. destruct (Hs2 Hcl) as [Hlt Heq]. destruct (Hc Hlt) as [_ ->]. done.
Qed.

(** C18. A live confirmation is one: when [ObserveReceipt] returns acknowledged and
    live, the acknowledgement arrived and [Close] has not begun. *)
Theorem live_confirmation n c c' t e k o :
  lawful n c -> act n (Run t e) c = Next c' -> c_threads c' !! t = Some (Observed (Some k) o) ->
  Frame o = ReceiptAcknowledged -> Lifetime o = ReceiptLive ->
  c_isClosing c = false /\ frame c k = ReceiptAcknowledged.
Proof.
  intros Hl Hact Ht Hf Hlv. pose proof (lawful_seen n c Hl) as Hs. simpl in Hact. unfold thread_step in Hact.
  destruct (c_threads c !! t) as [p|] eqn:Hp; [|discriminate]. pose proof (s_seen _ Hs t p Hp) as Hseen.
  destruct p; simpl in Hact; try discriminate Hact; step_cases Hact; simpl in Ht;
    try (rewrite lookup_delete_eq in Ht; discriminate); rewrite ?lookup_insert_eq in Ht; try discriminate Ht;
    injection Ht as <- <-; try discriminate Hlv.
  destruct Hseen as (_ & Hfin & _). destruct (concluded_live _ _ _ Hlv) as (Hcl & _ & Hfr). split; [done|].
  rewrite Hfr in Hf. rewrite Hfin; [done|by left].
Qed.

End props.

(** ** Examples *)

(** The client of ClientExample.v: connected, with all three workers. *)
Lemma single_connection_witness :
  working_at (a_state open_client) 1 = Some Listener /\ c_wg (a_state open_client) = workers (a_state open_client).
Proof.
  split; [vm_compute; reflexivity|].
  exact (proj1 (proj2 (proj2 (proj2 (proj2 (single_connection 1 a_new _ (a_state_reachable open_client))))))).
Defined.

(** The listener failed and returned: goroutine 4 will reconnect. *)
Definition failed_listener : list (action Pointer) := open_client ++ steps 2 1 ++ [Run 1 Fault] ++ steps 2 1.

Lemma no_lost_reconnect_witness :
  c_threads (a_state failed_listener) !! 1%nat = None /\ exists t, at_pc (a_state failed_listener) t leaving.
Proof.
  split; [vm_compute; reflexivity|].
  apply (no_lost_reconnect 1 a_new _ (a_state_reachable failed_listener)); vm_compute; congruence.
Defined.

(** A reconnecting goroutine (4) waits for the answer on socket 1 when [Close] (5)
    cancels its context; the closer starts, the answer is read all the same, and
    the goroutine gives up before the socket is closed.  [Close] joins. *)
Definition unclosed_socket : list (action Pointer) :=
  open_client ++ steps 2 1 ++ [Run 1 Fault] ++ steps 2 1 ++ steps 1 4 ++ steps 2 2 ++ steps 2 3 ++ steps 10 4 ++
  close_to_lock 5 ++ [CloserFires 1; Run 4 (Message ready)] ++ steps 4 4 ++ steps 3 5.

Lemma closed_stays_closed_witness :
  let c := a_state unclosed_socket in
  c_open c = {[1%nat]} /\ exists c'', act 1 (CloserCloses 1) c = Next c'' /\ c_open c'' = ∅.
Proof.
  intros c. assert (Ho : c_open c = {[1%nat]}) by (vm_compute; reflexivity). split; [exact Ho|].
  destruct (closed_stays_closed 1 a_new c c 5 (a_state_reachable unclosed_socket)) as (_ & _ & _ & _ & Hopen);
    [vm_compute; reflexivity|apply rtc_refl|].
  destruct (Hopen 1%nat) as (_ & c2 & Hact & Hc2); [rewrite Ho; set_solver|]. exists c2. split; [exact Hact|].
  rewrite Hc2, Ho. set_solver.
Defined.

(** [Close] waits for three workers. *)
Definition waiting_close : list (action Pointer) := open_client ++ close_to_lock 4 ++ steps 2 4.

Lemma join_ends_witness :
  c_wg (a_state waiting_close) = 3 /\
  exists u e c', working_at (a_state waiting_close) u <> None /\ act 1 (Run u e) (a_state waiting_close) = Next c'.
Proof.
  split; [vm_compute; reflexivity|].
  refine (proj1 (join_ends 1 (a_state waiting_close) 4 (a_state_lawful waiting_close) _ _) _); vm_compute; congruence.
Defined.

(** The acknowledgement of the one message. *)
Lemma transport_safe_witness :
  let c := a_state (open_client ++ take 10 deliver_one) in act 1 (Run 1 (Message (acked 1))) c <> Panic.
Proof.
  intros c. refine (proj1 (transport_safe 1 (Run 1 (Message (acked 1))) c (a_state_lawful _) _)).
  split; [by vm_compute|]. unfold max_slots. simpl. lia.
Defined.

(** The first answer was read and its closer stopped. *)
Definition answered : list (action Pointer) := steps 4 0 ++ [Run 0 (Message ready)] ++ steps 1 0.

Lemma handshake_witness :
  c_closers (a_state answered) !! 0%nat = None /\
  exists c' c'', act 1 (Run 0 Fine) (a_state answered) = Next c' /\ run 1 (steps 5 0) c' = Next c'' /\ c_wg c'' = 3.
Proof.
  assert (Ht : c_threads (a_state answered) !! 0%nat = Some (ConAnswer Initial 0 ready)) by (vm_compute; reflexivity).
  destruct (handshake 1 (a_state answered) 0 Initial 0 ready (a_state_lawful answered) Ht) as (Hc & _ & c' & Hact & Hgo & _).
  split; [exact Hc|]. destruct Hgo as (c2 & Hr & _ & _ & Hw & _); [by left|vm_compute; reflexivity|].
  exists c', c2. split; [apply Hact|]. split; [exact Hr|exact Hw].
Defined.

(** The message was acknowledged, observed, and the client closed. *)
Definition observed_run : list (action Pointer) := open_client ++ deliver_one ++ CallObserve a_receipt :: steps 4 4.

Lemma observation_final_witness :
  let c := a_state observed_run in
  c_threads c !! 4%nat = Some (Observed (Some 7%nat) (MkObservation ReceiptAcknowledged ReceiptLive)) /\
  frame c 7 = ReceiptAcknowledged.
Proof.
  intros c. assert (Ht : c_threads c !! 4%nat = Some (Observed (Some 7%nat) (MkObservation ReceiptAcknowledged ReceiptLive))).
  { vm_compute. reflexivity. }
  split; [exact Ht|]. refine (proj1 (observation_final 1 c c 4 7 _ (a_state_lawful observed_run) Ht (rtc_refl _ _)) _). by left.
Defined.

Lemma live_confirmation_witness :
  let c := a_state (open_client ++ deliver_one ++ CallObserve a_receipt :: steps 3 4) in
  c_isClosing c = false /\ frame c 7 = ReceiptAcknowledged.
Proof.
  intros c. set (o := MkObservation ReceiptAcknowledged ReceiptLive).
  assert (Hact : act 1 (Run 4 Fine) c = Next (goto 4 (Observed (Some 7%nat) o) c)) by (vm_compute; reflexivity).
  exact (live_confirmation 1 c _ 4 Fine 7 o (a_state_lawful _) Hact (lookup_insert_eq _ _ _) eq_refl eq_refl).
Defined.
