(* ===== verification/ClientFindings.v ===== *)
(** * Two races of the client

    Runs of the goroutines that end where the comments of the code say they
    cannot: a [Close] that waits for ever, and a client left behind by a
    [NewClient] that failed. *)

From S2P Require Import Prelude ByteBudget Event Protocol SharedBudget AckBuffer AckFleet.
From S2P Require Import ClientOptions ClientReceipts Client ClientInv ClientSteps ClientLaw ClientJoin ClientExample.

(** ** Close between the check and the clear *)

(** A reconnecting goroutine (4) tests [isClosing] for the second time; [Close] (5)
    sets it and [isStop] and waits for the mutex; the goroutine clears [isStop]
    and starts the workers 6 to 8.  [Close] closes the socket and waits; the
    listener and the keepalive fail and return, the sender has nothing to send. *)
Definition racing_close : list (action Pointer) :=
  open_client ++ steps 2 1 ++ [Run 1 Fault] ++ steps 2 1 ++
  steps 1 4 ++ steps 2 2 ++ steps 2 3 ++ steps 6 4 ++ dial_up 4 ++ steps 1 4 ++
  close_to_lock 5 ++ steps 5 4 ++ steps 2 5 ++
  steps 2 6 ++ [Run 6 Fault] ++ steps 1 6 ++ steps 2 8 ++ [Run 8 Fault] ++ steps 1 8 ++ steps 4 7.

(** A step of a goroutine, those of [context.AfterFunc] included. *)
Definition goroutine (a : action Pointer) : Prop :=
  match a with Run _ _ | CloserFires _ | CloserCloses _ => True | _ => False end.

(** The loop of the sender, for ever. *)
Definition hang : Client Pointer := a_state racing_close.
Definition hang_backoff : Client Pointer := goto 7 SendBackoff hang.
Definition hang_next : Client Pointer := goto 7 SendNext hang.

Lemma hang_loop e :
  act 1 (Run 7 e) hang = Next hang_backoff /\ act 1 (Run 7 e) hang_backoff = Next hang_next /\
  act 1 (Run 7 e) hang_next = Next hang.
Proof. split_and!; vm_compute; reflexivity. Qed.

Definition hanging (c : Client Pointer) : Prop := c = hang \/ c = hang_backoff \/ c = hang_next.

Lemma hang_others c t e : hanging c -> t <> 7%nat -> act 1 (Run t e) c = Blocked.
Proof.
  intros Hc Hne. assert (Ht : c_threads c !! t = None \/ t = 5%nat).
  { assert (Hth : c_threads c = <[7%nat := default SendLoop (c_threads c !! 7%nat)]> {[5%nat := DisWait CloseLeaves]}).
    { destruct Hc as [->|[->| ->]]; vm_compute; reflexivity. }
    rewrite Hth, lookup_insert_ne by done. destruct (decide (t = 5%nat)); [auto|]. left. by apply lookup_singleton_ne. }
  cbn [act]. unfold thread_step. destruct Ht as [->| ->]; [reflexivity|]. destruct Hc as [->|[->| ->]]; vm_compute; reflexivity.
Qed.

Lemma hang_closers c s : hanging c -> closer_fires s c = Blocked /\ closer_closes s c = Blocked.
Proof.
  intros Hc. assert (Hn : c_closers c = ∅) by (destruct Hc as [->|[->| ->]]; vm_compute; reflexivity).
  unfold closer_fires, closer_closes. by rewrite Hn, lookup_empty.
Qed.

Lemma hang_waits c : hanging c -> c_threads c !! 5%nat = Some (DisWait CloseLeaves) /\ c_wg c = 1.
Proof. intros [->|[->| ->]]; split; vm_compute; reflexivity. Qed.

#[local] Opaque hang hang_backoff hang_next.

Lemma hang_step c c' t e : hanging c -> act 1 (Run t e) c = Next c' -> hanging c'.
Proof.
  intros Hc Hact. destruct (decide (t = 7%nat)) as [->|Hne]; [|by rewrite (hang_others c t e Hc Hne) in Hact].
  destruct (hang_loop e) as (H1 & H2 & H3). destruct Hc as [->|[->| ->]].
  - right. left. exact (next_inj _ _ (eq_trans (eq_sym Hact) H1)).
  - right. right. exact (next_inj _ _ (eq_trans (eq_sym Hact) H2)).
  - left. exact (next_inj _ _ (eq_trans (eq_sym Hact) H3)).
Qed.

Lemma hang_run l c c' :
  hanging c -> (forall a, a ∈ l -> goroutine a) -> run 1 l c = Next c' -> hanging c'.
Proof.
  revert c. induction l as [|a l IH]; intros c Hc Hl; cbn [run]; [by intros [= <-]|].
  assert (Ha : goroutine a) by (apply Hl; by left). destruct (act 1 a c) as [| |c1] eqn:Hact; [done..|].
  apply IH. 1:{ destruct a as [t e| | | | | | | |s|s]; try contradiction;
    [exact (hang_step c c1 t e Hc Hact)|exfalso; destruct (hang_closers c s Hc) as [Hf Hcl]; cbn [act] in Hact; congruence..]. }
  intros a' Ha'. apply Hl. by right.
Qed.

(** C39. [Close] can hang: between the test of [isClosing] and the clearing of
    [isStop] in [connectBeforeWorkers] it may set both; the clear then undoes its
    stop request, and with nothing to send the sender never returns.  From then on
    no goroutine step gets [Close] past its wait. *)
Theorem close_can_hang :
  exists c, reachable 1 a_new c /\ c_isClosing c = true /\ c_threads c !! 5%nat = Some (DisWait CloseLeaves) /\
    forall l c', (forall a, a ∈ l -> goroutine a) -> run 1 l c = Next c' ->
      c_threads c' !! 5%nat = Some (DisWait CloseLeaves) /\ c_wg c' = 1.
Proof.
  exists hang. split; [exact (a_state_reachable racing_close)|]. split; [vm_compute; reflexivity|].
  split; [exact (proj1 (hang_waits hang (or_introl eq_refl)))|].
  intros l c' Hl Hr. exact (hang_waits c' (hang_run l hang c' (or_introl eq_refl) Hl Hr)).
Qed.

(** ** A reconnect request as the first answer *)

(** The first answer is RECONNECT: the attempt fails, but a reconnecting goroutine
    (1) was started, and it connects before [NewClient] cancels its context. *)
Definition leaking_new : list (action Pointer) :=
  steps 4 0 ++ [Run 0 (Message reconnect)] ++ steps 5 0 ++
  steps 7 1 ++ dial_up 1 ++ steps 6 1 ++ steps 2 0.

(** C40. [NewClient] can return an error and leave a live client behind that nobody
    can close: three workers and an open socket, [isClosing] not set. *)
Theorem new_client_can_leak :
  exists c, reachable 1 a_new c /\ c_threads c !! 0%nat = None /\ c_failed c = true /\ c_public c = false /\
    c_isClosing c = false /\ c_wg c = 3 /\ c_conn c = Some 1%nat /\ c_open c = {[1%nat]}.
Proof.
  exists (a_state leaking_new). split; [apply a_state_reachable|]. split_and!; vm_compute; reflexivity.
Qed.
