(* ===== verification/ClientMethods.v ===== *)
(** * NewClient and the methods on the buffer (client.go, receipt.go)

    [NewClient] up to the first connection attempt, and the methods that pass to
    the buffer: a test sink accepts and drops, a client that has no buffer
    reports so.  The LimaCharlie SDK and the host name are parameters. *)

From S2P Require Import Prelude ByteBudget Event Protocol SharedBudget AckBuffer AckInv AckAdmit AckMethods AckFleet.
From S2P Require Import ClientOptions ClientReceipts Client ClientInv ClientLaw ClientObserve ClientExample.

(** ** NewClient *)

Inductive new_failure (E : Type) :=
  | BadOptions (e : new_error E)
  | SDKFailed (e : E)
  | ContextCancelled
  | URLsFailed (e : E)
  | SiteURLMissing
  | BufferFailed.
Arguments BadOptions {E} e.
Arguments SDKFailed {E} e.
Arguments ContextCancelled {E}.
Arguments URLsFailed {E} e.
Arguments SiteURLMissing {E}.
Arguments BufferFailed {E}.

(** What [NewClient] made before it connects. *)
Inductive prepared (B : Type) :=
  | TestSink (o : ClientOptions (AckBufferOptions B))
  | Prepared (o : ClientOptions (AckBufferOptions B)) (wssURL : string) (ab : AckBuffer B).
Arguments TestSink {B} o.
Arguments Prepared {B} o wssURL ab.

Definition with_hostname {Buf} (h : string) (o : ClientOptions Buf) : ClientOptions Buf :=
  MkClientOptions (co_Identity o) h (co_Platform o) (co_Architecture o) (co_Mapping o) (co_Mappings o)
    (co_Indexing o) (BufferOptions o) (co_IsCompressed o) (co_SensorSeedKey o) (DestURL o) (TestSinkMode o) (Proxy o).

(** [maxRetries] of [connectBeforeWorkers]. *)
Definition maxRetries {Buf} (o : ClientOptions Buf) : nat := if decide (URL (Proxy o) <> "") then 3 else 1.

Section new.
Context {B : Type} `{SharedBudget B}.
(** [regexp.Compile] and [AddPatterns] as in ClientOptions.v; the SDK's
    [NewOrganizationFromClientOptions] and [GetURLsWithContext]; [os.Hostname],
    empty when it fails. *)
Context {E : Type} (Compile : string -> option E) (AddPatterns : gmap string string -> option E)
  (NewOrganization : string -> option E) (GetURLs : string -> E + gmap string string) (Hostname : string).

(** [ctxErr] is whether the context is cancelled when the URLs fail. *)
Definition resolveURL (ctxErr : bool) (o : ClientOptions (AckBufferOptions B)) : new_failure E + string :=
  if decide (DestURL o = "") then
    match GetURLs (id_Oid (co_Identity o)) with
    | inl e => inl (if ctxErr then ContextCancelled else URLsFailed e)
    | inr urls =>
        match urls !! "lc_wss" with
        | None => inl SiteURLMissing
        | Some u => inr ("wss://" +:+ u +:+ "/usp")
        end
    end
  else inr (DestURL o).

(** [None] is the panic of an allocation in [NewAckBuffer]. *)
Definition prepareClient (ctxErr : bool) (o : ClientOptions (AckBufferOptions B)) : option (new_failure E + prepared B) :=
  let o := normalizeProxyConfig o in
  match newClientChecks Compile AddPatterns o with
  | Some e => Some (inl (BadOptions e))
  | None =>
      if TestSinkMode o then Some (inr (TestSink o))
      else
        match NewOrganization (id_Oid (co_Identity o)) with
        | Some e => Some (inl (SDKFailed e))
        | None =>
            match resolveURL ctxErr o with
            | inl e => Some (inl e)
            | inr wssURL =>
                let o := if decide (co_Hostname o = "") then with_hostname Hostname o else o in
                r ← NewAckBuffer (BufferOptions o);
                Some (match r with inl _ => inl BufferFailed | inr ab => inr (Prepared o wssURL ab) end)
            end
        end
  end.

(** ** Methods *)

(** The fields the methods read; [h_ab] is nil in a test sink. *)
Record handle := Handle { h_test : bool; h_ab : option (AckBuffer B) }.

Definition handle_of (p : prepared B) : handle :=
  match p with TestSink _ => Handle true None | Prepared _ _ ab => Handle false (Some ab) end.

Definition BeginDrain (h : handle) : option handle :=
  match h_ab h with
  | None => Some h
  | Some b => b ← signalLocked (b <| ab_isRunning := false |>); Some (Handle (h_test h) (Some b))
  end.

(** How long a drain may take, in nanoseconds, given what is left to the
    context's deadline. *)
Definition drainLimit (deadline : option Z) : Z := default (60 * Second) deadline.

(** The entry of [DrainContext]: [inl] when it returns at once. *)
Definition DrainContext_start (h : handle) : option (unit + handle) :=
  if h_test h then Some (inl tt)
  else b ← h_ab h; b ← drain_start b; Some (inr (Handle (h_test h) (Some b))).

(** [DrainContext] up to its wait, with the time it has; [Drain] is the same with a
    deadline. *)
Definition DrainContext (deadline : option Z) (h : handle) : option (unit + Z * handle) :=
  r ← DrainContext_start h;
  Some (match r with inl _ => inl tt | inr h => inr (drainLimit deadline, h) end).
Definition Drain (timeout : Z) (h : handle) : option (unit + Z * handle) := DrainContext (Some timeout) h.

(** One turn of [Ship]. *)
Definition Ship (e : maddr) (size : Z) (waiter : option wid) (h : handle) : option (add_outcome * option wid * handle) :=
  if h_test h then Some (AddReturn None, waiter, h)
  else b ← h_ab h; '(r, w, b) ← add_turn e size waiter None 0 b; Some (r, w, Handle (h_test h) (Some b)).

Definition Client_BufferedBytes (h : handle) : Z := match h_ab h with None => 0 | Some b => BufferedBytes b end.

Definition GetUnsent (h : handle) : option (list (option maddr)) :=
  if h_test h then Some [] else b ← h_ab h; GetUnAcked b.

Inductive ship_error := ReceiptUnavailable | ShipFailed (e : usp_error).

(** One turn of [ShipWithReceiptOptions]: it returns with an error, waits, or the
    message was admitted and the receipt is still to be made. *)
Inductive ship_outcome := ShipReturn (x : AdmissionReceipt) (err : option ship_error) | ShipBlock (localWake : chan) | ShipAdmitted.

Definition noReceipt : AdmissionReceipt := MkReceipt None None.

(** Up to the admission; [state] is the new cell. *)
Definition ShipWithReceiptOptions (message : option maddr) (size : Z) (waiter : option wid) (state : cell) (maxTransmissions : Z)
    (h : handle) : option (ship_outcome * option wid * handle) :=
  if h_test h then Some (ShipReturn noReceipt (Some ReceiptUnavailable), waiter, h)
  else
    match h_ab h with
    | None => Some (ShipReturn noReceipt (Some (ShipFailed ErrorClosed)), waiter, h)
    | Some b =>
        match message with
        | None => Some (ShipReturn noReceipt (Some (ShipFailed ErrorBufferFull)), waiter, h)
        | Some e =>
            '(r, w, b) ← add_turn e size waiter (Some state) maxTransmissions b;
            Some (match r with
                  | AddReturn None => ShipAdmitted
                  | AddReturn (Some err) => ShipReturn noReceipt (Some (ShipFailed err))
                  | AddBlock c => ShipBlock c
                  end, w, Handle (h_test h) (Some b))
        end
    end.

(** The return after the admission: the owner is bound in a step of its own, and
    acknowledgements, retirements and [Close] may have run in between.  [new] is the
    address of a new owner. *)
Definition shipReceipt (new : owner_ptr) (state : cell) (isClosing : bool) (rc : receipts) : AdmissionReceipt * receipts :=
  let '(p, rc) := admissionReceiptOwner new isClosing rc in (MkReceipt (Some p) (Some state), rc).

Record ShipOptions := MkShipOptions { MaxTransmissions : Z }.

(** [ShipWithReceipt]: the zero options. *)
Definition ShipWithReceipt (message : option maddr) (size : Z) (waiter : option wid) (state : cell) (h : handle)
    : option (ship_outcome * option wid * handle) :=
  ShipWithReceiptOptions message size waiter state (MaxTransmissions (MkShipOptions 0)) h.

(** [NewClient] makes a client exactly when the checks on the options pass and,
    unless it is a test sink, the SDK, the URL and the buffer are there; it then
    has the default proxy timeouts, the given URL or the one the SDK named, and a
    new buffer for its options. *)
Theorem prepare_client ctxErr o p :
  prepareClient ctxErr o = Some (inr p) <->
  newClientChecks Compile AddPatterns (normalizeProxyConfig o) = None /\
  ((TestSinkMode o = true /\ p = TestSink (normalizeProxyConfig o)) \/
   (TestSinkMode o = false /\ NewOrganization (id_Oid (co_Identity o)) = None /\
    exists url ab, p = Prepared (if decide (co_Hostname o = "") then with_hostname Hostname (normalizeProxyConfig o) else normalizeProxyConfig o) url ab /\
      NewAckBuffer (BufferOptions o) = Some (inr ab) /\
      ((DestURL o <> "" /\ url = DestURL o) \/
       (DestURL o = "" /\ exists urls u, GetURLs (id_Oid (co_Identity o)) = inr urls /\ urls !! "lc_wss" = Some u /\
          url = "wss://" +:+ u +:+ "/usp")))).
Proof.
  unfold prepareClient. destruct (newClientChecks _ _ _); [naive_solver|].
  change (TestSinkMode (normalizeProxyConfig o)) with (TestSinkMode o).
  destruct (TestSinkMode o); [naive_solver|]. change (co_Identity (normalizeProxyConfig o)) with (co_Identity o).
  destruct (NewOrganization _); [naive_solver|]. unfold resolveURL. change (DestURL (normalizeProxyConfig o)) with (DestURL o).
  change (co_Identity (normalizeProxyConfig o)) with (co_Identity o). change (co_Hostname (normalizeProxyConfig o)) with (co_Hostname o).
  set (o' := if decide (co_Hostname o = "") then _ else _).
  assert (Hb : BufferOptions o' = BufferOptions o) by (unfold o'; by case_decide). rewrite Hb.
  destruct (decide (DestURL o = "")) as [Hu|Hu].
  - destruct (GetURLs _) as [e|urls]; [naive_solver|]. destruct (urls !! "lc_wss") as [u|] eqn:Hl; [|naive_solver].
    destruct (NewAckBuffer _) as [[e|ab]|]; simpl; naive_solver.
  - destruct (NewAckBuffer _) as [[e|ab]|]; simpl; naive_solver.
Qed.

End new.
Arguments handle B : clear implicits.

(** ** Receipts of shipped messages *)

Section ship.
Context {B : Type} `{HB : LenientLaws B}.
Implicit Types (c : Client B).

Lemma ship_error_invalid message size waiter state maxT (h : handle B) x err w h' :
  ShipWithReceiptOptions message size waiter state maxT h = Some (ShipReturn x err, w, h') ->
  err <> None /\ forall rc cells closing, ObserveReceipt x rc cells closing = noObservation.
Proof.
  unfold ShipWithReceiptOptions. destruct (h_test h); [by intros [= <- <- _ _]|]. destruct (h_ab h) as [b|]; [|by intros [= <- <- _ _]].
  destruct message as [e|]; [|by intros [= <- <- _ _]]. destruct (add_turn _ _ _ _ _ _) as [[[[[er|]|ch] w'] b']|]; simpl; try done.
  by intros [= <- <- _ _].
Qed.

(** An admission is a step of the client, and its cell reads retained. *)
Lemma ship_admitted n c e size waiter state maxT w h' :
  lawful n c -> c_public c = true -> allowed (CallBuffer (OpAdd e size waiter (Some state) maxT)) c ->
  ShipWithReceiptOptions (Some e) size waiter state maxT (Handle false (Some (c_ab c))) = Some (ShipAdmitted, w, h') ->
  exists c1, act n (CallBuffer (OpAdd e size waiter (Some state) maxT)) c = Next c1 /\ h_ab h' = Some (c_ab c1) /\
    frame c1 state = ReceiptRetained /\ c_public c1 = true.
Proof.
  intros Hl Hpub (i & A & Ho & Hg) Hship. destruct (lawful_ok n c Hl) as [[Hok _] _].
  destruct (run_op_good _ i (c_calls c) A (c_ab c) Hok Ho Hg) as (a & calls' & b' & Hrun & Hpost & _).
  eexists. cbn [act user_op]. rewrite Hpub, Hrun. split; [reflexivity|]. simpl.
  unfold ShipWithReceiptOptions in Hship. cbn [h_test h_ab] in Hship. cbn [run_op] in Hrun.
  destruct (add_turn e size waiter (Some state) maxT (c_ab c)) as [[[r w'] b1]|]; [|done]. cbn in Hrun, Hship. injection Hrun as <- _ <-.
  destruct r as [[er|]|ch]; try discriminate Hship. injection Hship as _ <-. split; [done|]. split; [|done].
  inversion Hpost; subst. unfold load_frame. simpl. by rewrite lookup_insert_eq.
Qed.

End ship.

(** The message is admitted, and acknowledged before the owner is bound. *)
Definition allocated : list (action Pointer) := open_client ++ [CallBuffer (OpAlloc a_message)].
Definition shipped : list (action Pointer) := allocated ++ [CallBuffer (OpAdd 0 0 None (Some 7%nat) 0)].
Definition acknowledged : list (action Pointer) := steps 5 2 ++ steps 2 1 ++ [Run 1 (Message (acked 1))].
Definition bound_late : Client Pointer := a_state (shipped ++ acknowledged).

Lemma shipped_admitted :
  exists w h', ShipWithReceiptOptions (Some 0%nat) 0 None 7 0 (Handle false (Some (c_ab (a_state allocated)))) = Some (ShipAdmitted, w, h').
Proof. vm_compute. eexists _, _. reflexivity. Qed.

Lemma shipped_act : act 1 (CallBuffer (OpAdd 0 0 None (Some 7%nat) 0)) (a_state allocated) = Next (a_state shipped).
Proof. vm_compute. reflexivity. Qed.

Lemma shipped_steps : rtc (law_step 1) (a_state shipped) bound_late.
Proof. apply (law_run_steps 1 acknowledged). vm_compute. reflexivity. Qed.

Lemma shipped_receipt :
  shipReceipt 1 7 (c_isClosing bound_late) (c_receipts bound_late) = (a_receipt, MkReceipts (Some (1%nat, ReceiptLive)) ReceiptUnknown).
Proof. vm_compute. reflexivity. Qed.

Lemma shipped_frame : frame bound_late 7 = ReceiptAcknowledged.
Proof. vm_compute. reflexivity. Qed.

Lemma bind_ab n new (c c' : Client Pointer) : act n (BindOwner new) c = Next c' -> c_ab c' = c_ab c.
Proof. simpl. destruct (c_public c); [|done]. by intros [= <-]. Qed.

